(* ===== verification/_CoqProject ===== *)
-Q . S2P
Prelude.v
Sha256.v
CanonicalJson.v
SpendPolicy.v
SpendLedger.v
SpendInv.v
SpendSafety.v
SpendProps.v
LineageBudget.v
Merkle.v
RiskPolicy.v
Passport.v
PassportProps.v
PassportPop.v
ResourceScope.v
PyJson.v
Policy.v
Session.v
RiskLedger.v
RiskInv.v
RiskSafety.v
RiskProps.v
Approvals.v
MemoryStore.v
PassportState.v
PassportStateProps.v
PassportAdmission.v
PolicyStore.v
Receipt.v
ReceiptProps.v
ReceiptLog.v
ReceiptLogProps.v
Urls.v
Mission.v
SessionStore.v
Gate.v
Aat.v
GateLogic.v
GateInv.v
GateRuns.v
GateFrame.v
GateReceipts.v
GateLedger.v
GateHistory.v
GateProps.v
GateAudit.v
GateDemo.v
MissionProps.v
GateMission.v
AatProps.v
MissionDemo.v
