(* ===== verification/Prelude.v ===== *)
(** * Ardur governance runtime: a verification library

    Ardur ([src/python/vibap]) governs what an AI agent's tool calls may do.
    An operator issues a signed mission passport; a proxy checks every call of
    the agent against the passport and the policies it names, accounts for
    what the call spends and risks, and lets a holder delegate narrower
    passports to sub-agents.  This library models the parts that decide and
    account, as executable definitions translated from the Python source, and
    proves what makes them correct.

    ** The parts and their files

    - [Prelude]: results of fallible code ([res], Python exceptions as
      values), Python strings, JSON values ([pyval]) and dicts, sums over maps,
      and the lemmas and tactics the components share.
    - [Sha256], [CanonicalJson]: SHA-256 and the RFC 8785 serialiser
      ([canonical_json.py], [_vendor/rfc8785/_impl.py]), floats included, and
      the class [Digests] instantiated with them.  Equal canonical bytes mean
      equal values, so a digest of them identifies a value.
    - [SpendPolicy], [SpendLedger], [SpendInv], [SpendSafety], [SpendProps]:
      [spend_budget.py].  [SpendPolicy] has the claim normaliser and the quote
      prices, [SpendLedger] every operation of [FileSpendBudgetLedger],
      [SpendInv] the invariant of a ledger file, [SpendSafety] that each
      operation keeps it, [SpendProps] the properties.
    - [LineageBudget]: [lineage_budget.py], the call budget siblings reserve
      from their parent.
    - [Merkle]: the tree, inclusion proofs and append of [transparency.py].
    - [RiskPolicy]: risk contracts, fact extraction, the signed risk policy,
      its attenuation and projection, and the per-call check
      ([risk_budget.py], first half).  [RiskLedger], [RiskInv], [RiskSafety],
      [RiskProps]: [FileRiskBudgetLedger] (second half), in the same layout as
      the spend ledger.
    - [Passport], [PassportProps], [PassportPop]: [passport.py], issuing,
      verification, derivation of child passports, proof of possession.
      [Passport] calls [SpendPolicy] and [RiskPolicy] to narrow the budgets of
      a child, as the code does.
    - [ResourceScope]: the argument scanner, sanitiser, glob match and
      symlink check of [proxy.py] ([_sanitize_value] to
      [_check_resource_scope]).
    - [PyJson]: [str(v)], [json.dumps(v)] and HMAC-SHA256 of their text.
    - [Policy]: [native_checks.py], [policy_backend.py],
      [backends/native.py], [backends/forbid_rules.py] and the classifiers of
      [proxy.py].
    - [Session]: [GovernanceSession.check_and_record] of [proxy.py], which
      composes the native checks ([Policy], which call [ResourceScope]) with
      the passport's additional policies, and records the event.
    - [PassportState], [PassportStateProps], [PassportAdmission]: the state
      files of [GovernanceProxy] in [proxy.py] (replay cache, revocation list,
      lineage index), the cache of lineage parents, [revoke],
      [verify_passport_token] and [start_session].  [PassportStateProps] has
      the round trips of the files and what each operation does to the
      directory, [PassportAdmission] the properties of any interleaving of
      processes.
    - [PolicyStore]: [policy_store.py] and [backed_policy_store.py], the
      protocol as a class with its documented laws, both stores as instances,
      and what [start_session] does with one.
    - [Approvals], [MemoryStore]: [approvals.py] and [memory.py].
    - [Receipt], [ReceiptProps]: [receipt.py] and [key_fingerprint.py],
      building, signing, the claim schema, verification, chains and the replay
      cache.  [ReceiptLog], [ReceiptLogProps]: the entries [GovernanceProxy]
      adds to the receipts log, the budgets they report (the spend ledger's
      results among them), the chain anchor in the session file, and what one
      more entry adds to a chain.
    - [Urls], [Mission]: [mission.py], mission references, fetching over a
      pinned public address, loading and caching declarations, the policy
      claims they stand for and their status lists; with the packing and
      reading of such lists in [go/pkg/credential/status.go].
    - [SessionStore], [Gate]: [GovernanceProxy] of [proxy.py], which composes
      all of the above.  [SessionStore] has the proxy's state as a record
      ([gate]), a state-and-error monad over it, session files and their
      refresh, events, receipts and the lifecycle outbox; [Gate] has
      [evaluate_tool_call] and everything it calls, the spend and risk
      lifecycle operations, [record_tool_result] and [end_session].
      [GateLogic], [GateInv] and [GateRuns] reason about programs of the monad
      (what they keep, and what a permit has passed), [GateFrame] about the
      parts of the state a decision leaves alone, [GateReceipts] about the
      receipt it leaves, [GateLedger] and [GateHistory] about the ledgers and
      about histories of operations by several processes.  [GateProps] has the
      properties of permits, [GateAudit] those of the receipts log, and
      [GateDemo] a concrete proxy that satisfies their hypotheses.
    - [Aat]: [aat_adapter.py] and [start_session_from_aat] of [proxy.py], which
      turn a grant of another format into a passport the proxy admits.
      [MissionProps] has the properties of [Mission], [AatProps] those of
      grants, [GateMission] those of sessions that refer to a mission, and
      [MissionDemo] a concrete registry, mission and grant.

    ** How the code is modelled

    A function that may raise returns [res E A].  An object that an operation
    mutates is passed in and returned.  A ledger is a file guarded by a lock
    that every operation holds throughout, so an operation is one transition
    of the file's content; a sequence of operations by any number of processes
    is a list of them, and the safety theorems hold of all such lists.  A dict
    whose order is not observed is a [gmap], one that is iterated in the
    order of its sorted file is visited by [items], and one whose insertion
    order matters is an association list.  An operation of the proxy that takes
    a session's lock twice ([evaluate_tool_call] and [end_session], which deliver
    the risk outbox first) is one step of a history.  Clock readings and random
    identifiers are arguments.  Exceptions keep their class and code; message
    texts are kept only where the code reads them again.

    Code outside the repository is a class with the facts the code relies on:
    [Jwt] and [Jws] (PyJWT: decoding what was signed returns the claims),
    [PyText] ([str.isprintable] and [datetime.fromisoformat]), [JsonSchema]
    (jsonschema), [Regex] ([re]), [UnicodeData] (the tables of [unicodedata]),
    [Filesystem] ([os.path.realpath]), [PyRepr] (the [repr] of containers),
    [IpAddress] ([ipaddress]), [Zlib], [TokenText] (the text of a token),
    [FloatText] ([float] of a string) and [Wording] (message texts that enter
    a receipt).  DNS and HTTPS are a record of functions ([Urls.network]).
    Every theorem that uses one has a witness in a [Demo] module with a
    concrete instance.

    ** What is proved

    - Ledgers ([SpendProps], [RiskProps], [LineageBudget]): no interleaving of
      operations commits more than the ceilings allow; every file an operation
      writes passes the ledger's own validation and its totals are the sums of
      its records; reservations are accepted exactly when they fit and move
      exactly their amounts; requests are accepted once and settled once; an
      accepted reservation can always be resolved.
    - Delegation ([PassportProps]): a derived passport is no wider than its
      parent in tools, scope, calls, depth, spend and risk, and its directory
      is chosen at or below the parent's; a verified line of passports commits to all its ancestors; delegation
      ends.  [PassportPop]: the holder can prove possession, and an accepted
      proof is for this passport and its key.
    - Calls ([ResourceScope], [Policy], [Session]): accepted arguments name
      only resources inside the scope, and resources inside the scope are
      accepted; a call is permitted exactly when all native checks pass and no
      policy denies it; every call is decided; the permitted calls of a
      session stay within its budgets.
    - Admission ([PassportAdmission]): a passport starts one session while it
      is in force, a revoked passport takes its descendants with it, lost state
      files admit nothing, and a delegated passport needs admitted ancestors,
      for any number of processes on one state directory.
    - Receipts ([ReceiptProps], [ReceiptLogProps]): what is built and signed
      verifies and is read back; the last receipt of a verified chain commits
      to all before it, unless two texts of the chains at hand have one digest;
      a receipt is accepted once; a session's receipts are one chain.
    - The proxy ([GateProps], [GateAudit]): over any history of the modelled
      operations on a directory, by any number of processes, a session is
      permitted no more calls than its passport allows, none after it has
      ended, and no read of a memory store found compromised; a permit means
      that every check was passed on the session's file and that the count and
      the receipt were written.  No call is answered without a receipt, and the
      log holds no receipt outside the chain its session's file names.  The
      order of the log is not claimed: the code appends some receipts after it
      has released the session's lock.
    - Missions ([MissionProps], [GateMission], [AatProps]): a session that
      refers to a mission is permitted only what a verified, pinned and
      unrevoked declaration allows; hosts at addresses that are not public have
      no influence on a call; the passport made of a grant is no wider than its
      mission, nor, but for its resource scope, than its parent grant.  Four theorems show limits of the code: a
      cached declaration outlives its expiry, the spend budget of such a
      session's passport is not applied, its calls are not held to the
      narrower grant it was started from, and status lists are read in the
      opposite order within a byte to the one the Go issuer writes.
    - Stores ([PolicyStore], [Approvals], [MemoryStore]): the store's policies
      are the ones in force for a session; the approval tracker answers as a
      log that forgets nothing; a memory record is read back only as signed.
    - Evidence ([Merkle], [CanonicalJson]): inclusion proofs are complete, and
      sound unless two of the inputs hashed for the root and for the proof
      collide; canonical bytes identify values.

    ** Bounds and fuel

    Some functions run on fuel.  [Merkle.climb_fuel] and [verify_fuel] are
    the number of levels of the tree, [ResourceScope.translate_fuel] is the
    length of the pattern, which every step shortens; theorems or their
    definitions use exactly that fuel and the results are stated without it.
    [PassportState.lineage_walk] has the code's depth limit plus two, and
    [lineage_walk_exact] shows that it never runs out.
    [sanitize_value]'s percent decoding has the code's own bound of eight
    rounds.  Integers are unbounded as in Python; the code's own limits
    ([2^63 - 1] in the ledgers, [2^53 - 1] in the serialiser) are modelled.

    ** Not modelled

    File permissions, [fsync] and temporary files; the HTTP server and threads
    other than through the locks that make an operation one step; metrics and
    the queue of the transparency log; of the proxy [delegate_passport],
    [issue_attestation_for_session], [start_session_from_biscuit] and
    [synchronize_external_tool_usage_floor], which histories therefore leave
    out; Biscuit and other token formats, mission compilation and DRP; the agent
    hooks, the command line and the hub; kernel correlation; the Go services
    but for status lists.  They are I/O around the modelled decisions or
    formats of third-party libraries; the manifest lists each with its reason. *)

From Stdlib Require Export ZArith String Ascii Lia ZifyBool ZifyNat.
From stdpp Require Export base gmap strings list fin_maps sorting.
From Stdlib Require Import SpecFloat.

#[global] Abbreviation length := Datatypes.length.

#[global] Open Scope Z_scope.

(** ** Results of fallible code

    A Python function that may raise returns [Ok] or [Raise]; the payload of
    [Raise] is what the handlers of the code can tell apart (the exception
    class and its machine-readable code; message texts are not kept). *)

Inductive res (E A : Type) : Type :=
| Ok (a : A)
| Raise (e : E).
Arguments Ok {E A} a.
Arguments Raise {E A} e.

#[global] Instance res_ret E : MRet (res E) := fun A a => Ok a.
#[global] Instance res_bind E : MBind (res E) := fun A B f m =>
  match m with Ok a => f a | Raise e => Raise e end.

Definition is_ok {E A} (m : res E A) : bool :=
  match m with Ok _ => true | Raise _ => false end.

Declare Scope py_scope.
Delimit Scope py_scope with py.
#[global] Open Scope py_scope.

(** [if b: raise e] followed by the rest of the body. *)
Notation "'raise_if' b 'with' e ';;' k" := (if b then Raise e else k)
  (at level 100, b at level 99, e at level 99, k at level 200, right associativity,
   format "'[v' 'raise_if'  b  'with'  e ';;' '/' k ']'") : py_scope.

(** Iterate a fallible function over a list, first failure wins. *)
Fixpoint mapR {E A B} (f : A -> res E B) (l : list A) : res E (list B) :=
  match l with
  | [] => Ok []
  | x :: l => y ← f x; ys ← mapR f l; Ok (y :: ys)
  end.

Fixpoint iterR {E A} (f : A -> res E unit) (l : list A) : res E unit :=
  match l with
  | [] => Ok tt
  | x :: l => _ ← f x; iterR f l
  end.

(** A loop that threads an accumulator. *)
Fixpoint foldR {E A B} (f : A -> B -> res E B) (l : list A) (acc : B) : res E B :=
  match l with
  | [] => Ok acc
  | x :: l => acc' ← f x acc; foldR f l acc'
  end.

(** ** Text

    A Python [str] is the Rocq [string] of its UTF-8 bytes. *)

Definition byte_in (lo hi : N) (a : ascii) : bool :=
  ((lo <=? N_of_ascii a) && (N_of_ascii a <=? hi))%N.

(** The characters [str.strip] removes, by the number of their UTF-8 bytes. *)
Definition ws1 (a : ascii) : bool :=
  byte_in 9 13 a || byte_in 28 32 a.
Definition ws2 (a b : ascii) : bool :=
  byte_in 194 194 a && (byte_in 133 133 b || byte_in 160 160 b).
Definition ws3 (a b c : ascii) : bool :=
  (byte_in 225 225 a && byte_in 154 154 b && byte_in 128 128 c)
  || (byte_in 226 226 a && byte_in 128 128 b &&
      (byte_in 128 138 c || byte_in 168 169 c || byte_in 175 175 c))
  || (byte_in 226 226 a && byte_in 129 129 b && byte_in 159 159 c)
  || (byte_in 227 227 a && byte_in 128 128 b && byte_in 128 128 c).

(** Drop leading whitespace; [w2] and [w3] say how a multi-byte character
    reads in the direction of travel. *)
Fixpoint drop_ws (w2 : ascii -> ascii -> bool) (w3 : ascii -> ascii -> ascii -> bool)
    (s : string) : string :=
  match s with
  | EmptyString => EmptyString
  | String a s1 =>
      if ws1 a then drop_ws w2 w3 s1 else
      match s1 with
      | EmptyString => s
      | String b s2 =>
          if w2 a b then drop_ws w2 w3 s2 else
          match s2 with
          | EmptyString => s
          | String c s3 => if w3 a b c then drop_ws w2 w3 s3 else s
          end
      end
  end.

Fixpoint rev_string_app (s acc : string) : string :=
  match s with
  | EmptyString => acc
  | String a s => rev_string_app s (String a acc)
  end.
Definition rev_string (s : string) : string := rev_string_app s EmptyString.

(** [str.strip()]. *)
Definition py_strip (s : string) : string :=
  let left := drop_ws ws2 ws3 s in
  rev_string (drop_ws (fun b a => ws2 a b) (fun c b a => ws3 a b c) (rev_string left)).

(** [len(s)]: code points, i.e. the bytes that do not continue a character. *)
Fixpoint py_len (s : string) : nat :=
  match s with
  | EmptyString => 0
  | String a s => if byte_in 128 191 a then py_len s else S (py_len s)
  end.

(** [len(s.encode("utf-8"))]. *)
Definition byte_len (s : string) : Z := Z.of_nat (String.length s).

Definition ascii_lower (a : ascii) : ascii :=
  if byte_in 65 90 a then ascii_of_N (N_of_ascii a + 32) else a.

(** [str.lower()], exact on the ASCII part of the result: the ASCII letters,
    and the two other characters whose lower case holds an ASCII letter
    (U+0130 and the Kelvin sign U+212A).  Other non-ASCII letters are left as
    they are; the code only compares the result with ASCII text. *)
Fixpoint py_lower (s : string) : string :=
  match s with
  | EmptyString => EmptyString
  | String a s1 =>
      match s1 with
      | String b s2 =>
          if byte_in 196 196 a && byte_in 176 176 b then
            String "i" (String (ascii_of_N 204) (String (ascii_of_N 135) (py_lower s2)))
          else
            match s2 with
            | String c s3 =>
                if byte_in 226 226 a && byte_in 132 132 b && byte_in 170 170 c
                then String "k" (py_lower s3)
                else String (ascii_lower a) (py_lower s1)
            | EmptyString => String (ascii_lower a) (py_lower s1)
            end
      | EmptyString => String (ascii_lower a) EmptyString
      end
  end.

(** [sub in s]. *)
Fixpoint str_contains (sub s : string) : bool :=
  String.prefix sub s ||
  match s with
  | EmptyString => false
  | String _ s => str_contains sub s
  end.

(** [s.split(c)] for a one-character separator. *)
Fixpoint split_on (c : ascii) (s : string) : list string :=
  match s with
  | EmptyString => [EmptyString]
  | String a s' =>
      if Ascii.eqb a c then EmptyString :: split_on c s'
      else match split_on c s' with
           | [] => [String a EmptyString]
           | w :: ws => String a w :: ws
           end
  end.

(** Every character of [s] satisfies [p]. *)
Fixpoint str_all (p : ascii -> bool) (s : string) : bool :=
  match s with
  | EmptyString => true
  | String a s => p a && str_all p s
  end.

Definition is_lower_hex (a : ascii) : bool := byte_in 48 57 a || byte_in 97 102 a.
Definition is_upper (a : ascii) : bool := byte_in 65 90 a.

(** The pattern [^[0-9a-f]{64}$] under [fullmatch]. *)
Definition digest_match (s : string) : bool :=
  (String.length s =? 64)%nat && str_all is_lower_hex s.

(** The pattern [^[A-Z]{3}$] under [fullmatch]. *)
Definition currency_match (s : string) : bool :=
  (String.length s =? 3)%nat && str_all is_upper s.

Definition non_empty (s : string) : bool :=
  match s with EmptyString => false | _ => true end.

Definition str_in (s : string) (l : list string) : bool := existsb (String.eqb s) l.

(** ** JSON-shaped Python values

    What [json.loads] and a JWT payload can hold.  A dict is the association
    list of its items in iteration order; its keys are distinct. *)

#[local] Unset Elimination Schemes.
Inductive pyval : Type :=
| PNone
| PBool (b : bool)
| PInt (z : Z)
| PFloat (f : spec_float)
| PStr (s : string)
| PList (l : list pyval)
| PDict (d : list (string * pyval)).
#[local] Set Elimination Schemes.

(** Induction that reaches into lists and dicts. *)
Section PyvalInd.
Variable P : pyval -> Prop.
Hypothesis HNone : P PNone.
Hypothesis HBool : forall b, P (PBool b).
Hypothesis HInt : forall z, P (PInt z).
Hypothesis HFloat : forall f, P (PFloat f).
Hypothesis HStr : forall s, P (PStr s).
Hypothesis HList : forall l, Forall P l -> P (PList l).
Hypothesis HDict : forall d, Forall (fun kv : string * pyval => P kv.2) d -> P (PDict d).

Fixpoint pyval_ind (v : pyval) : P v :=
  match v with
  | PNone => HNone
  | PBool b => HBool b
  | PInt z => HInt z
  | PFloat f => HFloat f
  | PStr s => HStr s
  | PList l => HList l ((fix go l := match l return Forall P l with
                           | [] => Forall_nil_2 _
                           | x :: l => Forall_cons_2 _ _ _ (pyval_ind x) (go l)
                           end) l)
  | PDict d => HDict d ((fix go d := match d return Forall (fun kv : string * pyval => P kv.2) d with
                           | [] => Forall_nil_2 _
                           | kv :: d => Forall_cons_2 _ _ _ (pyval_ind kv.2) (go d)
                           end) d)
  end.
End PyvalInd.

Fixpoint dget {A} (k : string) (d : list (string * A)) : option A :=
  match d with
  | [] => None
  | (k', v) :: d => if String.eqb k k' then Some v else dget k d
  end.

(** [d[k] = v]. *)
Fixpoint dset {A} (k : string) (v : A) (d : list (string * A)) : list (string * A) :=
  match d with
  | [] => [(k, v)]
  | kv :: d => if String.eqb kv.1 k then (k, v) :: d else kv :: dset k v d
  end.

(** [d.get(k)], whose default is [None]. *)
Definition py_get (k : string) (d : list (string * pyval)) : pyval :=
  default PNone (dget k d).

Definition dkeys {A} (d : list (string * A)) : list string := d.*1.

Definition has_key {A} (k : string) (d : list (string * A)) : bool := str_in k (dkeys d).

(** [set(a) <= set(b)] and [set(a) == set(b)] on key lists. *)
Definition subset_b (a b : list string) : bool := forallb (fun x => str_in x b) a.
Definition same_set (a b : list string) : bool := subset_b a b && subset_b b a.

(** [v == n] for an integer constant [n]: [True] is 1, [False] is 0, and a
    float equals the integer it exactly represents. *)
Definition py_eq_int (v : pyval) (n : Z) : bool :=
  match v with
  | PBool b => (if b then 1 else 0) =? n
  | PInt z => z =? n
  | PFloat (S754_zero _) => 0 =? n
  | PFloat (S754_finite s m e) =>
      let m := if s then Z.neg m else Z.pos m in
      if 0 <=? e then m * 2 ^ e =? n else m =? n * 2 ^ (- e)
  | _ => false
  end.

(** [v == s] for a string constant. *)
Definition py_eq_str (v : pyval) (s : string) : bool :=
  match v with PStr t => String.eqb t s | _ => false end.

(** [sorted(set(l))]: code-point order is the order of UTF-8 bytes. *)
Definition sorted_set (l : list string) : list string := merge_sort String.le (remove_dups l).

(** Iterating a dict loaded from a file written with [sort_keys=True]. *)

Definition items {V} (m : gmap string V) : list (string * V) :=
  merge_sort (fun x y => String.le x.1 y.1) (map_to_list m).
Definition iter_items {E V} (f : string -> V -> res E unit) (m : gmap string V) : res E unit :=
  iterR (fun kv => f kv.1 kv.2) (items m).

(** The sum of a quantity over the values of a map. *)
Definition total_of {A} (f : A -> Z) (m : gmap string A) : Z :=
  map_fold (fun _ r acc => f r + acc) 0 m.

(** ** Cryptographic and serialisation services

    [hashlib.sha256(...).hexdigest()] over the UTF-8 bytes of its argument and
    the RFC 8785 serialiser, which raises ([None]) on a value outside its
    domain.  [CanonicalJson.ardur_digests] is the instance the runtime uses;
    the components need no more of a digest than its shape. *)

Class Digests := {
  sha256_hex : string -> string;
  canonical_json_bytes : pyval -> option string;
  sha256_hex_shape : forall s, digest_match (sha256_hex s) = true
}.

(** ** Budget scopes

    The spend and the risk ledgers both account per session, agent and
    lineage; a dict checked to have exactly these three keys is a
    [per_scope]. *)

Inductive scope := Session | Agent | Lineage.
#[global] Instance scope_eq_dec : EqDecision scope.
Proof. solve_decision. Defined.

#[global] Instance scope_countable : Countable scope.
Proof.
  refine (inj_countable' (fun s => match s with Session => 0 | Agent => 1 | Lineage => 2 end%N)
            (fun n => match n with 0 => Session | 1 => Agent | _ => Lineage end%N) _).
  by intros [].
Defined.

Record per_scope (A : Type) := PerScope { session : A; agent : A; lineage : A }.
Arguments PerScope {A} session agent lineage.
Arguments session {A} p.
Arguments agent {A} p.
Arguments lineage {A} p.
#[global] Instance per_scope_eq_dec `{EqDecision A} : EqDecision (per_scope A).
Proof. solve_decision. Defined.

Definition scope_name (s : scope) : string :=
  match s with Session => "session"%string | Agent => "agent"%string | Lineage => "lineage"%string end.
Definition SCOPES : list scope := [Session; Agent; Lineage].
Definition at_scope {A} (p : per_scope A) (s : scope) : A :=
  match s with Session => session p | Agent => agent p | Lineage => lineage p end.

Definition scope_map {A B} (f : A -> B) (p : per_scope A) : per_scope B :=
  PerScope (f (session p)) (f (agent p)) (f (lineage p)).

(** ** Facts about text *)

Section Text.
#[local] Open Scope string_scope.

Lemma str_app_cons x (a b : string) : String x a ++ b = String x (a ++ b).
Proof. done. Qed.

Lemma str_app_assoc (a b c : string) : (a ++ b) ++ c = a ++ (b ++ c).
Proof. induction a as [|x a IH]; [done|by rewrite !str_app_cons, IH]. Qed.

Lemma str_app_nil_r (a : string) : a ++ "" = a.
Proof. induction a as [|x a IH]; [done|by rewrite !str_app_cons, IH]. Qed.

Lemma str_length_app (a b : string) :
  String.length (a ++ b) = (String.length a + String.length b)%nat.
Proof. induction a as [|x a IH]; [done|rewrite str_app_cons; simpl; by rewrite IH]. Qed.

Lemma rev_string_app_spec s acc : rev_string_app s acc = rev_string s ++ acc.
Proof.
  unfold rev_string. revert acc. induction s as [|a s IH]; intros acc; [done|].
  simpl. by rewrite (IH (String a acc)), (IH (String a "")), str_app_assoc.
Qed.

Lemma rev_string_cons a s : rev_string (String a s) = rev_string s ++ String a "".
Proof. unfold rev_string at 1. simpl. apply rev_string_app_spec. Qed.

Lemma rev_string_app_distr s t : rev_string (s ++ t) = rev_string t ++ rev_string s.
Proof.
  induction s as [|a s IH]; [by rewrite str_app_nil_r|].
  by rewrite str_app_cons, !rev_string_cons, IH, str_app_assoc.
Qed.

Lemma rev_string_involutive s : rev_string (rev_string s) = s.
Proof.
  induction s as [|a s IH]; [done|]. by rewrite rev_string_cons, rev_string_app_distr, IH.
Qed.

Lemma str_all_app p a b : str_all p (a ++ b) = str_all p a && str_all p b.
Proof. induction a as [|x a IH]; [done|]. rewrite str_app_cons; cbn [str_all]. by rewrite IH, andb_assoc. Qed.
Lemma str_all_mono (p q : ascii -> bool) s : (forall a, p a = true -> q a = true) ->
  str_all p s = true -> str_all q s = true.
Proof.
  intros Hpq. induction s as [|a s IH]; [done|]. cbn [str_all]. rewrite !andb_true_iff.
  intros [Ha Hs]. split; [by apply Hpq|by apply IH].
Qed.

Lemma split_on_nonnil c a : split_on c a <> [].
Proof. destruct a as [|x a]; [done|]. cbn. destruct (Ascii.eqb x c), (split_on c a); done. Qed.

(** [(a + c + b).split(c) == a.split(c) + b.split(c)]. *)
Lemma split_on_app c a b :
  split_on c (a ++ String c b) = (split_on c a ++ split_on c b)%list.
Proof.
  induction a as [|x a IH]; [simpl; by destruct (Ascii.eqb_spec c c)|].
  rewrite str_app_cons. cbn [split_on]. rewrite IH. destruct (Ascii.eqb x c); [done|].
  pose proof (split_on_nonnil c a). by destruct (split_on c a).
Qed.

Lemma split_on_no c w : str_all (fun a => negb (Ascii.eqb a c)) w = true -> split_on c w = [w].
Proof.
  induction w as [|a w IH]; [done|]. cbn. intros [Ha Hw]%andb_true_iff.
  destruct (Ascii.eqb a c); [done|]. by rewrite IH.
Qed.

Lemma split_on_parts c s :
  Forall (fun w => str_all (fun a => negb (Ascii.eqb a c)) w = true) (split_on c s).
Proof.
  induction s as [|a s IH]; cbn [split_on]; [by constructor|].
  destruct (Ascii.eqb a c) eqn:E; [by constructor|].
  inversion IH as [|w ws Hw Hws]; subst; constructor; cbn [str_all]; rewrite ?E, ?Hw; done.
Qed.

Lemma prefix_app (a b : string) : String.prefix a (a ++ b) = true.
Proof.
  induction a as [|x a IH]; [by destruct b|]. rewrite str_app_cons. cbn [String.prefix].
  by destruct (ascii_dec x x).
Qed.

Lemma prefix_spec a s : String.prefix a s = true -> exists b, s = a ++ b.
Proof.
  revert s. induction a as [|x a IH]; intros s; [by exists s|]. destruct s as [|y s]; [done|].
  cbn [String.prefix]. destruct (ascii_dec x y) as [->|]; [|done]. intros [b ->]%IH. by exists b.
Qed.

Section Strip.
Context (w2 : ascii -> ascii -> bool) (w3 : ascii -> ascii -> ascii -> bool).

(** The result is a suffix of the argument that starts with no whitespace. *)
Lemma drop_ws_spec n s : (String.length s <= n)%nat ->
  (exists p, s = p ++ drop_ws w2 w3 s) /\ drop_ws w2 w3 (drop_ws w2 w3 s) = drop_ws w2 w3 s.
Proof.
  revert s. induction n as [|n IH]; intros s Hn.
  { destruct s; simpl in *; [|lia]. split; [by exists ""|done]. }
  destruct s as [|a s]; [split; [by exists ""|done]|]. simpl in Hn.
  assert (Hstep : forall p t, String a s = p ++ t -> (String.length t <= n)%nat ->
     (exists p', String a s = p' ++ drop_ws w2 w3 t) /\
     drop_ws w2 w3 (drop_ws w2 w3 t) = drop_ws w2 w3 t).
  { intros p t -> Ht. destruct (IH t Ht) as [[p' Hp'] ?]. split; [|done].
    exists (p ++ p'). by rewrite str_app_assoc, <- Hp'. }
  assert (Hstay : drop_ws w2 w3 (String a s) = String a s ->
     (exists p, String a s = p ++ drop_ws w2 w3 (String a s)) /\
     drop_ws w2 w3 (drop_ws w2 w3 (String a s)) = drop_ws w2 w3 (String a s)).
  { intros E. rewrite !E. split; [by exists ""|done]. }
  destruct (ws1 a) eqn:E1.
  { simpl. rewrite E1. apply (Hstep (String a "")); [done|lia]. }
  destruct s as [|b s]; [apply Hstay; simpl; by rewrite E1|].
  destruct (w2 a b) eqn:E2.
  { simpl. rewrite E1, E2. apply (Hstep (String a (String b ""))); [done|simpl in *; lia]. }
  destruct s as [|c s]; [apply Hstay; simpl; by rewrite E1, E2|].
  destruct (w3 a b c) eqn:E3.
  { simpl. rewrite E1, E2, E3.
    apply (Hstep (String a (String b (String c "")))); [done|simpl in *; lia]. }
  apply Hstay. simpl. by rewrite E1, E2, E3.
Qed.

Lemma drop_ws_suffix s : exists p, s = p ++ drop_ws w2 w3 s.
Proof. by apply (drop_ws_spec (String.length s)). Qed.
Lemma drop_ws_idem s : drop_ws w2 w3 (drop_ws w2 w3 s) = drop_ws w2 w3 s.
Proof. by apply (drop_ws_spec (String.length s)). Qed.

Lemma drop_ws_no_shorter s t : drop_ws w2 w3 s = t -> (String.length t <= String.length s)%nat.
Proof. intros <-. destruct (drop_ws_suffix s) as [p Hp]. rewrite Hp at 2. rewrite str_length_app. lia. Qed.

(** A prefix of text with no leading whitespace has none either. *)
Lemma drop_ws_prefix s t : drop_ws w2 w3 (s ++ t) = s ++ t -> drop_ws w2 w3 s = s.
Proof.
  destruct s as [|a s]; [done|]. rewrite str_app_cons. simpl. destruct (ws1 a) eqn:E1.
  { intros H%drop_ws_no_shorter. simpl in H. lia. }
  destruct s as [|b s]; [done|]. rewrite str_app_cons. simpl. destruct (w2 a b) eqn:E2.
  { intros H%drop_ws_no_shorter. simpl in H. lia. }
  destruct s as [|c s]; [done|]. rewrite str_app_cons. simpl. destruct (w3 a b c) eqn:E3; [|done].
  intros H%drop_ws_no_shorter. simpl in H. lia.
Qed.
End Strip.

(** [s.strip().strip() == s.strip()]. *)
Lemma py_strip_idem s : py_strip (py_strip s) = py_strip s.
Proof.
  unfold py_strip. set (l := drop_ws ws2 ws3 s).
  set (d := drop_ws (fun b a => ws2 a b) (fun c b a => ws3 a b c) (rev_string l)).
  destruct (drop_ws_suffix (fun b a => ws2 a b) (fun c b a => ws3 a b c) (rev_string l)) as [p Hp].
  fold d in Hp. assert (El : l = rev_string d ++ rev_string p).
  { rewrite <- rev_string_app_distr, <- Hp. by rewrite rev_string_involutive. }
  rewrite (drop_ws_prefix ws2 ws3 (rev_string d) (rev_string p)).
  - rewrite rev_string_involutive. unfold d. by rewrite drop_ws_idem.
  - rewrite <- El. apply drop_ws_idem.
Qed.
End Text.

(** ** Facts about sorted sets and loops *)

Lemma elem_of_sorted_set x l : x ∈ sorted_set l <-> x ∈ l.
Proof. unfold sorted_set. by rewrite merge_sort_Permutation, elem_of_remove_dups. Qed.

Lemma NoDup_sorted_set l : NoDup (sorted_set l).
Proof. unfold sorted_set. rewrite merge_sort_Permutation. apply NoDup_remove_dups. Qed.

Lemma StronglySorted_sorted_set l : StronglySorted String.le (sorted_set l).
Proof. apply StronglySorted_merge_sort; apply _. Qed.

Lemma remove_dups_id `{EqDecision A} (l : list A) : NoDup l -> remove_dups l = l.
Proof.
  induction 1 as [|x l Hx Hl IH]; [done|]. simpl. case_decide; [done|by rewrite IH].
Qed.

Lemma sorted_set_id l : NoDup l -> StronglySorted String.le l -> sorted_set l = l.
Proof.
  intros Hnd Hs. unfold sorted_set. rewrite remove_dups_id by done.
  apply (StronglySorted_unique String.le); [apply StronglySorted_merge_sort; apply _|done|].
  apply merge_sort_Permutation.
Qed.

Lemma sorted_set_idem l : sorted_set (sorted_set l) = sorted_set l.
Proof. apply sorted_set_id; [apply NoDup_sorted_set | apply StronglySorted_sorted_set]. Qed.

Lemma filter_bool_cons {A} (q : A -> bool) x (l : list A) :
  filter q (x :: l) = if q x then x :: filter q l else filter q l.
Proof. rewrite filter_cons. destruct (q x); done. Qed.

(** Sorting commutes with a map that keeps the order. *)
Section MergeFmap.
Context {A B : Type} (R : relation A) (S : relation B).
Context `{!forall x y, Decision (R x y)} `{!forall x y, Decision (S x y)}.
Variable f : A -> B.
Hypothesis Hf : forall x y, R x y <-> S (f x) (f y).

Lemma list_merge_fmap l1 l2 : list_merge S (f <$> l1) (f <$> l2) = f <$> list_merge R l1 l2.
Proof.
  revert l2. induction l1 as [|x l1 IH1]; intros l2; [by destruct l2|].
  induction l2 as [|y l2 IH2]; [done|]. cbn [fmap list_fmap list_merge].
  destruct (decide (R x y)) as [Hr|Hr], (decide (S (f x) (f y))) as [Hs|Hs].
  - cbn. f_equal. apply (IH1 (y :: l2)).
  - by rewrite Hf in Hr.
  - by rewrite <- Hf in Hs.
  - cbn. f_equal. apply IH2.
Qed.

Let fstack (st : list (option (list A))) : list (option (list B)) :=
  List.map (option_map (List.map f)) st.

Lemma merge_list_to_stack_fmap st (l : list A) :
  merge_list_to_stack S (fstack st) (f <$> l) = fstack (merge_list_to_stack R st l).
Proof.
  revert l. induction st as [|[l'|] st IH]; intros l; [done| |done].
  change (None :: merge_list_to_stack S (fstack st) (list_merge S (f <$> l') (f <$> l))
    = None :: fstack (merge_list_to_stack R st (list_merge R l' l))).
  by rewrite list_merge_fmap, IH.
Qed.

Lemma merge_stack_fmap st :
  merge_stack S (fstack st) = f <$> merge_stack R st.
Proof.
  induction st as [|[l|] st IH]; [done| |done].
  change (list_merge S (f <$> l) (merge_stack S (fstack st)) = f <$> list_merge R l (merge_stack R st)).
  rewrite IH. apply list_merge_fmap.
Qed.

Lemma merge_sort_aux_fmap st l :
  merge_sort_aux S (fstack st) (f <$> l) = f <$> merge_sort_aux R st l.
Proof.
  revert st. induction l as [|x l IH]; intros st; [apply merge_stack_fmap|].
  cbn [fmap list_fmap merge_sort_aux]. rewrite <- IH. f_equal.
  apply (merge_list_to_stack_fmap st [x]).
Qed.

Lemma merge_sort_fmap l : merge_sort S (f <$> l) = f <$> merge_sort R l.
Proof. apply (merge_sort_aux_fmap []). Qed.
End MergeFmap.

Lemma mapR_Forall2 {E A B} (f : A -> res E B) l r :
  mapR f l = Ok r <-> Forall2 (fun x y => f x = Ok y) l r.
Proof.
  revert r. induction l as [|x l IH]; intros r; simpl.
  - split; [intros [= <-]; constructor | by inversion 1].
  - split.
    + destruct (f x) eqn:Ex; simpl; [|done]. destruct (mapR f l) eqn:El; simpl; [|done].
      intros [= <-]. constructor; [done|]. by apply IH.
    + inversion 1 as [|? y ? r' Hx Hr]; subst. rewrite Hx. simpl.
      by rewrite (proj2 (IH r') Hr).
Qed.

(** Take one fallible step of a body apart: [H : (x ← m; k) = Ok r]. *)
Lemma bind_ok {E A B} (f : A -> res E B) (m : res E A) r :
  m ≫= f = Ok r -> exists a, m = Ok a /\ f a = Ok r.
Proof. destruct m as [a|e]; [by exists a|discriminate]. Qed.

Ltac bind_inv H :=
  let x := fresh "x" in let E := fresh "E" in
  apply bind_ok in H as (x & E & H).

(** Walk through the guards and binds of a body known to return [Ok]. *)
Ltac ok_step H :=
  lazymatch type of H with
  | _ ≫= _ = Ok _ => bind_inv H
  | (if ?b then Raise _ else _) = Ok _ =>
      let E := fresh "G" in destruct b eqn:E; [discriminate H|]
  | Ok _ = Ok _ => injection H as H
  | Raise _ = Ok _ => discriminate H
  end.
Ltac ok_steps H := repeat ok_step H.

(** Reduce the binds of steps whose result is known. *)
Ltac res_simpl := cbn [mbind res_bind mret res_ret].

(** ** Loops over dicts *)

Lemma items_perm {V} (m : gmap string V) : items m ≡ₚ map_to_list m.
Proof. apply merge_sort_Permutation. Qed.

Lemma elem_of_items {V} (m : gmap string V) k v : (k, v) ∈ items m <-> m !! k = Some v.
Proof. by rewrite items_perm, elem_of_map_to_list. Qed.

Lemma items_NoDup {V} (m : gmap string V) : NoDup (items m).*1.
Proof. rewrite items_perm. apply NoDup_fst_map_to_list. Qed.

Lemma items_map {V} (m : gmap string V) : list_to_map (items m) = m.
Proof.
  rewrite <- (list_to_map_to_list m) at 2. apply list_to_map_proper; [apply items_NoDup|apply items_perm].
Qed.

(** Inserting the items that satisfy a test one by one. *)
Lemma foldl_insert_filter {V} (P : string * V -> Prop) `{!forall x, Decision (P x)} l (acc : gmap string V) :
  NoDup l.*1 ->
  foldl (fun a kv => if decide (P kv) then <[kv.1 := kv.2]> a else a) acc l
  = (list_to_map (filter P l) : gmap string V) ∪ acc.
Proof.
  revert acc. induction l as [|[k v] l IH]; intros acc Hn; [cbn; by rewrite (left_id_L ∅ (∪))|].
  apply NoDup_cons in Hn as [Hk Hn]. cbn [foldl fst snd]. rewrite IH by done. rewrite filter_cons.
  destruct (decide (P (k, v))); [|done]. rewrite list_to_map_cons, <- insert_union_l.
  symmetry. apply insert_union_r, not_elem_of_list_to_map_1. intros Hin. apply Hk.
  apply list_elem_of_fmap in Hin as (kv & -> & Hkv). apply list_elem_of_filter in Hkv as [_ Hkv].
  apply list_elem_of_fmap. by exists kv.
Qed.

Lemma foldl_items_filter {V} (P : string * V -> Prop) `{!forall x, Decision (P x)} (m : gmap string V) :
  foldl (fun a kv => if decide (P kv) then <[kv.1 := kv.2]> a else a) ∅ (items m) = filter P m.
Proof.
  rewrite foldl_insert_filter by apply items_NoDup. rewrite (right_id_L ∅ (∪)), map_filter_alt.
  apply list_to_map_proper; [|by rewrite items_perm].
  apply (sublist_NoDup _ (items m).*1); [apply items_NoDup|]. apply fmap_sublist, sublist_filter.
Qed.

Section TotalOf.
Context {A : Type} (f : A -> Z).
Implicit Types m : gmap string A.

Lemma total_of_empty : total_of f ∅ = 0.
Proof. apply map_fold_empty. Qed.

Lemma total_of_insert m k r : m !! k = None -> total_of f (<[k := r]> m) = f r + total_of f m.
Proof. intros Hk. unfold total_of. rewrite map_fold_insert_L; [done|intros; lia|done]. Qed.

Lemma total_of_delete m k r : m !! k = Some r -> total_of f m = f r + total_of f (delete k m).
Proof.
  intros Hk. rewrite <- (total_of_insert _ k) by apply lookup_delete_eq. by rewrite insert_delete_id.
Qed.

Lemma total_of_update m k r r' : m !! k = Some r ->
  total_of f (<[k := r']> m) = total_of f m - f r + f r'.
Proof.
  intros Hk. rewrite (total_of_delete m k r Hk), <- insert_delete_eq.
  rewrite total_of_insert by apply lookup_delete_eq. lia.
Qed.

Lemma total_of_nonneg m : (forall k r, m !! k = Some r -> 0 <= f r) -> 0 <= total_of f m.
Proof.
  induction m as [|k r m Hk IH] using map_ind; intros Hf; [by rewrite total_of_empty|].
  rewrite total_of_insert by done. pose proof (Hf k r (lookup_insert_eq _ _ _)).
  enough (0 <= total_of f m) by lia. apply IH. intros k' r' Hk'. apply (Hf k').
  rewrite lookup_insert_ne; [done|]. congruence.
Qed.

Lemma total_of_member m k r : (forall k r, m !! k = Some r -> 0 <= f r) -> m !! k = Some r ->
  f r <= total_of f m.
Proof.
  intros Hf Hk. rewrite (total_of_delete _ _ _ Hk).
  enough (0 <= total_of f (delete k m)) by lia. apply total_of_nonneg.
  intros k' r' [_ Hk']%lookup_delete_Some. by apply (Hf k').
Qed.
End TotalOf.

Lemma iterR_ok {E A} (f : A -> res E unit) l :
  iterR f l = Ok tt <-> forall x, x ∈ l -> f x = Ok tt.
Proof.
  induction l as [|x l IH]; simpl.
  - split; [|done]. intros _ x Hx. by apply elem_of_nil in Hx.
  - split.
    + intros Ho y. bind_inv Ho. destruct x0.
      rewrite elem_of_cons. intros [->|Hy]; [done|]. by apply IH.
    + intros Hx. rewrite (Hx x) by set_solver. res_simpl. apply IH. set_solver.
Qed.

Lemma iter_items_ok {E V} (f : string -> V -> res E unit) m :
  iter_items f m = Ok tt <-> forall k v, m !! k = Some v -> f k v = Ok tt.
Proof.
  unfold iter_items. rewrite iterR_ok. split.
  - intros Hf k v Hk. apply (Hf (k, v)). by apply elem_of_items.
  - intros Hf [k v] Hx. apply Hf. by apply elem_of_items.
Qed.

Lemma raise_if_ok {E} (b : bool) (e : E) : (raise_if b with e ;; Ok tt) = Ok tt <-> b = false.
Proof. by destruct b. Qed.

Lemma guard_ok {E B} (b : bool) (e : E) (k : res E B) r :
  (raise_if b with e ;; k) = Ok r <-> b = false /\ k = Ok r.
Proof. destruct b; naive_solver. Qed.

Lemma bind_unit_ok {E B} (m : res E unit) (k : res E B) r :
  (_ ← m; k) = Ok r <-> m = Ok tt /\ k = Ok r.
Proof. destruct m as [[]|]; simpl; naive_solver. Qed.

(** A loop body may be replaced by one that succeeds where it does. *)
Lemma mapR_mono {E E' A B} (f : A -> res E B) (g : A -> res E' B) l r :
  (forall x y, x ∈ l -> f x = Ok y -> g x = Ok y) -> mapR f l = Ok r -> mapR g l = Ok r.
Proof.
  intros Hfg. rewrite !mapR_Forall2. intros Hf. induction Hf as [|x y l r Hx Hf IH]; constructor.
  - apply Hfg; [set_solver|done].
  - apply IH. intros. apply Hfg; [set_solver|done].
Qed.

Lemma mapR_in {E A B} (f : A -> res E B) l r x :
  mapR f l = Ok r -> x ∈ l -> exists y, f x = Ok y /\ y ∈ r.
Proof.
  rewrite mapR_Forall2. intros Hf [i Hi]%list_elem_of_lookup.
  destruct (Forall2_lookup_l _ _ _ _ _ Hf Hi) as (y & Hy & Hx). exists y. split; [done|].
  by eapply list_elem_of_lookup_2.
Qed.

Lemma mapR_out {E A B} (f : A -> res E B) l r y :
  mapR f l = Ok r -> y ∈ r -> exists x, f x = Ok y /\ x ∈ l.
Proof.
  rewrite mapR_Forall2. intros Hf [i Hi]%list_elem_of_lookup.
  destruct (Forall2_lookup_r _ _ _ _ _ Hf Hi) as (x & Hx & Hy). exists x. split; [done|].
  by eapply list_elem_of_lookup_2.
Qed.

(** A body that keeps the key of each item keeps the keys. *)
Lemma mapR_keys {E A B} (f : string * A -> res E (string * B)) l r :
  (forall x y, f x = Ok y -> y.1 = x.1) -> mapR f l = Ok r -> dkeys r = dkeys l.
Proof.
  intros Hk. rewrite mapR_Forall2. unfold dkeys. induction 1 as [|x y l r Hx Hf IH]; [done|].
  rewrite !fmap_cons, IH. f_equal. by apply Hk.
Qed.

(** ** Facts about association lists and key sets *)

Lemma str_in_spec s l : str_in s l = true <-> s ∈ l.
Proof.
  unfold str_in. rewrite existsb_exists. split.
  - intros (x & Hx & ->%String.eqb_eq). by apply list_elem_of_In.
  - intros Hs. exists s. split; [by apply list_elem_of_In|apply String.eqb_refl].
Qed.

Lemma str_in_false s l : str_in s l = false <-> s ∉ l.
Proof. rewrite <- str_in_spec. by destruct (str_in s l). Qed.

Lemma subset_b_spec a b : subset_b a b = true <-> a ⊆ b.
Proof.
  unfold subset_b. rewrite forallb_forall. split.
  - intros Hx x Ha%list_elem_of_In. by apply str_in_spec, Hx.
  - intros Hx x Ha%list_elem_of_In. by apply str_in_spec, Hx.
Qed.

Lemma same_set_spec a b : same_set a b = true <-> (forall x, x ∈ a <-> x ∈ b).
Proof. unfold same_set. rewrite andb_true_iff, !subset_b_spec. set_solver. Qed.

Lemma dget_elem {A} k (d : list (string * A)) v : dget k d = Some v -> (k, v) ∈ d.
Proof.
  induction d as [|[k' v'] d IH]; [done|]. simpl. destruct (String.eqb_spec k k') as [->|].
  - intros [= ->]. set_solver.
  - intros Hd. apply elem_of_cons. right. by apply IH.
Qed.

Lemma dkeys_cons {A} k (v : A) d : dkeys ((k, v) :: d) = k :: dkeys d.
Proof. done. Qed.

Lemma dget_is_Some {A} k (d : list (string * A)) : is_Some (dget k d) <-> k ∈ dkeys d.
Proof.
  induction d as [|[k' v'] d IH].
  - split; [by intros []|]. intros Hk. by apply elem_of_nil in Hk.
  - rewrite dkeys_cons, elem_of_cons. simpl.
    destruct (String.eqb_spec k k'); [|rewrite IH]; naive_solver.
Qed.

Lemma dget_None {A} k (d : list (string * A)) : dget k d = None <-> k ∉ dkeys d.
Proof. rewrite <- dget_is_Some, <- eq_None_not_Some. done. Qed.

Lemma dget_unique {A} k v (d : list (string * A)) :
  NoDup (dkeys d) -> (k, v) ∈ d -> dget k d = Some v.
Proof.
  induction d as [|[k' v'] d IH]; [intros _ Hx; by apply elem_of_nil in Hx|].
  rewrite dkeys_cons. intros [Hn Hd]%NoDup_cons. rewrite elem_of_cons. simpl.
  intros [[= -> ->]|Hx]; [by rewrite String.eqb_refl|].
  destruct (String.eqb_spec k k') as [->|]; [|by apply IH].
  destruct Hn. apply list_elem_of_fmap. by exists (k', v).
Qed.

Lemma dget_app {A} k (a b : list (string * A)) :
  dget k (a ++ b)%list = match dget k a with Some v => Some v | None => dget k b end.
Proof.
  induction a as [|[k' v] a IH]; [done|]. simpl. by destruct (String.eqb k k').
Qed.

Lemma dget_dset {A} k (v : A) d : dget k (dset k v d) = Some v.
Proof.
  induction d as [|[k' v'] d IH]; cbn; [by rewrite String.eqb_refl|].
  destruct (String.eqb_spec k' k) as [->|Hne]; cbn; [by rewrite String.eqb_refl|].
  by rewrite (proj2 (String.eqb_neq _ _)).
Qed.

Lemma dget_dset_ne {A} k k' (v : A) d : k <> k' -> dget k (dset k' v d) = dget k d.
Proof.
  intros Hk. induction d as [|[k0 v0] d IH]; cbn; [by rewrite (proj2 (String.eqb_neq k k'))|].
  destruct (String.eqb_spec k0 k') as [->|Hk0]; cbn [dget]; [by rewrite !(proj2 (String.eqb_neq k k'))|].
  by rewrite IH.
Qed.

Lemma has_key_dget {A} k (d : list (string * A)) : has_key k d = true <-> is_Some (dget k d).
Proof. unfold has_key. by rewrite str_in_spec, dget_is_Some. Qed.

Lemma dget_fmap {A B} (f : A -> B) k (d : list (string * A)) :
  dget k (prod_map id f <$> d) = f <$> dget k d.
Proof.
  induction d as [|[k' v'] d IH]; [done|]. rewrite fmap_cons. simpl.
  by destruct (String.eqb k k').
Qed.

Lemma dkeys_fmap {A B} (f : A -> B) (d : list (string * A)) :
  dkeys (prod_map id f <$> d) = dkeys d.
Proof. unfold dkeys. rewrite <- list_fmap_compose. by apply list_fmap_ext. Qed.

(** ** Collisions

    Two different strings with one digest, one from each of two given lists.
    Digests of a fixed length collide somewhere; a theorem that says [collide]
    names the finitely many inputs among which a collision would have to be. *)

Definition collide (h : string -> string) (xs ys : list string) : Prop :=
  exists x y, x ∈ xs /\ y ∈ ys /\ x <> y /\ h x = h y.

Lemma collide_mono h xs ys xs' ys' : xs ⊆ xs' -> ys ⊆ ys' -> collide h xs ys -> collide h xs' ys'.
Proof. intros Hx Hy (x & y & Ex & Ey & H). exists x, y. auto. Qed.

(** On different strings of the lists, equal digests are a collision. *)
Lemma same_digest h xs ys x y : x ∈ xs -> y ∈ ys -> h x = h y -> x = y \/ collide h xs ys.
Proof. intros Hx Hy E. destruct (String.string_dec x y); [by left|right]. by exists x, y. Qed.

Create HintDb ardur.
Create Rewrite HintDb ardur.
