(* ===== verification/Sha256.v ===== *)
(** * SHA-256

    [hashlib.sha256(data).hexdigest()] of the Python standard library, as
    FIPS 180-4 defines it, on byte strings.  It instantiates the digest every
    component takes through the class [Digests] of [Prelude], so that
    witnesses evaluate on real digests. *)

From S2P Require Import Prelude.
Open Scope Z_scope.

Module Sha256.

Definition W : Z := 2 ^ 32.
Definition add32 (a b : Z) : Z := (a + b) mod W.
Definition rotr (n x : Z) : Z := Z.lor (Z.shiftr x n) (Z.shiftl x (32 - n) mod W).
Definition not32 (x : Z) : Z := W - 1 - x.

Definition ch (x y z : Z) : Z := Z.lxor (Z.land x y) (Z.land (not32 x) z).
Definition maj (x y z : Z) : Z := Z.lxor (Z.lxor (Z.land x y) (Z.land x z)) (Z.land y z).
Definition Sigma0 (x : Z) : Z := Z.lxor (Z.lxor (rotr 2 x) (rotr 13 x)) (rotr 22 x).
Definition Sigma1 (x : Z) : Z := Z.lxor (Z.lxor (rotr 6 x) (rotr 11 x)) (rotr 25 x).
Definition sigma0 (x : Z) : Z := Z.lxor (Z.lxor (rotr 7 x) (rotr 18 x)) (Z.shiftr x 3).
Definition sigma1 (x : Z) : Z := Z.lxor (Z.lxor (rotr 17 x) (rotr 19 x)) (Z.shiftr x 10).

(** The constants are the first 32 bits of the fractional parts of the square
    roots (initial state) and cube roots (round constants) of the first
    primes. *)
Definition prime (n : Z) : bool :=
  (1 <? n) && forallb (fun d => negb (n mod d =? 0)) (seqZ 2 (Z.sqrt n - 1)).
Definition primes : list Z := List.filter prime (seqZ 2 310).

(** The cube root of [n], rounded down, found bit by bit. *)
Fixpoint cbrt_bits (bits : nat) (n r : Z) : Z :=
  match bits with
  | O => r
  | S b => let r' := r + 2 ^ Z.of_nat b in cbrt_bits b n (if r' * r' * r' <=? n then r' else r)
  end.
Definition cbrt (n : Z) : Z := cbrt_bits 36 n 0.

Definition K : list Z := Eval vm_compute in (fun p => cbrt (p * 2 ^ 96) mod W) <$> take 64 primes.
Definition H0 : list Z := Eval vm_compute in (fun p => Z.sqrt (p * 2 ^ 64) mod W) <$> take 8 primes.

(** Padding to whole 64-byte blocks. *)
Fixpoint bytes (s : string) : list Z :=
  match s with
  | EmptyString => []
  | String a s => Z.of_N (N_of_ascii a) :: bytes s
  end.
Definition be (n : nat) (x : Z) : list Z :=
  (fun i => Z.land (Z.shiftr x (8 * Z.of_nat (n - 1 - i))) 255) <$> seq 0 n.
Definition padded (msg : list Z) : list Z :=
  let n := length msg in
  let zeros := ((119 - n mod 64) mod 64)%nat in
  msg ++ [0x80] ++ replicate zeros 0 ++ be 8 (8 * Z.of_nat n).

Fixpoint words (l : list Z) : list Z :=
  match l with
  | a :: b :: c :: d :: l =>
      Z.lor (Z.shiftl a 24) (Z.lor (Z.shiftl b 16) (Z.lor (Z.shiftl c 8) d)) :: words l
  | _ => []
  end.

(** The message schedule: [w] holds the last 16 words, oldest first. *)
Fixpoint schedule (n : nat) (w : list Z) : list Z :=
  match n with
  | O => []
  | S n =>
      match w with
      | w0 :: rest =>
          let w1 := nth 0 rest 0 in let w9 := nth 8 rest 0 in let w14 := nth 13 rest 0 in
          let new := add32 (add32 (sigma1 w14) w9) (add32 (sigma0 w1) w0) in
          w0 :: schedule n (rest ++ [new])
      | [] => []
      end
  end.

Definition round (st : list Z) (kw : Z * Z) : list Z :=
  match st with
  | [a; b; c; d; e; f; g; h] =>
      let t1 := add32 (add32 h (Sigma1 e)) (add32 (ch e f g) (add32 kw.1 kw.2)) in
      let t2 := add32 (Sigma0 a) (maj a b c) in
      [add32 t1 t2; a; b; c; add32 d t1; e; f; g]
  | _ => st
  end.

Definition compress (h block : list Z) : list Z :=
  zip_with add32 h (foldl round h (zip K (schedule 64 block))).

Fixpoint blocks (n : nat) (h ws : list Z) : list Z :=
  match n with
  | O => h
  | S n => blocks n (compress h (take 16 ws)) (skipn 16 ws)
  end.

Definition digest (msg : list Z) : list Z :=
  let ws := words (padded msg) in blocks (length ws / 16) H0 ws.

(** [hexdigest]: eight words of eight lowercase digits. *)
Definition hex_digit (n : Z) : ascii :=
  ascii_of_N (Z.to_N (let d := Z.land n 15 in if d <? 10 then 48 + d else 87 + d)).
Fixpoint hex (n : nat) (w : Z) (tail : string) : string :=
  match n with
  | O => tail
  | S n => hex n (Z.shiftr w 4) (String (hex_digit w) tail)
  end.
Definition hexdigest (h : list Z) : string :=
  foldr (fun i tail => hex 8 (nth i h 0) tail) EmptyString (seq 0 8).

Definition sha256_hex (s : string) : string := hexdigest (digest (bytes s)).

(** ** Shape *)

Lemma hex_digit_lower n : is_lower_hex (hex_digit n) = true.
Proof.
  unfold hex_digit. assert (Hd : 0 <= Z.land n 15 < 16).
  { change 15 with (Z.ones 4). rewrite Z.land_ones by lia. apply Z.mod_pos_bound. lia. }
  set (d := Z.land n 15) in *. clearbody d.
  assert (Hc : d ∈ [0; 1; 2; 3; 4; 5; 6; 7; 8; 9; 10; 11; 12; 13; 14; 15]).
  { rewrite !elem_of_cons. lia. }
  repeat (apply elem_of_cons in Hc as [->|Hc]; [reflexivity|]). by apply elem_of_nil in Hc.
Qed.

Lemma hex_shape n w tail :
  String.length (hex n w tail) = (n + String.length tail)%nat /\
  str_all is_lower_hex (hex n w tail) = str_all is_lower_hex tail.
Proof.
  revert w tail. induction n as [|n IH]; intros w tail; [done|]. cbn [hex].
  destruct (IH (Z.shiftr w 4) (String (hex_digit w) tail)) as [-> ->].
  cbn [String.length str_all]. rewrite hex_digit_lower. split; [lia|done].
Qed.

Lemma hexdigest_shape h : digest_match (hexdigest h) = true.
Proof.
  unfold digest_match, hexdigest. cbn [foldr seq].
  rewrite !(proj1 (hex_shape _ _ _)), !(proj2 (hex_shape _ _ _)). done.
Qed.

Lemma sha256_hex_match s : digest_match (sha256_hex s) = true.
Proof. apply hexdigest_shape. Qed.

(** The FIPS 180-4 test vectors. *)
Lemma sha256_abc : sha256_hex "abc"
  = "ba7816bf8f01cfea414140de5dae2223b00361a396177a9cb410ff61f20015ad".
Proof. vm_compute. reflexivity. Qed.
Lemma sha256_two_blocks : sha256_hex "abcdbcdecdefdefgefghfghighijhijkijkljklmklmnlmnomnopnopq"
  = "248d6a61d20638b8e5c026930c3e6039a33ce45964ff2167f6ecedd419db06c1".
Proof. vm_compute. reflexivity. Qed.

End Sha256.
