(* ===== verification/CanonicalJson.v ===== *)
(** * Canonical JSON

    [src/python/vibap/canonical_json.py] and the vendored serialiser
    [src/python/vibap/_vendor/rfc8785/_impl.py] (RFC 8785).  A Python [str] is
    the byte string of its UTF-8 encoding; a [str] with a lone surrogate has no
    such encoding and is represented by its ill-formed bytes, which [utf8_decode]
    refuses.  Two values have the same canonical bytes exactly when they are
    equal as JSON values, which is what makes a digest of the bytes identify
    the value. *)

From Stdlib Require Import SpecFloat DecimalString Decimal DecimalZ DecimalFacts DecimalNat.
From S2P Require Import Prelude Sha256.
Open Scope string_scope.
Open Scope Z_scope.

Module CanonicalJson.

Inductive json_exc :=
| CanonicalizationError
| IntegerDomainError (n : Z)
| FloatDomainError
| UnicodeEncodeError.

Definition INT_MAX : Z := 2 ^ 53 - 1.
Definition INT_MIN : Z := - 2 ^ 53 + 1.

Definition code (a : ascii) : Z := Z.of_N (N_of_ascii a).
Definition chr (z : Z) : ascii := ascii_of_N (Z.to_N z).
Definition QUOTE : ascii := "034"%char.
Definition BACKSLASH : ascii := "092"%char.
Definition one (a : ascii) : string := String a EmptyString.

(** ** Text encodings *)

Definition cont (a : ascii) : option Z :=
  if (128 <=? code a) && (code a <=? 191) then Some (code a - 128) else None.

(** Strict UTF-8: no overlong forms, no surrogates, nothing past U+10FFFF. *)
Fixpoint utf8_decode (s : string) : option (list Z) :=
  match s with
  | EmptyString => Some []
  | String a s1 =>
      let c := code a in
      if c <? 128 then (fun l => c :: l) <$> utf8_decode s1
      else if c <? 194 then None
      else match s1 with
      | EmptyString => None
      | String b s2 =>
          if c <? 224 then
            y ← cont b;
            (fun l => ((c - 192) * 64 + y) :: l) <$> utf8_decode s2
          else match s2 with
          | EmptyString => None
          | String d s3 =>
              if c <? 240 then
                y ← cont b; z ← cont d;
                let p := (c - 224) * 4096 + y * 64 + z in
                if (p <? 2048) || ((55296 <=? p) && (p <=? 57343)) then None
                else (fun l => p :: l) <$> utf8_decode s3
              else match s3 with
              | EmptyString => None
              | String e s4 =>
                  if c <? 245 then
                    y ← cont b; z ← cont d; t ← cont e;
                    let p := (c - 240) * 262144 + y * 4096 + z * 64 + t in
                    if (p <? 65536) || (1114111 <? p) then None
                    else (fun l => p :: l) <$> utf8_decode s4
                  else None
              end
          end
      end
  end.

(** [s.encode("utf-16be")]. *)
Definition unit16 (u : Z) : list Z := [u / 256; u mod 256].
Definition utf16be (p : Z) : list Z :=
  if p <? 65536 then unit16 p
  else (unit16 (55296 + (p - 65536) / 1024) ++ unit16 (56320 + (p - 65536) mod 1024))%list.
Definition encode_utf16be (s : string) : res json_exc (list Z) :=
  match utf8_decode s with
  | Some ps => Ok (ps ≫= utf16be)
  | None => Raise UnicodeEncodeError
  end.

(** Comparison of [bytes]. *)
Fixpoint bytes_leb (a b : list Z) : bool :=
  match a, b with
  | [], _ => true
  | _ :: _, [] => false
  | x :: a, y :: b => (x <? y) || ((x =? y) && bytes_leb a b)
  end.

(** ** Scalars *)

Definition hex4 (n : Z) : string :=
  let d k := chr (let v := Z.land (Z.shiftr n k) 15 in if v <? 10 then 48 + v else 87 + v) in
  String (d 12) (String (d 8) (String (d 4) (one (d 0)))).

(** [_ESCAPE_DCT] on the characters [_ESCAPE] matches, the identity elsewhere. *)
Definition escape_char (a : ascii) : string :=
  let c := code a in
  if (c =? 92) then String BACKSLASH (one BACKSLASH)
  else if (c =? 34) then String BACKSLASH (one QUOTE)
  else if (c =? 8) then String BACKSLASH "b"
  else if (c =? 12) then String BACKSLASH "f"
  else if (c =? 10) then String BACKSLASH "n"
  else if (c =? 13) then String BACKSLASH "r"
  else if (c =? 9) then String BACKSLASH "t"
  else if (c <? 32) then String BACKSLASH (String "u"%char (hex4 c))
  else one a.

Fixpoint escape (s : string) : string :=
  match s with
  | EmptyString => EmptyString
  | String a s => escape_char a ++ escape s
  end.

Definition serialize_str (s : string) : res json_exc string :=
  match utf8_decode s with
  | Some _ => Ok (String QUOTE (escape s ++ one QUOTE))
  | None => Raise CanonicalizationError
  end.

(** [str(n)]. *)
Definition str_int (n : Z) : string := NilZero.string_of_int (Z.to_int n).

(** ** [str(f)] of a positive finite float

    The shortest decimal that reads back as [m * 2^e], the closest one when
    several are as short, laid out as [float.__repr__] does. *)

(** [sgn (n * 10^k - x * 2^e)] *)
Definition cmp_dec (n k x e : Z) : comparison :=
  Z.compare (n * 10 ^ Z.max k 0 * 2 ^ Z.max (- e) 0) (x * 2 ^ Z.max e 0 * 10 ^ Z.max (- k) 0).

(** Does [n * 10^k] round to the float? *)
Definition rounds_to (m e n k : Z) : bool :=
  let lo := if (m =? 2 ^ 52) && (-1074 <? e) then 4 * m - 1 else 4 * m - 2 in
  let hi := 4 * m + 2 in
  let above c := match c with Gt => true | Eq => Z.even m | Lt => false end in
  let below c := match c with Lt => true | Eq => Z.even m | Gt => false end in
  above (cmp_dec n k lo (e - 2)) && below (cmp_dec n k hi (e - 2)).

(** The decimal point position, [10^(d-1) <= m * 2^e < 10^d]: the binary
    exponent gives it to within two. *)
Definition decpt (m e : Z) : Z :=
  default 0 (find (fun d => match cmp_dec 1 d m e with Gt => true | _ => false end)
               (seqZ ((Z.log2 m + e) * 30103 / 100000) 4)).

(** The best [n] digits, if they read back. *)
Definition try_digits (m e pt : Z) (nd : Z) : option (Z * Z) :=
  let k := pt - nd in
  let floor := (m * 2 ^ Z.max e 0 * 10 ^ Z.max (- k) 0) / (10 ^ Z.max k 0 * 2 ^ Z.max (- e) 0) in
  let lo_ok := rounds_to m e floor k in
  let hi_ok := rounds_to m e (floor + 1) k in
  match lo_ok, hi_ok with
  | false, false => None
  | true, false => Some (floor, k)
  | false, true => Some (floor + 1, k)
  | true, true =>
      match cmp_dec (2 * floor + 1) k (2 * m) e with
      | Gt => Some (floor, k)
      | Lt => Some (floor + 1, k)
      | Eq => Some (if Z.even floor then floor else floor + 1, k)
      end
  end.

Fixpoint first_some {A B} (f : A -> option B) (l : list A) : option B :=
  match l with
  | [] => None
  | x :: l => match f x with Some y => Some y | None => first_some f l end
  end.

Definition shortest (m e : Z) : Z * Z := default (0, 0) (first_some (try_digits m e (decpt m e)) (seqZ 1 17)).

Fixpoint strip_zeros (n : nat) (d k : Z) : Z * Z :=
  match n with
  | O => (d, k)
  | S n => if d mod 10 =? 0 then strip_zeros n (d / 10) (k + 1) else (d, k)
  end.

Fixpoint zeros (n : nat) : string :=
  match n with O => EmptyString | S n => String "0"%char (zeros n) end.

Definition str_float (m e : Z) : string :=
  let '(d, k) := shortest m e in
  let '(d, k) := strip_zeros 20 d k in
  let ds := str_int d in
  let nd := Z.of_nat (String.length ds) in
  let pt := nd + k in
  if (-4 <? pt) && (pt <=? 16) then
    if pt <=? 0 then "0." ++ zeros (Z.to_nat (- pt)) ++ ds
    else if nd <=? pt then ds ++ zeros (Z.to_nat (pt - nd)) ++ ".0"
    else substring 0 (Z.to_nat pt) ds ++ "." ++ substring (Z.to_nat pt) (String.length ds) ds
  else
    let x := str_int (Z.abs (pt - 1)) in
    substring 0 1 ds
    ++ (if 1 <? nd then "." ++ substring 1 (String.length ds) ds else EmptyString)
    ++ "e" ++ (if pt - 1 <? 0 then "-" else "+")
    ++ (if String.length x =? 1 then String "0"%char x else x)%nat.

(** ** [_serialize_float] *)

(** [s.find(c)] and slicing. *)
Fixpoint find_char (c : ascii) (s : string) : Z :=
  match s with
  | EmptyString => -1
  | String a s => if Ascii.eqb a c then 0
                  else let r := find_char c s in if r <? 0 then -1 else r + 1
  end.
Definition upto (q : Z) (s : string) : string := substring 0 (Z.to_nat q) s.
Definition from (q : Z) (s : string) : string := substring (Z.to_nat q) (String.length s) s.

(** [int(s)] on an optional sign and digits. *)
Definition int_of (s : string) : Z :=
  let digits t := default 0 (Z.of_uint <$> NilZero.uint_of_string t) in
  match s with
  | String "+" t => digits t
  | String "-" t => - digits t
  | t => digits t
  end.

Definition layout_float (stringified : string) : string :=
  let q := find_char "e"%char stringified in
  let '(stringified, exponent_str, exponent_value) :=
    if 0 <? q then
      let x := from q stringified in
      let x := if String.eqb (substring 2 1 x) "0" then substring 0 2 x ++ from 3 x else x in
      (upto q stringified, x, int_of (from 1 x))
    else (stringified, EmptyString, 0) in
  let q := find_char "."%char stringified in
  let '(first, dot, last) :=
    if 0 <? q then (upto q stringified, ".", from (q + 1) stringified)
    else (stringified, EmptyString, EmptyString) in
  let '(dot, last) := if String.eqb last "0" then (EmptyString, EmptyString) else (dot, last) in
  if (0 <? exponent_value) && (exponent_value <? 21) then
    let first := first ++ last in
    first ++ zeros (Z.to_nat (exponent_value - Z.of_nat (String.length first) + 1))
  else if (exponent_value <? 0) && (-7 <? exponent_value) then
    "0." ++ zeros (Z.to_nat (-1 - exponent_value)) ++ first ++ last
  else first ++ dot ++ last ++ exponent_str.

Definition serialize_float (f : spec_float) : res json_exc string :=
  match f with
  | S754_nan | S754_infinity _ => Raise FloatDomainError
  | S754_zero _ => Ok "0"
  | S754_finite true m e => Ok ("-" ++ layout_float (str_float (Z.pos m) e))
  | S754_finite false m e => Ok (layout_float (str_float (Z.pos m) e))
  end.

(** ** [dump] *)

(** [sorted(obj.items(), key=...)]: the keys are encoded first, in iteration
    order, and distinct keys have distinct encodings. *)
Definition encode_keys {A} (d : list (string * A)) : res json_exc (list (list Z * (string * A))) :=
  mapR (fun kv => k ← encode_utf16be kv.1; Ok (k, kv)) d.
Definition key_le {A} (x y : list Z * A) : Prop := bytes_leb x.1 y.1 = true.
#[global] Instance key_le_dec {A} (x y : list Z * A) : Decision (key_le x y).
Proof. unfold key_le. apply _. Defined.
Definition sort_items {A} (d : list (string * A)) : res json_exc (list (string * A)) :=
  keyed ← encode_keys d; Ok (merge_sort key_le keyed).*2.

Definition comma (first : bool) : string := if first then EmptyString else ",".

Fixpoint emit_list (first : bool) (l : list (res json_exc string)) : res json_exc string :=
  match l with
  | [] => Ok "]"
  | x :: l => t ← x; rest ← emit_list false l; Ok (comma first ++ t ++ rest)
  end.

Fixpoint emit_items (first : bool) (l : list (string * res json_exc string))
    : res json_exc string :=
  match l with
  | [] => Ok "}"
  | (k, x) :: l =>
      kt ← serialize_str k; t ← x; rest ← emit_items false l;
      Ok (comma first ++ kt ++ ":" ++ t ++ rest)
  end.

Fixpoint dump (v : pyval) : res json_exc string :=
  match v with
  | PNone => Ok "null"
  | PBool b => Ok (if b then "true" else "false")
  | PInt n => raise_if (n <? INT_MIN) || (INT_MAX <? n) with IntegerDomainError n ;; Ok (str_int n)
  | PStr s => serialize_str s
  | PFloat f => serialize_float f
  | PList l => body ← emit_list true (List.map dump l); Ok ("[" ++ body)
  | PDict d =>
      items ← sort_items (List.map (fun kv => (kv.1, dump kv.2)) d);
      body ← emit_items true items; Ok ("{" ++ body)
  end.

(** [canonical_json_bytes]. *)
Definition canonical_json_bytes (v : pyval) : res json_exc string := dump v.

(** ** The value the bytes stand for *)

(** The sort key of an object member, total. *)
Definition utf16_key (s : string) : list Z :=
  match encode_utf16be s with Ok l => l | Raise _ => [] end.
Definition norm_items {A} (d : list (string * A)) : list (string * A) :=
  (merge_sort key_le ((fun kv => (utf16_key kv.1, kv)) <$> d)).*2.

(** A value with the members of every object put in key order: two values
    are equal as JSON exactly when these agree. *)
Fixpoint norm (v : pyval) : pyval :=
  match v with
  | PList l => PList (List.map norm l)
  | PDict d => PDict (norm_items (List.map (fun kv => (kv.1, norm kv.2)) d))
  | v => v
  end.

Fixpoint float_free (v : pyval) : bool :=
  match v with
  | PFloat _ => false
  | PList l => forallb float_free l
  | PDict d => forallb (fun kv => float_free kv.2) d
  | _ => true
  end.

(** [dump] without the sort. *)
Fixpoint emit (v : pyval) : res json_exc string :=
  match v with
  | PList l => body ← emit_list true (List.map emit l); Ok ("[" ++ body)
  | PDict d => body ← emit_items true (List.map (fun kv => (kv.1, emit kv.2)) d); Ok ("{" ++ body)
  | v => dump v
  end.

Definition utf8_ok (s : string) : Prop := is_Some (utf8_decode s).

Lemma encode_utf16be_ok s l : encode_utf16be s = Ok l <-> utf8_ok s /\ utf16_key s = l.
Proof.
  unfold utf16_key, encode_utf16be, utf8_ok. destruct (utf8_decode s); split.
  - intros [= <-]. by split; [eexists|].
  - by intros [_ <-].
  - done.
  - by intros [[] _].
Qed.

Lemma encode_keys_ok {A} (d : list (string * A)) l :
  encode_keys d = Ok l <->
  Forall (fun kv : string * A => utf8_ok kv.1) d /\ l = (fun kv => (utf16_key kv.1, kv)) <$> d.
Proof.
  unfold encode_keys. revert l. induction d as [|[k v] d IH]; intros l; cbn [mapR].
  - split; [intros [= <-]; by split|by intros [_ ->]].
  - split.
    + intros Ho. ok_steps Ho. subst. rewrite IH in E0. destruct E0 as [Hd ->].
      cbn in E. ok_steps E. subst. apply encode_utf16be_ok in E0 as [Hk <-]. split; [by constructor|done].
    + intros [[Hk Hd]%Forall_cons ->]. cbn [fst] in Hk |- *. rewrite (proj2 (encode_utf16be_ok k _) (conj Hk eq_refl)).
      res_simpl. rewrite (proj2 (IH _) (conj Hd eq_refl)). done.
Qed.

Lemma sort_items_ok {A} (d l : list (string * A)) :
  sort_items d = Ok l <-> Forall (fun kv : string * A => utf8_ok kv.1) d /\ l = norm_items d.
Proof.
  unfold sort_items, norm_items. split.
  - intros Ho. ok_steps Ho. subst. apply encode_keys_ok in E as [Hd ->]. done.
  - intros [Hd ->]. by rewrite (proj2 (encode_keys_ok d _) (conj Hd eq_refl)).
Qed.

Lemma norm_items_perm {A} (d : list (string * A)) : norm_items d ≡ₚ d.
Proof.
  unfold norm_items. rewrite merge_sort_Permutation, <- list_fmap_compose. cbn.
  by rewrite list_fmap_id.
Qed.

(** Sorting looks only at the keys. *)
Lemma norm_items_fmap {A B} (f : A -> B) (d : list (string * A)) :
  norm_items ((fun kv => (kv.1, f kv.2)) <$> d) = (fun kv => (kv.1, f kv.2)) <$> norm_items d.
Proof.
  unfold norm_items. set (g := fun x : list Z * (string * A) => (x.1, (x.2.1, f x.2.2))).
  assert (Hg : (fun kv => (utf16_key kv.1, kv)) <$> ((fun kv => (kv.1, f kv.2)) <$> d)
    = g <$> ((fun kv => (utf16_key kv.1, kv)) <$> d)) by by rewrite <- !list_fmap_compose.
  rewrite Hg, (merge_sort_fmap key_le key_le g) by done. by rewrite <- !list_fmap_compose.
Qed.

(** ** [dump] is [emit] on the normal form *)

Lemma emit_list_ext first l l' s :
  Forall2 (fun x y => forall t, x = Ok t -> y = Ok t) l l' ->
  emit_list first l = Ok s -> emit_list first l' = Ok s.
Proof.
  intros Hl. revert first s. induction Hl as [|x y l l' Hx Hl IH]; intros first s; [done|].
  cbn [emit_list]. intros Ho. ok_steps Ho. subst s. rewrite (Hx _ E). res_simpl. by rewrite (IH _ _ E0).
Qed.

Lemma emit_items_ext first l l' s :
  Forall2 (fun x y : string * res json_exc string => x.1 = y.1 /\ forall t, x.2 = Ok t -> y.2 = Ok t) l l' ->
  emit_items first l = Ok s -> emit_items first l' = Ok s.
Proof.
  intros Hl. revert first s. induction Hl as [|[k x] [k' y] l l' [Hk Hx] Hl IH]; intros first s; [done|].
  cbn in Hk, Hx. subst k'. cbn [emit_items]. intros Ho. ok_steps Ho. subst s.
  rewrite E. res_simpl. rewrite (Hx _ E0). res_simpl. by rewrite (IH _ _ E1).
Qed.

Lemma Forall2_fmap_same {A B} (P : B -> B -> Prop) (f g : A -> B) l :
  (forall x, x ∈ l -> P (f x) (g x)) -> Forall2 P (f <$> l) (g <$> l).
Proof.
  induction l as [|x l IH]; intros Hp; constructor; [apply Hp; by left|].
  apply IH. intros y Hy. apply Hp. by right.
Qed.

Lemma serialize_str_ok s t :
  serialize_str s = Ok t <-> utf8_ok s /\ t = String QUOTE (escape s ++ one QUOTE).
Proof.
  unfold serialize_str, utf8_ok. destruct (utf8_decode s); split;
    [intros [= <-]; by split; [eexists|]|by intros [_ ->]|done|by intros [[] _]].
Qed.

Lemma emit_items_utf8 first l s :
  emit_items first l = Ok s -> Forall (fun kv : string * res json_exc string => utf8_ok kv.1) l.
Proof.
  revert first s. induction l as [|[k x] l IH]; intros first s; [done|]. cbn [emit_items].
  intros Ho. ok_steps Ho. constructor; [by apply serialize_str_ok in E as [? _]|by eapply IH].
Qed.

Lemma dump_emit v s : dump v = Ok s <-> emit (norm v) = Ok s.
Proof.
  revert s. induction v as [|b|z|f|str|l IH|d IH] using pyval_ind; intros s; try done.
  - cbn [dump emit norm]. rewrite List.map_map.
    assert (Hl : forall first t, emit_list first (List.map dump l) = Ok t <->
      emit_list first (List.map (fun x => emit (norm x)) l) = Ok t).
    { rewrite Forall_forall in IH. intros first t.
      split; apply emit_list_ext, Forall2_fmap_same; intros x Hx u; by apply IH. }
    split; intros Ho; ok_steps Ho; subst; apply Hl in E; by rewrite E.
  - cbn [dump emit norm]. rewrite Forall_forall in IH.
    set (dm := List.map (fun kv => (kv.1, dump kv.2)) d).
    assert (E1 : List.map (fun kv => (kv.1, emit kv.2))
        (norm_items (List.map (fun kv => (kv.1, norm kv.2)) d))
      = (fun kv => (kv.1, emit (norm kv.2))) <$> norm_items d).
    { change (List.map (fun kv => (kv.1, norm kv.2)) d) with ((fun kv => (kv.1, norm kv.2)) <$> d).
      rewrite norm_items_fmap. change @List.map with @list_fmap. by rewrite <- list_fmap_compose. }
    rewrite E1.
    assert (E2 : norm_items dm = (fun kv => (kv.1, dump kv.2)) <$> norm_items d)
      by apply norm_items_fmap.
    assert (Hl : forall first t, emit_items first (norm_items dm) = Ok t <->
      emit_items first ((fun kv => (kv.1, emit (norm kv.2))) <$> norm_items d) = Ok t).
    { rewrite E2. intros first t.
      split; apply emit_items_ext, Forall2_fmap_same; intros [k x] Hx; rewrite norm_items_perm in Hx;
        (split; [done|]); intros u; by apply (IH (k, x)). }
    split; intros Ho.
    + ok_steps Ho. subst. apply sort_items_ok in E as [_ ->]. apply Hl in E0. by rewrite E0.
    + ok_steps Ho. subst. apply Hl in E. rewrite (proj2 (sort_items_ok dm (norm_items dm))).
      * res_simpl. by rewrite E.
      * split; [|done]. rewrite <- norm_items_perm. by eapply emit_items_utf8.
Qed.

(** ** The bytes determine the value

    Every emitted text is self-delimiting in front of the end, a comma or a
    closing bracket. *)

Definition char_tag (c : ascii) : nat :=
  let n := code c in
  if n =? 110 then 0 else if n =? 116 then 1 else if n =? 102 then 2
  else if n =? 34 then 4 else if n =? 91 then 5 else if n =? 123 then 6
  else if n =? 93 then 7 else if n =? 125 then 8 else if n =? 44 then 9 else 3.
Definition tag (v : pyval) : nat :=
  match v with
  | PNone => 0 | PBool true => 1 | PBool false => 2 | PInt _ => 3 | PFloat _ => 3
  | PStr _ => 4 | PList _ => 5 | PDict _ => 6
  end.
Definition delim (r : string) : Prop :=
  match r with EmptyString => True | String c _ => (6 < char_tag c)%nat end.

Definition num_char (c : ascii) : bool := (code c =? 45) || ((48 <=? code c) && (code c <=? 57)).

Lemma num_char_tag c : num_char c = true -> char_tag c = 3%nat.
Proof.
  by destruct c as [[] [] [] [] [] [] [] []].
Qed.

Lemma uint_num_char u : str_all num_char (NilEmpty.string_of_uint u) = true.
Proof. by induction u. Qed.

Lemma str_int_num n : str_all num_char (str_int n) = true /\ str_int n <> EmptyString.
Proof.
  unfold str_int. destruct (Z.to_int n) as [u|u]; cbn.
  - destruct u; split; try done; apply (uint_num_char (_ : uint)).
  - split; [|done]. destruct u; try done; apply (uint_num_char (_ : uint)).
Qed.

Lemma str_int_inj n m : str_int n = str_int m -> n = m.
Proof.
  intros E. unfold str_int in E.
  assert (Hn : forall k, Z.to_int k <> Pos Nil /\ Z.to_int k <> Neg Nil).
  { intros []; split; cbn; try done; intros [= Hu]; by apply (DecimalPos.Unsigned.to_uint_nonnil p). }
  apply (f_equal NilZero.int_of_string) in E. rewrite !NilZero.isi in E by apply Hn.
  injection E as E. apply (f_equal Z.of_int) in E. by rewrite !DecimalZ.of_to in E.
Qed.

(** Two runs of number characters, each followed by a delimiter. *)
Lemma num_span s t r r' :
  str_all num_char s = true -> str_all num_char t = true -> delim r -> delim r' ->
  s ++ r = t ++ r' -> s = t /\ r = r'.
Proof.
  revert t. induction s as [|a s IH]; intros [|b t] Hs Ht Hr Hr' E.
  - done.
  - exfalso. change (r = String b (t ++ r')) in E. subst r. cbn in Hr, Ht.
    apply andb_true_iff in Ht as [Hb _]. rewrite (num_char_tag b Hb) in Hr. lia.
  - exfalso. change (String a (s ++ r) = r') in E. subst r'. cbn in Hr', Hs.
    apply andb_true_iff in Hs as [Ha _]. rewrite (num_char_tag a Ha) in Hr'. lia.
  - rewrite !str_app_cons in E. injection E as -> E. cbn in Hs, Ht.
    apply andb_true_iff in Hs as [_ Hs], Ht as [_ Ht].
    by destruct (IH t Hs Ht Hr Hr' E) as [-> ->].
Qed.

(** The escapes form a prefix code none of whose words starts with a quote. *)
Definition hexval (a : ascii) : Z := if code a <? 58 then code a - 48 else code a - 87.
Definition unescape1 (s : string) : option (ascii * string) :=
  match s with
  | String a s =>
      if code a =? 92 then
        match s with
        | String c s =>
            if code c =? 117 then
              match s with
              | String _ (String _ (String h (String l s))) =>
                  Some (chr (16 * hexval h + hexval l), s)
              | _ => None
              end
            else if code c =? 98 then Some (chr 8, s) else if code c =? 102 then Some (chr 12, s)
            else if code c =? 110 then Some (chr 10, s) else if code c =? 114 then Some (chr 13, s)
            else if code c =? 116 then Some (chr 9, s) else Some (c, s)
        | EmptyString => None
        end
      else Some (a, s)
  | EmptyString => None
  end.

Lemma unescape1_spec a x : unescape1 (escape_char a ++ x) = Some (a, x).
Proof. by destruct a as [[] [] [] [] [] [] [] []]. Qed.

Lemma escape_char_head a x y : escape_char a ++ x <> String QUOTE y.
Proof. by destruct a as [[] [] [] [] [] [] [] []]. Qed.

Lemma escape_prefix s t r r' :
  escape s ++ String QUOTE r = escape t ++ String QUOTE r' -> s = t /\ r = r'.
Proof.
  revert t. induction s as [|a s IH]; intros [|b t]; cbn [escape]; rewrite ?str_app_assoc; intros E.
  - by injection E.
  - symmetry in E. by apply escape_char_head in E.
  - by apply escape_char_head in E.
  - apply (f_equal unescape1) in E. rewrite !unescape1_spec in E. injection E as -> E.
    by destruct (IH t E) as [-> ->].
Qed.

Lemma serialize_str_prefix s t x y r r' :
  serialize_str s = Ok x -> serialize_str t = Ok y -> x ++ r = y ++ r' -> s = t /\ r = r'.
Proof.
  intros [_ ->]%serialize_str_ok [_ ->]%serialize_str_ok E.
  rewrite !str_app_cons, !str_app_assoc in E. injection E as E.
  change (one QUOTE ++ r) with (String QUOTE r) in E. change (one QUOTE ++ r') with (String QUOTE r') in E.
  by apply escape_prefix.
Qed.

Lemma emit_tag v s : float_free v = true -> emit v = Ok s ->
  exists c s', s = String c s' /\ char_tag c = tag v.
Proof.
  destruct v as [|[]|n|f|t|l|d]; cbn [float_free emit dump]; intros Hf Ho; try done;
    try (injection Ho as <-; by eexists _, _).
  - ok_steps Ho. destruct (str_int_num n) as [Hn Hne]. subst s.
    destruct (str_int n) as [|c s']; [done|]. exists c, s'. split; [done|].
    apply num_char_tag. by apply andb_true_iff in Hn as [? _].
  - apply serialize_str_ok in Ho as [_ ->]. by eexists _, _.
  - ok_steps Ho. subst s. by eexists _, _.
  - ok_steps Ho. subst s. by eexists _, _.
Qed.

(** What [emit] promises of a value, against any other value. *)
Definition emit_inj (v : pyval) : Prop := forall w s t r r',
  float_free v = true -> float_free w = true -> emit v = Ok s -> emit w = Ok t ->
  delim r -> delim r' -> s ++ r = t ++ r' -> v = w /\ r = r'.

Lemma emit_list_head b l s :
  emit_list b (List.map emit l) = Ok s -> forallb float_free l = true ->
  exists c s', s = String c s' /\
    char_tag c = match l with [] => 7%nat | v :: _ => if b then tag v else 9%nat end.
Proof.
  destruct l as [|v l]; cbn; intros Ho Hf; [injection Ho as <-; by eexists _, _|].
  apply andb_true_iff in Hf as [Hv _]. ok_steps Ho. subst s.
  destruct b; [|by eexists _, _]. destruct (emit_tag v _ Hv E) as (c & s' & -> & Hc).
  by eexists _, _.
Qed.

Lemma emit_items_head b (l : list (string * pyval)) s :
  emit_items b (List.map (fun kv => (kv.1, emit kv.2)) l) = Ok s ->
  exists c s', s = String c s' /\
    char_tag c = match l with [] => 8%nat | _ :: _ => if b then 4%nat else 9%nat end.
Proof.
  destruct l as [|[k v] l]; cbn; intros Ho; [injection Ho as <-; by eexists _, _|].
  ok_steps Ho. subst s. destruct b; [|by eexists _, _].
  apply serialize_str_ok in E as [_ ->]. by eexists _, _.
Qed.

Lemma tag_small v : (tag v <= 6)%nat.
Proof. destruct v as [|[]| | | | |]; cbn; lia. Qed.

Lemma head_neq c c' s s' r r' : char_tag c <> char_tag c' -> String c s ++ r <> String c' s' ++ r'.
Proof. intros Hn. rewrite !str_app_cons. intros [= E _]. by subst. Qed.

Lemma delim_app c s r : (6 < char_tag c)%nat -> delim (String c s ++ r).
Proof. done. Qed.

Lemma str_app_cancel_l (a x y : string) : a ++ x = a ++ y -> x = y.
Proof. induction a as [|c a IH]; [done|]. rewrite !str_app_cons. intros [= E]. by apply IH. Qed.

Lemma emit_list_inj b l l' s t r r' :
  Forall emit_inj l -> forallb float_free l = true -> forallb float_free l' = true ->
  emit_list b (List.map emit l) = Ok s -> emit_list b (List.map emit l') = Ok t ->
  s ++ r = t ++ r' -> l = l' /\ r = r'.
Proof.
  intros Hl. revert b l' s t. induction Hl as [|v l Hv Hl IH]; intros b [|w l'] s t Hf Hf' Hs Ht E.
  - injection Hs as <-. injection Ht as <-. by apply str_app_cancel_l in E.
  - exfalso. destruct (emit_list_head b [] s Hs Hf) as (c & s' & -> & Hc).
    destruct (emit_list_head b (w :: l') t Ht Hf') as (c' & t' & -> & Hc').
    eapply head_neq; [|exact E]. pose proof (tag_small w). destruct b; lia.
  - exfalso. destruct (emit_list_head b (v :: l) s Hs Hf) as (c & s' & -> & Hc).
    destruct (emit_list_head b [] t Ht Hf') as (c' & t' & -> & Hc').
    eapply head_neq; [|exact E]. pose proof (tag_small v). destruct b; lia.
  - cbn in Hf, Hf', Hs, Ht. apply andb_true_iff in Hf as [Hfv Hf], Hf' as [Hfw Hf'].
    apply bind_ok in Hs as (sv & Esv & Hs). apply bind_ok in Hs as (srest & Es & Hs).
    apply bind_ok in Ht as (tw & Etw & Ht). apply bind_ok in Ht as (trest & Et & Ht).
    injection Hs as <-. injection Ht as <-.
    rewrite !str_app_assoc in E. apply str_app_cancel_l in E.
    assert (Hd : forall k rest rr, forallb float_free k = true ->
      emit_list false (List.map emit k) = Ok rest -> delim (rest ++ rr)).
    { intros k rest rr Hk Ho. destruct (emit_list_head false k rest Ho Hk) as (c & u & -> & Hc).
      apply delim_app. destruct k; lia. }
    destruct (Hv w _ _ (srest ++ r) (trest ++ r') Hfv Hfw Esv Etw
      (Hd l _ _ Hf Es) (Hd l' _ _ Hf' Et) E) as [-> E'].
    by destruct (IH false l' _ _ Hf Hf' Es Et E') as [-> ->].
Qed.

Lemma emit_items_inj b d d' s t r r' :
  Forall (fun kv : string * pyval => emit_inj kv.2) d ->
  forallb (fun kv => float_free kv.2) d = true -> forallb (fun kv => float_free kv.2) d' = true ->
  emit_items b (List.map (fun kv => (kv.1, emit kv.2)) d) = Ok s ->
  emit_items b (List.map (fun kv => (kv.1, emit kv.2)) d') = Ok t ->
  s ++ r = t ++ r' -> d = d' /\ r = r'.
Proof.
  intros Hl. revert b d' s t.
  induction Hl as [|[k v] d Hv Hl IH]; intros b [|[k' w] d'] s t Hf Hf' Hs Ht E.
  - injection Hs as <-. injection Ht as <-. by apply str_app_cancel_l in E.
  - exfalso. destruct (emit_items_head b [] s Hs) as (c & s' & -> & Hc).
    destruct (emit_items_head b ((k', w) :: d') t Ht) as (c' & t' & -> & Hc').
    eapply head_neq; [|exact E]. destruct b; lia.
  - exfalso. destruct (emit_items_head b ((k, v) :: d) s Hs) as (c & s' & -> & Hc).
    destruct (emit_items_head b [] t Ht) as (c' & t' & -> & Hc').
    eapply head_neq; [|exact E]. destruct b; lia.
  - cbn in Hf, Hf', Hs, Ht, Hv. apply andb_true_iff in Hf as [Hfv Hf], Hf' as [Hfw Hf'].
    apply bind_ok in Hs as (ks & Eks & Hs). apply bind_ok in Hs as (sv & Esv & Hs).
    apply bind_ok in Hs as (srest & Es & Hs). injection Hs as <-.
    apply bind_ok in Ht as (kt & Ekt & Ht). apply bind_ok in Ht as (tw & Etw & Ht).
    apply bind_ok in Ht as (trest & Et & Ht). injection Ht as <-.
    rewrite !str_app_assoc in E. apply str_app_cancel_l in E.
    destruct (serialize_str_prefix _ _ _ _ _ _ Eks Ekt E) as [-> E'].
    rewrite !str_app_cons in E'. injection E' as E'.
    assert (Hd : forall (k : list (string * pyval)) rest rr,
      emit_items false (List.map (fun kv => (kv.1, emit kv.2)) k) = Ok rest -> delim (rest ++ rr)).
    { intros j rest rr Ho. destruct (emit_items_head false j rest Ho) as (c & u & -> & Hc).
      apply delim_app. destruct j; lia. }
    destruct (Hv w _ _ (srest ++ r) (trest ++ r') Hfv Hfw Esv Etw
      (Hd d _ _ Es) (Hd d' _ _ Et) E') as [-> E2].
    by destruct (IH false d' _ _ Hf Hf' Es Et E2) as [-> ->].
Qed.

Lemma emit_injective v : emit_inj v.
Proof.
  induction v as [|b|n|f|str|l IH|d IH] using pyval_ind; intros w s t r r' Hf Hf' Hs Ht Hr Hr' E;
    destruct (emit_tag _ _ Hf Hs) as (c & s' & Es & Hc), (emit_tag _ _ Hf' Ht) as (c' & t' & Et & Hc');
    assert (Htag : tag w = char_tag c) by (subst; rewrite !str_app_cons in E; congruence);
    rewrite Hc in Htag; clear c s' Es Hc c' t' Et Hc'; destruct w as [|b'|n'|f'|str'|l'|d']; try done;
    try (by destruct b); try (by destruct b').
  - cbn in Hs, Ht. injection Hs as <-. injection Ht as <-. by apply str_app_cancel_l in E.
  - cbn in Hs, Ht. injection Hs as <-. injection Ht as <-.
    destruct b, b'; try done; by apply str_app_cancel_l in E.
  - cbn [emit dump] in Hs, Ht. ok_steps Hs. ok_steps Ht. subst.
    destruct (num_span _ _ r r' (proj1 (str_int_num n)) (proj1 (str_int_num n')) Hr Hr' E) as [En ->].
    by apply str_int_inj in En as ->.
  - by destruct (serialize_str_prefix _ _ _ _ _ _ Hs Ht E) as [-> ->].
  - cbn [emit] in Hs, Ht. apply bind_ok in Hs as (x & Ex & [= <-]), Ht as (y & Ey & [= <-]).
    rewrite !str_app_cons in E. injection E as E.
    by destruct (emit_list_inj true l l' x y r r' IH Hf Hf' Ex Ey E) as [-> ->].
  - cbn [emit] in Hs, Ht. apply bind_ok in Hs as (x & Ex & [= <-]), Ht as (y & Ey & [= <-]).
    rewrite !str_app_cons in E. injection E as E.
    by destruct (emit_items_inj true d d' x y r r' IH Hf Hf' Ex Ey E) as [-> ->].
Qed.

(** ** Distinct keys have distinct sort keys *)

Definition scalar (p : Z) : Prop := 0 <= p < 55296 \/ 57343 < p <= 1114111.

Definition utf8_encode1 (p : Z) : string :=
  if p <? 128 then one (chr p)
  else if p <? 2048 then String (chr (192 + p / 64)) (one (chr (128 + p mod 64)))
  else if p <? 65536 then
    String (chr (224 + p / 4096)) (String (chr (128 + p / 64 mod 64)) (one (chr (128 + p mod 64))))
  else
    String (chr (240 + p / 262144)) (String (chr (128 + p / 4096 mod 64))
      (String (chr (128 + p / 64 mod 64)) (one (chr (128 + p mod 64))))).
Definition utf8_encode (l : list Z) : string := foldr (fun p s => utf8_encode1 p ++ s) EmptyString l.

Lemma code_range a : 0 <= code a < 256.
Proof. unfold code. pose proof (N_ascii_bounded a). lia. Qed.
Lemma chr_code a z : z = code a -> chr z = a.
Proof. intros ->. unfold chr, code. by rewrite N2Z.id, ascii_N_embedding. Qed.

Lemma cont_spec a y : cont a = Some y -> 0 <= y < 64 /\ code a = 128 + y.
Proof. unfold cont. case_match eqn:E; [|done]. intros [= <-]. lia. Qed.

Ltac divs := Z.div_mod_to_equations; lia.

Lemma utf8_decode_inv n s l : (String.length s <= n)%nat -> utf8_decode s = Some l ->
  s = utf8_encode l /\ Forall scalar l.
Proof.
  revert s l. induction n as [|n IH]; intros [|a s] l Hn Hd; cbn in Hn; try lia;
    try (injection Hd as <-; by split).
  cbn [utf8_decode] in Hd. pose proof (code_range a) as Ha. destruct (Z.ltb_spec (code a) 128).
  { apply fmap_Some in Hd as (l0 & Hl0 & ->). destruct (IH s l0 ltac:(lia) Hl0) as [-> Hs].
    split; [|constructor; [unfold scalar; lia|done]]. cbn. unfold utf8_encode1.
    destruct (Z.ltb_spec (code a) 128); [|lia]. cbn. f_equal. by rewrite (chr_code a). }
  destruct (Z.ltb_spec (code a) 194); [done|]. destruct s as [|b s]; [done|].
  destruct (Z.ltb_spec (code a) 224).
  { apply bind_Some in Hd as (y & [Hy Hb]%cont_spec & Hd).
    apply fmap_Some in Hd as (l0 & Hl0 & ->). cbn in Hn. destruct (IH s l0 ltac:(lia) Hl0) as [-> Hs].
    set (p := (code a - 192) * 64 + y). assert (Hp : 128 <= p < 2048) by lia.
    split; [|constructor; [unfold scalar; lia|done]]. cbn. unfold utf8_encode1.
    destruct (Z.ltb_spec p 128); [lia|]. destruct (Z.ltb_spec p 2048); [|lia]. cbn.
    by rewrite (chr_code a), (chr_code b) by (subst p; divs). }
  destruct s as [|d s]; [done|]. destruct (Z.ltb_spec (code a) 240).
  { apply bind_Some in Hd as (y & [Hy Hb]%cont_spec & Hd).
    apply bind_Some in Hd as (z & [Hz Hdd]%cont_spec & Hd). cbv zeta in Hd.
    set (p := (code a - 224) * 4096 + y * 64 + z) in *. destruct (orb _ _) eqn:Ho; [done|].
    apply fmap_Some in Hd as (l0 & Hl0 & ->). cbn in Hn. destruct (IH s l0 ltac:(lia) Hl0) as [-> Hs].
    assert (Hp : 2048 <= p < 65536) by lia.
    split; [|constructor; [unfold scalar; lia|done]]. cbn. unfold utf8_encode1.
    destruct (Z.ltb_spec p 128); [lia|]. destruct (Z.ltb_spec p 2048); [lia|].
    destruct (Z.ltb_spec p 65536); [|lia]. cbn.
    by rewrite (chr_code a), (chr_code b), (chr_code d) by (subst p; divs). }
  destruct s as [|e s]; [done|]. destruct (Z.ltb_spec (code a) 245); [|done].
  apply bind_Some in Hd as (y & [Hy Hb]%cont_spec & Hd).
  apply bind_Some in Hd as (z & [Hz Hdd]%cont_spec & Hd).
  apply bind_Some in Hd as (t & [Ht He]%cont_spec & Hd). cbv zeta in Hd.
  set (p := (code a - 240) * 262144 + y * 4096 + z * 64 + t) in *. destruct (orb _ _) eqn:Ho; [done|].
  apply fmap_Some in Hd as (l0 & Hl0 & ->). cbn in Hn. destruct (IH s l0 ltac:(lia) Hl0) as [-> Hs].
  split; [|constructor; [unfold scalar; lia|done]]. cbn. unfold utf8_encode1.
  destruct (Z.ltb_spec p 128); [lia|]. destruct (Z.ltb_spec p 2048); [lia|].
  destruct (Z.ltb_spec p 65536); [lia|]. cbn.
  by rewrite (chr_code a), (chr_code b), (chr_code d), (chr_code e) by (subst p; divs).
Qed.

Lemma utf16be_prefix p q x y : scalar p -> scalar q ->
  (utf16be p ++ x = utf16be q ++ y)%list -> p = q /\ x = y.
Proof.
  unfold scalar, utf16be, unit16. intros Hp Hq.
  destruct (Z.ltb_spec p 65536), (Z.ltb_spec q 65536); cbn; intros [= E1 E2].
  - split; [divs|done].
  - exfalso. divs.
  - exfalso. divs.
  - split; [divs|done].
Qed.

Lemma utf16_bind_inj l l' : Forall scalar l -> Forall scalar l' ->
  l ≫= utf16be = l' ≫= utf16be -> l = l'.
Proof.
  intros Hl. revert l'. induction Hl as [|p l Hp Hl IH]; intros l' Hl' E.
  - destruct Hl' as [|q l' Hq Hl']; [done|]. exfalso. cbn in E. unfold utf16be, unit16 in E.
    by destruct (q <? 65536).
  - destruct Hl' as [|q l' Hq Hl'].
    + exfalso. cbn in E. unfold utf16be, unit16 in E. by destruct (p <? 65536).
    + cbn in E. apply utf16be_prefix in E as [-> E]; [|done..]. f_equal. by apply IH.
Qed.

Lemma utf16_key_inj s t : utf8_ok s -> utf8_ok t -> utf16_key s = utf16_key t -> s = t.
Proof.
  unfold utf16_key, encode_utf16be. intros [l Hl] [l' Hl']. rewrite Hl, Hl'. intros E.
  destruct (utf8_decode_inv _ s l (Nat.le_refl _) Hl) as [-> Hs].
  destruct (utf8_decode_inv _ t l' (Nat.le_refl _) Hl') as [-> Hs'].
  f_equal. by apply utf16_bind_inj.
Qed.

(** ** The order of the members does not matter *)

Lemma bytes_leb_refl a : bytes_leb a a = true.
Proof. induction a as [|x a IH]; [done|]. cbn. rewrite Z.eqb_refl, IH. apply orb_true_r. Qed.
Lemma bytes_leb_total a b : bytes_leb a b = true \/ bytes_leb b a = true.
Proof.
  revert b. induction a as [|x a IH]; intros [|y b]; [by left..|by right|]. cbn.
  destruct (IH b); destruct (Z.ltb_spec x y), (Z.ltb_spec y x), (Z.eqb_spec x y), (Z.eqb_spec y x);
    try lia; cbn; auto.
Qed.
Lemma bytes_leb_trans a b c : bytes_leb a b = true -> bytes_leb b c = true -> bytes_leb a c = true.
Proof.
  revert b c. induction a as [|x a IH]; intros [|y b] [|z c]; try done. cbn.
  destruct (Z.ltb_spec x y), (Z.ltb_spec y z), (Z.ltb_spec x z), (Z.eqb_spec x y), (Z.eqb_spec y z),
    (Z.eqb_spec x z); try lia; cbn; try done. apply IH.
Qed.
Lemma bytes_leb_antisym a b : bytes_leb a b = true -> bytes_leb b a = true -> a = b.
Proof.
  revert b. induction a as [|x a IH]; intros [|y b]; try done. cbn.
  destruct (Z.ltb_spec x y), (Z.ltb_spec y x), (Z.eqb_spec x y), (Z.eqb_spec y x); try lia; cbn;
    try done. intros. subst. f_equal. by apply IH.
Qed.

#[global] Instance key_le_total A : Total (@key_le A).
Proof. intros x y. apply bytes_leb_total. Qed.
#[global] Instance key_le_trans A : Transitive (@key_le A).
Proof. intros x y z. apply bytes_leb_trans. Qed.

Lemma norm_items_unique {A} (d d' : list (string * A)) :
  NoDup d.*1 -> Forall (fun kv : string * A => utf8_ok kv.1) d -> d ≡ₚ d' ->
  norm_items d = norm_items d'.
Proof.
  intros Hn Hu Hp. unfold norm_items. f_equal.
  set (g := fun kv : string * A => (utf16_key kv.1, kv)).
  assert (Hperm : merge_sort key_le (g <$> d) ≡ₚ merge_sort key_le (g <$> d'))
    by by rewrite !merge_sort_Permutation, Hp.
  apply (StronglySorted_unique_strong key_le); [|apply StronglySorted_merge_sort; apply _..|done].
  intros x y Hx Hy Hxy Hyx. rewrite <- Hperm in Hy. rewrite merge_sort_Permutation in Hx, Hy.
  apply list_elem_of_fmap in Hx as ([k1 v1] & -> & Hx), Hy as ([k2 v2] & -> & Hy).
  rewrite Forall_forall in Hu. pose proof (Hu _ Hx) as U1. pose proof (Hu _ Hy) as U2.
  assert (k1 = k2) as -> by (apply utf16_key_inj; [done..|]; by apply bytes_leb_antisym).
  apply list_elem_of_lookup in Hx as [i Hi], Hy as [j Hj].
  assert (i = j) as ->; [|congruence].
  eapply (NoDup_lookup d.*1); [done|rewrite list_lookup_fmap, Hi; done|by rewrite list_lookup_fmap, Hj].
Qed.

Lemma float_free_norm v : float_free v = true -> float_free (norm v) = true.
Proof.
  induction v as [|b|n|f|str|l IH|d IH] using pyval_ind; try done; cbn [float_free norm].
  - rewrite !forallb_forall. rewrite Forall_forall in IH. intros Hf x Hx.
    apply in_map_iff in Hx as (y & <- & Hy). apply IH; [by apply list_elem_of_In|by apply Hf].
  - rewrite !forallb_forall. rewrite Forall_forall in IH. intros Hf x Hx.
    apply list_elem_of_In in Hx. rewrite norm_items_perm in Hx. apply list_elem_of_In in Hx.
    apply in_map_iff in Hx as (y & <- & Hy). cbn. apply IH; [by apply list_elem_of_In|by apply Hf].
Qed.

(** What the serialiser accepts. *)
Fixpoint in_domain (v : pyval) : bool :=
  match v with
  | PNone | PBool _ => true
  | PInt n => (INT_MIN <=? n) && (n <=? INT_MAX)
  | PFloat f => match f with S754_nan | S754_infinity _ => false | _ => true end
  | PStr s => bool_decide (is_Some (utf8_decode s))
  | PList l => forallb in_domain l
  | PDict d => forallb (fun kv => bool_decide (is_Some (utf8_decode kv.1)) && in_domain kv.2) d
  end.

Lemma emit_list_total b l : (exists s, emit_list b l = Ok s) <-> Forall (fun x => exists t, x = Ok t) l.
Proof.
  revert b. induction l as [|x l IH]; intros b; cbn [emit_list].
  - split; [done|]. by eexists.
  - rewrite Forall_cons, <- (IH false). split.
    + intros [s Ho]. apply bind_ok in Ho as (t & -> & Ho). apply bind_ok in Ho as (u & Hu & _). eauto.
    + intros [[t ->] [u Hu]]. res_simpl. rewrite Hu. by eexists.
Qed.

Lemma emit_items_total b l : (exists s, emit_items b l = Ok s) <->
  Forall (fun kv : string * res json_exc string => utf8_ok kv.1 /\ exists t, kv.2 = Ok t) l.
Proof.
  revert b. induction l as [|[k x] l IH]; intros b; cbn [emit_items].
  - split; [done|]. by eexists.
  - rewrite Forall_cons, <- (IH false). cbn. split.
    + intros [s Ho]. apply bind_ok in Ho as (kt & [Hk _]%serialize_str_ok & Ho).
      apply bind_ok in Ho as (t & -> & Ho). apply bind_ok in Ho as (u & Hu & _). eauto.
    + intros [[Hk [t ->]] [u Hu]].
      rewrite (proj2 (serialize_str_ok k _) (conj Hk eq_refl)). res_simpl. rewrite Hu. by eexists.
Qed.

(** C33. Canonical bytes identify the value: two values without floats that
    serialise to the same bytes are equal up to the order of object members,
    so a digest of the bytes binds every field that went into it. *)
Theorem canonical_bytes_identify v w s :
  float_free v = true -> float_free w = true ->
  canonical_json_bytes v = Ok s -> canonical_json_bytes w = Ok s -> norm v = norm w.
Proof.
  intros Hv Hw Es%dump_emit Et%dump_emit.
  by destruct (emit_injective (norm v) (norm w) s s EmptyString EmptyString
    (float_free_norm v Hv) (float_free_norm w Hw) Es Et) as [-> _].
Qed.

Lemma canonical_bytes_identify_witness :
  norm (PDict [("b", PInt 7); ("a", PStr "x")]) = norm (PDict [("a", PStr "x"); ("b", PInt 7)]).
Proof.
  eapply canonical_bytes_identify; [reflexivity|reflexivity|vm_compute; reflexivity|].
  vm_compute. reflexivity.
Defined.

(** The bytes of an object do not depend on the order its members were
    inserted in. *)
Theorem canonical_order_independent d d' s :
  NoDup d.*1 -> d ≡ₚ d' ->
  canonical_json_bytes (PDict d) = Ok s -> canonical_json_bytes (PDict d') = Ok s.
Proof.
  unfold canonical_json_bytes. cbn [dump]. intros Hn Hp Ho.
  apply bind_ok in Ho as (l & [Hu ->]%sort_items_ok & Ho).
  set (f := fun kv : string * pyval => (kv.1, dump kv.2)) in *.
  assert (Hp' : List.map f d ≡ₚ List.map f d') by by apply Permutation_map.
  rewrite (norm_items_unique _ (List.map f d')) in Ho; [|..|done].
  - rewrite (proj2 (sort_items_ok (List.map f d') (norm_items (List.map f d')))); [exact Ho|]. split; [|done]. by rewrite <- Hp'.
  - change (NoDup (f <$> d).*1). by rewrite <- list_fmap_compose.
  - done.
Qed.

Lemma canonical_order_independent_witness :
  canonical_json_bytes (PDict [("a", PInt 1); ("b", PList [PNone])])
    = canonical_json_bytes (PDict [("b", PList [PNone]); ("a", PInt 1)]).
Proof.
  erewrite (canonical_order_independent [("b", PList [PNone]); ("a", PInt 1)]
              [("a", PInt 1); ("b", PList [PNone])]);
    [symmetry; vm_compute; reflexivity|by apply (bool_decide_unpack _)|apply Permutation_swap|].
  vm_compute. reflexivity.
Defined.

Definition dumps_ok (v : pyval) : Prop := (exists s, dump v = Ok s) <-> in_domain v = true.

Lemma dumps_ok_list l : Forall dumps_ok l -> dumps_ok (PList l).
Proof.
  unfold dumps_ok. cbn [dump in_domain]. rewrite forallb_forall, Forall_forall. intros IH.
  assert (Hl : (exists s, emit_list true (List.map dump l) = Ok s) <-> forall x, In x l -> in_domain x = true).
  { rewrite emit_list_total, Forall_forall. split.
    - intros Hx x Hi. apply IH; [by apply list_elem_of_In|]. apply Hx.
      apply list_elem_of_In, in_map_iff. by exists x.
    - intros Hx y Hy. apply list_elem_of_In, in_map_iff in Hy as (x & <- & Hi).
      apply IH; [by apply list_elem_of_In|by apply Hx]. }
  rewrite <- Hl. split; [intros [s Ho]; apply bind_ok in Ho as (t & Ht & _); by eexists|].
  intros [t Ht]. eexists. by rewrite Ht.
Qed.

Lemma dumps_ok_dict d : Forall (fun kv : string * pyval => dumps_ok kv.2) d -> dumps_ok (PDict d).
Proof.
  unfold dumps_ok. cbn [dump in_domain]. rewrite forallb_forall, Forall_forall. intros IH.
  set (g := fun kv : string * pyval => (kv.1, dump kv.2)).
  assert (Hl : (exists s, emit_items true (norm_items (List.map g d)) = Ok s) <->
    forall kv, In kv d -> bool_decide (is_Some (utf8_decode kv.1)) && in_domain kv.2 = true).
  { rewrite emit_items_total, norm_items_perm, Forall_forall. split.
    - intros Hx kv Hi. destruct (Hx (g kv)) as [Hu Ho];
        [apply list_elem_of_In, in_map_iff; by exists kv|].
      apply andb_true_iff. split; [by apply bool_decide_eq_true|].
      apply IH; [by apply list_elem_of_In|done].
    - intros Hx y Hy. apply list_elem_of_In, in_map_iff in Hy as (kv & <- & Hi).
      specialize (Hx kv Hi). apply andb_true_iff in Hx as [Hu%bool_decide_eq_true Ho].
      split; [done|]. apply IH; [by apply list_elem_of_In|done]. }
  rewrite <- Hl. split.
  - intros [s Ho]. apply bind_ok in Ho as (k & [_ ->]%sort_items_ok & Ho).
    apply bind_ok in Ho as (t & Ht & _). by eexists.
  - intros [t Ht]. rewrite (proj2 (sort_items_ok (List.map g d) (norm_items (List.map g d)))).
    + res_simpl. rewrite Ht. by eexists.
    + split; [|done]. rewrite <- norm_items_perm. by eapply emit_items_utf8.
Qed.

Lemma dumps_ok_all v : dumps_ok v.
Proof.
  induction v as [|b|n|f|str|l IH|d IH] using pyval_ind;
    [..|by apply dumps_ok_list|by apply dumps_ok_dict]; unfold dumps_ok; cbn [dump in_domain].
  - split; [done|by eexists].
  - split; [done|by eexists].
  - destruct (Z.ltb_spec n INT_MIN), (Z.ltb_spec INT_MAX n); cbn [orb]; split; intros Hx; try lia;
      try (by destruct Hx); by eexists.
  - destruct f as [| | |[]]; cbn; split; try done; try (by intros [? ?]); by eexists.
  - rewrite bool_decide_eq_true. split; [by intros (s & [? _]%serialize_str_ok)|].
    intros Hu. eexists. by apply serialize_str_ok.
Qed.

(** The serialiser returns exactly on values whose integers are within
    2^53 - 1, whose floats are finite and whose texts encode to UTF-8; on
    anything else it raises. *)
Theorem canonical_domain v : is_ok (canonical_json_bytes v) = in_domain v.
Proof.
  pose proof (dumps_ok_all v) as Hv. unfold dumps_ok, canonical_json_bytes in *.
  destruct (dump v) as [s|e], (in_domain v); try done; exfalso.
  - discriminate (proj1 Hv (ex_intro _ s eq_refl)).
  - by destruct (proj2 Hv eq_refl).
Qed.

End CanonicalJson.

(** The digest and serialisation services the runtime really uses. *)
Definition ardur_digests : Digests := {|
  Prelude.sha256_hex := Sha256.sha256_hex;
  Prelude.canonical_json_bytes v :=
    match CanonicalJson.canonical_json_bytes v with Ok s => Some s | Raise _ => None end;
  Prelude.sha256_hex_shape := Sha256.sha256_hex_match
|}.

(** A cheap digest of the same shape, for witnesses that evaluate many of
    them: a 64-bit polynomial hash, written out four times. *)
Definition poly_hash (s : string) : Z :=
  foldl (fun h b => (h * 1099511628211 + b + 1) mod 2 ^ 64) 7 (Sha256.bytes s).
Definition demo_digests : Digests := {|
  Prelude.sha256_hex s :=
    let h := poly_hash s in let hi := h / 2 ^ 32 in let lo := h mod 2 ^ 32 in
    Sha256.hexdigest [hi; lo; hi; lo; hi; lo; hi; lo];
  Prelude.canonical_json_bytes v :=
    match CanonicalJson.canonical_json_bytes v with Ok s => Some s | Raise _ => None end;
  Prelude.sha256_hex_shape s := Sha256.hexdigest_shape _
|}.
