(* ===== verification/SpendPolicy.v ===== *)
(** * Spend policy and price quotes

    The first half of [src/python/vibap/spend_budget.py]: the field
    validators, [normalize_spend_budget], [SpendQuote] with its integer price
    arithmetic, [StaticSpendQuoteStore] and [SpendReservationRequest]. *)

From S2P Require Import Prelude.
Open Scope string_scope.
Open Scope Z_scope.

Definition SPEND_BUDGET_VERSION : Z := 1.
Definition SPEND_QUOTE_VERSION : Z := 1.
Definition MAX_SAFE_INTEGER : Z := 9007199254740991.
Definition MAX_METERED_TOOLS : nat := 256.

(** [SpendBudgetError] and its subclass, with the [reason_code], and the
    serialiser's refusal of a value outside RFC 8785's domain. *)
Inductive spend_exc : Type :=
| SpendBudgetError (reason_code : string)
| SpendBudgetConflictError (reason_code : string)
| CanonicalizationError.

#[global] Instance spend_exc_eq_dec : EqDecision spend_exc.
Proof. solve_decision. Defined.

Abbreviation spend_invalid := (SpendBudgetError "spend_policy_invalid").

(** ** The two dimensions

    A Python dict whose keys are checked to be exactly [_DIMENSIONS] is an
    [amounts], one keyed by [_SCOPES] is a [per_scope]. *)

Record amounts := Amounts { tokens : Z; currency_micros : Z }.
#[global] Instance amounts_eq_dec : EqDecision amounts.
Proof. solve_decision. Defined.

Inductive dimension := Tokens | CurrencyMicros.
#[global] Instance dimension_eq_dec : EqDecision dimension.
Proof. solve_decision. Defined.

Definition dimension_name (d : dimension) : string :=
  match d with Tokens => "tokens" | CurrencyMicros => "currency_micros" end.

Definition DIMENSIONS : list dimension := [Tokens; CurrencyMicros].

Definition at_dim (a : amounts) (d : dimension) : Z :=
  match d with Tokens => tokens a | CurrencyMicros => currency_micros a end.

(** [ceilings[dimension][scope]]. *)
Record ceilings := Ceilings { c_tokens : per_scope Z; c_currency_micros : per_scope Z }.
#[global] Instance ceilings_eq_dec : EqDecision ceilings.
Proof. solve_decision. Defined.

Definition ceil_at (c : ceilings) (d : dimension) (s : scope) : Z :=
  at_scope (match d with Tokens => c_tokens c | CurrencyMicros => c_currency_micros c end) s.

(** ** Field validators *)

Definition non_negative_int (value : pyval) : res spend_exc Z :=
  match value with
  | PInt z => if (z <? 0) || (MAX_SAFE_INTEGER <? z) then Raise spend_invalid else Ok z
  | _ => Raise spend_invalid
  end.

Definition bounded_string (value : pyval) (max_bytes : Z) : res spend_exc string :=
  match value with
  | PStr s =>
      let normalized := py_strip s in
      raise_if negb (non_empty normalized) with spend_invalid ;;
      raise_if max_bytes <? byte_len normalized with spend_invalid ;;
      Ok normalized
  | _ => Raise spend_invalid
  end.

Definition currency_of (value : pyval) : res spend_exc string :=
  normalized ← bounded_string value 3;
  raise_if negb (currency_match normalized) with spend_invalid ;;
  Ok normalized.

Definition reject_unknown_fields (value : list (string * pyval)) (allowed : list string)
    : res spend_exc unit :=
  raise_if negb (subset_b (dkeys value) allowed) with spend_invalid ;; Ok tt.

(** ** The signed [spend_budget] claim *)

Record spend_policy := SpendPolicy {
  sp_currency : string;
  sp_metered_tools : list string;
  sp_ceilings : ceilings;
  sp_lineage_id : option string
}.

Definition scope_ceilings (ceilings_raw : list (string * pyval)) (d : dimension)
    : res spend_exc (per_scope Z) :=
  match py_get (dimension_name d) ceilings_raw with
  | PDict scope_raw =>
      raise_if negb (same_set (dkeys scope_raw) (scope_name <$> SCOPES)) with spend_invalid ;;
      s ← non_negative_int (py_get "session" scope_raw);
      a ← non_negative_int (py_get "agent" scope_raw);
      l ← non_negative_int (py_get "lineage" scope_raw);
      Ok (PerScope s a l)
  | _ => Raise spend_invalid
  end.

Definition effective_lineage_id (claimed : pyval) (lineage_id : option string)
    (require_lineage_id : bool) : res spend_exc (option string) :=
  _ ← match lineage_id, claimed with
      | None, _ | _, PNone => Ok tt
      | Some l, _ =>
          normalized_claimed ← bounded_string claimed 256;
          raise_if negb (String.eqb normalized_claimed l) with spend_invalid ;; Ok tt
      end;
  match (match lineage_id with Some l => PStr l | None => claimed end) with
  | PNone => raise_if require_lineage_id with spend_invalid ;; Ok None
  | effective => l ← bounded_string effective 256; Ok (Some l)
  end.

Definition normalize_spend_budget (raw : pyval) (lineage_id : option string)
    (require_lineage_id : bool) : res spend_exc spend_policy :=
  match raw with
  | PDict raw =>
      _ ← reject_unknown_fields raw
            ["version"; "currency"; "metered_tools"; "ceilings"; "lineage_id"];
      version ← non_negative_int (py_get "version" raw);
      raise_if negb (version =? SPEND_BUDGET_VERSION) with spend_invalid ;;
      currency ← currency_of (py_get "currency" raw);
      match py_get "metered_tools" raw with
      | PList tools_raw =>
          raise_if (length tools_raw =? 0)%nat with spend_invalid ;;
          raise_if (MAX_METERED_TOOLS <? length tools_raw)%nat with spend_invalid ;;
          names ← mapR (fun item => bounded_string item 256) tools_raw;
          let tools := sorted_set names in
          raise_if negb (length tools =? length tools_raw)%nat with spend_invalid ;;
          match py_get "ceilings" raw with
          | PDict ceilings_raw =>
              _ ← reject_unknown_fields ceilings_raw (dimension_name <$> DIMENSIONS);
              raise_if negb (same_set (dkeys ceilings_raw) (dimension_name <$> DIMENSIONS))
                with spend_invalid ;;
              t ← scope_ceilings ceilings_raw Tokens;
              m ← scope_ceilings ceilings_raw CurrencyMicros;
              effective ← effective_lineage_id (py_get "lineage_id" raw) lineage_id
                            require_lineage_id;
              Ok (SpendPolicy currency tools (Ceilings t m) effective)
          | _ => Raise spend_invalid
          end
      | _ => Raise spend_invalid
      end
  | _ => Raise spend_invalid
  end.

(** The normalized claim as the dict the code returns. *)
Definition per_scope_dict (p : per_scope Z) : pyval :=
  PDict [("session", PInt (session p)); ("agent", PInt (agent p));
         ("lineage", PInt (lineage p))].
Definition ceilings_dict (c : ceilings) : pyval :=
  PDict [("tokens", per_scope_dict (c_tokens c));
         ("currency_micros", per_scope_dict (c_currency_micros c))].
Definition spend_policy_dict (p : spend_policy) : pyval :=
  PDict ([("version", PInt SPEND_BUDGET_VERSION);
          ("currency", PStr (sp_currency p));
          ("metered_tools", PList (PStr <$> sp_metered_tools p));
          ("ceilings", ceilings_dict (sp_ceilings p))]
         ++ match sp_lineage_id p with
            | Some l => [("lineage_id", PStr l)]
            | None => []
            end).

(** ** Price quotes *)

Record SpendQuote := MkQuote {
  quote_id : string;
  q_tool_name : string;
  q_model : string;
  q_currency : string;
  input_micros_per_million_tokens : Z;
  output_micros_per_million_tokens : Z;
  valid_from : Z;
  valid_until : Z
}.

(** [SpendQuote.__post_init__]: normalise and check every constructor argument. *)
Definition new_quote (id tool model currency input output from until : pyval)
    : res spend_exc SpendQuote :=
  id ← bounded_string id 256;
  tool ← bounded_string tool 256;
  model ← bounded_string model 256;
  currency ← currency_of currency;
  input ← non_negative_int input;
  output ← non_negative_int output;
  from ← non_negative_int from;
  until ← non_negative_int until;
  raise_if until <=? from with SpendBudgetError "spend_quote_invalid" ;;
  Ok (MkQuote id tool model currency input output from until).

Definition canonical_payload (q : SpendQuote) : pyval :=
  PDict [("version", PInt SPEND_QUOTE_VERSION);
         ("quote_id", PStr (quote_id q));
         ("tool_name", PStr (q_tool_name q));
         ("model", PStr (q_model q));
         ("currency", PStr (q_currency q));
         ("input_micros_per_million_tokens", PInt (input_micros_per_million_tokens q));
         ("output_micros_per_million_tokens", PInt (output_micros_per_million_tokens q));
         ("valid_from", PInt (valid_from q));
         ("valid_until", PInt (valid_until q))].

Definition ceil_div (numerator denominator : Z) : Z :=
  (numerator + denominator - 1) / denominator.

(** The price of a number of tokens in micros, rounded up per direction. *)
Definition price (rate_in rate_out input output : Z) : Z :=
  ceil_div (input * rate_in) 1000000 + ceil_div (output * rate_out) 1000000.

(** [SpendQuote.reserve_amounts]. *)
Definition reserve_amounts (q : SpendQuote) (input_tokens output_tokens : pyval)
    : res spend_exc amounts :=
  input_count ← non_negative_int input_tokens;
  output_count ← non_negative_int output_tokens;
  let total_tokens := input_count + output_count in
  raise_if MAX_SAFE_INTEGER <? total_tokens with SpendBudgetError "spend_amount_overflow" ;;
  let input_micros :=
    ceil_div (input_count * input_micros_per_million_tokens q) 1000000 in
  let output_micros :=
    ceil_div (output_count * output_micros_per_million_tokens q) 1000000 in
  let money := input_micros + output_micros in
  raise_if MAX_SAFE_INTEGER <? money with SpendBudgetError "spend_amount_overflow" ;;
  Ok (Amounts total_tokens money).

(** [StaticSpendQuoteStore.__init__]. *)
Definition new_quote_store (quotes : list SpendQuote) : res spend_exc (gmap string SpendQuote) :=
  foldR (fun q (by_id : gmap string SpendQuote) =>
           match by_id !! quote_id q with
           | Some _ => Raise (SpendBudgetError "spend_quote_invalid")
           | None => Ok (<[quote_id q := q]> by_id)
           end) quotes ∅.

(** [StaticSpendQuoteStore.resolve]; [now] is the observed epoch second. *)
Definition resolve_quote (store : gmap string SpendQuote)
    (id tool_name model currency : string) (now : Z) : res spend_exc SpendQuote :=
  match store !! id with
  | None => Raise (SpendBudgetError "spend_quote_unknown")
  | Some q =>
      raise_if negb (String.eqb (q_tool_name q) tool_name)
               || negb (String.eqb (q_model q) model)
        with SpendBudgetError "spend_quote_scope_mismatch" ;;
      raise_if negb (String.eqb (q_currency q) currency)
        with SpendBudgetError "spend_quote_currency_mismatch" ;;
      raise_if now <? valid_from q with SpendBudgetError "spend_quote_not_yet_valid" ;;
      raise_if valid_until q <=? now with SpendBudgetError "spend_quote_expired" ;;
      Ok q
  end.

Record SpendReservationRequest := MkRequest {
  request_id : string;
  r_quote_id : string;
  r_model : string;
  max_input_tokens : Z;
  max_output_tokens : Z
}.

(** [SpendReservationRequest.__post_init__]. *)
Definition new_request (id quote model input output : pyval)
    : res spend_exc SpendReservationRequest :=
  id ← bounded_string id 512;
  quote ← bounded_string quote 256;
  model ← bounded_string model 256;
  input ← non_negative_int input;
  output ← non_negative_int output;
  raise_if input + output <=? 0 with SpendBudgetError "spend_request_invalid" ;;
  Ok (MkRequest id quote model input output).

(** ** Properties *)

Section Arithmetic.

Lemma ceil_div_spec n d : 0 < d -> n <= d * ceil_div n d < n + d.
Proof.
  intros Hd. unfold ceil_div.
  pose proof (Z.div_mod (n + d - 1) d ltac:(lia)).
  pose proof (Z.mod_pos_bound (n + d - 1) d Hd). lia.
Qed.

Lemma ceil_div_mono n m d : 0 < d -> n <= m -> ceil_div n d <= ceil_div m d.
Proof. intros. apply Z.div_le_mono; lia. Qed.

Lemma ceil_div_nonneg n d : 0 < d -> 0 <= n -> 0 <= ceil_div n d.
Proof. intros. apply Z.div_pos; lia. Qed.

Lemma price_mono ri ro i o i' o' :
  0 <= ri -> 0 <= ro -> 0 <= i <= i' -> 0 <= o <= o' -> price ri ro i o <= price ri ro i' o'.
Proof.
  intros. apply Z.add_le_mono; apply ceil_div_mono; try lia; nia.
Qed.

Lemma price_nonneg ri ro i o :
  0 <= ri -> 0 <= ro -> 0 <= i -> 0 <= o -> 0 <= price ri ro i o.
Proof. intros. apply Z.add_nonneg_nonneg; apply ceil_div_nonneg; lia || nia. Qed.

End Arithmetic.

Lemma non_negative_int_ok v z :
  non_negative_int v = Ok z -> v = PInt z /\ 0 <= z <= MAX_SAFE_INTEGER.
Proof.
  destruct v; try discriminate. unfold non_negative_int.
  destruct (orb _ _) eqn:E; [discriminate|]. intros [= <-]. split; [done|lia].
Qed.

Lemma non_negative_int_in z : 0 <= z <= MAX_SAFE_INTEGER -> non_negative_int (PInt z) = Ok z.
Proof. intros. unfold non_negative_int. destruct (orb _ _) eqn:E; [lia|done]. Qed.

(** What a quote charges: exactly the tokens, and a price that is within one
    micro per direction above the exact rational price and never below it. *)
Lemma reserve_amounts_spec q i o a :
  0 <= input_micros_per_million_tokens q -> 0 <= output_micros_per_million_tokens q ->
  reserve_amounts q i o = Ok a ->
  exists ni no, i = PInt ni /\ o = PInt no /\ 0 <= ni /\ 0 <= no /\
    tokens a = ni + no /\ 0 <= tokens a <= MAX_SAFE_INTEGER /\
    currency_micros a = price (input_micros_per_million_tokens q)
                              (output_micros_per_million_tokens q) ni no /\
    0 <= currency_micros a <= MAX_SAFE_INTEGER.
Proof.
  intros Hi Ho H. unfold reserve_amounts in H.
  destruct (non_negative_int i) as [ni|] eqn:E1; simpl in H; [|discriminate].
  destruct (non_negative_int o) as [no|] eqn:E2; simpl in H; [|discriminate].
  apply non_negative_int_ok in E1 as [-> ?]. apply non_negative_int_ok in E2 as [-> ?].
  destruct (_ <? _) eqn:E3; [discriminate|].
  fold (price (input_micros_per_million_tokens q) (output_micros_per_million_tokens q) ni no) in H.
  destruct (_ <? price _ _ _ _) eqn:E4; [discriminate|].
  injection H as <-. exists ni, no. simpl.
  pose proof (price_nonneg _ _ ni no Hi Ho). repeat split; lia.
Qed.

Lemma bounded_string_ok v n s :
  bounded_string v n = Ok s ->
  (exists t, v = PStr t /\ s = py_strip t) /\ s <> "" /\ byte_len s <= n.
Proof.
  destruct v as [| | | |t| |]; try discriminate. simpl.
  intros H. ok_steps H. subst s. split; [by exists t|].
  destruct (py_strip t); simpl in *; split; [done..|done|lia].
Qed.

(** Normalised text is a fixed point of the validator. *)
Lemma bounded_string_fix v n s : bounded_string v n = Ok s -> bounded_string (PStr s) n = Ok s.
Proof.
  intros H. pose proof (bounded_string_ok _ _ _ H) as [(t & -> & ->) [Hne Hlen]].
  simpl. rewrite py_strip_idem. destruct (py_strip t) eqn:E; [done|]. simpl non_empty. cbn [negb].
  destruct (_ <? _) eqn:G; [lia|done].
Qed.

Lemma currency_of_fix v s : currency_of v = Ok s -> currency_of (PStr s) = Ok s.
Proof.
  unfold currency_of. intros H. ok_steps H. subst.
  rewrite (bounded_string_fix _ _ _ E). res_simpl. by rewrite G.
Qed.

Lemma scope_ceilings_bounds raw d p s :
  scope_ceilings raw d = Ok p -> 0 <= at_scope p s <= MAX_SAFE_INTEGER.
Proof.
  unfold scope_ceilings. destruct (py_get _ raw); try discriminate.
  intros H. ok_steps H. subst p.
  apply non_negative_int_ok in E as [_ ?], E0 as [_ ?], E1 as [_ ?]. by destruct s.
Qed.

Lemma scope_ceilings_of_dict raw c :
  (forall d s, 0 <= ceil_at c d s <= MAX_SAFE_INTEGER) ->
  ceilings_dict c = PDict raw ->
  scope_ceilings raw Tokens = Ok (c_tokens c) /\
  scope_ceilings raw CurrencyMicros = Ok (c_currency_micros c).
Proof.
  intros Hb [= <-]. destruct c as [[ts ta tl] [ms ma ml]].
  pose proof (fun d => Hb d Session) as B1. pose proof (fun d => Hb d Agent) as B2.
  pose proof (fun d => Hb d Lineage) as B3.
  pose proof (B1 Tokens). pose proof (B1 CurrencyMicros). pose proof (B2 Tokens).
  pose proof (B2 CurrencyMicros). pose proof (B3 Tokens). pose proof (B3 CurrencyMicros).
  cbn in * |-. split; cbn -[non_negative_int]; by rewrite !non_negative_int_in by done.
Qed.

(** A policy the normaliser can produce. *)
Record policy_wf (p : spend_policy) : Prop := {
  pw_currency : currency_of (PStr (sp_currency p)) = Ok (sp_currency p);
  pw_tools : Forall (fun t => bounded_string (PStr t) 256 = Ok t) (sp_metered_tools p);
  pw_sorted : sorted_set (sp_metered_tools p) = sp_metered_tools p;
  pw_count : (0 < length (sp_metered_tools p) <= MAX_METERED_TOOLS)%nat;
  pw_ceilings : forall d s, 0 <= ceil_at (sp_ceilings p) d s <= MAX_SAFE_INTEGER;
  pw_lineage : forall l, sp_lineage_id p = Some l -> bounded_string (PStr l) 256 = Ok l
}.

Lemma effective_lineage_fix v l r o t :
  effective_lineage_id v l r = Ok o -> o = Some t -> bounded_string (PStr t) 256 = Ok t.
Proof.
  unfold effective_lineage_id. intros H ->. bind_inv H. clear E x.
  destruct (match l with Some l => PStr l | None => v end);
    ok_steps H; try discriminate; subst; by eapply bounded_string_fix.
Qed.

Lemma normalize_wf raw l r p : normalize_spend_budget raw l r = Ok p -> policy_wf p.
Proof.
  destruct raw as [| | | | | |raw]; try discriminate. unfold normalize_spend_budget.
  intros H. ok_steps H. destruct (py_get "metered_tools" raw) as [| | | | |tools_raw|]; try discriminate.
  ok_steps H. destruct (py_get "ceilings" raw) as [| | | | | |c]; try discriminate.
  ok_steps H. subst p. constructor; cbn [sp_currency sp_metered_tools sp_ceilings sp_lineage_id].
  - by eapply currency_of_fix.
  - apply Forall_forall. intros t Ht. rewrite elem_of_sorted_set in Ht.
    apply mapR_Forall2 in E2. apply list_elem_of_lookup in Ht as [i Hi].
    destruct (Forall2_lookup_r _ _ _ _ _ E2 Hi) as (v & _ & Hv). by eapply bounded_string_fix.
  - apply sorted_set_idem.
  - apply negb_false_iff, Nat.eqb_eq in G2. rewrite G2. apply Nat.eqb_neq in G0.
    apply Nat.ltb_ge in G1. lia.
  - intros [] s; by eapply scope_ceilings_bounds.
  - intros t ->. by eapply effective_lineage_fix.
Qed.

(** Normalising a normalised claim, as every hop of a delegation chain does,
    gives it back unchanged. *)
Lemma normalize_policy_dict_at p o r :
  policy_wf p -> o = None \/ o = sp_lineage_id p -> (r = true -> sp_lineage_id p <> None) ->
  normalize_spend_budget (spend_policy_dict p) o r = Ok p.
Proof.
  intros [Hc Ht Hs Hn Hb Hl] Ho Hr. destruct p as [cur tools c lin].
  cbn [sp_currency sp_metered_tools sp_ceilings sp_lineage_id] in *.
  destruct (scope_ceilings_of_dict _ c Hb eq_refl) as [Et Em].
  unfold normalize_spend_budget, spend_policy_dict.
  cbn [sp_currency sp_metered_tools sp_ceilings sp_lineage_id].
  set (d := (_ ++ _)%list). assert (Hk : reject_unknown_fields d
    ["version"; "currency"; "metered_tools"; "ceilings"; "lineage_id"] = Ok tt)
    by (unfold d; destruct lin; reflexivity).
  assert (py_get "version" d = PInt 1 /\ py_get "currency" d = PStr cur /\
    py_get "metered_tools" d = PList (PStr <$> tools) /\ py_get "ceilings" d = ceilings_dict c /\
    py_get "lineage_id" d = match lin with Some l => PStr l | None => PNone end)
    as (-> & -> & -> & Hcd & ->) by (unfold d; destruct lin; done).
  rewrite Hk, non_negative_int_in by (vm_compute; split; discriminate).
  res_simpl. change (negb (1 =? SPEND_BUDGET_VERSION)) with false. cbn [negb].
  rewrite Hc. res_simpl. rewrite length_fmap.
  destruct (length tools =? 0)%nat eqn:G0; [lia|].
  destruct (MAX_METERED_TOOLS <? length tools)%nat eqn:G1; [lia|].
  assert (Hm : mapR (fun item => bounded_string item 256) (PStr <$> tools) = Ok tools).
  { apply mapR_Forall2, Forall2_fmap_l. clear -Ht. induction Ht; by constructor. }
  rewrite Hm. res_simpl. rewrite Hs, Nat.eqb_refl. cbn [negb]. rewrite Hcd.
  unfold ceilings_dict in Et, Em |- *.
  change (reject_unknown_fields _ (dimension_name <$> DIMENSIONS)) with (@Ok spend_exc unit tt).
  res_simpl. change (negb (same_set _ _)) with false. cbn [negb].
  rewrite Et. res_simpl. rewrite Em. res_simpl.
  unfold effective_lineage_id. destruct lin as [l|], o as [o|]; res_simpl.
  - destruct Ho as [|[= ->]]; [done|]. rewrite (Hl l eq_refl). res_simpl.
    rewrite String.eqb_refl. by destruct c.
  - rewrite (Hl l eq_refl). by destruct c.
  - by destruct Ho.
  - destruct r; [by destruct Hr|by destruct c].
Qed.

Lemma normalize_policy_dict p r :
  policy_wf p -> (r = true -> sp_lineage_id p <> None) ->
  normalize_spend_budget (spend_policy_dict p) None r = Ok p.
Proof. intros. apply normalize_policy_dict_at; auto. Qed.

(** Normalising a spend claim is idempotent: the dictionary a
    normalised claim is written back as normalises to the same policy, so
    every hop of a delegation chain reads the ceilings its parent wrote. *)
Theorem normalize_idempotent raw l r p :
  normalize_spend_budget raw l r = Ok p ->
  normalize_spend_budget (spend_policy_dict p) None false = Ok p /\
  (sp_lineage_id p <> None -> normalize_spend_budget (spend_policy_dict p) None true = Ok p).
Proof.
  intros Hn%normalize_wf. split; [by apply normalize_policy_dict|].
  intros Hl. by apply normalize_policy_dict.
Qed.

Definition demo_claim : pyval :=
  let per a := PDict [("session", PInt a); ("agent", PInt (2 * a)); ("lineage", PInt (3 * a))] in
  PDict [("version", PInt 1); ("currency", PStr "EUR");
         ("metered_tools", PList [PStr " web "; PStr "llm"]);
         ("ceilings", PDict [("tokens", per 10); ("currency_micros", per 20)])].
Definition demo_normal : spend_policy :=
  SpendPolicy "EUR" ["llm"; "web"] (Ceilings (PerScope 10 20 30) (PerScope 20 40 60)) None.

Lemma normalize_idempotent_witness :
  normalize_spend_budget (spend_policy_dict demo_normal) None false = Ok demo_normal.
Proof.
  destruct (normalize_idempotent demo_claim None false demo_normal) as [Hn _].
  - vm_compute. reflexivity.
  - exact Hn.
Defined.

(** The price of a call is exact up to rounding: a quote charges the
    sum of the tokens and, per direction, the rate rounded up to a whole
    micro, never below the exact price and less than two micros above it; an
    amount over 2^53 - 1 is refused instead of wrapping. *)
Theorem reserve_amounts_exact q i o :
  0 <= i <= MAX_SAFE_INTEGER -> 0 <= o <= MAX_SAFE_INTEGER ->
  0 <= input_micros_per_million_tokens q -> 0 <= output_micros_per_million_tokens q ->
  let exact := i * input_micros_per_million_tokens q + o * output_micros_per_million_tokens q in
  exists m, exact <= m * 1000000 < exact + 2000000 /\
    reserve_amounts q (PInt i) (PInt o) =
      if (i + o <=? MAX_SAFE_INTEGER) && (m <=? MAX_SAFE_INTEGER)
      then Ok (Amounts (i + o) m) else Raise (SpendBudgetError "spend_amount_overflow").
Proof.
  intros Hi Ho Hri Hro exact.
  exists (price (input_micros_per_million_tokens q) (output_micros_per_million_tokens q) i o). split.
  - unfold price. pose proof (ceil_div_spec (i * input_micros_per_million_tokens q) 1000000 ltac:(lia)).
    pose proof (ceil_div_spec (o * output_micros_per_million_tokens q) 1000000 ltac:(lia)). lia.
  - unfold reserve_amounts. rewrite !non_negative_int_in by done. res_simpl.
    fold (price (input_micros_per_million_tokens q) (output_micros_per_million_tokens q) i o).
    set (m := price _ _ _ _). clearbody m.
    destruct (Z.ltb_spec MAX_SAFE_INTEGER (i + o)), (Z.leb_spec (i + o) MAX_SAFE_INTEGER); try lia;
      [done|]. destruct (Z.ltb_spec MAX_SAFE_INTEGER m), (Z.leb_spec m MAX_SAFE_INTEGER); done || lia.
Qed.

Lemma reserve_amounts_exact_witness :
  exists m, 1 * 3 + 1 * 7 <= m * 1000000 < 1 * 3 + 1 * 7 + 2000000 /\
    reserve_amounts (MkQuote "q" "t" "m" "USD" 3 7 0 1) (PInt 1) (PInt 1)
    = (if (1 + 1 <=? MAX_SAFE_INTEGER) && (m <=? MAX_SAFE_INTEGER)
       then Ok (Amounts (1 + 1) m) else Raise (SpendBudgetError "spend_amount_overflow")).
Proof.
  apply (reserve_amounts_exact (MkQuote "q" "t" "m" "USD" 3 7 0 1) 1 1); by vm_compute.
Defined.
