(* ===== verification/SpendLedger.v ===== *)
(** * The spend ledger

    [FileSpendBudgetLedger] of [src/python/vibap/spend_budget.py]: the
    reserve / settle / cancel / quarantine life cycle of a spend reservation,
    the per-scope totals, and the validator that guards every load and every
    write of a ledger file.

    A ledger file is the record [payload]; the ledger directory is a map from
    file name to payload.  Every public method holds the file lock from its
    [_load] to its [_persist], so a call is one atomic transition.  Reads of
    the clock are arguments.  Dicts checked to carry exactly a fixed key set
    are records, so the [isinstance] and key-set tests of the validator hold
    by typing and its value tests are written out. *)

From S2P Require Import Prelude SpendPolicy.
Open Scope string_scope.
Open Scope Z_scope.

Definition SPEND_LEDGER_VERSION : Z := 1.
Definition MAX_LEDGER_RECORDS : nat := Z.to_nat 100000.

Definition amt0 : amounts := Amounts 0 0.
Definition amt_add (a b : amounts) : amounts :=
  Amounts (tokens a + tokens b) (currency_micros a + currency_micros b).
Definition amt_sub (a b : amounts) : amounts :=
  Amounts (tokens a - tokens b) (currency_micros a - currency_micros b).

(** [{"spent": ..., "reserved": ...}]. *)
Record totals := Totals { spent : amounts; held : amounts }.

Inductive operation := OpReject | OpRelease | OpSettle | OpQuarantine.
#[global] Instance operation_eq_dec : EqDecision operation.
Proof. solve_decision. Defined.

(** A reservation record; the optional fields are the keys that only
    [record.update] adds. *)
Record spend_record := SpendRecord {
  fingerprint : string;
  reservation_hash : string;
  quote_digest : string;
  quote_id_hash : string;
  rec_currency : string;
  reserved : amounts;
  scope_refs : per_scope string;
  rec_ceilings : ceilings;
  rec_max_input_tokens : Z;
  rec_max_output_tokens : Z;
  price_in : Z;
  price_out : Z;
  created_at : Z;
  retention_until : Z;
  op : option operation;
  reason_code : option string;
  remaining_at_decision : option (per_scope amounts);
  closed_at : option Z;
  quarantined_at : option Z;
  settled_at : option Z;
  settlement_fingerprint : option string;
  usage_proof_digest : option string;
  actual : option amounts;
  refunded : option amounts;
  reconciled : option bool
}.

Record payload := Payload {
  lineage_id_hash : string;
  scopes : gmap string totals;
  archived_spent : gmap string amounts;
  reservations : gmap string spend_record;
  closed_reservations : gmap string spend_record;
  quarantined_reservations : gmap string spend_record
}.

Definition set_scopes (m : gmap string totals) (p : payload) : payload :=
  Payload (lineage_id_hash p) m (archived_spent p) (reservations p)
    (closed_reservations p) (quarantined_reservations p).
Definition set_archived (m : gmap string amounts) (p : payload) : payload :=
  Payload (lineage_id_hash p) (scopes p) m (reservations p)
    (closed_reservations p) (quarantined_reservations p).
Definition set_reservations (m : gmap string spend_record) (p : payload) : payload :=
  Payload (lineage_id_hash p) (scopes p) (archived_spent p) m
    (closed_reservations p) (quarantined_reservations p).
Definition set_closed (m : gmap string spend_record) (p : payload) : payload :=
  Payload (lineage_id_hash p) (scopes p) (archived_spent p) (reservations p)
    m (quarantined_reservations p).
Definition set_quarantined (m : gmap string spend_record) (p : payload) : payload :=
  Payload (lineage_id_hash p) (scopes p) (archived_spent p) (reservations p)
    (closed_reservations p) m.

(** [record.update({"operation": "reject", ...})]. *)
Definition with_reject (r : spend_record) (code : string) (remaining : per_scope amounts)
    (at_ : Z) : spend_record :=
  SpendRecord (fingerprint r) (reservation_hash r) (quote_digest r) (quote_id_hash r)
    (rec_currency r) (reserved r) (scope_refs r) (rec_ceilings r) (rec_max_input_tokens r)
    (rec_max_output_tokens r) (price_in r) (price_out r) (created_at r) (retention_until r)
    (Some OpReject) (Some code) (Some remaining) (Some at_) (quarantined_at r) (settled_at r)
    (settlement_fingerprint r) (usage_proof_digest r) (actual r) (refunded r) (reconciled r).

(** [record.update({"operation": "quarantine", ...})]. *)
Definition with_quarantine (r : spend_record) (code : string) (at_ : Z) : spend_record :=
  SpendRecord (fingerprint r) (reservation_hash r) (quote_digest r) (quote_id_hash r)
    (rec_currency r) (reserved r) (scope_refs r) (rec_ceilings r) (rec_max_input_tokens r)
    (rec_max_output_tokens r) (price_in r) (price_out r) (created_at r) (retention_until r)
    (Some OpQuarantine) (Some code) (remaining_at_decision r) (closed_at r) (Some at_)
    (settled_at r) (settlement_fingerprint r) (usage_proof_digest r) (actual r) (refunded r)
    (reconciled r).

(** [record.update({"operation": "settle", ...})]. *)
Definition with_settle (r : spend_record) (settlement proof : string) (act ref : amounts)
    (at_ : Z) (rec : bool) : spend_record :=
  SpendRecord (fingerprint r) (reservation_hash r) (quote_digest r) (quote_id_hash r)
    (rec_currency r) (reserved r) (scope_refs r) (rec_ceilings r) (rec_max_input_tokens r)
    (rec_max_output_tokens r) (price_in r) (price_out r) (created_at r) (retention_until r)
    (Some OpSettle) (Some "spend_settled") (remaining_at_decision r) (closed_at r)
    (quarantined_at r) (Some at_) (Some settlement) (Some proof) (Some act) (Some ref) (Some rec).

(** The update of [_close_without_spend]. *)
Definition with_close (r : spend_record) (o : operation) (code : string) (at_ : Z)
    : spend_record :=
  SpendRecord (fingerprint r) (reservation_hash r) (quote_digest r) (quote_id_hash r)
    (rec_currency r) (reserved r) (scope_refs r) (rec_ceilings r) (rec_max_input_tokens r)
    (rec_max_output_tokens r) (price_in r) (price_out r) (created_at r) (retention_until r)
    (Some o) (Some code) (remaining_at_decision r) (Some at_) (quarantined_at r) (settled_at r)
    (settlement_fingerprint r) (usage_proof_digest r) (Some amt0) (Some (reserved r))
    (reconciled r).

Record SpendReservationResult := ReservationResult {
  accepted : bool;
  res_reason_code : string;
  res_reservation_hash : string;
  res_quote_digest : string;
  res_currency : string;
  res_reserved : amounts;
  res_remaining : per_scope amounts;
  res_idempotent : bool
}.

Record SpendCloseResult := CloseResult {
  cl_operation : operation;
  cl_reason_code : string;
  cl_reservation_hash : string;
  cl_quote_digest : string;
  cl_currency : string;
  cl_reserved : amounts;
  cl_actual : amounts;
  cl_refunded : amounts;
  cl_remaining : per_scope amounts;
  cl_idempotent : bool;
  cl_reconciled : bool
}.

Abbreviation ledger_invalid := (SpendBudgetError "spend_ledger_invalid").
Abbreviation ledger_mismatch := (SpendBudgetError "spend_ledger_accounting_mismatch").

(** ** Ledger validation *)

Definition ledger_int (z : Z) : bool := (0 <=? z) && (z <=? MAX_SAFE_INTEGER).
Definition amounts_int (a : amounts) : bool := ledger_int (tokens a) && ledger_int (currency_micros a).

(** [_validate_ledger_int], [_validate_amounts], [_validate_scope_totals]. *)
Definition validate_ledger_int (z : Z) : res spend_exc unit :=
  raise_if negb (ledger_int z) with ledger_invalid ;; Ok tt.
Definition validate_amounts (a : amounts) : res spend_exc unit :=
  raise_if negb (amounts_int a) with ledger_invalid ;; Ok tt.
Definition validate_scope_totals (t : totals) : res spend_exc unit :=
  _ ← validate_amounts (spent t); validate_amounts (held t).

Inductive container := CReservations | CClosed | CQuarantined.

Definition validate_optional_amounts (a : option amounts) : res spend_exc amounts :=
  match a with
  | Some a => _ ← validate_amounts a; Ok a
  | None => Raise ledger_invalid
  end.

Definition optional_digest (d : option string) : bool :=
  match d with Some d => digest_match d | None => false end.

(** The part of [_validate_record] that depends on the container. *)
Definition validate_operation (r : spend_record) (c : container) : res spend_exc unit :=
  match c, op r with
  | CReservations, None => Ok tt
  | CReservations, Some _ => Raise ledger_invalid
  | CQuarantined, Some OpQuarantine => Ok tt
  | CQuarantined, _ => Raise ledger_invalid
  | CClosed, Some OpReject => Ok tt
  | CClosed, Some OpSettle =>
      act ← validate_optional_amounts (actual r);
      ref ← validate_optional_amounts (refunded r);
      _ ← validate_amounts (reserved r);
      raise_if negb (bool_decide (amt_add act ref = reserved r)) with ledger_mismatch ;;
      raise_if negb (optional_digest (settlement_fingerprint r)) with ledger_invalid ;;
      raise_if negb (optional_digest (usage_proof_digest r)) with ledger_invalid ;;
      Ok tt
  | CClosed, Some OpRelease =>
      act ← validate_optional_amounts (actual r);
      ref ← validate_optional_amounts (refunded r);
      _ ← validate_amounts (reserved r);
      raise_if negb (bool_decide (act = amt0)) with ledger_mismatch ;;
      raise_if negb (bool_decide (ref = reserved r)) with ledger_mismatch ;;
      Ok tt
  | CClosed, _ => Raise ledger_invalid
  end.

Definition validate_record (c : container) (key : string) (r : spend_record)
    : res spend_exc unit :=
  raise_if negb (digest_match key) with ledger_invalid ;;
  raise_if negb (forallb digest_match
      [fingerprint r; reservation_hash r; quote_digest r; quote_id_hash r]) with ledger_invalid ;;
  raise_if negb (String.eqb (reservation_hash r) key) with ledger_invalid ;;
  raise_if negb (currency_match (rec_currency r)) with ledger_invalid ;;
  _ ← validate_amounts (reserved r);
  _ ← iterR validate_ledger_int
        [rec_max_input_tokens r; rec_max_output_tokens r; created_at r; retention_until r];
  raise_if retention_until r <=? created_at r with ledger_invalid ;;
  raise_if negb (forallb (fun s => digest_match (at_scope (scope_refs r) s)) SCOPES)
    with ledger_invalid ;;
  _ ← iterR (fun d => iterR (fun s => validate_ledger_int (ceil_at (rec_ceilings r) d s)) SCOPES)
        DIMENSIONS;
  _ ← iterR validate_ledger_int [price_in r; price_out r];
  validate_operation r c.

(** What a record adds to the total of the scope [k]: its amount once for each
    of its three references that is [k]. *)
Definition ref_share (refs : per_scope string) (k : string) (a : amounts) : amounts :=
  foldr (fun s acc => if String.eqb (at_scope refs s) k then amt_add a acc else acc) amt0 SCOPES.

Definition sum_records (f : spend_record -> amounts) (m : gmap string spend_record) : amounts :=
  map_fold (fun _ r acc => amt_add (f r) acc) amt0 m.

(** [expected_reserved[k]]. *)
Definition held_share (k : string) (r : spend_record) : amounts :=
  ref_share (scope_refs r) k (reserved r).
Definition expected_reserved (p : payload) (k : string) : amounts :=
  amt_add (sum_records (held_share k) (reservations p))
          (sum_records (held_share k) (quarantined_reservations p)).

(** [expected_spent[k]]: the archived total and every settled record. *)
Definition spent_share (k : string) (r : spend_record) : amounts :=
  match op r with
  | Some OpSettle => ref_share (scope_refs r) k (default amt0 (actual r))
  | _ => amt0
  end.
Definition expected_spent (p : payload) (k : string) : amounts :=
  amt_add (default amt0 (archived_spent p !! k))
          (sum_records (spent_share k) (closed_reservations p)).

Definition known_refs (p : payload) (r : spend_record) : bool :=
  forallb (fun s => bool_decide (is_Some (scopes p !! at_scope (scope_refs r) s))) SCOPES.

Section WithDigests.
Context `{Digests}.

(** [_opaque_hash], [_scope_hash], [_reservation_hash]. *)
Definition opaque_hash (domain value : string) : string :=
  sha256_hex ("ardur:" ++ domain ++ ":v1" ++ String "000" value).
Definition scope_hash (scope value : string) : string := opaque_hash ("scope:" ++ scope) value.
Definition reservation_hash_of (request_id : string) : res spend_exc string :=
  normalized ← bounded_string (PStr request_id) 512;
  Ok (opaque_hash "spend-reservation" normalized).

(** [_validate_payload]. *)
Definition validate_payload (p : payload) (lineage_id : string) : res spend_exc unit :=
  raise_if negb (String.eqb (lineage_id_hash p) (scope_hash "lineage" lineage_id))
    with SpendBudgetError "spend_ledger_lineage_mismatch" ;;
  _ ← iter_items (fun ref t =>
        raise_if negb (digest_match ref) with ledger_invalid ;; validate_scope_totals t)
        (scopes p);
  _ ← iter_items (fun ref a =>
        raise_if negb (bool_decide (is_Some (scopes p !! ref))) with ledger_invalid ;;
        validate_amounts a) (archived_spent p);
  let check c key r :=
    _ ← validate_record c key r;
    raise_if negb (known_refs p r) with ledger_invalid ;; Ok tt in
  _ ← iter_items (check CReservations) (reservations p);
  _ ← iter_items (check CClosed) (closed_reservations p);
  _ ← iter_items (check CQuarantined) (quarantined_reservations p);
  iter_items (fun ref t =>
    raise_if negb (bool_decide (held t = expected_reserved p ref)) with ledger_mismatch ;;
    raise_if negb (bool_decide (spent t = expected_spent p ref)) with ledger_mismatch ;;
    Ok tt) (scopes p).

(** [_scope_totals]: a missing scope is created in place. *)
Definition scope_totals (p : payload) (ref : string) : res spend_exc (payload * totals) :=
  match scopes p !! ref with
  | None => let t := Totals amt0 amt0 in Ok (set_scopes (<[ref := t]> (scopes p)) p, t)
  | Some t => _ ← validate_scope_totals t; Ok (p, t)
  end.

Definition headroom (c : ceilings) (s : scope) (t : totals) : amounts :=
  Amounts
    (Z.max 0 (ceil_at c Tokens s - tokens (spent t) - tokens (held t)))
    (Z.max 0 (ceil_at c CurrencyMicros s - currency_micros (spent t) - currency_micros (held t))).

(** [_remaining]. *)
Definition remaining (p : payload) (c : ceilings) (refs : per_scope string)
    : res spend_exc (payload * per_scope amounts) :=
  '(p, ts) ← scope_totals p (session refs);
  '(p, ta) ← scope_totals p (agent refs);
  '(p, tl) ← scope_totals p (lineage refs);
  Ok (p, PerScope (headroom c Session ts) (headroom c Agent ta) (headroom c Lineage tl)).

(** [_first_breach]. *)
Definition first_breach (requested : amounts) (rem : per_scope amounts)
    : option (scope * dimension) :=
  find (fun sd => at_dim (at_scope rem sd.1) sd.2 <? at_dim requested sd.2)
       (s ← SCOPES; d ← DIMENSIONS; [(s, d)]).

(** The loop [for scope in _SCOPES: totals = ...; totals[...] += ...]. *)
Definition update_scope (f : totals -> totals) (p : payload) (ref : string)
    : res spend_exc payload :=
  '(p, t) ← scope_totals p ref;
  Ok (set_scopes (<[ref := f t]> (scopes p)) p).
Definition update_scopes (f : totals -> totals) (p : payload) (refs : per_scope string)
    : res spend_exc payload :=
  foldR (fun s p => update_scope f p (at_scope refs s)) SCOPES p.

Definition hold (a : amounts) (t : totals) : totals := Totals (spent t) (amt_add (held t) a).
Definition unhold (a : amounts) (t : totals) : totals := Totals (spent t) (amt_sub (held t) a).
Definition settle_totals (a act : amounts) (t : totals) : totals :=
  Totals (amt_add (spent t) act) (amt_sub (held t) a).

(** [_result_from_record] and [_close_result]; both read the payload. *)
Definition result_from_record (r : spend_record) (acc : bool) (code : string) (p : payload)
    (idem : bool) : res spend_exc SpendReservationResult :=
  '(_, rem) ← remaining p (rec_ceilings r) (scope_refs r);
  Ok (ReservationResult acc code (reservation_hash r) (quote_digest r) (rec_currency r)
        (reserved r) rem idem).

Definition close_result (r : spend_record) (p : payload) (idem : bool) (rec : option bool)
    : res spend_exc (payload * SpendCloseResult) :=
  let operation := default OpQuarantine (op r) in
  let act := match operation with OpSettle => default amt0 (actual r) | _ => amt0 end in
  '(p, rem) ← remaining p (rec_ceilings r) (scope_refs r);
  Ok (p, CloseResult operation (default "spend_reservation_quarantined" (reason_code r))
           (reservation_hash r) (quote_digest r) (rec_currency r) (reserved r) act
           (default amt0 (refunded r)) rem idem
           (match rec with Some b => b | None => default false (reconciled r) end)).

End WithDigests.

(** ** Operations *)

Section Operations.
Context `{Digests}.

Definition empty_payload (lineage_id : string) : payload :=
  Payload (scope_hash "lineage" lineage_id) ∅ ∅ ∅ ∅ ∅.

(** The directory of ledger files, by file stem. *)
Definition ledger_dir := gmap string payload.

Definition load (dir : ledger_dir) (lineage_id : string) : res spend_exc payload :=
  match (dir : gmap string payload) !! scope_hash "lineage" lineage_id with
  | None => Ok (empty_payload lineage_id)
  | Some p => _ ← validate_payload p lineage_id; Ok p
  end.

Definition persist (dir : ledger_dir) (lineage_id : string) (p : payload)
    : res spend_exc ledger_dir :=
  _ ← validate_payload p lineage_id;
  Ok (<[scope_hash "lineage" lineage_id := p]> (dir : gmap string payload)).

(** [_prune_terminal_records]: drop expired closed records, keeping what the
    settled ones spent in [archived_spent]. *)
Definition archive (r : spend_record) (m : gmap string amounts) : gmap string amounts :=
  foldl (fun m s =>
           let ref := at_scope (scope_refs r) s in
           <[ref := amt_add (default amt0 (m !! ref)) (default amt0 (actual r))]> m) m SCOPES.

Definition prune_record (now : Z) (kv : string * spend_record) (p : payload) : payload :=
  let '(key, r) := kv in
  if now <? retention_until r then p
  else
    let p := match op r with
             | Some OpSettle => set_archived (archive r (archived_spent p)) p
             | _ => p
             end in
    set_closed (delete key (closed_reservations p)) p.

Definition prune_terminal_records (p : payload) (now : Z) : payload :=
  foldl (fun p kv => prune_record now kv p) p (items (closed_reservations p)).

Definition require_fingerprint (r : spend_record) (f : string) : res spend_exc unit :=
  raise_if negb (String.eqb (fingerprint r) f)
    with SpendBudgetConflictError "spend_request_conflict" ;; Ok tt.

Definition require_session_scope (r : spend_record) (session_id : string) : res spend_exc unit :=
  raise_if negb (String.eqb (session (scope_refs r)) (scope_hash "session" session_id))
    with SpendBudgetConflictError "spend_reservation_session_mismatch" ;; Ok tt.

Definition canonical_digest (v : pyval) : res spend_exc string :=
  match canonical_json_bytes v with
  | Some bytes => Ok (sha256_hex bytes)
  | None => Raise CanonicalizationError
  end.

Definition scope_refs_dict (refs : per_scope string) : pyval :=
  PDict [("session", PStr (session refs)); ("agent", PStr (agent refs));
         ("lineage", PStr (lineage refs))].

Definition fingerprint_payload (policy : spend_policy) (lineage_id : string)
    (refs : per_scope string) (q_digest r_hash : string) (request : SpendReservationRequest)
    : pyval :=
  PDict [("version", PInt SPEND_LEDGER_VERSION);
         ("lineage_id_hash", PStr (scope_hash "lineage" lineage_id));
         ("scope_refs", scope_refs_dict refs);
         ("policy", spend_policy_dict policy);
         ("quote_digest", PStr q_digest);
         ("request", PDict
            [("request_id_hash", PStr r_hash);
             ("quote_id_hash", PStr (opaque_hash "quote" (r_quote_id request)));
             ("model_hash", PStr (opaque_hash "model" (r_model request)));
             ("max_input_tokens", PInt (max_input_tokens request));
             ("max_output_tokens", PInt (max_output_tokens request))])].

(** What [reserve] computes before it takes the lock. *)
Record reserve_inputs := ReserveInputs {
  ri_policy : spend_policy;
  ri_lineage_id : string;
  ri_retention : Z;
  ri_record : spend_record
}.

Definition prepare_reserve (policy : pyval) (session_id agent_id : string)
    (request : SpendReservationRequest) (quote : SpendQuote) (observed : Z)
    (retention : option Z) : res spend_exc reserve_inputs :=
  normalized ← normalize_spend_budget policy None true;
  let lineage_id := default "" (sp_lineage_id normalized) in
  raise_if negb (String.eqb (q_currency quote) (sp_currency normalized))
    with SpendBudgetError "spend_quote_currency_mismatch" ;;
  raise_if negb (String.eqb (quote_id quote) (r_quote_id request))
           || negb (String.eqb (q_model quote) (r_model request))
    with SpendBudgetError "spend_quote_scope_mismatch" ;;
  raise_if observed <? valid_from quote with SpendBudgetError "spend_quote_not_yet_valid" ;;
  raise_if valid_until quote <=? observed with SpendBudgetError "spend_quote_expired" ;;
  terminal_retention ← non_negative_int (PInt (default (valid_until quote) retention));
  raise_if terminal_retention <=? observed with SpendBudgetError "spend_retention_expired" ;;
  amount ← reserve_amounts quote (PInt (max_input_tokens request))
             (PInt (max_output_tokens request));
  let refs := PerScope (scope_hash "session" session_id) (scope_hash "agent" agent_id)
                (scope_hash "lineage" lineage_id) in
  r_hash ← reservation_hash_of (request_id request);
  q_digest ← canonical_digest (canonical_payload quote);
  fp ← canonical_digest (fingerprint_payload normalized lineage_id refs q_digest r_hash request);
  Ok (ReserveInputs normalized lineage_id terminal_retention
        (SpendRecord fp r_hash q_digest (opaque_hash "quote" (r_quote_id request))
           (q_currency quote) amount refs (sp_ceilings normalized) (max_input_tokens request)
           (max_output_tokens request) (input_micros_per_million_tokens quote)
           (output_micros_per_million_tokens quote) observed terminal_retention
           None None None None None None None None None None None)).

(** The body of [reserve] under the lock, after [_load]: the result and the
    payload handed to [_persist], if any. *)
Definition reserve_locked (rec : spend_record) (observed : Z) (p : payload)
    : res spend_exc (option payload * SpendReservationResult) :=
  let p := prune_terminal_records p observed in
  let key := reservation_hash rec in
  match reservations p !! key with
  | Some prior =>
      _ ← require_fingerprint prior (fingerprint rec);
      r ← result_from_record prior false "spend_request_already_reserved" p true;
      Ok (None, r)
  | None =>
  match quarantined_reservations p !! key with
  | Some prior =>
      _ ← require_fingerprint prior (fingerprint rec);
      r ← result_from_record prior false "spend_reservation_quarantined" p true;
      Ok (None, r)
  | None =>
  match closed_reservations p !! key with
  | Some prior =>
      _ ← require_fingerprint prior (fingerprint rec);
      let code := match reason_code prior with
                  | Some c => if non_empty c then c else "spend_request_already_closed"
                  | None => "spend_request_already_closed"
                  end in
      r ← result_from_record prior false code p true;
      Ok (None, r)
  | None =>
      raise_if (MAX_LEDGER_RECORDS <=? size (reservations p) + size (closed_reservations p)
                                       + size (quarantined_reservations p))%nat
        with SpendBudgetError "spend_ledger_capacity_exhausted" ;;
      '(p, rem) ← remaining p (rec_ceilings rec) (scope_refs rec);
      match first_breach (reserved rec) rem with
      | Some (s, d) =>
          let code := "spend_" ++ scope_name s ++ "_" ++ dimension_name d ++ "_exhausted" in
          let rejected := with_reject rec code rem observed in
          let p := set_closed (<[key := rejected]> (closed_reservations p)) p in
          r ← result_from_record rejected false code p false;
          Ok (Some p, r)
      | None =>
          p ← update_scopes (hold (reserved rec)) p (scope_refs rec);
          let p := set_reservations (<[key := rec]> (reservations p)) p in
          r ← result_from_record rec true "spend_reserved" p false;
          Ok (Some p, r)
      end
  end end end.

(** Write the payload back when the body changed it. *)
Definition commit {A} (dir : ledger_dir) (lineage_id : string) (out : option payload * A)
    : res spend_exc (ledger_dir * A) :=
  match out.1 with
  | None => Ok (dir, out.2)
  | Some p => dir ← persist dir lineage_id p; Ok (dir, out.2)
  end.

Definition reserve (dir : ledger_dir) (policy : pyval) (session_id agent_id : string)
    (request : SpendReservationRequest) (quote : SpendQuote) (observed : Z)
    (retention : option Z) : res spend_exc (ledger_dir * SpendReservationResult) :=
  inp ← prepare_reserve policy session_id agent_id request quote observed retention;
  p ← load dir (ri_lineage_id inp);
  out ← reserve_locked (ri_record inp) observed p;
  commit dir (ri_lineage_id inp) out.

(** [_close_without_spend]; [clock] is [int(time.time())]. *)
Definition close_without_spend_locked (key session_id : string) (o : operation) (code : string)
    (clock : Z) (p : payload) : res spend_exc (option payload * SpendCloseResult) :=
  match closed_reservations p !! key with
  | Some prior =>
      _ ← require_session_scope prior session_id;
      raise_if negb (bool_decide (op prior = Some o))
               || negb (bool_decide (reason_code prior = Some code))
        with SpendBudgetConflictError "spend_close_conflict" ;;
      '(_, r) ← close_result prior p true None;
      Ok (None, r)
  | None =>
  match reservations p !! key with
  | None => Raise (SpendBudgetError "spend_reservation_unknown")
  | Some rec =>
      _ ← require_session_scope rec session_id;
      let p := set_reservations (delete key (reservations p)) p in
      p ← update_scopes (unhold (reserved rec)) p (scope_refs rec);
      let closed := with_close rec o code clock in
      let p := set_closed (<[key := closed]> (closed_reservations p)) p in
      '(_, r) ← close_result closed p false None;
      Ok (Some p, r)
  end end.

Definition cancel (dir : ledger_dir) (lineage_id session_id request_id : string)
    (reason_code : pyval) (clock : Z) : res spend_exc (ledger_dir * SpendCloseResult) :=
  code ← bounded_string reason_code 256;
  key ← reservation_hash_of request_id;
  p ← load dir lineage_id;
  out ← close_without_spend_locked key session_id OpRelease code clock p;
  commit dir lineage_id out.

(** The body of [quarantine] under the lock. *)
Definition quarantine_locked (key session_id code : string) (clock : Z) (p : payload)
    : res spend_exc (option payload * SpendCloseResult) :=
  match quarantined_reservations p !! key with
  | Some prior =>
      _ ← require_session_scope prior session_id;
      raise_if negb (bool_decide (reason_code prior = Some code))
        with SpendBudgetConflictError "spend_quarantine_conflict" ;;
      '(_, r) ← close_result prior p true None;
      Ok (None, r)
  | None =>
  match closed_reservations p !! key with
  | Some prior_closed =>
      _ ← require_session_scope prior_closed session_id;
      Raise (SpendBudgetConflictError "spend_reservation_already_closed")
  | None =>
  match reservations p !! key with
  | None => Raise (SpendBudgetError "spend_reservation_unknown")
  | Some rec =>
      _ ← require_session_scope rec session_id;
      let p := set_reservations (delete key (reservations p)) p in
      let rec := with_quarantine rec code clock in
      let p := set_quarantined (<[key := rec]> (quarantined_reservations p)) p in
      '(_, r) ← close_result rec p false None;
      Ok (Some p, r)
  end end end.

Definition quarantine (dir : ledger_dir) (lineage_id session_id request_id : string)
    (reason_code : pyval) (clock : Z) : res spend_exc (ledger_dir * SpendCloseResult) :=
  key ← reservation_hash_of request_id;
  code ← bounded_string reason_code 256;
  p ← load dir lineage_id;
  out ← quarantine_locked key session_id code clock p;
  commit dir lineage_id out.

Definition optional_str (s : option string) : pyval :=
  match s with Some s => PStr s | None => PNone end.

(** Move an active reservation to quarantine inside [settle]. *)
Definition settle_to_quarantine (key : string) (rec : spend_record) (code : string) (clock : Z)
    (from_quarantine : bool) (p : payload) : res spend_exc (option payload * SpendCloseResult) :=
  if from_quarantine then
    '(_, r) ← close_result rec p false (Some false); Ok (None, r)
  else
    let p := set_reservations (delete key (reservations p)) p in
    let rec := with_quarantine rec code clock in
    let p := set_quarantined (<[key := rec]> (quarantined_reservations p)) p in
    '(_, r) ← close_result rec p false (Some false);
    Ok (Some p, r).

(** The body of [settle] under the lock. *)
Definition settle_locked (key session_id : string) (input output : Z) (proof : option string)
    (settlement : string) (clock : Z) (p : payload)
    : res spend_exc (option payload * SpendCloseResult) :=
  match closed_reservations p !! key with
  | Some prior =>
      _ ← require_session_scope prior session_id;
      raise_if negb (bool_decide (op prior = Some OpSettle))
        with SpendBudgetConflictError "spend_settlement_conflict" ;;
      raise_if negb (bool_decide (settlement_fingerprint prior = Some settlement))
        with SpendBudgetConflictError "spend_settlement_conflict" ;;
      '(_, r) ← close_result prior p true None;
      Ok (None, r)
  | None =>
  match (match reservations p !! key with
         | Some r => Some (r, false)
         | None => (fun r => (r, true)) <$> quarantined_reservations p !! key
         end) with
  | None => Raise (SpendBudgetError "spend_reservation_unknown")
  | Some (rec, from_quarantine) =>
      _ ← require_session_scope rec session_id;
      let proof_valid := optional_digest proof in
      let within := (input <=? rec_max_input_tokens rec)
                    && (output <=? rec_max_output_tokens rec) in
      if negb proof_valid || negb within then
        settle_to_quarantine key rec
          (if negb proof_valid then "spend_settlement_evidence_missing"
           else "spend_usage_exceeds_reservation") clock from_quarantine p
      else
        let act := Amounts (input + output)
                     (price (price_in rec) (price_out rec) input output) in
        if (tokens (reserved rec) <? tokens act)
           || (currency_micros (reserved rec) <? currency_micros act) then
          settle_to_quarantine key rec "spend_usage_exceeds_reservation" clock from_quarantine p
        else
          p ← update_scopes (settle_totals (reserved rec) act) p (scope_refs rec);
          let p := if from_quarantine
                   then set_quarantined (delete key (quarantined_reservations p)) p
                   else set_reservations (delete key (reservations p)) p in
          let rec := with_settle rec settlement (default "" proof) act
                       (amt_sub (reserved rec) act) clock from_quarantine in
          let p := set_closed (<[key := rec]> (closed_reservations p)) p in
          '(_, r) ← close_result rec p false (Some from_quarantine);
          Ok (Some p, r)
  end end.

Definition settlement_payload (key : string) (input output : Z) (proof : option string) : pyval :=
  PDict [("reservation_hash", PStr key); ("actual_input_tokens", PInt input);
         ("actual_output_tokens", PInt output); ("usage_proof_digest", optional_str proof)].

Definition settle (dir : ledger_dir) (lineage_id session_id request_id : string)
    (input output : pyval) (proof : option string) (clock : Z)
    : res spend_exc (ledger_dir * SpendCloseResult) :=
  input ← non_negative_int input;
  output ← non_negative_int output;
  key ← reservation_hash_of request_id;
  settlement ← canonical_digest (settlement_payload key input output proof);
  p ← load dir lineage_id;
  out ← settle_locked key session_id input output proof settlement clock p;
  commit dir lineage_id out.

(** One iteration of the loop of [quarantine_stale]. *)
Definition stale_step (session_ref : string) (cutoff observed : Z) (kv : string * spend_record)
    (acc : payload * list SpendCloseResult)
    : res spend_exc (payload * list SpendCloseResult) :=
  let '(key, original) := kv in
  let '(p, results) := acc in
  if negb (String.eqb (session (scope_refs original)) session_ref) then Ok acc
  else if cutoff <? created_at original then Ok acc
  else
    let rec := with_quarantine original "spend_reservation_stale" observed in
    let p := set_reservations (delete key (reservations p)) p in
    let p := set_quarantined (<[key := rec]> (quarantined_reservations p)) p in
    '(p, r) ← close_result rec p false None;
    Ok (p, results ++ [r])%list.

Definition quarantine_stale (dir : ledger_dir) (lineage_id session_id : string)
    (older_than_s : pyval) (observed : Z) : res spend_exc (ledger_dir * list SpendCloseResult) :=
  age ← non_negative_int older_than_s;
  p ← load dir lineage_id;
  '(p, results) ← foldR (stale_step (scope_hash "session" session_id) (observed - age) observed)
                    (items (reservations p)) (p, []);
  commit dir lineage_id (match results with [] => None | _ => Some p end, results).

Definition snapshot (dir : ledger_dir) (lineage_id : string) : res spend_exc payload :=
  load dir lineage_id.

Definition has_active_reservations (dir : ledger_dir) (lineage_id session_id : string)
    : res spend_exc bool :=
  p ← load dir lineage_id;
  Ok (existsb (fun kv => String.eqb (session (scope_refs kv.2)) (scope_hash "session" session_id))
        (items (reservations p))).

End Operations.
