(* ===== verification/SpendInv.v ===== *)
(** * Invariants of the spend ledger

    What every ledger file satisfies, that each operation of [SpendLedger]
    keeps it, and the accounting facts that follow. *)

From S2P Require Import Prelude SpendPolicy SpendLedger.
Open Scope string_scope.
Open Scope Z_scope.

(** ** Amounts are a commutative group, compared pointwise *)

Ltac amt := intros; repeat match goal with a : amounts |- _ => destruct a end;
  unfold amt_add, amt_sub, amt0 in *; cbn [tokens currency_micros] in *;
  try (f_equal; lia).

Lemma amt_add_comm a b : amt_add a b = amt_add b a.
Proof. amt. Qed.
Lemma amt_add_assoc a b c : amt_add a (amt_add b c) = amt_add (amt_add a b) c.
Proof. amt. Qed.
Lemma amt_add_0_l a : amt_add amt0 a = a.
Proof. amt. Qed.
Lemma amt_add_0_r a : amt_add a amt0 = a.
Proof. amt. Qed.
Lemma amt_add_sub a b : amt_sub (amt_add a b) a = b.
Proof. amt. Qed.
Lemma amt_sub_add a b : amt_add a (amt_sub b a) = b.
Proof. amt. Qed.

Lemma amt_sub_0_r a : amt_sub a amt0 = a.
Proof. amt. Qed.

#[export] Hint Rewrite amt_add_0_l amt_add_0_r amt_sub_0_r : ardur.

Lemma at_dim_add a b d : at_dim (amt_add a b) d = at_dim a d + at_dim b d.
Proof. by destruct d. Qed.
Lemma at_dim_sub a b d : at_dim (amt_sub a b) d = at_dim a d - at_dim b d.
Proof. by destruct d. Qed.
Lemma at_dim_0 d : at_dim amt0 d = 0.
Proof. by destruct d. Qed.
Lemma amt_ext a b : (forall d, at_dim a d = at_dim b d) -> a = b.
Proof. intros E. pose proof (E Tokens). pose proof (E CurrencyMicros). by destruct a, b; simpl in *; subst. Qed.

#[export] Hint Rewrite at_dim_add at_dim_sub at_dim_0 : ardur.

(** Pointwise bounds. *)
Definition amt_nonneg (a : amounts) : Prop := forall d, 0 <= at_dim a d.
Definition amt_le (a b : amounts) : Prop := forall d, at_dim a d <= at_dim b d.

Lemma amounts_int_spec a : amounts_int a = true <-> forall d, 0 <= at_dim a d <= MAX_SAFE_INTEGER.
Proof.
  unfold amounts_int, ledger_int. split.
  - intros Ha d. destruct d; simpl; lia.
  - intros Ha. pose proof (Ha Tokens). pose proof (Ha CurrencyMicros). simpl in *. lia.
Qed.

Lemma amounts_int_0 : amounts_int amt0 = true.
Proof. done. Qed.

Lemma validate_amounts_ok a : validate_amounts a = Ok tt <-> amounts_int a = true.
Proof. unfold validate_amounts. by destruct (amounts_int a). Qed.

Lemma validate_scope_totals_ok t :
  validate_scope_totals t = Ok tt <-> amounts_int (spent t) = true /\ amounts_int (held t) = true.
Proof.
  unfold validate_scope_totals, validate_amounts.
  destruct (amounts_int (spent t)), (amounts_int (held t)); simpl; naive_solver.
Qed.

Lemma validate_ledger_int_ok z : validate_ledger_int z = Ok tt <-> 0 <= z <= MAX_SAFE_INTEGER.
Proof. unfold validate_ledger_int, ledger_int. rewrite raise_if_ok. lia. Qed.

(** ** Sums over the records of a container *)

Section Sums.
Context (f : spend_record -> amounts).

Lemma sum_records_empty : sum_records f ∅ = amt0.
Proof. apply map_fold_empty. Qed.

Lemma sum_records_insert m k r :
  m !! k = None -> sum_records f (<[k := r]> m) = amt_add (f r) (sum_records f m).
Proof.
  intros Hk. unfold sum_records. rewrite map_fold_insert_L; [done| |done].
  intros. rewrite !amt_add_assoc. f_equal. apply amt_add_comm.
Qed.

Lemma sum_records_delete m k r :
  m !! k = Some r -> sum_records f m = amt_add (f r) (sum_records f (delete k m)).
Proof.
  intros Hk. rewrite <- (sum_records_insert _ k) by apply lookup_delete_eq.
  by rewrite insert_delete_id.
Qed.

Lemma sum_records_nonneg m :
  (forall k r, m !! k = Some r -> amt_nonneg (f r)) -> amt_nonneg (sum_records f m).
Proof.
  induction m as [|k r m Hk IH] using map_ind; intros Hf d.
  { rewrite sum_records_empty, at_dim_0. lia. }
  rewrite sum_records_insert, at_dim_add by done.
  pose proof (Hf k r (lookup_insert_eq _ _ _) d).
  enough (0 <= at_dim (sum_records f m) d) by lia. apply IH.
  intros k' r' Hk'. apply (Hf k'). rewrite lookup_insert_ne; [done|]. congruence.
Qed.

Lemma sum_records_zero m :
  (forall k r, m !! k = Some r -> f r = amt0) -> sum_records f m = amt0.
Proof.
  induction m as [|k r m Hk IH] using map_ind; intros Hf; [apply sum_records_empty|].
  rewrite sum_records_insert by done. rewrite (Hf k r) by apply lookup_insert_eq.
  rewrite amt_add_0_l. apply IH. intros k' r' Hk'. apply (Hf k').
  rewrite lookup_insert_ne; [done|]. congruence.
Qed.
End Sums.

(** ** The three references of a record *)

Definition refs_distinct (refs : per_scope string) : Prop :=
  session refs <> agent refs /\ session refs <> lineage refs /\ agent refs <> lineage refs.
Definition is_ref (refs : per_scope string) (k : string) : Prop := exists s, at_scope refs s = k.

#[global] Instance is_ref_dec refs k : Decision (is_ref refs k).
Proof.
  destruct (decide (session refs = k)); [left; by exists Session|].
  destruct (decide (agent refs = k)); [left; by exists Agent|].
  destruct (decide (lineage refs = k)); [left; by exists Lineage|].
  right. intros [[] ?]; contradiction.
Defined.

Lemma is_ref_iff refs k :
  is_ref refs k <-> session refs = k \/ agent refs = k \/ lineage refs = k.
Proof.
  split; [intros [[] Hs]; simpl in Hs; tauto|].
  intros [?|[?|?]]; [by exists Session|by exists Agent|by exists Lineage].
Qed.

Lemma ref_share_distinct refs k a : refs_distinct refs ->
  ref_share refs k a = if decide (is_ref refs k) then a else amt0.
Proof.
  intros (H1 & H2 & H3). unfold ref_share, SCOPES. cbn [foldr at_scope].
  pose proof (is_ref_iff refs k) as HD.
  destruct (String.eqb_spec (session refs) k), (String.eqb_spec (agent refs) k),
    (String.eqb_spec (lineage refs) k); try congruence;
    (case_decide as Hd; rewrite HD in Hd; try tauto; by autorewrite with ardur).
Qed.

Lemma at_scope_ref refs s : is_ref refs (at_scope refs s).
Proof. by exists s. Qed.

(** ** What a valid ledger file is *)

Definition recs (c : container) (p : payload) : gmap string spend_record :=
  match c with
  | CReservations => reservations p
  | CClosed => closed_reservations p
  | CQuarantined => quarantined_reservations p
  end.

(** ** Shares, by container *)

Definition hshare (c : container) (k : string) (r : spend_record) : amounts :=
  match c with CClosed => amt0 | _ => held_share k r end.
Definition sshare (c : container) (k : string) (r : spend_record) : amounts :=
  match c with CClosed => spent_share k r | _ => amt0 end.

(** ** Adding and removing a record *)

Definition set_recs (c : container) (m : gmap string spend_record) (p : payload) : payload :=
  match c with
  | CReservations => set_reservations m p
  | CClosed => set_closed m p
  | CQuarantined => set_quarantined m p
  end.
Definition put (c : container) (k : string) (r : spend_record) (p : payload) : payload :=
  set_recs c (<[k := r]> (recs c p)) p.
Definition drop (c : container) (k : string) (p : payload) : payload :=
  set_recs c (delete k (recs c p)) p.

(** Project out of an updated payload. *)
Ltac payload_cbn :=
  cbn [put drop set_recs recs set_scopes set_archived set_reservations set_closed set_quarantined
       lineage_id_hash scopes archived_spent reservations closed_reservations
       quarantined_reservations hshare sshare] in *.

#[global] Instance container_eq_dec : EqDecision container.
Proof. solve_decision. Defined.

Section Invariant.
Context `{Digests}.

Record payload_ok (lineage_id : string) (p : payload) : Prop := {
  po_lineage : lineage_id_hash p = scope_hash "lineage" lineage_id;
  po_scopes : forall k t, scopes p !! k = Some t ->
    digest_match k = true /\ amounts_int (spent t) = true /\ amounts_int (held t) = true;
  po_archived : forall k a, archived_spent p !! k = Some a ->
    is_Some (scopes p !! k) /\ amounts_int a = true;
  po_records : forall c k r, recs c p !! k = Some r ->
    validate_record c k r = Ok tt /\ known_refs p r = true;
  po_held : forall k t, scopes p !! k = Some t -> held t = expected_reserved p k;
  po_spent : forall k t, scopes p !! k = Some t -> spent t = expected_spent p k
}.

(** The validator accepts exactly the payloads that satisfy [payload_ok]. *)
Lemma validate_payload_ok p lin : validate_payload p lin = Ok tt <-> payload_ok lin p.
Proof.
  unfold validate_payload. destruct (String.eqb_spec (lineage_id_hash p) (scope_hash "lineage" lin))
    as [El|El]; simpl negb; cbn match; [|split; [done|by intros []]].
  rewrite !bind_unit_ok, !iter_items_ok. split.
  - intros (Hs & Ha & Hr & Hc & Hq & Ht). constructor; [done|..].
    + intros k t Hk. specialize (Hs k t Hk). destruct (digest_match k); [|done].
      by apply validate_scope_totals_ok in Hs.
    + intros k a Hk. specialize (Ha k a Hk). simpl in Ha. case_bool_decide; [|done].
      by apply validate_amounts_ok in Ha.
    + intros [] k r Hk; [specialize (Hr k r Hk)|specialize (Hc k r Hk)|specialize (Hq k r Hk)];
        rewrite bind_unit_ok, raise_if_ok, negb_false_iff in *; done.
    + intros k t Hk. specialize (Ht k t Hk). by case_bool_decide.
    + intros k t Hk. specialize (Ht k t Hk). do 2 (case_bool_decide; [|done]). done.
  - intros [_ Hs Ha Hr Hh Hp].
    assert (Hrec : forall c k r, recs c p !! k = Some r ->
      (_ ← validate_record c k r; raise_if negb (known_refs p r) with ledger_invalid ;; Ok tt) = Ok tt).
    { intros c k r Hk. destruct (Hr c k r Hk) as [E1 E2]. rewrite E1. res_simpl. by rewrite E2. }
    repeat apply conj.
    + intros k t Hk. destruct (Hs k t Hk) as (-> & ? & ?). by apply validate_scope_totals_ok.
    + intros k a Hk. destruct (Ha k a Hk) as [? ?]. rewrite bool_decide_true by done.
      by apply validate_amounts_ok.
    + apply (Hrec CReservations).
    + apply (Hrec CClosed).
    + apply (Hrec CQuarantined).
    + intros k t Hk. by rewrite (Hh k t Hk), (Hp k t Hk), !bool_decide_true.
Qed.

(** A record as [reserve] makes it: the three scopes are different keys and
    the hold is the price of the largest call the request allows. *)
Record rec_wf (r : spend_record) : Prop := {
  rw_refs : refs_distinct (scope_refs r);
  rw_hold : reserved r =
    Amounts (rec_max_input_tokens r + rec_max_output_tokens r)
            (price (price_in r) (price_out r) (rec_max_input_tokens r) (rec_max_output_tokens r))
}.

(** The ledger invariant: every scope total is what the records and the
    archive add up to, every record is well formed and sits in one container,
    and no scope is committed past the integer bound. *)
Record ledger_inv (lineage_id : string) (p : payload) : Prop := {
  li_lineage : lineage_id_hash p = scope_hash "lineage" lineage_id;
  li_keys : forall k, is_Some (scopes p !! k) -> digest_match k = true;
  li_archived : forall k a, archived_spent p !! k = Some a ->
    is_Some (scopes p !! k) /\ amt_nonneg a;
  li_records : forall c k r, recs c p !! k = Some r ->
    validate_record c k r = Ok tt /\ rec_wf r /\
    forall s, is_Some (scopes p !! at_scope (scope_refs r) s);
  li_held : forall k t, scopes p !! k = Some t -> held t = expected_reserved p k;
  li_spent : forall k t, scopes p !! k = Some t -> spent t = expected_spent p k;
  li_bound : forall k t d, scopes p !! k = Some t ->
    at_dim (spent t) d + at_dim (held t) d <= MAX_SAFE_INTEGER;
  li_once : forall c c' k, is_Some (recs c p !! k) -> is_Some (recs c' p !! k) -> c = c'
}.

Lemma known_refs_spec p r :
  known_refs p r = true <-> forall s, is_Some (scopes p !! at_scope (scope_refs r) s).
Proof.
  unfold known_refs. rewrite forallb_forall. split.
  - intros Hf s. assert (Hin : In s SCOPES) by (destruct s; simpl; tauto).
    specialize (Hf s Hin). by apply bool_decide_eq_true in Hf.
  - intros Hf s _. by apply bool_decide_eq_true.
Qed.

(** ** The record checks, taken apart *)

Lemma validate_record_inv c k r :
  validate_record c k r = Ok tt ->
  (digest_match k = true /\ reservation_hash r = k /\ amounts_int (reserved r) = true /\
   0 <= rec_max_input_tokens r /\ 0 <= rec_max_output_tokens r /\
   created_at r < retention_until r /\
   (forall d s, 0 <= ceil_at (rec_ceilings r) d s) /\
   0 <= price_in r /\ 0 <= price_out r) /\ validate_operation r c = Ok tt.
Proof.
  unfold validate_record. cbn [iterR SCOPES DIMENSIONS].
  rewrite !guard_ok, !bind_unit_ok, !guard_ok, !bind_unit_ok, !negb_false_iff.
  intros (Hk & _ & Hh & _ & Ha & (Hi & Ho & Hc & Hr & _) & Hlt & _ & Hcl & (Hpi & Hpo & _) & Hop).
  rewrite validate_ledger_int_ok in *. apply validate_amounts_ok in Ha. apply String.eqb_eq in Hh.
  destruct Hcl as ((H1 & H2 & H3 & _) & (H4 & H5 & H6 & _) & _).
  rewrite validate_ledger_int_ok in *.
  repeat apply conj; try done; try lia. intros [] []; lia.
Qed.

(** Only the operation fields matter to the container test. *)
Definition same_base (r r' : spend_record) : Prop :=
  fingerprint r' = fingerprint r /\ reservation_hash r' = reservation_hash r /\
  quote_digest r' = quote_digest r /\ quote_id_hash r' = quote_id_hash r /\
  rec_currency r' = rec_currency r /\ reserved r' = reserved r /\ scope_refs r' = scope_refs r /\
  rec_ceilings r' = rec_ceilings r /\ rec_max_input_tokens r' = rec_max_input_tokens r /\
  rec_max_output_tokens r' = rec_max_output_tokens r /\ price_in r' = price_in r /\
  price_out r' = price_out r /\ created_at r' = created_at r /\
  retention_until r' = retention_until r.

Lemma validate_record_move c c' k r r' :
  validate_record c k r = Ok tt -> same_base r r' -> validate_operation r' c' = Ok tt ->
  validate_record c' k r' = Ok tt.
Proof.
  unfold validate_record. intros Ho (E1 & E2 & E3 & E4 & E5 & E6 & E7 & E8 & E9 & E10 & E11 & E12 & E13 & E14) Hop.
  rewrite E1, E2, E3, E4, E5, E6, E7, E8, E9, E10, E11, E12, E13, E14.
  revert Ho. rewrite !guard_ok, !bind_unit_ok, !guard_ok, !bind_unit_ok. tauto.
Qed.

Lemma rec_wf_move r r' : rec_wf r -> same_base r r' -> rec_wf r'.
Proof.
  intros [Hr Hh] (E1 & E2 & E3 & E4 & E5 & E6 & E7 & E8 & E9 & E10 & E11 & E12 & E13 & E14).
  constructor; [by rewrite E7|]. by rewrite E6, E9, E10, E11, E12.
Qed.

Lemma ref_share_nonneg refs k a : amt_nonneg a -> amt_nonneg (ref_share refs k a).
Proof.
  intros Ha d. specialize (Ha d). unfold ref_share, SCOPES. simpl foldr.
  repeat case_match; autorewrite with ardur; lia.
Qed.

Lemma amounts_int_nonneg a : amounts_int a = true -> amt_nonneg a.
Proof. rewrite amounts_int_spec. intros Ha d. by apply Ha. Qed.

Lemma validate_operation_closed r :
  validate_operation r CClosed = Ok tt -> op r = Some OpSettle ->
  exists act ref, actual r = Some act /\ refunded r = Some ref /\ amt_nonneg act /\
    amt_nonneg ref /\ amt_add act ref = reserved r.
Proof.
  unfold validate_operation. intros Hv Ho. rewrite Ho in Hv. repeat ok_step Hv.
  unfold validate_optional_amounts in *. destruct (actual r), (refunded r); try discriminate.
  repeat (ok_step E || ok_step E0). subst. rewrite negb_false_iff, bool_decide_eq_true in G.
  destruct x2, x3. eexists _, _. repeat split; try done; apply amounts_int_nonneg;
  by apply validate_amounts_ok.
Qed.

Lemma hshare_nonneg c k r : validate_record c (reservation_hash r) r = Ok tt -> amt_nonneg (hshare c k r).
Proof.
  intros [(_ & _ & Hr & _) _]%validate_record_inv.
  destruct c; simpl; [| intros d; by rewrite at_dim_0 |]; by apply ref_share_nonneg, amounts_int_nonneg.
Qed.

Lemma sshare_nonneg c k r : validate_record c (reservation_hash r) r = Ok tt -> amt_nonneg (sshare c k r).
Proof.
  intros [_ Ho]%validate_record_inv. destruct c; simpl; try (intros d; by rewrite at_dim_0).
  unfold spent_share. destruct (op r) as [[]|] eqn:E; try (intros d; by rewrite at_dim_0).
  apply validate_operation_closed in Ho as (act & ref & -> & _ & Ha & _); [|done].
  by apply ref_share_nonneg.
Qed.

Lemma recs_put c c' k r p :
  recs c' (put c k r p) = if decide (c = c') then <[k := r]> (recs c p) else recs c' p.
Proof. by destruct c, c'. Qed.
Lemma recs_drop c c' k p :
  recs c' (drop c k p) = if decide (c = c') then delete k (recs c p) else recs c' p.
Proof. by destruct c, c'. Qed.

Lemma expected_reserved_put c k r p s : recs c p !! k = None ->
  expected_reserved (put c k r p) s = amt_add (hshare c s r) (expected_reserved p s).
Proof.
  intros Hk. unfold expected_reserved. destruct c; payload_cbn;
    rewrite ?sum_records_insert by done; apply amt_ext; intros d; autorewrite with ardur; lia.
Qed.
Lemma expected_spent_put c k r p s : recs c p !! k = None ->
  expected_spent (put c k r p) s = amt_add (sshare c s r) (expected_spent p s).
Proof.
  intros Hk. unfold expected_spent. destruct c; payload_cbn;
    rewrite ?sum_records_insert by done; apply amt_ext; intros d; autorewrite with ardur; lia.
Qed.
Lemma expected_reserved_drop c k r p s : recs c p !! k = Some r ->
  expected_reserved p s = amt_add (hshare c s r) (expected_reserved (drop c k p) s).
Proof.
  intros Hk. unfold expected_reserved. destruct c; payload_cbn;
    rewrite ?(sum_records_delete _ _ k r Hk); apply amt_ext; intros d; autorewrite with ardur; lia.
Qed.
Lemma expected_spent_drop c k r p s : recs c p !! k = Some r ->
  expected_spent p s = amt_add (sshare c s r) (expected_spent (drop c k p) s).
Proof.
  intros Hk. unfold expected_spent. destruct c; payload_cbn;
    rewrite ?(sum_records_delete _ _ k r Hk); apply amt_ext; intros d; autorewrite with ardur; lia.
Qed.

(** ** From the invariant to the validator *)

Lemma inv_record_key lin p c k r : ledger_inv lin p -> recs c p !! k = Some r ->
  reservation_hash r = k /\ validate_record c (reservation_hash r) r = Ok tt.
Proof.
  intros Hi Hk. destruct (li_records _ _ Hi c k r Hk) as (Hv & _).
  assert (reservation_hash r = k) as E by apply (validate_record_inv _ _ _ Hv). by rewrite E.
Qed.

Lemma sum_share_nonneg lin p c (sh : container -> string -> spend_record -> amounts) k :
  (forall r, validate_record c (reservation_hash r) r = Ok tt -> amt_nonneg (sh c k r)) ->
  ledger_inv lin p -> amt_nonneg (sum_records (sh c k) (recs c p)).
Proof.
  intros Hs Hi. apply sum_records_nonneg. intros j r Hj. apply Hs.
  by eapply inv_record_key.
Qed.

Lemma expected_reserved_nonneg lin p k : ledger_inv lin p -> amt_nonneg (expected_reserved p k).
Proof.
  intros Hi d. unfold expected_reserved. rewrite at_dim_add.
  pose proof (sum_share_nonneg lin p CReservations hshare k (hshare_nonneg _ k) Hi d
    : 0 <= at_dim (sum_records (held_share k) (reservations p)) d).
  pose proof (sum_share_nonneg lin p CQuarantined hshare k (hshare_nonneg _ k) Hi d
    : 0 <= at_dim (sum_records (held_share k) (quarantined_reservations p)) d).
  lia.
Qed.

Lemma inv_archived_nonneg lin p k : ledger_inv lin p -> amt_nonneg (default amt0 (archived_spent p !! k)).
Proof.
  intros Hi d. destruct (archived_spent p !! k) eqn:E; simpl; [|by rewrite at_dim_0].
  by destruct (li_archived _ _ Hi k a E) as [_ Ha].
Qed.

Lemma expected_spent_nonneg lin p k : ledger_inv lin p ->
  forall d, at_dim (default amt0 (archived_spent p !! k)) d <= at_dim (expected_spent p k) d.
Proof.
  intros Hi d. unfold expected_spent. rewrite at_dim_add.
  pose proof (sum_share_nonneg lin p CClosed sshare k (sshare_nonneg _ k) Hi d
    : 0 <= at_dim (sum_records (spent_share k) (closed_reservations p)) d).
  lia.
Qed.

Lemma inv_totals_int lin p k t : ledger_inv lin p -> scopes p !! k = Some t ->
  amounts_int (spent t) = true /\ amounts_int (held t) = true.
Proof.
  intros Hi Hk. rewrite !amounts_int_spec.
  assert (Hb : forall d, 0 <= at_dim (spent t) d /\ 0 <= at_dim (held t) d).
  { intros d. rewrite (li_spent _ _ Hi k t Hk), (li_held _ _ Hi k t Hk).
    pose proof (expected_reserved_nonneg lin p k Hi d).
    pose proof (expected_spent_nonneg lin p k Hi d). pose proof (inv_archived_nonneg lin p k Hi d). lia. }
  split; intros d; pose proof (Hb d); pose proof (li_bound _ _ Hi k t d Hk); lia.
Qed.

Lemma ledger_inv_valid lin p : ledger_inv lin p -> payload_ok lin p.
Proof.
  intros Hi. constructor.
  - apply Hi.
  - intros k t Hk. destruct (inv_totals_int lin p k t Hi Hk).
    split; [|done]. apply (li_keys _ _ Hi). by eexists.
  - intros k a Hk. destruct (li_archived _ _ Hi k a Hk) as [[t Ht] Ha]. split; [by eexists|].
    apply amounts_int_spec. intros d. split; [apply Ha|].
    pose proof (expected_spent_nonneg lin p k Hi d) as Hs. rewrite Hk in Hs. simpl in Hs.
    destruct (inv_totals_int lin p k t Hi Ht) as [Hsp _]. rewrite amounts_int_spec in Hsp.
    specialize (Hsp d). rewrite (li_spent _ _ Hi k t Ht) in Hsp. lia.
  - intros c k r Hk. destruct (li_records _ _ Hi c k r Hk) as (? & ? & ?).
    split; [done|]. by apply known_refs_spec.
  - apply Hi.
  - apply Hi.
Qed.

Lemma inv_validates lin p : ledger_inv lin p -> validate_payload p lin = Ok tt.
Proof. intros Hi. by apply validate_payload_ok, ledger_inv_valid. Qed.

(** ** Transitions that keep the invariant *)

Section Transition.
Variables (lin : string) (p : payload) (m : gmap string totals).
Hypothesis Hinv : ledger_inv lin p.

(** A fresh record, with the scope totals raised by its shares. *)
Lemma inv_add c key r :
  (forall c', recs c' p !! key = None) ->
  validate_record c key r = Ok tt -> rec_wf r ->
  (forall s, is_Some (scopes p !! at_scope (scope_refs r) s)) ->
  (forall k, m !! k = (fun t => Totals (amt_add (sshare c k r) (spent t))
                                       (amt_add (hshare c k r) (held t))) <$> scopes p !! k) ->
  (forall k t d, m !! k = Some t -> at_dim (spent t) d + at_dim (held t) d <= MAX_SAFE_INTEGER) ->
  ledger_inv lin (set_scopes m (put c key r p)).
Proof.
  intros Hf Hv Hw Hk Hm Hb.
  assert (Hdom : forall k, is_Some (m !! k) <-> is_Some (scopes p !! k)).
  { intros k. by rewrite Hm, fmap_is_Some. }
  assert (Hrecs : forall c' k r', recs c' (set_scopes m (put c key r p)) !! k = Some r' ->
    (c = c' /\ k = key /\ r' = r) \/ (k <> key /\ recs c' p !! k = Some r')).
  { intros c' k r' Hl. change (recs c' (put c key r p) !! k = Some r') in Hl.
    rewrite recs_put in Hl. case_decide; [subst|].
    - apply lookup_insert_Some in Hl as [[? ?]|[? ?]]; [left|right]; by split.
    - right. split; [|done]. intros ->. by rewrite Hf in Hl. }
  constructor.
  - destruct c; apply Hinv.
  - intros k Hs. apply Hdom in Hs. by apply (li_keys _ _ Hinv).
  - intros k a Ha. cbn [set_scopes scopes]. rewrite Hdom. apply (li_archived _ _ Hinv). by destruct c.
  - intros c' k r' Hl. cbn [set_scopes scopes]. setoid_rewrite Hdom.
    destruct (Hrecs _ _ _ Hl) as [(<- & -> & ->)|[_ Hl']]; [done|]. by apply (li_records _ _ Hinv).
  - intros k t Ht. cbn [set_scopes scopes] in Ht. rewrite Hm in Ht.
    apply fmap_Some in Ht as (t0 & Ht0 & ->). cbn [held].
    change (amt_add (hshare c k r) (held t0) = expected_reserved (put c key r p) k).
    rewrite expected_reserved_put by done. f_equal. by apply (li_held _ _ Hinv).
  - intros k t Ht. cbn [set_scopes scopes] in Ht. rewrite Hm in Ht.
    apply fmap_Some in Ht as (t0 & Ht0 & ->). cbn [spent].
    change (amt_add (sshare c k r) (spent t0) = expected_spent (put c key r p) k).
    rewrite expected_spent_put by done. f_equal. by apply (li_spent _ _ Hinv).
  - done.
  - intros c1 c2 k [r1 H1] [r2 H2].
    destruct (Hrecs _ _ _ H1) as [(<- & -> & _)|[N1 E1]],
      (Hrecs _ _ _ H2) as [(<- & ? & _)|[N2 E2]]; try congruence.
    eapply (li_once _ _ Hinv); by eexists.
Qed.

(** Taking a record out, with the scope totals lowered by its shares. *)
Lemma inv_drop c key r :
  recs c p !! key = Some r ->
  (forall k, m !! k = (fun t => Totals (amt_sub (spent t) (sshare c k r))
                                       (amt_sub (held t) (hshare c k r))) <$> scopes p !! k) ->
  ledger_inv lin (set_scopes m (drop c key p)).
Proof.
  intros Hr Hm.
  assert (Hdom : forall k, is_Some (m !! k) <-> is_Some (scopes p !! k)).
  { intros k. by rewrite Hm, fmap_is_Some. }
  assert (Hrecs : forall c' k r', recs c' (set_scopes m (drop c key p)) !! k = Some r' ->
    recs c' p !! k = Some r').
  { intros c' k r' Hl. change (recs c' (drop c key p) !! k = Some r') in Hl.
    rewrite recs_drop in Hl. case_decide; [subst|done]. by apply lookup_delete_Some in Hl as [_ ?]. }
  constructor.
  - destruct c; apply Hinv.
  - intros k Hs. apply Hdom in Hs. by apply (li_keys _ _ Hinv).
  - intros k a Ha. cbn [set_scopes scopes]. rewrite Hdom. apply (li_archived _ _ Hinv). by destruct c.
  - intros c' k r' Hl. cbn [set_scopes scopes]. setoid_rewrite Hdom.
    apply (li_records _ _ Hinv). by apply Hrecs.
  - intros k t Ht. cbn [set_scopes scopes] in Ht. rewrite Hm in Ht.
    apply fmap_Some in Ht as (t0 & Ht0 & ->). cbn [held]. rewrite (li_held _ _ Hinv k t0 Ht0).
    rewrite (expected_reserved_drop c key r p k Hr), amt_add_sub. by destruct c.
  - intros k t Ht. cbn [set_scopes scopes] in Ht. rewrite Hm in Ht.
    apply fmap_Some in Ht as (t0 & Ht0 & ->). cbn [spent]. rewrite (li_spent _ _ Hinv k t0 Ht0).
    rewrite (expected_spent_drop c key r p k Hr), amt_add_sub. by destruct c.
  - intros k t d Ht. cbn [set_scopes scopes] in Ht. rewrite Hm in Ht.
    apply fmap_Some in Ht as (t0 & Ht0 & ->). cbn [held spent]. rewrite !at_dim_sub.
    pose proof (li_bound _ _ Hinv k t0 d Ht0).
    destruct (inv_record_key _ _ _ _ _ Hinv Hr) as [_ Hv].
    pose proof (hshare_nonneg c k r Hv d). pose proof (sshare_nonneg c k r Hv d). lia.
  - intros c1 c2 k [r1 H1] [r2 H2]. eapply (li_once _ _ Hinv); eexists; by apply Hrecs.
Qed.
End Transition.

(** A record moves from one container to another and commits no more than it did. *)
Lemma inv_move lin p m c c' key r r' :
  ledger_inv lin p -> recs c p !! key = Some r -> same_base r r' ->
  validate_operation r' c' = Ok tt ->
  (forall k, m !! k = (fun t => Totals (amt_add (sshare c' k r') (amt_sub (spent t) (sshare c k r)))
                                       (amt_add (hshare c' k r') (amt_sub (held t) (hshare c k r))))
                      <$> scopes p !! k) ->
  (forall k d, at_dim (sshare c' k r') d + at_dim (hshare c' k r') d
               <= at_dim (sshare c k r) d + at_dim (hshare c k r) d) ->
  ledger_inv lin (set_scopes m (put c' key r' (drop c key p))).
Proof.
  intros Hi Hr Hb Hop Hm Hle.
  destruct (li_records _ _ Hi c key r Hr) as (Hv & Hw & Hk).
  set (m0 := (fun k t => Totals (amt_sub (spent t) (sshare c k r)) (amt_sub (held t) (hshare c k r)))).
  set (p0 := set_scopes (map_imap (fun k t => Some (m0 k t)) (scopes p)) (drop c key p)).
  assert (Hlk : forall k, scopes p0 !! k = m0 k <$> scopes p !! k).
  { intros k. subst p0. cbn [set_scopes scopes]. rewrite map_lookup_imap. by destruct (scopes p !! k). }
  assert (Hi0 : ledger_inv lin p0) by (by eapply inv_drop).
  assert (Hrefs : scope_refs r' = scope_refs r) by apply Hb.
  replace (set_scopes m (put c' key r' (drop c key p))) with (set_scopes m (put c' key r' p0))
    by by destruct c, c'.
  eapply inv_add; [done|..|].
  - intros c2. change (recs c2 (drop c key p) !! key = None). rewrite recs_drop.
    case_decide; [apply lookup_delete_eq|]. destruct (recs c2 p !! key) eqn:E; [|done].
    exfalso. apply H0. eapply (li_once _ _ Hi); by eexists.
  - by eapply validate_record_move.
  - by eapply rec_wf_move.
  - intros s. rewrite Hrefs, Hlk, fmap_is_Some. apply Hk.
  - intros k. rewrite Hlk, Hm. by destruct (scopes p !! k).
  - intros k t d Ht. rewrite Hm in Ht. apply fmap_Some in Ht as (t0 & Ht0 & ->). cbn [spent held].
    autorewrite with ardur. pose proof (li_bound _ _ Hi k t0 d Ht0). specialize (Hle k d). lia.
Qed.

End Invariant.
