(* ===== verification/SpendSafety.v ===== *)
(** * Safety of the spend ledger

    Every operation of [SpendLedger] keeps the invariant of [SpendInv], never
    fails its own validation, and never lets a scope commit more than its
    ceiling.  The last section runs the operations in any order. *)

From S2P Require Import Prelude SpendPolicy SpendLedger SpendInv.
Open Scope string_scope.
Open Scope Z_scope.

Section Safety.
Context `{Digests}.

(** ** The payload after the helpers *)

Definition zero_totals : totals := Totals amt0 amt0.
Definition touch1 (ref : string) (m : gmap string totals) : gmap string totals :=
  match m !! ref with Some _ => m | None => <[ref := zero_totals]> m end.
(** The scopes after [_remaining] has created the missing ones. *)
Definition touch (refs : per_scope string) (m : gmap string totals) : gmap string totals :=
  touch1 (lineage refs) (touch1 (agent refs) (touch1 (session refs) m)).
Definition total_at (p : payload) (k : string) : totals := default zero_totals (scopes p !! k).

Lemma touch1_lookup ref m k :
  touch1 ref m !! k = if decide (ref = k) then Some (default zero_totals (m !! k)) else m !! k.
Proof.
  unfold touch1. case_decide as Hd; [subst|].
  - destruct (m !! k) eqn:E; [by rewrite E|by rewrite lookup_insert_eq].
  - destruct (m !! ref); [done|by rewrite lookup_insert_ne].
Qed.

Lemma touch_lookup refs m k :
  touch refs m !! k = if decide (is_ref refs k) then Some (default zero_totals (m !! k)) else m !! k.
Proof.
  unfold touch. rewrite !touch1_lookup. pose proof (is_ref_iff refs k) as Hi.
  repeat case_decide; try tauto; by destruct (m !! k).
Qed.

Definition totals_valid (t : totals) : Prop :=
  amounts_int (spent t) = true /\ amounts_int (held t) = true.

Lemma scope_totals_spec p ref :
  (forall t, scopes p !! ref = Some t -> totals_valid t) ->
  scope_totals p ref = Ok (set_scopes (touch1 ref (scopes p)) p, total_at p ref).
Proof.
  intros Hv. unfold scope_totals, touch1, total_at. destruct (scopes p !! ref) as [t|] eqn:E; [|done].
  assert (Ht : validate_scope_totals t = Ok tt) by (by apply validate_scope_totals_ok, Hv).
  rewrite Ht. by destruct p.
Qed.

Lemma zero_totals_valid : totals_valid zero_totals.
Proof. by split. Qed.

Lemma touch1_valid ref m :
  (forall k t, m !! k = Some t -> totals_valid t) ->
  forall k t, touch1 ref m !! k = Some t -> totals_valid t.
Proof.
  intros Hv k t. rewrite touch1_lookup. case_decide; [|apply Hv].
  intros [= <-]. destruct (m !! k) eqn:E; [by eapply Hv|apply zero_totals_valid].
Qed.

Lemma default_touch1 ref m k : default zero_totals (touch1 ref m !! k) = default zero_totals (m !! k).
Proof. rewrite touch1_lookup. by case_decide. Qed.

Definition remaining_at (p : payload) (c : ceilings) (refs : per_scope string) : per_scope amounts :=
  PerScope (headroom c Session (total_at p (session refs)))
           (headroom c Agent (total_at p (agent refs)))
           (headroom c Lineage (total_at p (lineage refs))).

Lemma remaining_spec p c refs :
  (forall k t, scopes p !! k = Some t -> totals_valid t) ->
  remaining p c refs = Ok (set_scopes (touch refs (scopes p)) p, remaining_at p c refs).
Proof.
  intros Hv. unfold remaining. rewrite scope_totals_spec by (by apply Hv). res_simpl.
  rewrite scope_totals_spec by (intros t; by apply touch1_valid). res_simpl.
  rewrite scope_totals_spec by (intros t; apply touch1_valid; intros k t'; by apply touch1_valid).
  res_simpl. unfold remaining_at, total_at. cbn [set_scopes scopes].
  by rewrite !default_touch1.
Qed.

Lemma update_scope_spec f p ref t :
  scopes p !! ref = Some t -> totals_valid t ->
  update_scope f p ref = Ok (set_scopes (<[ref := f t]> (scopes p)) p).
Proof.
  intros Ht Hv. unfold update_scope, scope_totals. rewrite Ht.
  assert (validate_scope_totals t = Ok tt) as -> by by apply validate_scope_totals_ok. done.
Qed.

Lemma update_scopes_spec f p refs :
  refs_distinct refs ->
  (forall k t, scopes p !! k = Some t -> totals_valid t) ->
  (forall s, is_Some (scopes p !! at_scope refs s)) ->
  exists m, update_scopes f p refs = Ok (set_scopes m p) /\
    forall k, m !! k = (fun t => if decide (is_ref refs k) then f t else t) <$> scopes p !! k.
Proof.
  intros (N1 & N2 & N3) Hv Hs.
  destruct (Hs Session) as [ts Es], (Hs Agent) as [ta Ea], (Hs Lineage) as [tl El].
  cbn [at_scope] in *. eexists. split.
  - unfold update_scopes, SCOPES. cbn [foldR at_scope].
    rewrite (update_scope_spec f p _ ts) by eauto. res_simpl.
    rewrite (update_scope_spec f _ _ ta);
      [|cbn [set_scopes scopes]; by rewrite lookup_insert_ne|by eapply Hv]. res_simpl.
    rewrite (update_scope_spec f _ _ tl);
      [|cbn [set_scopes scopes]; by rewrite !lookup_insert_ne|by eapply Hv]. res_simpl.
    reflexivity.
  - intros k. cbn [set_scopes scopes]. case_decide as Hd.
    + destruct Hd as [[] <-]; cbn [at_scope]; rewrite ?Es, ?Ea, ?El;
        repeat (rewrite lookup_insert_ne by congruence); by rewrite lookup_insert_eq.
    + assert (session refs <> k /\ agent refs <> k /\ lineage refs <> k) as (? & ? & ?).
      { repeat split; intros <-; apply Hd; [by exists Session|by exists Agent|by exists Lineage]. }
      rewrite !lookup_insert_ne by done. by destruct (scopes p !! k).
Qed.

Lemma inv_totals_valid lin p : ledger_inv lin p ->
  forall k t, scopes p !! k = Some t -> totals_valid t.
Proof. intros Hi k t Hk. by eapply inv_totals_int. Qed.

(** ** Creating missing scopes keeps the invariant *)

Lemma shares_elsewhere lin p c j r k : ledger_inv lin p -> recs c p !! j = Some r ->
  ~ is_ref (scope_refs r) k -> hshare c k r = amt0 /\ sshare c k r = amt0.
Proof.
  intros Hi Hj Hn. destruct (li_records _ _ Hi c j r Hj) as (_ & [Hd _] & _).
  unfold hshare, sshare, held_share, spent_share.
  destruct c, (op r) as [[]|]; rewrite ?ref_share_distinct by done;
    try case_decide; done.
Qed.

Lemma expected_unknown lin p k : ledger_inv lin p -> scopes p !! k = None ->
  expected_reserved p k = amt0 /\ expected_spent p k = amt0.
Proof.
  intros Hi Hk.
  assert (Hz : forall c j r, recs c p !! j = Some r -> hshare c k r = amt0 /\ sshare c k r = amt0).
  { intros c j r Hj. eapply shares_elsewhere; [done..|]. intros [s <-].
    destruct (li_records _ _ Hi c j r Hj) as (_ & _ & Hs). destruct (Hs s). congruence. }
  unfold expected_reserved, expected_spent.
  rewrite !sum_records_zero by (intros j r Hj;
    first [apply (Hz CReservations j r Hj)|apply (Hz CQuarantined j r Hj)|apply (Hz CClosed j r Hj)]).
  split; [done|]. destruct (archived_spent p !! k) as [a|] eqn:E; [|done].
  destruct (li_archived _ _ Hi k a E) as [[] _]. congruence.
Qed.

Lemma inv_touch lin p refs : ledger_inv lin p ->
  (forall s, digest_match (at_scope refs s) = true) ->
  ledger_inv lin (set_scopes (touch refs (scopes p)) p).
Proof.
  intros Hi Hd. set (m := touch refs (scopes p)).
  assert (Hup : forall k, is_Some (scopes p !! k) -> is_Some (m !! k)).
  { intros k [t Ht]. unfold m. rewrite touch_lookup, Ht. case_decide; by eexists. }
  assert (Hm : forall k t, m !! k = Some t -> scopes p !! k = Some t \/
    (is_ref refs k /\ scopes p !! k = None /\ t = zero_totals)).
  { intros k t. unfold m. rewrite touch_lookup. case_decide; [|by left].
    destruct (scopes p !! k); intros [= <-]; [by left|by right]. }
  constructor; cbn [set_scopes scopes].
  - apply Hi.
  - intros k [t [?|([s <-] & _)]%Hm]; [apply (li_keys _ _ Hi); by eexists|apply Hd].
  - intros k a Ha. destruct (li_archived _ _ Hi k a Ha). auto.
  - intros c k r Hr. destruct (li_records _ _ Hi c k r) as (? & ? & ?); [by destruct c|]. auto.
  - intros k t [Ht|(_ & Hn & ->)]%Hm; [by apply (li_held _ _ Hi)|].
    destruct (expected_unknown lin p k Hi Hn) as [E1 E2]. by symmetry.
  - intros k t [Ht|(_ & Hn & ->)]%Hm; [by apply (li_spent _ _ Hi)|].
    destruct (expected_unknown lin p k Hi Hn) as [E1 E2]. by symmetry.
  - intros k t d [Ht|(_ & Hn & ->)]%Hm; [by apply (li_bound _ _ Hi k t d)|].
    by destruct d.
  - intros c c' k H1 H2. eapply (li_once _ _ Hi); [destruct c; exact H1|destruct c'; exact H2].
Qed.

(** ** Pruning *)

Lemma archive_lookup r m k : refs_distinct (scope_refs r) ->
  archive r m !! k = if decide (is_ref (scope_refs r) k)
                     then Some (amt_add (default amt0 (m !! k)) (default amt0 (actual r)))
                     else m !! k.
Proof.
  intros (N1 & N2 & N3). unfold archive, SCOPES. cbn [foldl at_scope].
  pose proof (is_ref_iff (scope_refs r) k) as Hi. case_decide as Hd; rewrite Hi in Hd.
  - destruct Hd as [<-|[<-|<-]]; 
      by repeat (rewrite lookup_insert_eq || rewrite lookup_insert_ne by congruence).
  - rewrite !lookup_insert_ne by tauto. done.
Qed.

(** What a closed record leaves behind when it goes. *)
Lemma prune_drop now key r p :
  retention_until r <= now ->
  prune_record now (key, r) p =
    set_archived (match op r with Some OpSettle => archive r (archived_spent p)
                  | _ => archived_spent p end) (drop CClosed key p).
Proof.
  intros Hr. unfold prune_record. destruct (Z.ltb_spec now (retention_until r)); [lia|].
  destruct p, (op r) as [[]|]; done.
Qed.

Lemma archive_expected lin p key r k :
  ledger_inv lin p -> recs CClosed p !! key = Some r ->
  default amt0 ((match op r with Some OpSettle => archive r (archived_spent p)
                 | _ => archived_spent p end) !! k)
  = amt_add (sshare CClosed k r) (default amt0 (archived_spent p !! k)).
Proof.
  intros Hi Hr. destruct (li_records _ _ Hi _ _ _ Hr) as (_ & [Hd _] & _).
  cbn [sshare]. unfold spent_share. destruct (op r) as [[]|]; autorewrite with ardur; try done.
  rewrite archive_lookup, ref_share_distinct by done.
  case_decide; autorewrite with ardur; [cbn [default]; apply amt_add_comm|done].
Qed.

Lemma inv_prune_record lin now key r p :
  ledger_inv lin p -> closed_reservations p !! key = Some r ->
  ledger_inv lin (prune_record now (key, r) p).
Proof.
  intros Hi Hr. destruct (Z.ltb_spec now (retention_until r)) as [Hn|Hn].
  { unfold prune_record. by destruct (Z.ltb_spec now (retention_until r)); [|lia]. }
  rewrite prune_drop by done. pose proof (archive_expected lin p key r) as Ha.
  set (arch := match op r with Some OpSettle => _ | _ => _ end) in *.
  assert (Hrecs : forall c k r', recs c (set_archived arch (drop CClosed key p)) !! k = Some r' ->
    recs c p !! k = Some r').
  { intros [] k r' Hl; [done| |done]. payload_cbn. by apply lookup_delete_Some in Hl as [_ ?]. }
  destruct (inv_record_key _ _ CClosed _ _ Hi Hr) as [_ Hv].
  assert (Hnn : forall k, amt_nonneg (default amt0 (arch !! k))).
  { intros k d. rewrite Ha, at_dim_add by done.
    pose proof (sshare_nonneg CClosed k r Hv d). pose proof (inv_archived_nonneg _ _ k Hi d). lia. }
  constructor; payload_cbn; try apply Hi.
  - intros k a Hk. split.
    + destruct (li_records _ _ Hi CClosed _ _ Hr) as (_ & [Hd _] & Hs). unfold arch in Hk.
      destruct (op r) as [[]|]; try (by apply (li_archived _ _ Hi _ _ Hk)).
      rewrite archive_lookup in Hk by done. case_decide as Hc; [destruct Hc as [s <-]; apply Hs|].
      by apply (li_archived _ _ Hi _ _ Hk).
    + specialize (Hnn k). by rewrite Hk in Hnn.
  - intros c k r' Hl. apply (li_records _ _ Hi). by apply Hrecs.
  - intros k t Ht. rewrite (li_spent _ _ Hi k t Ht), (expected_spent_drop CClosed key r p k Hr).
    unfold expected_spent. payload_cbn. rewrite Ha by done. cbn [sshare].
    rewrite amt_add_assoc. done.
  - intros c c' k [r1 H1] [r2 H2]. eapply (li_once _ _ Hi); eexists; by apply Hrecs.
Qed.

(** The loop over the expired records, from any list of records still there. *)
Section PruneLoop.
Variables (lin : string) (now : Z).
Implicit Types l : list (string * spend_record).

Definition all_in l p : Prop :=
  NoDup l.*1 /\ forall k r, (k, r) ∈ l -> closed_reservations p !! k = Some r.

Lemma prune_record_frame kv p :
  scopes (prune_record now kv p) = scopes p /\ reservations (prune_record now kv p) = reservations p /\
  quarantined_reservations (prune_record now kv p) = quarantined_reservations p /\
  closed_reservations (prune_record now kv p)
    = if now <? retention_until kv.2 then closed_reservations p
      else delete kv.1 (closed_reservations p).
Proof.
  destruct kv as [k r]. unfold prune_record. cbn [fst snd].
  by destruct (now <? retention_until r), (op r) as [[]|].
Qed.

Lemma all_in_tail kv l p : all_in (kv :: l) p -> all_in l (prune_record now kv p).
Proof.
  intros [Hn Hl]. destruct kv as [k0 r0]. cbn in Hn. apply NoDup_cons in Hn as [Hk Hn]. split; [done|].
  intros k r Hi. destruct (prune_record_frame (k0, r0) p) as (_ & _ & _ & ->). cbn [fst snd].
  assert (k0 <> k) by (intros ->; apply Hk, list_elem_of_fmap; by exists (k, r)).
  assert (closed_reservations p !! k = Some r) by (apply Hl; by right).
  case_match; [done|by rewrite lookup_delete_ne].
Qed.

Lemma inv_prune_loop l p : all_in l p -> ledger_inv lin p ->
  ledger_inv lin (foldl (fun p kv => prune_record now kv p) p l).
Proof.
  revert p. induction l as [|[k r] l IH]; intros p Hl Hi; [done|]. cbn [foldl].
  apply IH; [by apply all_in_tail|]. apply inv_prune_record; [done|]. apply Hl. by left.
Qed.

Lemma prune_loop_frame l p : all_in l p ->
  let p' := foldl (fun p kv => prune_record now kv p) p l in
  scopes p' = scopes p /\ reservations p' = reservations p /\
  quarantined_reservations p' = quarantined_reservations p /\
  forall k, closed_reservations p' !! k
    = match closed_reservations p !! k with
      | Some r => if decide (k ∈ l.*1 /\ retention_until r <= now) then None else Some r
      | None => None
      end.
Proof.
  revert p. induction l as [|[k0 r0] l IH]; intros p Hl; cbn [foldl].
  { repeat split. intros k. destruct (closed_reservations p !! k); [|done].
    case_decide as Hd; [|done]. by destruct Hd as [?%elem_of_nil _]. }
  destruct (IH _ (all_in_tail _ _ _ Hl)) as (E1 & E2 & E3 & E4).
  destruct (prune_record_frame (k0, r0) p) as (F1 & F2 & F3 & F4). cbn [fst snd] in F4.
  rewrite E1, E2, E3, F1, F2, F3. repeat split. intros k. rewrite E4, F4.
  assert (H0 : closed_reservations p !! k0 = Some r0) by (apply Hl; by left).
  cbn [fmap list_fmap fst]. destruct (decide (k = k0)) as [->|Hk].
  - rewrite H0. destruct (Z.ltb_spec now (retention_until r0)).
    + rewrite H0. repeat case_decide; try done; lia.
    + rewrite lookup_delete_eq. case_decide as Hd; [done|]. exfalso. apply Hd. split; [by left|done].
  - assert (Hsame : forall m : gmap string spend_record, delete k0 m !! k = m !! k)
      by (intros m; by rewrite lookup_delete_ne).
    destruct (now <? retention_until r0); rewrite ?Hsame;
      (destruct (closed_reservations p !! k); [|done]);
      (repeat case_decide; [done| | |done]); exfalso; set_solver.
Qed.
End PruneLoop.

Lemma all_in_items p : all_in (items (closed_reservations p)) p.
Proof.
  split.
  - rewrite items_perm. apply NoDup_fst_map_to_list.
  - intros k r. apply elem_of_items.
Qed.

Lemma inv_prune lin p now : ledger_inv lin p -> ledger_inv lin (prune_terminal_records p now).
Proof. apply inv_prune_loop, all_in_items. Qed.

(** [_prune_terminal_records] removes exactly the closed records whose
    retention has passed and touches no total and no open record. *)
Lemma prune_frame p now :
  let p' := prune_terminal_records p now in
  scopes p' = scopes p /\ reservations p' = reservations p /\
  quarantined_reservations p' = quarantined_reservations p /\
  closed_reservations p' = filter (fun kv => now < retention_until kv.2) (closed_reservations p).
Proof.
  destruct (prune_loop_frame now _ p (all_in_items p)) as (E1 & E2 & E3 & E4).
  repeat split; [done..|]. apply map_eq. intros k. unfold prune_terminal_records. rewrite E4.
  destruct (closed_reservations p !! k) as [r|] eqn:Ek; symmetry.
  - case_decide as Hd.
    + apply map_lookup_filter_None. right. intros r' Hr' Hc. simplify_eq. cbn in Hc. lia.
    + apply map_lookup_filter_Some. split; [done|]. cbn. apply Z.nle_gt. intros Hle. apply Hd.
      split; [|done]. apply list_elem_of_fmap. exists (k, r). split; [done|by apply elem_of_items].
  - apply map_lookup_filter_None. by left.
Qed.

(** ** The record a reservation starts from *)

Record quote_wf (q : SpendQuote) : Prop := {
  qw_in : 0 <= input_micros_per_million_tokens q <= MAX_SAFE_INTEGER;
  qw_out : 0 <= output_micros_per_million_tokens q <= MAX_SAFE_INTEGER;
  qw_from : 0 <= valid_from q < valid_until q;
  qw_until : valid_until q <= MAX_SAFE_INTEGER;
  qw_currency : currency_match (q_currency q) = true
}.

Lemma currency_of_match v c : currency_of v = Ok c -> currency_match c = true.
Proof. unfold currency_of. intros Ho. ok_steps Ho. subst. by apply negb_false_iff. Qed.

Lemma new_quote_wf a b c d e f g h q : new_quote a b c d e f g h = Ok q -> quote_wf q.
Proof.
  unfold new_quote. intros Ho. ok_steps Ho. subst q.
  apply non_negative_int_ok in E3 as [_ ?], E4 as [_ ?], E5 as [_ ?], E6 as [_ ?].
  apply currency_of_match in E2. constructor; cbn; try done; lia.
Qed.

Lemma sha_int_ok z : 0 <= z <= MAX_SAFE_INTEGER -> validate_ledger_int z = Ok tt.
Proof. by intros ?%validate_ledger_int_ok. Qed.

Lemma canonical_digest_match v d : canonical_digest v = Ok d -> digest_match d = true.
Proof.
  unfold canonical_digest. destruct (canonical_json_bytes v); [|discriminate].
  intros [= <-]. apply sha256_hex_shape.
Qed.

Lemma opaque_hash_match dom v : digest_match (opaque_hash dom v) = true.
Proof. apply sha256_hex_shape. Qed.
Lemma scope_hash_match sc v : digest_match (scope_hash sc v) = true.
Proof. apply sha256_hex_shape. Qed.

Definition request_refs (session_id agent_id lineage_id : string) : per_scope string :=
  PerScope (scope_hash "session" session_id) (scope_hash "agent" agent_id)
    (scope_hash "lineage" lineage_id).

(** What the lock-free part of [reserve] hands on. *)
Record prepared (inp : reserve_inputs) (sid aid : string) (observed : Z) : Prop := {
  pr_valid : validate_record CReservations (reservation_hash (ri_record inp)) (ri_record inp) = Ok tt;
  pr_hold : reserved (ri_record inp)
    = Amounts (rec_max_input_tokens (ri_record inp) + rec_max_output_tokens (ri_record inp))
        (price (price_in (ri_record inp)) (price_out (ri_record inp))
           (rec_max_input_tokens (ri_record inp)) (rec_max_output_tokens (ri_record inp)));
  pr_refs : scope_refs (ri_record inp) = request_refs sid aid (ri_lineage_id inp);
  pr_created : created_at (ri_record inp) = observed;
  pr_open : op (ri_record inp) = None;
  pr_bounds : forall d s, 0 <= ceil_at (rec_ceilings (ri_record inp)) d s <= MAX_SAFE_INTEGER
}.

Lemma prepare_reserve_ok policy sid aid req q observed ret inp :
  quote_wf q -> prepare_reserve policy sid aid req q observed ret = Ok inp ->
  prepared inp sid aid observed.
Proof.
  intros [Hi Ho Hf Hu Hc] Hp. unfold prepare_reserve in Hp. ok_steps Hp. subst inp.
  apply non_negative_int_ok in E0 as [_ Hret]. pose proof (normalize_wf _ _ _ _ E) as Hw.
  destruct (reserve_amounts_spec q _ _ x1 ltac:(lia) ltac:(lia) E1)
    as (ni & no & [= Eni] & [= Eno] & ? & ? & Ht & Htb & Hm & Hmb). subst ni no.
  unfold reservation_hash_of in E2. ok_steps E2. subst x2.
  assert (Ha : x1 = Amounts (max_input_tokens req + max_output_tokens req)
    (price (input_micros_per_million_tokens q) (output_micros_per_million_tokens q)
       (max_input_tokens req) (max_output_tokens req))) by (destruct x1; cbn in *; congruence).
  constructor; cbn; [|done..|apply Hw].
  assert (Hint : amounts_int x1 = true) by (apply amounts_int_spec; intros []; cbn [at_dim]; lia).
  unfold validate_record. cbn [iterR SCOPES DIMENSIONS forallb at_scope ceil_at reservation_hash
    fingerprint quote_digest quote_id_hash rec_currency reserved rec_max_input_tokens
    rec_max_output_tokens created_at retention_until scope_refs rec_ceilings price_in price_out
    session agent lineage].
  rewrite !opaque_hash_match, !scope_hash_match, Hc, (canonical_digest_match _ _ E3), (canonical_digest_match _ _ E4),
    String.eqb_refl. cbn [negb andb].
  rewrite (proj2 (validate_amounts_ok x1) Hint).
  rewrite !sha_int_ok by (lia || apply (pw_ceilings _ Hw Tokens Session) ||
    apply (pw_ceilings _ Hw Tokens Agent) || apply (pw_ceilings _ Hw Tokens Lineage) ||
    apply (pw_ceilings _ Hw CurrencyMicros Session) || apply (pw_ceilings _ Hw CurrencyMicros Agent)
    || apply (pw_ceilings _ Hw CurrencyMicros Lineage)).
  res_simpl. destruct (Z.leb_spec x0 observed); [lia|]. done.
Qed.

(** ** Breaches *)

Lemma first_breach_none a rem :
  first_breach a rem = None <-> forall s d, at_dim a d <= at_dim (at_scope rem s) d.
Proof.
  unfold first_breach. split.
  - intros Hf s d. pose proof (find_none _ _ Hf (s, d)) as Hn. cbn [fst snd] in Hn.
    apply Z.ltb_ge, Hn. by destruct s, d; cbn; tauto.
  - intros Hle. destruct (find _ _) as [[s d]|] eqn:E; [|done].
    apply find_some in E as [_ E]. cbn [fst snd] in E. specialize (Hle s d). lia.
Qed.

Lemma first_breach_some a rem s d :
  first_breach a rem = Some (s, d) -> at_dim (at_scope rem s) d < at_dim a d.
Proof. intros [_ E]%find_some. cbn [fst snd] in E. lia. Qed.

Lemma remaining_at_dim p c refs s d :
  at_dim (at_scope (remaining_at p c refs) s) d =
  Z.max 0 (ceil_at c d s - at_dim (spent (total_at p (at_scope refs s))) d
                         - at_dim (held (total_at p (at_scope refs s))) d).
Proof. by destruct s, d. Qed.

(** ** [reserve], under the lock *)

Section Reserve.
Variables (lin : string) (rec : spend_record) (observed : Z) (p : payload).
Hypothesis Hinv : ledger_inv lin p.
Hypothesis Hvalid : validate_record CReservations (reservation_hash rec) rec = Ok tt.
Hypothesis Hwf : rec_wf rec.
Hypothesis Hbounds : forall d s, 0 <= ceil_at (rec_ceilings rec) d s <= MAX_SAFE_INTEGER.

#[local] Abbreviation key := (reservation_hash rec).
#[local] Abbreviation p1 := (prune_terminal_records p observed).
#[local] Abbreviation refs := (scope_refs rec).

Lemma refs_match s : digest_match (at_scope refs s) = true.
Proof.
  pose proof Hvalid as Hv. unfold validate_record in Hv. rewrite !guard_ok, !bind_unit_ok in Hv.
  rewrite !guard_ok in Hv. destruct Hv as (_ & _ & _ & _ & _ & _ & _ & Hr & _).
  rewrite negb_false_iff, forallb_forall in Hr. apply Hr. destruct s; cbn; tauto.
Qed.

Lemma inv_p1 : ledger_inv lin p1.
Proof. by apply inv_prune. Qed.
Lemma p1_valid : forall k t, scopes p1 !! k = Some t -> totals_valid t.
Proof. apply (inv_totals_valid lin), inv_p1. Qed.

Definition p2 : payload := set_scopes (touch refs (scopes p1)) p1.
Lemma inv_p2 : ledger_inv lin p2.
Proof. apply inv_touch; [apply inv_p1|apply refs_match]. Qed.
Lemma p2_refs s : is_Some (scopes p2 !! at_scope refs s).
Proof.
  unfold p2. cbn [set_scopes scopes]. rewrite touch_lookup.
  rewrite decide_True by apply at_scope_ref. by eexists.
Qed.
Lemma total_at_p2 k : total_at p2 k = total_at p k.
Proof.
  unfold total_at, p2. cbn [set_scopes scopes]. rewrite touch_lookup.
  destruct (prune_frame p observed) as (-> & _). by case_decide.
Qed.

Definition has_prior : Prop := exists c, is_Some (recs c p1 !! key).

Definition used_slots : nat :=
  size (reservations p1) + size (closed_reservations p1) + size (quarantined_reservations p1).

Lemma no_prior : ~ has_prior -> forall c, recs c p1 !! key = None.
Proof.
  intros Hn c. destruct (recs c p1 !! key) eqn:E; [|done]. exfalso. apply Hn. exists c. by rewrite E.
Qed.

(** A request id already on file: nothing is written, whatever the answer. *)
Lemma reserve_replay : has_prior ->
  (exists r, reserve_locked rec observed p = Ok (None, r) /\ accepted r = false /\
     res_idempotent r = true) \/
  reserve_locked rec observed p = Raise (SpendBudgetConflictError "spend_request_conflict").
Proof.
  intros [c [prior Hp]]. unfold reserve_locked.
  assert (Hr : forall r a code, exists x, result_from_record r a code p1 true = Ok x /\
    accepted x = a /\ res_idempotent x = true).
  { intros r a code. unfold result_from_record. rewrite remaining_spec by apply p1_valid.
    by eexists. }
  assert (Hf : forall (r : spend_record) code,
    (exists x, (_ ← require_fingerprint r (fingerprint rec);
       y ← result_from_record r false code p1 true; Ok (None : option payload, y)) = Ok (None, x) /\
       accepted x = false /\ res_idempotent x = true) \/
    (_ ← require_fingerprint r (fingerprint rec);
       y ← result_from_record r false code p1 true; Ok (None : option payload, y))
    = Raise (SpendBudgetConflictError "spend_request_conflict")).
  { intros r code. unfold require_fingerprint. destruct (negb _); [by right|left].
    destruct (Hr r false code) as (x & E & ?). res_simpl. rewrite E. by exists x. }
  repeat (case_match; [apply Hf|]). by destruct c; cbn in Hp; congruence.
Qed.

Lemma reserve_full : ~ has_prior -> (MAX_LEDGER_RECORDS <= used_slots)%nat ->
  reserve_locked rec observed p = Raise (SpendBudgetError "spend_ledger_capacity_exhausted").
Proof.
  intros Hp Hc. pose proof (no_prior Hp) as Hn. unfold reserve_locked.
  rewrite (Hn CReservations : reservations p1 !! key = None).
  rewrite (Hn CQuarantined : quarantined_reservations p1 !! key = None).
  rewrite (Hn CClosed : closed_reservations p1 !! key = None).
  fold used_slots. by destruct (Nat.leb_spec MAX_LEDGER_RECORDS used_slots); [|lia].
Qed.

Lemma reserve_fresh : ~ has_prior -> (used_slots < MAX_LEDGER_RECORDS)%nat ->
  reserve_locked rec observed p =
    match first_breach (reserved rec) (remaining_at p (rec_ceilings rec) refs) with
    | Some (s, d) =>
        let code := "spend_" ++ scope_name s ++ "_" ++ dimension_name d ++ "_exhausted" in
        let rejected := with_reject rec code (remaining_at p (rec_ceilings rec) refs) observed in
        let p' := put CClosed key rejected p2 in
        r ← result_from_record rejected false code p' false; Ok (Some p', r)
    | None =>
        p' ← update_scopes (hold (reserved rec)) p2 refs;
        let p' := put CReservations key rec p' in
        r ← result_from_record rec true "spend_reserved" p' false; Ok (Some p', r)
    end.
Proof.
  intros Hp Hc. pose proof (no_prior Hp) as Hn. unfold reserve_locked.
  rewrite (Hn CReservations : reservations p1 !! key = None).
  rewrite (Hn CQuarantined : quarantined_reservations p1 !! key = None).
  rewrite (Hn CClosed : closed_reservations p1 !! key = None).
  fold used_slots. destruct (Nat.leb_spec MAX_LEDGER_RECORDS used_slots); [lia|].
  rewrite remaining_spec by apply p1_valid. res_simpl. fold p2.
  assert (remaining_at p1 (rec_ceilings rec) refs = remaining_at p (rec_ceilings rec) refs) as ->.
  { unfold remaining_at, total_at. by destruct (prune_frame p observed) as (-> & _). }
  by destruct (first_breach _ _) as [[s d]|].
Qed.

(** Rejected: the request is recorded as closed and no total moves. *)
Lemma reserve_rejected s d : ~ has_prior -> (used_slots < MAX_LEDGER_RECORDS)%nat ->
  first_breach (reserved rec) (remaining_at p (rec_ceilings rec) refs) = Some (s, d) ->
  exists p' r, reserve_locked rec observed p = Ok (Some p', r) /\ ledger_inv lin p' /\
    accepted r = false /\ (forall k, total_at p' k = total_at p k) /\
    reservations p' = reservations p /\ quarantined_reservations p' = quarantined_reservations p.
Proof.
  intros Hn Hc Hb. rewrite reserve_fresh, Hb by done. cbv zeta.
  set (rejected := with_reject _ _ _ _).
  assert (Hi : ledger_inv lin (put CClosed key rejected p2)).
  { change (put CClosed key rejected p2) with (set_scopes (scopes p2) (put CClosed key rejected p2)).
    eapply inv_add; [apply inv_p2|apply no_prior, Hn|..].
    - eapply validate_record_move; [exact Hvalid|by repeat split|done].
    - eapply rec_wf_move; [exact Hwf|by repeat split].
    - apply p2_refs.
    - intros k. cbn [sshare hshare]. unfold spent_share. cbn [op rejected with_reject].
      destruct (scopes p2 !! k) as [[sp he]|]; [|done]. by cbn; autorewrite with ardur.
    - intros k t d' Ht. by apply (li_bound _ _ inv_p2 k). }
  unfold result_from_record. rewrite remaining_spec by by eapply inv_totals_valid. res_simpl.
  eexists _, _. split; [reflexivity|]. split; [done|]. split; [done|].
  split; [intros k; apply total_at_p2|].
  destruct (prune_frame p observed) as (_ & E2 & E3 & _). by split.
Qed.

Lemma total_nonneg q k d : ledger_inv lin q ->
  0 <= at_dim (spent (total_at q k)) d /\ 0 <= at_dim (held (total_at q k)) d.
Proof.
  intros Hq. unfold total_at. destruct (scopes q !! k) as [t|] eqn:E; cbn [from_option id].
  - destruct (inv_totals_int _ _ _ _ Hq E) as [H1 H2].
    rewrite amounts_int_spec in H1, H2. split; [apply H1|apply H2].
  - by destruct d.
Qed.

Lemma hold_within s d :
  first_breach (reserved rec) (remaining_at p (rec_ceilings rec) refs) = None ->
  0 < at_dim (reserved rec) d ->
  at_dim (spent (total_at p (at_scope refs s))) d + at_dim (held (total_at p (at_scope refs s))) d
    + at_dim (reserved rec) d <= ceil_at (rec_ceilings rec) d s.
Proof.
  intros Hb Hp. rewrite first_breach_none in Hb. specialize (Hb s d).
  rewrite remaining_at_dim in Hb. lia.
Qed.

(** Accepted: the hold is added at the three scopes. *)
Lemma reserve_accepted : ~ has_prior -> (used_slots < MAX_LEDGER_RECORDS)%nat ->
  first_breach (reserved rec) (remaining_at p (rec_ceilings rec) refs) = None ->
  exists p' r, reserve_locked rec observed p = Ok (Some p', r) /\ ledger_inv lin p' /\
    accepted r = true /\
    (forall k, total_at p' k = if decide (is_ref refs k) then hold (reserved rec) (total_at p k)
                               else total_at p k) /\
    reservations p' = <[key := rec]> (reservations p) /\
    quarantined_reservations p' = quarantined_reservations p.
Proof.
  intros Hn Hc Hb. rewrite reserve_fresh, Hb by done.
  destruct (update_scopes_spec (hold (reserved rec)) p2 refs (rw_refs _ Hwf)
              (inv_totals_valid lin _ inv_p2) p2_refs) as (m & -> & Hm).
  res_simpl. cbv zeta.
  change (put CReservations key rec (set_scopes m p2))
    with (set_scopes m (put CReservations key rec p2)).
  set (p' := set_scopes m _).
  assert (Ht : forall k, total_at p' k = if decide (is_ref refs k)
    then hold (reserved rec) (total_at p k) else total_at p k).
  { intros k. rewrite <- total_at_p2. unfold total_at, p'. cbn [set_scopes scopes]. rewrite Hm.
    case_decide as Hd; [|by rewrite option_fmap_id].
    destruct Hd as [s <-]. by destruct (p2_refs s) as [t ->]. }
  assert (Hi : ledger_inv lin p').
  { eapply inv_add; [apply inv_p2|apply no_prior, Hn|exact Hvalid|exact Hwf|apply p2_refs|..].
    - intros k. rewrite Hm. cbn [sshare hshare]. unfold held_share.
      rewrite ref_share_distinct by apply Hwf.
      destruct (scopes p2 !! k) as [[sp he]|]; [|done]. unfold hold. cbn [fmap option_fmap option_map].
      case_decide; autorewrite with ardur; [by rewrite amt_add_comm|done].
    - intros k t d Hk. assert (Et : t = total_at p' k) by (unfold total_at; cbn; by rewrite Hk).
      rewrite Et, Ht. assert (Hold : at_dim (spent (total_at p k)) d + at_dim (held (total_at p k)) d
        <= MAX_SAFE_INTEGER).
      { rewrite <- total_at_p2. unfold total_at. destruct (scopes p2 !! k) as [t0|] eqn:E0;
          [by apply (li_bound _ _ inv_p2 k)|by destruct d]. }
      case_decide as Hd; [destruct Hd as [s <-]|done]. cbn [hold spent held]. rewrite at_dim_add.
      destruct (validate_record_inv _ _ _ Hvalid) as [(_ & _ & Ha & _) _].
      pose proof (amounts_int_nonneg _ Ha d). pose proof (Hbounds d s).
      destruct (Z.eq_dec (at_dim (reserved rec) d) 0); [lia|]. pose proof (hold_within s d Hb). lia. }
  unfold result_from_record. rewrite remaining_spec by by eapply inv_totals_valid. res_simpl.
  eexists _, _. split; [reflexivity|]. do 2 (split; [done|]). split; [exact Ht|].
  destruct (prune_frame p observed) as (_ & E2 & E3 & _). cbn. by rewrite E2, E3.
Qed.

End Reserve.

(** ** Closing a reservation, under the lock *)

(** The answer [_close_result] builds. *)
Definition close_view (r : spend_record) (p : payload) (idem : bool) (rec : option bool)
    : SpendCloseResult :=
  CloseResult (default OpQuarantine (op r)) (default "spend_reservation_quarantined" (reason_code r))
    (reservation_hash r) (quote_digest r) (rec_currency r) (reserved r)
    (match default OpQuarantine (op r) with OpSettle => default amt0 (actual r) | _ => amt0 end)
    (default amt0 (refunded r)) (remaining_at p (rec_ceilings r) (scope_refs r)) idem
    (match rec with Some b => b | None => default false (reconciled r) end).

Lemma close_result_spec lin r p idem rec : ledger_inv lin p ->
  close_result r p idem rec =
    Ok (set_scopes (touch (scope_refs r) (scopes p)) p, close_view r p idem rec).
Proof.
  intros Hi. unfold close_result. by rewrite remaining_spec by by eapply inv_totals_valid.
Qed.

Section Close.
Variables (lin : string) (key sid : string) (p : payload).
Hypothesis Hinv : ledger_inv lin p.

Lemma only_in c c' r : recs c p !! key = Some r -> c <> c' -> recs c' p !! key = None.
Proof.
  intros Hc Hn. destruct (recs c' p !! key) eqn:E; [|done].
  exfalso. apply Hn. eapply (li_once _ _ Hinv); by eexists.
Qed.

Lemma inv_refs_known c r : recs c p !! key = Some r ->
  refs_distinct (scope_refs r) /\ forall s, is_Some (scopes p !! at_scope (scope_refs r) s).
Proof. intros Hr. by destruct (li_records _ _ Hinv c key r Hr) as (_ & [? _] & ?). Qed.

(** An update of the three totals of a known record. *)
Lemma update_known f c r p' : recs c p !! key = Some r -> scopes p' = scopes p ->
  exists m, update_scopes f p' (scope_refs r) = Ok (set_scopes m p') /\
    (forall k, m !! k = (fun t => if decide (is_ref (scope_refs r) k) then f t else t)
                          <$> scopes p !! k) /\
    (forall k, default zero_totals (m !! k)
       = if decide (is_ref (scope_refs r) k) then f (total_at p k) else total_at p k).
Proof.
  intros Hr Hs. destruct (inv_refs_known c r Hr) as [Hd Hk].
  destruct (update_scopes_spec f p' (scope_refs r)) as (m & Hm & Hl); try rewrite Hs;
    [done|by eapply inv_totals_valid|done|].
  rewrite Hs in Hl. exists m. split; [done|]. split; [done|]. intros k. rewrite Hl. unfold total_at.
  case_decide as Hd'; [|by rewrite option_fmap_id]. destruct Hd' as [s <-]. by destruct (Hk s) as [t ->].
Qed.

Lemma require_session_ok r :
  require_session_scope r sid = Ok tt \/
  require_session_scope r sid
    = Raise (SpendBudgetConflictError "spend_reservation_session_mismatch").
Proof. unfold require_session_scope. destruct (negb _); [by right|by left]. Qed.

(** A released reservation gives back exactly what it held. *)
Lemma release_spec r code clock : reservations p !! key = Some r ->
  require_session_scope r sid = Ok tt ->
  exists p', close_without_spend_locked key sid OpRelease code clock p
      = Ok (Some p', close_view (with_close r OpRelease code clock) p' false None) /\
    ledger_inv lin p' /\
    (forall k, total_at p' k = if decide (is_ref (scope_refs r) k)
                               then unhold (reserved r) (total_at p k) else total_at p k) /\
    reservations p' = delete key (reservations p) /\
    closed_reservations p' = <[key := with_close r OpRelease code clock]> (closed_reservations p) /\
    quarantined_reservations p' = quarantined_reservations p.
Proof.
  intros Hr Hs. unfold close_without_spend_locked.
  rewrite (only_in CReservations CClosed r Hr ltac:(done) : closed_reservations p !! key = None), Hr, Hs.
  res_simpl.
  destruct (update_known (unhold (reserved r)) CReservations r
    (set_reservations (delete key (reservations p)) p) Hr eq_refl) as (m & -> & Hm & Ht).
  res_simpl. set (r' := with_close r OpRelease code clock).
  set (p' := set_closed _ _).
  assert (Hi : ledger_inv lin p').
  { destruct (li_records _ _ Hinv CReservations key r Hr) as (Hv & [Hd _] & _).
    destruct (validate_record_inv _ _ _ Hv) as [(_ & _ & Ha & _) _].
    change p' with (set_scopes m (put CClosed key r' (drop CReservations key p))).
    eapply inv_move; [done|exact Hr|by repeat split|..].
    - unfold validate_operation. cbn [r' with_close op actual refunded reserved].
      unfold validate_optional_amounts, validate_amounts. rewrite amounts_int_0, Ha. cbn.
      by rewrite !bool_decide_true.
    - intros k. rewrite Hm. cbn [sshare hshare]. unfold spent_share, held_share. cbn [op r' with_close].
      rewrite ref_share_distinct by done. destruct (scopes p !! k) as [[sp he]|]; [|done].
      cbn [fmap option_fmap option_map]. unfold unhold. f_equal.
      case_decide; cbn [spent held]; by autorewrite with ardur.
    - intros k d. cbn [sshare hshare]. unfold spent_share. cbn [op r' with_close].
      rewrite !at_dim_0. pose proof (ref_share_nonneg (scope_refs r) k _ (amounts_int_nonneg _ Ha) d).
      unfold held_share. lia. }
  rewrite (close_result_spec lin) by done. exists p'.
  split; [reflexivity|]. split; [exact Hi|]. split; [exact Ht|]. done.
Qed.

(** Quarantine moves the record and leaves every total as it is. *)
Lemma quarantine_move_inv r code clock : reservations p !! key = Some r ->
  ledger_inv lin (put CQuarantined key (with_quarantine r code clock) (drop CReservations key p)).
Proof.
  intros Hr. set (r' := with_quarantine r code clock).
  change (put CQuarantined key r' (drop CReservations key p))
    with (set_scopes (scopes p) (put CQuarantined key r' (drop CReservations key p))).
  eapply (inv_move lin p _ CReservations); [done|exact Hr|by repeat split|done|..].
  - intros k. cbn [sshare hshare]. unfold held_share. cbn [r' with_quarantine scope_refs reserved].
    destruct (scopes p !! k) as [[sp he]|]; [|done]. cbn [fmap option_fmap option_map].
    do 2 f_equal; cbn [spent held]; [by amt|by rewrite amt_sub_add].
  - intros k d. cbn [sshare hshare]. unfold held_share. cbn [r' with_quarantine scope_refs reserved]. lia.
Qed.

Lemma quarantine_spec r code clock : reservations p !! key = Some r ->
  require_session_scope r sid = Ok tt ->
  exists p', quarantine_locked key sid code clock p
      = Ok (Some p', close_view (with_quarantine r code clock) p' false None) /\
    p' = put CQuarantined key (with_quarantine r code clock) (drop CReservations key p) /\
    ledger_inv lin p'.
Proof.
  intros Hr Hs. unfold quarantine_locked.
  rewrite (only_in CReservations CQuarantined r Hr ltac:(done)
    : quarantined_reservations p !! key = None).
  rewrite (only_in CReservations CClosed r Hr ltac:(done) : closed_reservations p !! key = None).
  rewrite Hr, Hs. res_simpl.
  pose proof (quarantine_move_inv r code clock Hr) as Hi.
  rewrite (close_result_spec lin) by exact Hi. by eexists.
Qed.

(** The usage a settlement may charge. *)
Definition usage_within (r : spend_record) (input output : Z) : Prop :=
  0 <= input <= rec_max_input_tokens r /\ 0 <= output <= rec_max_output_tokens r.
Definition usage_amounts (r : spend_record) (input output : Z) : amounts :=
  Amounts (input + output) (price (price_in r) (price_out r) input output).

(** Usage within the limits of the request never costs more than was held. *)
Lemma usage_le_reserved c r input output : recs c p !! key = Some r ->
  usage_within r input output ->
  amt_nonneg (usage_amounts r input output) /\ amt_le (usage_amounts r input output) (reserved r).
Proof.
  intros Hr [Hi Ho]. destruct (li_records _ _ Hinv c key r Hr) as (Hv & [_ Hh] & _).
  destruct (validate_record_inv _ _ _ Hv) as [(_ & _ & _ & ? & ? & _ & _ & ? & ?) _].
  rewrite Hh. split; intros []; cbn; try lia; [apply price_nonneg; lia|by apply price_mono].
Qed.

Definition drop_open (from_quarantine : bool) : payload :=
  drop (if from_quarantine then CQuarantined else CReservations) key p.

Lemma open_shares (fq : bool) k r :
  hshare (if fq then CQuarantined else CReservations) k r = held_share k r /\
  sshare (if fq then CQuarantined else CReservations) k r = amt0.
Proof. by destruct fq. Qed.

Lemma settled_inv (fq : bool) r settlement proof input output clock m :
  recs (if fq then CQuarantined else CReservations) p !! key = Some r ->
  usage_within r input output -> digest_match settlement = true -> digest_match proof = true ->
  let act := usage_amounts r input output in
  let r' := with_settle r settlement proof act (amt_sub (reserved r) act) clock fq in
  (forall k, m !! k = (fun t => if decide (is_ref (scope_refs r) k)
                                then settle_totals (reserved r) act t else t) <$> scopes p !! k) ->
  ledger_inv lin (set_scopes m (put CClosed key r' (drop_open fq))).
Proof.
  intros Hr Hu Hs Hp act r' Hm. destruct (usage_le_reserved _ _ _ _ Hr Hu) as [Hn Hle].
  destruct (li_records _ _ Hinv _ key r Hr) as (Hv & [Hd _] & _).
  destruct (validate_record_inv _ _ _ Hv) as [(_ & _ & Ha & _) _].
  assert (amounts_int act = true /\ amounts_int (amt_sub (reserved r) act) = true) as [Ha1 Ha2].
  { rewrite amounts_int_spec in Ha. rewrite !amounts_int_spec. unfold act.
    split; intros d; specialize (Ha d); specialize (Hn d); specialize (Hle d);
      autorewrite with ardur; lia. }
  eapply inv_move; [done|exact Hr|by repeat split|..].
  - unfold validate_operation. cbn [r' with_settle op actual refunded reserved settlement_fingerprint
      usage_proof_digest optional_digest]. unfold validate_optional_amounts, validate_amounts.
    rewrite Ha1, Ha2, Ha, Hs, Hp. cbn. by rewrite bool_decide_true by apply amt_sub_add.
  - intros k. rewrite Hm. destruct (open_shares fq k r) as [-> ->].
    cbn [sshare hshare]. unfold spent_share, held_share. cbn [op r' with_settle actual scope_refs].
    rewrite !ref_share_distinct by done. destruct (scopes p !! k) as [[sp he]|]; [|done].
    cbn [fmap option_fmap option_map]. unfold settle_totals. f_equal.
    case_decide; cbn [spent held from_option id]; autorewrite with ardur; [by rewrite amt_add_comm|done].
  - intros k d. destruct (open_shares fq k r) as [-> ->].
    cbn [sshare hshare]. unfold spent_share, held_share. cbn [op r' with_settle actual scope_refs].
    rewrite !ref_share_distinct by done. specialize (Hle d).
    case_decide; cbn [from_option id]; autorewrite with ardur; fold act in Hle; lia.
Qed.

(** The record [settle] works on. *)
Definition open_record : option (spend_record * bool) :=
  match reservations p !! key with
  | Some r => Some (r, false)
  | None => (fun r => (r, true)) <$> quarantined_reservations p !! key
  end.

Lemma open_record_in r fq : open_record = Some (r, fq) ->
  recs (if fq then CQuarantined else CReservations) p !! key = Some r /\
  closed_reservations p !! key = None.
Proof.
  unfold open_record. destruct (reservations p !! key) as [r0|] eqn:E.
  - intros [= <- <-]. split; [done|]. by apply (only_in CReservations CClosed r0).
  - destruct (quarantined_reservations p !! key) as [r0|] eqn:E'; [|done]. intros [= <- <-].
    split; [done|]. by apply (only_in CQuarantined CClosed r0).
Qed.

(** A proved usage within the reservation settles: each scope spends the
    usage and releases the hold, wherever the record was. *)
Lemma settle_spec r fq input output proof settlement clock :
  open_record = Some (r, fq) -> require_session_scope r sid = Ok tt ->
  usage_within r input output -> digest_match proof = true -> digest_match settlement = true ->
  let act := usage_amounts r input output in
  let r' := with_settle r settlement proof act (amt_sub (reserved r) act) clock fq in
  exists p', settle_locked key sid input output (Some proof) settlement clock p
      = Ok (Some p', close_view r' p' false (Some fq)) /\
    ledger_inv lin p' /\
    (forall k, total_at p' k = if decide (is_ref (scope_refs r) k)
       then settle_totals (reserved r) act (total_at p k) else total_at p k) /\
    closed_reservations p' = <[key := r']> (closed_reservations p) /\
    reservations p' = (if fq then reservations p else delete key (reservations p)) /\
    quarantined_reservations p' = (if fq then delete key (quarantined_reservations p)
                                   else quarantined_reservations p).
Proof.
  intros Ho Hs Hu Hp Hst act r'. destruct (open_record_in _ _ Ho) as [Hr Hc].
  destruct (usage_le_reserved _ _ _ _ Hr Hu) as [_ Hle].
  unfold settle_locked. rewrite Hc. fold open_record. rewrite Ho, Hs. res_simpl.
  cbn [optional_digest]. rewrite Hp. destruct Hu as [Hi1 Ho1]. pose proof (conj Hi1 Ho1) as Hu.
  destruct (Z.leb_spec input (rec_max_input_tokens r)); [|lia].
  destruct (Z.leb_spec output (rec_max_output_tokens r)); [|lia]. cbn [negb andb orb].
  fold (usage_amounts r input output). fold act.
  pose proof (Hle Tokens) as L1. pose proof (Hle CurrencyMicros) as L2. cbn [at_dim] in L1, L2.
  fold act in L1, L2.
  destruct (Z.ltb_spec (tokens (reserved r)) (tokens act)); [lia|].
  destruct (Z.ltb_spec (currency_micros (reserved r)) (currency_micros act)); [lia|]. cbn [orb].
  destruct (update_known (settle_totals (reserved r) act) _ r p Hr eq_refl) as (m & -> & Hm & Ht).
  res_simpl. cbn [from_option id]. fold r'.
  pose proof (settled_inv fq r settlement proof input output clock m Hr Hu Hst Hp Hm) as Hi.
  fold act r' in Hi. set (p' := set_closed _ _).
  assert (Ep : p' = set_scopes m (put CClosed key r' (drop_open fq))) by by destruct fq.
  rewrite (close_result_spec lin) by by rewrite Ep. exists p'. rewrite Ep.
  split; [reflexivity|]. split; [exact Hi|]. split; [exact Ht|]. by destruct fq.
Qed.

(** Otherwise the hold stays: an open reservation is quarantined, a
    quarantined one is left alone. *)
Lemma settle_refused_spec r fq input output proof settlement clock :
  open_record = Some (r, fq) -> require_session_scope r sid = Ok tt ->
  0 <= input -> 0 <= output ->
  ~ (optional_digest proof = true /\ usage_within r input output) ->
  let code := if negb (optional_digest proof) then "spend_settlement_evidence_missing"
              else "spend_usage_exceeds_reservation" in
  settle_locked key sid input output proof settlement clock p =
    if fq then Ok (None, close_view r p false (Some false))
    else let p' := put CQuarantined key (with_quarantine r code clock) (drop CReservations key p) in
         Ok (Some p', close_view (with_quarantine r code clock) p' false (Some false)).
Proof.
  intros Ho Hs Hi1 Ho1 Hn code. destruct (open_record_in _ _ Ho) as [Hr Hc].
  unfold settle_locked. rewrite Hc. fold open_record. rewrite Ho, Hs. res_simpl.
  assert (negb (optional_digest proof) || negb ((input <=? rec_max_input_tokens r)
    && (output <=? rec_max_output_tokens r)) = true) as ->.
  { destruct (optional_digest proof); [|done]. cbn [negb orb].
    destruct (Z.leb_spec input (rec_max_input_tokens r)); [|done].
    destruct (Z.leb_spec output (rec_max_output_tokens r)); [|done].
    exfalso. apply Hn. split; [done|]. by split. }
  fold code. unfold settle_to_quarantine. destruct fq.
  - by rewrite (close_result_spec lin).
  - pose proof (quarantine_move_inv r code clock Hr) as Hi.
    by rewrite (close_result_spec lin) by exact Hi.
Qed.

End Close.

End Safety.
