(* ===== verification/SpendProps.v ===== *)
(** * What the spend ledger guarantees

    The operations of [SpendLedger] on the ledger directory, run in any order
    by any number of callers (each call is one transition, since it holds the
    file lock), and the theorems a user of the ledger relies on. *)

From S2P Require Import Prelude CanonicalJson SpendPolicy SpendLedger SpendInv SpendSafety.
Open Scope string_scope.
Open Scope Z_scope.

Section Directory.
Context `{Digests}.

(** ** Files *)

Definition stem (lineage_id : string) : string := scope_hash "lineage" lineage_id.

Definition dir_inv (dir : ledger_dir) : Prop :=
  forall lin p, (dir : gmap string payload) !! stem lin = Some p -> ledger_inv lin p.

(** The file of a lineage, or the ledger a missing file stands for. *)
Definition file_of (dir : ledger_dir) (lin : string) : payload :=
  default (empty_payload lin) ((dir : gmap string payload) !! stem lin).

Lemma empty_inv lin : ledger_inv lin (empty_payload lin).
Proof.
  assert (Hr : forall c k, recs c (empty_payload lin) !! k = None) by by intros [].
  constructor; try done.
  - intros k [? Hk]. done.
  - intros c k r Hk. by rewrite Hr in Hk.
  - intros c c' k [r Hk]. by rewrite Hr in Hk.
Qed.

Lemma dir_inv_empty : dir_inv ∅.
Proof. by intros lin p Hp. Qed.

Lemma dir_inv_file dir lin : dir_inv dir -> ledger_inv lin (file_of dir lin).
Proof.
  intros Hd. unfold file_of. destruct (_ !! stem lin) eqn:E; [by apply Hd|apply empty_inv].
Qed.

Lemma load_ok dir lin : dir_inv dir -> load dir lin = Ok (file_of dir lin).
Proof.
  intros Hd. unfold load, file_of. fold (stem lin).
  destruct ((dir : gmap string payload) !! stem lin) as [p|] eqn:E; [|done].
  by rewrite inv_validates by by apply Hd.
Qed.

Lemma ledger_inv_stem lin lin' p : stem lin = stem lin' -> ledger_inv lin p -> ledger_inv lin' p.
Proof. intros Hs []. constructor; try done. unfold stem in Hs. congruence. Qed.

(** A write of a good payload goes through and keeps every file good. *)
Lemma commit_ok {A} dir lin p (r : A) : dir_inv dir -> ledger_inv lin p ->
  commit dir lin (Some p, r) = Ok (<[stem lin := p]> (dir : gmap string payload), r) /\
  dir_inv (<[stem lin := p]> (dir : gmap string payload)).
Proof.
  intros Hd Hp. split.
  - unfold commit, persist. cbn. by rewrite inv_validates.
  - intros lin' p' Hl. destruct (decide (stem lin = stem lin')) as [E|E].
    + rewrite E, lookup_insert_eq in Hl. injection Hl as <-. by eapply ledger_inv_stem.
    + rewrite lookup_insert_ne in Hl by done. by apply Hd.
Qed.

Lemma file_of_insert dir lin p : file_of (<[stem lin := p]> (dir : gmap string payload)) lin = p.
Proof. unfold file_of. by rewrite lookup_insert_eq. Qed.

(** ** [quarantine_stale] *)

Section Stale.
Variables (lin : string) (session_ref : string) (cutoff observed : Z).

Definition is_stale (r : spend_record) : bool :=
  String.eqb (session (scope_refs r)) session_ref && (created_at r <=? cutoff).

Definition all_open (l : list (string * spend_record)) (p : payload) : Prop :=
  NoDup l.*1 /\ forall k r, (k, r) ∈ l -> reservations p !! k = Some r.

Definition stale_move (k : string) (r : spend_record) (p : payload) : payload :=
  put CQuarantined k (with_quarantine r "spend_reservation_stale" observed) (drop CReservations k p).

Lemma touch_known refs m : (forall s, is_Some (m !! at_scope refs s)) -> touch refs m = m.
Proof.
  intros Hs. apply map_eq. intros k. rewrite touch_lookup. case_decide as Hd; [|done].
  destruct Hd as [s <-]. by destruct (Hs s) as [t ->].
Qed.

Lemma stale_step_spec k r p results :
  ledger_inv lin p -> reservations p !! k = Some r ->
  stale_step session_ref cutoff observed (k, r) (p, results) =
    if is_stale r
    then Ok (stale_move k r p,
             results ++ [close_view (with_quarantine r "spend_reservation_stale" observed)
                           (stale_move k r p) false None])%list
    else Ok (p, results).
Proof.
  intros Hi Hr. unfold stale_step, is_stale.
  destruct (String.eqb _ session_ref); [|done]. cbn [negb andb].
  destruct (Z.ltb_spec cutoff (created_at r)), (Z.leb_spec (created_at r) cutoff); try lia; [done|].
  pose proof (quarantine_move_inv lin k p Hi r "spend_reservation_stale" observed Hr) as Hm.
  change (set_quarantined _ _) with (stale_move k r p).
  rewrite (close_result_spec lin) by exact Hm. res_simpl.
  rewrite touch_known.
  - by destruct p.
  - apply (li_records _ _ Hi CReservations k r Hr).
Qed.

Lemma all_open_tail k r l p : all_open ((k, r) :: l) p ->
  all_open l (if is_stale r then stale_move k r p else p).
Proof.
  intros [Hn Hl]. cbn in Hn. apply NoDup_cons in Hn as [Hk Hn]. split; [done|].
  intros k' r' Hi. assert (k <> k') by (intros ->; apply Hk, list_elem_of_fmap; by exists (k', r')).
  assert (reservations p !! k' = Some r') by (apply Hl; by right).
  destruct (is_stale r); [|done]. cbn. by rewrite lookup_delete_ne.
Qed.

(** The loop never raises; it moves exactly the stale records of the list. *)
Lemma stale_loop l p results : ledger_inv lin p -> all_open l p ->
  exists p' results',
    foldR (stale_step session_ref cutoff observed) l (p, results) = Ok (p', results') /\
    ledger_inv lin p' /\ scopes p' = scopes p /\ closed_reservations p' = closed_reservations p /\
    length results' = (length results + length (filter (fun kv => is_stale kv.2 = true) l))%nat /\
    (forall k, reservations p' !! k =
       match reservations p !! k with
       | Some r => if decide (k ∈ l.*1 /\ is_stale r = true) then None else Some r
       | None => None
       end) /\
    (forall k r, quarantined_reservations p !! k = Some r -> quarantined_reservations p' !! k = Some r).
Proof.
  revert p results. induction l as [|[k r] l IH]; intros p results Hi Hl; cbn [foldR].
  - exists p, results. split; [done|]. split; [done|]. repeat split; [cbn; lia| |done].
    intros k. destruct (reservations p !! k); [|done]. case_decide as Hd; [set_solver|done].
  - assert (Hr : reservations p !! k = Some r) by (apply Hl; by left).
    rewrite stale_step_spec by done.
    pose proof (all_open_tail k r l p Hl) as Hl'. cbn [fmap list_fmap fst]. rewrite filter_cons. cbn [snd].
    destruct (is_stale r) eqn:Es; res_simpl.
    + pose proof (quarantine_move_inv lin k p Hi r "spend_reservation_stale" observed Hr) as Hm.
      destruct (IH (stale_move k r p) (results ++ [close_view (with_quarantine r "spend_reservation_stale" observed)
        (stale_move k r p) false None])%list Hm Hl') as (p' & res' & -> & Hi' & Hs & Hc & Hlen & Hres & Hq).
      exists p', res'. split; [done|]. split; [exact Hi'|]. split; [exact Hs|].
      split; [exact Hc|]. split; [|split; [|try done]].
      * rewrite Hlen, length_app. case_decide; [cbn; lia|done].
      * intros j. rewrite Hres. cbn. destruct (decide (j = k)) as [->|Hj].
        -- rewrite lookup_delete_eq, Hr, decide_True; [done|]. split; [by left|done].
        -- rewrite lookup_delete_ne by done. destruct (reservations p !! j); [|done].
           repeat case_decide; try done; set_solver.
      * intros j q Hj. apply Hq. cbn. rewrite lookup_insert_ne; [done|]. intros ->.
        assert (CReservations = CQuarantined) by (eapply (li_once _ _ Hi); by eexists). done.
    + destruct (IH p results Hi Hl') as (p' & res' & -> & Hi' & Hs & Hc & Hlen & Hres & Hq).
      exists p', res'. split; [done|]. split; [exact Hi'|]. split; [exact Hs|].
      split; [exact Hc|]. split; [|split; [|try done]].
      * rewrite Hlen. case_decide; [done|lia].
      * intros j. rewrite Hres. destruct (reservations p !! j) as [q|] eqn:Ej; [|done].
        destruct (decide (j ∈ l.*1 /\ is_stale q = true)) as [[H1 H2]|H1],
          (decide (j ∈ k :: l.*1 /\ is_stale q = true)) as [[H3 H4]|H3]; try done; exfalso.
        -- apply H3. split; [by right|done].
        -- apply elem_of_cons in H3 as [->|H3]; [congruence|]. by apply H1.
Qed.

Lemma all_open_items p : all_open (items (reservations p)) p.
Proof.
  split; [rewrite items_perm; apply NoDup_fst_map_to_list|]. intros k r. apply elem_of_items.
Qed.
End Stale.

(** ** [reserve] on the directory *)

(** What a scope has committed: spent plus held. *)
Definition committed (p : payload) (k : string) (d : dimension) : Z :=
  at_dim (spent (total_at p k)) d + at_dim (held (total_at p k)) d.

(** A request fits when every amount it asks for is within the ceiling of
    every scope, on top of what the scope has committed. *)
Definition fits (p : payload) (r : spend_record) : bool :=
  forallb (fun s => forallb (fun d => (at_dim (reserved r) d =? 0) ||
    (committed p (at_scope (scope_refs r) s) d + at_dim (reserved r) d
     <=? ceil_at (rec_ceilings r) d s)) DIMENSIONS) SCOPES.

Lemma fits_spec p r : fits p r = true <->
  forall s d, at_dim (reserved r) d = 0 \/
    committed p (at_scope (scope_refs r) s) d + at_dim (reserved r) d <= ceil_at (rec_ceilings r) d s.
Proof.
  unfold fits. rewrite forallb_forall. split.
  - intros Hs s d. assert (Hin : In s SCOPES) by (destruct s; cbn; tauto).
    specialize (Hs s Hin). rewrite forallb_forall in Hs.
    assert (Hd : In d DIMENSIONS) by (destruct d; cbn; tauto). specialize (Hs d Hd). lia.
  - intros Hs s _. apply forallb_forall. intros d _. specialize (Hs s d). lia.
Qed.

Lemma fits_iff p r : amt_nonneg (reserved r) ->
  first_breach (reserved r) (remaining_at p (rec_ceilings r) (scope_refs r)) = None
  <-> fits p r = true.
Proof.
  intros Hr. rewrite first_breach_none, fits_spec. unfold committed.
  split; intros Hs s d; specialize (Hs s d); specialize (Hr d);
    rewrite remaining_at_dim in *; lia.
Qed.

Section ReserveDir.
Variables (dir : ledger_dir) (policy : pyval) (sid aid : string).
Variables (request : SpendReservationRequest) (quote : SpendQuote) (observed : Z) (ret : option Z).
Variable inp : reserve_inputs.
Hypothesis Hdir : dir_inv dir.
Hypothesis Hquote : quote_wf quote.
Hypothesis Hprep : prepare_reserve policy sid aid request quote observed ret = Ok inp.
Hypothesis Hrefs : refs_distinct (scope_refs (ri_record inp)).

#[local] Abbreviation rec := (ri_record inp).
#[local] Abbreviation lin := (ri_lineage_id inp).
#[local] Abbreviation file := (file_of dir lin).

Lemma prep : prepared inp sid aid observed.
Proof. by eapply prepare_reserve_ok. Qed.
Lemma prep_wf : rec_wf rec.
Proof. constructor; [done|apply prep]. Qed.
Lemma prep_nonneg : amt_nonneg (reserved rec).
Proof.
  destruct (validate_record_inv _ _ _ (pr_valid _ _ _ _ prep)) as [(_ & _ & Ha & _) _].
  by apply amounts_int_nonneg.
Qed.

Lemma reserve_unfold :
  reserve dir policy sid aid request quote observed ret
  = (out ← reserve_locked rec observed file; commit dir lin out).
Proof. unfold reserve. rewrite Hprep. res_simpl. by rewrite load_ok. Qed.

#[global] Instance has_prior_dec r obs p : Decision (has_prior r obs p).
Proof.
  set (at_ c := recs c (prune_terminal_records p obs) !! reservation_hash r).
  destruct (decide (is_Some (at_ CReservations))); [left; by exists CReservations|].
  destruct (decide (is_Some (at_ CClosed))); [left; by exists CClosed|].
  destruct (decide (is_Some (at_ CQuarantined))); [left; by exists CQuarantined|].
  right. by intros [[] ?].
Defined.

Lemma reserve_dir_replay : has_prior rec observed file ->
  (exists r, reserve dir policy sid aid request quote observed ret = Ok (dir, r) /\
     accepted r = false /\ res_idempotent r = true) \/
  reserve dir policy sid aid request quote observed ret
    = Raise (SpendBudgetConflictError "spend_request_conflict").
Proof.
  intros Hp. rewrite reserve_unfold.
  destruct (reserve_replay lin rec observed file (dir_inv_file _ _ Hdir) Hp) as [(r & -> & Ha)| ->];
    [left; by exists r|by right].
Qed.

Lemma reserve_dir_fresh :
  ~ has_prior rec observed file -> (used_slots observed file < MAX_LEDGER_RECORDS)%nat ->
  exists p' r,
    reserve dir policy sid aid request quote observed ret
      = Ok (<[stem lin := p']> (dir : gmap string payload), r) /\
    ledger_inv lin p' /\ accepted r = fits file rec /\
    (forall k, total_at p' k = if accepted r && bool_decide (is_ref (scope_refs rec) k)
                               then hold (reserved rec) (total_at file k) else total_at file k) /\
    (accepted r = true -> reservations p' !! reservation_hash rec = Some rec).
Proof.
  intros Hn Hc. rewrite reserve_unfold. pose proof (dir_inv_file _ lin Hdir) as Hi.
  pose proof prep as [Hv _ _ _ _ Hb]. pose proof prep_wf as Hw.
  pose proof (fits_iff file rec prep_nonneg) as Hf.
  destruct (first_breach (reserved rec) (remaining_at file (rec_ceilings rec) (scope_refs rec)))
    as [[s d]|] eqn:Eb.
  - destruct (reserve_rejected lin rec observed file Hi Hv Hw s d Hn Hc Eb)
      as (p' & r & -> & Hp & Ha & Ht & _).
    destruct (commit_ok dir lin p' r Hdir Hp) as [Hcm _]. exists p', r.
    rewrite Ha. split; [exact Hcm|]. split; [done|].
    split; [by destruct (fits file rec); [destruct Hf as [_ Hf]; discriminate Hf|]|]. by split.
  - destruct (reserve_accepted lin rec observed file Hi Hv Hw Hb Hn Hc Eb)
      as (p' & r & -> & Hp & Ha & Ht & Hres & _).
    destruct (commit_ok dir lin p' r Hdir Hp) as [Hcm _]. exists p', r.
    rewrite Ha. split; [exact Hcm|]. split; [done|]. split; [symmetry; by apply Hf|]. split.
    + intros k. rewrite Ht. cbn [andb]. by rewrite bool_decide_decide; destruct (decide _).
    + intros _. by rewrite Hres, lookup_insert_eq.
Qed.
End ReserveDir.

(** ** The other operations commit nothing new *)

Definition no_new_commitment (dir dir' : ledger_dir) (lin : string) : Prop :=
  dir' = dir \/
  exists p', dir' = <[stem lin := p']> (dir : gmap string payload) /\ ledger_inv lin p' /\
    forall k d, committed p' k d <= committed (file_of dir lin) k d.

Lemma commit_cases {A} dir lin (out : option payload * A) dir' r :
  dir_inv dir -> commit dir lin out = Ok (dir', r) ->
  match out.1 with
  | None => True
  | Some p' => ledger_inv lin p' /\ forall k d, committed p' k d <= committed (file_of dir lin) k d
  end -> no_new_commitment dir dir' lin.
Proof.
  intros Hd Hc Hp. destruct out as [[p'|] x]; cbn in Hp.
  - destruct Hp as [Hi Hle]. destruct (commit_ok dir lin p' x Hd Hi) as [E _].
    rewrite E in Hc. injection Hc as <- _. right. by exists p'.
  - injection Hc as <- _. by left.
Qed.

Lemma committed_eq p p' k d : total_at p' k = total_at p k -> committed p' k d <= committed p k d.
Proof. unfold committed. intros ->. lia. Qed.

Lemma known_nonneg lin p c key r d : ledger_inv lin p -> recs c p !! key = Some r ->
  0 <= at_dim (reserved r) d.
Proof.
  intros Hi Hr. destruct (li_records _ _ Hi c key r Hr) as (Hv & _).
  destruct (validate_record_inv _ _ _ Hv) as [(_ & _ & Ha & _) _]. by apply amounts_int_nonneg.
Qed.

Lemma cancel_commits dir lin sid rid code clock dir' r : dir_inv dir ->
  cancel dir lin sid rid code clock = Ok (dir', r) -> no_new_commitment dir dir' lin.
Proof.
  intros Hd Ho. unfold cancel in Ho. apply bind_ok in Ho as (c & Ec & Ho).
  apply bind_ok in Ho as (key & Ek & Ho). rewrite load_ok in Ho by done. cbn in Ho.
  pose proof (dir_inv_file dir lin Hd) as Hi. set (p := file_of dir lin) in *.
  apply bind_ok in Ho as (out & Eo & Ho). eapply commit_cases; [done|exact Ho|]. fold p. clear Ho.
  destruct (reservations p !! key) as [rec|] eqn:Er.
  - destruct (require_session_ok sid rec) as [Es|Es].
    + destruct (release_spec lin key sid p Hi rec c clock Er Es) as (p' & E & Hp & Ht & _).
      rewrite E in Eo. injection Eo as <-. split; [done|]. intros k d. unfold committed. rewrite Ht.
      pose proof (known_nonneg lin p CReservations key rec d Hi Er).
      case_decide; [|lia]. cbn [unhold spent held]. rewrite at_dim_sub. lia.
    + exfalso. unfold close_without_spend_locked in Eo.
      rewrite (only_in lin key p Hi CReservations CClosed rec Er ltac:(done)
        : closed_reservations p !! key = None), Er, Es in Eo. done.
  - unfold close_without_spend_locked in Eo. rewrite Er in Eo.
    destruct (closed_reservations p !! key) as [prior|]; [|done]. ok_steps Eo.
    destruct x0. ok_steps Eo. by subst out.
Qed.

Lemma quarantine_commits dir lin sid rid code clock dir' r : dir_inv dir ->
  quarantine dir lin sid rid code clock = Ok (dir', r) -> no_new_commitment dir dir' lin.
Proof.
  intros Hd Ho. unfold quarantine in Ho. apply bind_ok in Ho as (key & Ek & Ho).
  apply bind_ok in Ho as (c & Ec & Ho). rewrite load_ok in Ho by done. cbn in Ho.
  pose proof (dir_inv_file dir lin Hd) as Hi. set (p := file_of dir lin) in *.
  apply bind_ok in Ho as (out & Eo & Ho). eapply commit_cases; [done|exact Ho|]. fold p. clear Ho.
  destruct (reservations p !! key) as [rec|] eqn:Er.
  - destruct (require_session_ok sid rec) as [Es|Es].
    + destruct (quarantine_spec lin key sid p Hi rec c clock Er Es) as (p' & E & -> & Hp).
      rewrite E in Eo. injection Eo as <-. split; [done|]. intros k d. by apply committed_eq.
    + exfalso. unfold quarantine_locked in Eo.
      rewrite (only_in lin key p Hi CReservations CClosed rec Er ltac:(done)
        : closed_reservations p !! key = None),
        (only_in lin key p Hi CReservations CQuarantined rec Er ltac:(done)
        : quarantined_reservations p !! key = None), Er, Es in Eo. done.
  - unfold quarantine_locked in Eo. rewrite Er in Eo.
    destruct (quarantined_reservations p !! key) as [prior|].
    + ok_steps Eo. destruct x0. ok_steps Eo. by subst out.
    + destruct (closed_reservations p !! key); [|done]. ok_steps Eo.
Qed.

Lemma settle_locked_commits lin key sid input output proof settlement clock p out :
  ledger_inv lin p -> 0 <= input -> 0 <= output -> digest_match settlement = true ->
  settle_locked key sid input output proof settlement clock p = Ok out ->
  match out.1 with
  | None => True
  | Some p' => ledger_inv lin p' /\ forall k d, committed p' k d <= committed p k d
  end.
Proof.
  intros Hi Hin Hout Hst Eo. destruct (open_record key p) as [[rec fq]|] eqn:Er.
  - destruct (open_record_in lin key p Hi rec fq Er) as [Hr Hc].
    destruct (require_session_ok sid rec) as [Es|Es].
    + destruct (decide (optional_digest proof = true /\ input <= rec_max_input_tokens rec
        /\ output <= rec_max_output_tokens rec)) as [(Hp & Hi1 & Ho1)|Hn].
      * destruct proof as [proof|]; [|done].
        assert (Hu : usage_within rec input output) by by repeat split.
        destruct (settle_spec lin key sid p Hi rec fq input output proof settlement clock Er Es Hu Hp Hst)
          as (p' & E & Hp' & Ht & _). rewrite E in Eo. injection Eo as <-. split; [done|].
        intros k d. unfold committed. rewrite Ht. case_decide; [|lia].
        destruct (usage_le_reserved lin key p Hi _ rec input output Hr Hu) as [_ Hle].
        specialize (Hle d). cbn [settle_totals spent held]. autorewrite with ardur. lia.
      * assert (Hn' : ~ (optional_digest proof = true /\ usage_within rec input output)).
        { intros [? [[? ?] [? ?]]]. by apply Hn. }
        rewrite (settle_refused_spec lin key sid p Hi rec fq input output proof settlement clock
                   Er Es Hin Hout Hn') in Eo.
        destruct fq; injection Eo as <-; [done|]. cbn [fst]. split; [by apply quarantine_move_inv|].
        intros k d. by apply committed_eq.
    + exfalso. unfold settle_locked in Eo. rewrite Hc in Eo. fold (open_record key p) in Eo.
      rewrite Er, Es in Eo. done.
  - unfold settle_locked in Eo. fold (open_record key p) in Eo. rewrite Er in Eo.
    destruct (closed_reservations p !! key) as [prior|]; [|done]. ok_steps Eo.
    destruct x0. ok_steps Eo. by subst out.
Qed.

Lemma settle_commits dir lin sid rid i o proof clock dir' r : dir_inv dir ->
  settle dir lin sid rid i o proof clock = Ok (dir', r) -> no_new_commitment dir dir' lin.
Proof.
  intros Hd Ho. unfold settle in Ho. apply bind_ok in Ho as (ni & [_ Hi]%non_negative_int_ok & Ho).
  apply bind_ok in Ho as (no & [_ Hoo]%non_negative_int_ok & Ho).
  apply bind_ok in Ho as (key & Ek & Ho). apply bind_ok in Ho as (st & Est & Ho).
  rewrite load_ok in Ho by done. cbn in Ho. apply bind_ok in Ho as (out & Eo & Ho).
  eapply commit_cases; [done|exact Ho|].
  eapply settle_locked_commits; [by apply dir_inv_file|..|exact Eo]; [lia|lia|].
  by eapply canonical_digest_match.
Qed.

Lemma stale_commits dir lin sid age observed dir' r : dir_inv dir ->
  quarantine_stale dir lin sid age observed = Ok (dir', r) -> no_new_commitment dir dir' lin.
Proof.
  intros Hd Ho. unfold quarantine_stale in Ho. apply bind_ok in Ho as (a & Ea & Ho).
  rewrite load_ok in Ho by done. cbn in Ho. set (p := file_of dir lin) in *.
  destruct (stale_loop lin (scope_hash "session" sid) (observed - a) observed
    (items (reservations p)) p [] (dir_inv_file _ _ Hd) (all_open_items p))
    as (p' & rs & E & Hp & Hs & _). rewrite E in Ho. res_simpl. cbn in Ho.
  eapply commit_cases; [done|exact Ho|]. destruct rs; cbn; [done|]. split; [done|].
  intros k d. apply committed_eq. unfold total_at. by rewrite Hs.
Qed.

(** ** Any sequence of calls *)

(** One successful call of the public interface; [P] restricts the requests
    considered.  A call that raises leaves the directory as it was. *)
Inductive spend_step (P : reserve_inputs -> Prop) (dir dir' : ledger_dir) : Prop :=
| step_reserve policy sid aid request quote observed ret inp r :
    quote_wf quote ->
    prepare_reserve policy sid aid request quote observed ret = Ok inp -> P inp ->
    reserve dir policy sid aid request quote observed ret = Ok (dir', r) -> spend_step P dir dir'
| step_settle lin sid rid input output proof clock r :
    settle dir lin sid rid input output proof clock = Ok (dir', r) -> spend_step P dir dir'
| step_cancel lin sid rid code clock r :
    cancel dir lin sid rid code clock = Ok (dir', r) -> spend_step P dir dir'
| step_quarantine lin sid rid code clock r :
    quarantine dir lin sid rid code clock = Ok (dir', r) -> spend_step P dir dir'
| step_stale lin sid age observed r :
    quarantine_stale dir lin sid age observed = Ok (dir', r) -> spend_step P dir dir'.

(** The requests of the theorems: the digests of their three scopes differ. *)
Definition distinct_scopes (inp : reserve_inputs) : Prop :=
  refs_distinct (scope_refs (ri_record inp)).

(** [cap] bounds the ceilings a request was admitted under. *)
Definition capped (cap : string -> dimension -> Z) (inp : reserve_inputs) : Prop :=
  distinct_scopes inp /\
  forall s d, ceil_at (rec_ceilings (ri_record inp)) d s
              <= cap (at_scope (scope_refs (ri_record inp)) s) d.

Lemma no_new_commitment_inv dir dir' lin : dir_inv dir -> no_new_commitment dir dir' lin -> dir_inv dir'.
Proof.
  intros Hd [->|(p' & -> & Hp & _)]; [done|].
  by destruct (commit_ok dir lin p' tt Hd Hp) as [_ ?].
Qed.

(** A reservation, seen from outside. *)
Lemma reserve_result dir policy sid aid request quote observed ret inp dir' r :
  dir_inv dir -> quote_wf quote ->
  prepare_reserve policy sid aid request quote observed ret = Ok inp -> distinct_scopes inp ->
  reserve dir policy sid aid request quote observed ret = Ok (dir', r) ->
  dir' = dir \/
  exists p', dir' = <[stem (ri_lineage_id inp) := p']> (dir : gmap string payload) /\
    ledger_inv (ri_lineage_id inp) p' /\
    forall k d, committed p' k d <= committed (file_of dir (ri_lineage_id inp)) k d \/
      exists s, k = at_scope (scope_refs (ri_record inp)) s /\
                committed p' k d <= ceil_at (rec_ceilings (ri_record inp)) d s.
Proof.
  intros Hd Hq Hp Hr Ho. set (rec := ri_record inp). set (file := file_of dir (ri_lineage_id inp)).
  destruct (decide (has_prior rec observed file)) as [Hprior|Hn].
  { destruct (reserve_dir_replay dir policy sid aid request quote observed ret inp Hd Hp Hprior)
      as [(r' & E & _)|E]; rewrite E in Ho; [|done]. injection Ho as <- _. by left. }
  right. destruct (decide (used_slots observed file < MAX_LEDGER_RECORDS)%nat) as [Hc|Hc].
  2: { exfalso. rewrite (reserve_unfold dir policy sid aid request quote observed ret inp Hd Hp) in Ho.
       fold rec file in Ho. rewrite (reserve_full rec observed file Hn) in Ho by lia. done. }
  destruct (reserve_dir_fresh dir policy sid aid request quote observed ret inp Hd Hq Hp Hr Hn Hc)
    as (p' & r' & E & Hi & Ha & Ht & _). rewrite E in Ho. injection Ho as <- _.
  exists p'. split; [done|]. split; [done|]. intros k d. subst rec file.
  unfold committed in *. rewrite Ht. destruct (accepted r'); cbn [andb]; [|left; lia].
  case_bool_decide as Hk; [|left; lia]. destruct Hk as [s <-]. cbn [hold spent held]. rewrite at_dim_add.
  symmetry in Ha. rewrite fits_spec in Ha. destruct (Ha s d) as [E0|Hle]; [left; lia|].
  right. exists s. split; [done|]. unfold committed in Hle. lia.
Qed.

Lemma step_inv P dir dir' : (forall inp, P inp -> distinct_scopes inp) ->
  dir_inv dir -> spend_step P dir dir' -> dir_inv dir'.
Proof.
  intros HP Hd [policy sid aid request quote observed ret inp r Hq Hp Hin Ho|
    lin sid rid i o proof clock r Ho|lin sid rid code clock r Ho|lin sid rid code clock r Ho|
    lin sid age observed r Ho].
  - destruct (reserve_result dir policy sid aid request quote observed ret inp dir' r Hd Hq Hp
      (HP _ Hin) Ho) as [->|(p' & -> & Hi & _)]; [done|].
    by destruct (commit_ok dir _ p' tt Hd Hi) as [_ ?].
  - by eapply no_new_commitment_inv, settle_commits.
  - by eapply no_new_commitment_inv, cancel_commits.
  - by eapply no_new_commitment_inv, quarantine_commits.
  - by eapply no_new_commitment_inv, stale_commits.
Qed.

Lemma reachable_inv P dir : (forall inp, P inp -> distinct_scopes inp) ->
  rtc (spend_step P) ∅ dir -> dir_inv dir.
Proof.
  intros HP. apply (rtc_ind_r dir_inv); [apply dir_inv_empty|]. intros d d' _ Hs Hd.
  by eapply step_inv.
Qed.

(** No file commits more than [cap] at any scope. *)
Definition within (cap : string -> dimension -> Z) (dir : ledger_dir) : Prop :=
  forall lin k d, committed (file_of dir lin) k d <= cap k d.

Lemma within_insert cap dir lin p' : within cap dir ->
  (forall k d, committed p' k d <= cap k d) ->
  within cap (<[stem lin := p']> (dir : gmap string payload)).
Proof.
  intros Hw Hp lin' k d. unfold file_of. destruct (decide (stem lin = stem lin')) as [E|E].
  - rewrite E, lookup_insert_eq. apply Hp.
  - rewrite lookup_insert_ne by done. apply Hw.
Qed.

Lemma within_no_new cap dir dir' lin : within cap dir -> no_new_commitment dir dir' lin ->
  within cap dir'.
Proof.
  intros Hw [->|(p' & -> & _ & Hle)]; [done|]. apply within_insert; [done|].
  intros k d. specialize (Hw lin k d). specialize (Hle k d). lia.
Qed.

Lemma step_within cap dir dir' :
  dir_inv dir -> within cap dir -> spend_step (capped cap) dir dir' -> within cap dir'.
Proof.
  intros Hd Hw [policy sid aid request quote observed ret inp r Hq Hp [Hin Hcap] Ho|
    lin sid rid i o proof clock r Ho|lin sid rid code clock r Ho|lin sid rid code clock r Ho|
    lin sid age observed r Ho].
  - destruct (reserve_result dir policy sid aid request quote observed ret inp dir' r Hd Hq Hp
      Hin Ho) as [->|(p' & -> & Hi & Hle)]; [done|].
    apply within_insert; [done|]. intros k d.
    destruct (Hle k d) as [Hle'|(s & -> & Hle')]; [specialize (Hw (ri_lineage_id inp) k d)|
      specialize (Hcap s d)]; lia.
  - by eapply within_no_new, settle_commits.
  - by eapply within_no_new, cancel_commits.
  - by eapply within_no_new, quarantine_commits.
  - by eapply within_no_new, stale_commits.
Qed.

(** The record of an accepted reservation stays until it is closed. *)
Lemma accepted_on_file dir policy sid aid request quote observed ret inp dir' r :
  dir_inv dir -> quote_wf quote ->
  prepare_reserve policy sid aid request quote observed ret = Ok inp -> distinct_scopes inp ->
  reserve dir policy sid aid request quote observed ret = Ok (dir', r) -> accepted r = true ->
  dir_inv dir' /\
  reservations (file_of dir' (ri_lineage_id inp)) !! reservation_hash (ri_record inp)
    = Some (ri_record inp).
Proof.
  intros Hd Hq Hp Hr Ho Ha. set (rec := ri_record inp). set (file := file_of dir (ri_lineage_id inp)).
  destruct (decide (has_prior rec observed file)) as [Hprior|Hn].
  { exfalso. destruct (reserve_dir_replay dir policy sid aid request quote observed ret inp Hd Hp Hprior)
      as [(r' & E & E' & _)|E]; rewrite E in Ho; [|done]. injection Ho as _ <-. congruence. }
  destruct (decide (used_slots observed file < MAX_LEDGER_RECORDS)%nat) as [Hc|Hc].
  2: { exfalso. rewrite (reserve_unfold dir policy sid aid request quote observed ret inp Hd Hp) in Ho.
       fold rec file in Ho. rewrite (reserve_full rec observed file Hn) in Ho by lia. done. }
  destruct (reserve_dir_fresh dir policy sid aid request quote observed ret inp Hd Hq Hp Hr Hn Hc)
    as (p' & r' & E & Hi & _ & _ & Hrec). rewrite E in Ho. injection Ho as <- ->.
  split; [by destruct (commit_ok dir _ p' tt Hd Hi)|]. rewrite file_of_insert. by apply Hrec.
Qed.

(** C1. No sequence of reserve, settle, cancel, quarantine and
    stale-quarantine calls, in any order and from any number of callers, ever
    commits (spent plus held) more tokens or more money at a session, agent or
    lineage scope than the ceilings the requests were admitted under. *)
Theorem spend_ceilings_hold cap dir :
  (forall k d, 0 <= cap k d) -> rtc (spend_step (capped cap)) ∅ dir ->
  forall lin k d, committed (file_of dir lin) k d <= cap k d.
Proof.
  intros Hc Hr. enough (Hw : dir_inv dir /\ within cap dir) by apply Hw.
  revert Hr. apply (rtc_ind_r (fun dir => dir_inv dir /\ within cap dir)).
  - split; [apply dir_inv_empty|]. intros lin k d. specialize (Hc k d). by destruct d.
  - intros d d' _ Hs [Hd Hw]. split; [|by eapply step_within].
    eapply step_inv; [|done|exact Hs]. by intros inp [? _].
Qed.

(** C21. Every ledger file any sequence of calls can produce passes the
    validator that guards loads and writes: its totals are exactly what its
    records and archive add up to, and each request is in one container. *)
Theorem spend_ledger_consistent dir lin :
  rtc (spend_step distinct_scopes) ∅ dir ->
  exists p, load dir lin = Ok p /\ validate_payload p lin = Ok tt /\
    (forall k t, scopes p !! k = Some t ->
       held t = expected_reserved p k /\ spent t = expected_spent p k) /\
    (forall c c' k, is_Some (recs c p !! k) -> is_Some (recs c' p !! k) -> c = c').
Proof.
  intros Hr. assert (Hd : dir_inv dir) by (eapply reachable_inv; [|exact Hr]; done).
  exists (file_of dir lin). pose proof (dir_inv_file dir lin Hd) as Hi.
  split; [by apply load_ok|]. split; [by apply inv_validates|]. split; [|apply Hi].
  intros k t Hk. split; [by apply (li_held _ _ Hi)|by apply (li_spent _ _ Hi)].
Qed.

(** C22. While the ledger has room for a record, a new request is decided
    exactly: it is accepted if and only if it fits under all six ceilings (three scopes, two dimensions); an accepted
    one is held at the three scopes, a refused one moves no total, and the
    write of the new ledger cannot fail. *)
Theorem reserve_decides dir policy sid aid request quote observed ret inp :
  dir_inv dir -> quote_wf quote ->
  prepare_reserve policy sid aid request quote observed ret = Ok inp -> distinct_scopes inp ->
  ~ has_prior (ri_record inp) observed (file_of dir (ri_lineage_id inp)) ->
  (used_slots observed (file_of dir (ri_lineage_id inp)) < MAX_LEDGER_RECORDS)%nat ->
  let file := file_of dir (ri_lineage_id inp) in
  exists dir' r,
    reserve dir policy sid aid request quote observed ret = Ok (dir', r) /\ dir_inv dir' /\
    accepted r = fits file (ri_record inp) /\
    forall k, total_at (file_of dir' (ri_lineage_id inp)) k
              = if accepted r && bool_decide (is_ref (scope_refs (ri_record inp)) k)
                then hold (reserved (ri_record inp)) (total_at file k) else total_at file k.
Proof.
  intros Hd Hq Hp Hr Hn Hc file.
  destruct (reserve_dir_fresh dir policy sid aid request quote observed ret inp Hd Hq Hp Hr Hn Hc)
    as (p' & r & E & Hi & Ha & Ht & _).
  exists (<[stem (ri_lineage_id inp) := p']> (dir : gmap string payload)), r.
  destruct (commit_ok dir _ p' tt Hd Hi) as [_ Hd'].
  split; [done|]. split; [done|]. split; [done|]. by rewrite file_of_insert.
Qed.

(** Retrying a request never reserves twice: once accepted, the same
    request id, with whatever other arguments and at whatever time, is
    answered without a write and without a second acceptance, or refused as a
    conflict. *)
Theorem reserve_no_double dir policy sid aid request quote observed ret inp dir' r
    policy2 sid2 aid2 request2 quote2 observed2 ret2 inp2 :
  dir_inv dir -> quote_wf quote ->
  prepare_reserve policy sid aid request quote observed ret = Ok inp -> distinct_scopes inp ->
  reserve dir policy sid aid request quote observed ret = Ok (dir', r) -> accepted r = true ->
  prepare_reserve policy2 sid2 aid2 request2 quote2 observed2 ret2 = Ok inp2 ->
  ri_lineage_id inp2 = ri_lineage_id inp ->
  reservation_hash (ri_record inp2) = reservation_hash (ri_record inp) ->
  (exists r2, reserve dir' policy2 sid2 aid2 request2 quote2 observed2 ret2 = Ok (dir', r2) /\
     accepted r2 = false /\ res_idempotent r2 = true) \/
  reserve dir' policy2 sid2 aid2 request2 quote2 observed2 ret2
    = Raise (SpendBudgetConflictError "spend_request_conflict").
Proof.
  intros Hd Hq Hp Hr Ho Ha Hp2 Hl Hk.
  destruct (accepted_on_file dir policy sid aid request quote observed ret inp dir' r Hd Hq Hp Hr Ho Ha)
    as [Hd' Hf].
  apply (reserve_dir_replay dir' policy2 sid2 aid2 request2 quote2 observed2 ret2 inp2 Hd' Hp2).
  exists CReservations. cbn [recs]. rewrite Hl, Hk.
  destruct (prune_frame (file_of dir' (ri_lineage_id inp)) observed2) as (_ & -> & _).
  rewrite Hf. by eexists.
Qed.

(** ** Closing a reservation *)

Section CloseDir.
Variables (dir : ledger_dir) (lin sid rid key : string).
Hypothesis Hdir : dir_inv dir.
Hypothesis Hkey : reservation_hash_of rid = Ok key.

#[local] Abbreviation file := (file_of dir lin).

Lemma settle_unfold i o proof st clock :
  0 <= i <= MAX_SAFE_INTEGER -> 0 <= o <= MAX_SAFE_INTEGER ->
  canonical_digest (settlement_payload key i o proof) = Ok st ->
  settle dir lin sid rid (PInt i) (PInt o) proof clock
  = (out ← settle_locked key sid i o proof st clock file; commit dir lin out).
Proof.
  intros Hi Ho Hst. unfold settle. rewrite !non_negative_int_in by done. res_simpl.
  rewrite Hkey. res_simpl. rewrite Hst. res_simpl. by rewrite load_ok.
Qed.

Lemma settle_dir rec fq i o proof st clock :
  open_record key file = Some (rec, fq) -> require_session_scope rec sid = Ok tt ->
  usage_within rec i o -> digest_match proof = true ->
  rec_max_input_tokens rec <= MAX_SAFE_INTEGER -> rec_max_output_tokens rec <= MAX_SAFE_INTEGER ->
  canonical_digest (settlement_payload key i o (Some proof)) = Ok st ->
  let act := usage_amounts rec i o in
  let rec' := with_settle rec st proof act (amt_sub (reserved rec) act) clock fq in
  exists p', settle dir lin sid rid (PInt i) (PInt o) (Some proof) clock
      = Ok (<[stem lin := p']> (dir : gmap string payload), close_view rec' p' false (Some fq)) /\
    ledger_inv lin p' /\
    (forall k, total_at p' k = if decide (is_ref (scope_refs rec) k)
       then settle_totals (reserved rec) act (total_at file k) else total_at file k) /\
    closed_reservations p' !! key = Some rec'.
Proof.
  intros Ho Hs Hu Hp Hm1 Hm2 Hst act rec'. destruct Hu as [Hi Hoo].
  rewrite (settle_unfold i o (Some proof) st clock ltac:(lia) ltac:(lia) Hst).
  destruct (settle_spec lin key sid file (dir_inv_file _ _ Hdir) rec fq i o proof st clock Ho Hs
    (conj Hi Hoo) Hp (canonical_digest_match _ _ Hst)) as (p' & E & Hi' & Ht & Hc & _).
  fold act rec' in E, Hc. rewrite E. res_simpl. exists p'.
  destruct (commit_ok dir lin p' (close_view rec' p' false (Some fq)) Hdir Hi') as [-> _].
  split; [done|]. split; [done|]. split; [exact Ht|]. by rewrite Hc, lookup_insert_eq.
Qed.

Lemma open_max rec fq : open_record key file = Some (rec, fq) ->
  rec_max_input_tokens rec <= MAX_SAFE_INTEGER /\ rec_max_output_tokens rec <= MAX_SAFE_INTEGER.
Proof.
  intros Ho. pose proof (dir_inv_file dir lin Hdir) as Hi.
  destruct (open_record_in lin key file Hi rec fq Ho) as [Hr _].
  destruct (li_records _ _ Hi _ key rec Hr) as (Hv & _ & _).
  unfold validate_record in Hv. cbn [iterR] in Hv.
  rewrite !guard_ok, !bind_unit_ok, !validate_ledger_int_ok in Hv. lia.
Qed.

(** Settling a reservation with proved usage within its limits always
    succeeds, from quarantine too: the usage is never more than was held, each
    of the three scopes spends exactly the usage and gets back the whole hold,
    and usage plus refund is the hold. *)
Theorem settle_exact rec fq i o proof st clock :
  open_record key file = Some (rec, fq) -> require_session_scope rec sid = Ok tt ->
  usage_within rec i o -> digest_match proof = true ->
  canonical_digest (settlement_payload key i o (Some proof)) = Ok st ->
  exists dir' r, settle dir lin sid rid (PInt i) (PInt o) (Some proof) clock = Ok (dir', r) /\
    dir_inv dir' /\ cl_operation r = OpSettle /\ cl_reconciled r = fq /\
    cl_actual r = usage_amounts rec i o /\ amt_add (cl_actual r) (cl_refunded r) = reserved rec /\
    amt_nonneg (cl_refunded r) /\
    forall k, total_at (file_of dir' lin) k =
      if decide (is_ref (scope_refs rec) k)
      then Totals (amt_add (spent (total_at file k)) (usage_amounts rec i o))
                  (amt_sub (held (total_at file k)) (reserved rec))
      else total_at file k.
Proof.
  intros Ho Hs Hu Hp Hst. destruct (open_max rec fq Ho) as [Hm1 Hm2].
  destruct (settle_dir rec fq i o proof st clock Ho Hs Hu Hp Hm1 Hm2 Hst) as (p' & E & Hi & Ht & _).
  destruct (open_record_in lin key file (dir_inv_file _ _ Hdir) rec fq Ho) as [Hr _].
  destruct (usage_le_reserved lin key file (dir_inv_file _ _ Hdir) _ rec i o Hr Hu) as [_ Hle].
  eexists _, _. split; [exact E|]. split; [by destruct (commit_ok dir lin p' tt Hdir Hi)|].
  do 3 (split; [done|]). split; [apply amt_sub_add|].
  split; [|by rewrite file_of_insert].
  intros d. cbn. rewrite at_dim_sub. specialize (Hle d). lia.
Qed.

(** Without a well-formed proof, or with usage over the limits, nothing
    is released and nothing is spent: an open reservation moves to quarantine
    and keeps its hold, a quarantined one stays. *)
Theorem settle_fails_closed rec fq i o proof st clock :
  open_record key file = Some (rec, fq) -> require_session_scope rec sid = Ok tt ->
  0 <= i <= MAX_SAFE_INTEGER -> 0 <= o <= MAX_SAFE_INTEGER ->
  canonical_digest (settlement_payload key i o proof) = Ok st ->
  ~ (optional_digest proof = true /\ usage_within rec i o) ->
  exists dir' r, settle dir lin sid rid (PInt i) (PInt o) proof clock = Ok (dir', r) /\
    dir_inv dir' /\ cl_reconciled r = false /\ cl_actual r = amt0 /\
    scopes (file_of dir' lin) = scopes file /\
    is_Some (quarantined_reservations (file_of dir' lin) !! key).
Proof.
  intros Ho Hs Hi Hoo Hst Hn. rewrite (settle_unfold i o proof st clock Hi Hoo Hst).
  pose proof (dir_inv_file dir lin Hdir) as Hinv.
  rewrite (settle_refused_spec lin key sid file Hinv rec fq i o proof st clock Ho Hs) by (lia || done).
  destruct (open_record_in lin key file Hinv rec fq Ho) as [Hr _]. destruct fq; cbn [recs] in Hr.
  - eexists dir, _. split; [reflexivity|]. split; [done|]. split; [done|].
    destruct (validate_record_inv _ _ _ (proj1 (li_records _ _ Hinv CQuarantined key rec Hr))) as [_ Hop].
    split; [|split; [done|by rewrite Hr]].
    cbn in Hop |- *. by destruct (op rec) as [[]|].
  - cbv zeta. res_simpl.
    pose proof (quarantine_move_inv lin key file Hinv rec (if negb (optional_digest proof)
      then "spend_settlement_evidence_missing" else "spend_usage_exceeds_reservation") clock Hr) as Hq.
    set (p' := put _ _ _ _) in *.
    destruct (commit_ok dir lin p' (close_view (with_quarantine rec (if negb (optional_digest proof)
      then "spend_settlement_evidence_missing" else "spend_usage_exceeds_reservation") clock) p' false
      (Some false)) Hdir Hq) as [-> Hd']. eexists _, _. split; [reflexivity|].
    rewrite file_of_insert. split; [done|]. split; [done|]. split; [done|]. split; [done|].
    cbn. rewrite lookup_insert_eq. by eexists.
Qed.

(** A cancelled reservation gives back exactly its hold at the three
    scopes, spends nothing, and is on file as released. *)
Theorem cancel_releases rec reason code clock :
  bounded_string reason 256 = Ok code ->
  reservations file !! key = Some rec -> require_session_scope rec sid = Ok tt ->
  exists dir' r, cancel dir lin sid rid reason clock = Ok (dir', r) /\ dir_inv dir' /\
    cl_operation r = OpRelease /\ cl_actual r = amt0 /\ cl_refunded r = reserved rec /\
    (forall k, total_at (file_of dir' lin) k =
       if decide (is_ref (scope_refs rec) k)
       then Totals (spent (total_at file k)) (amt_sub (held (total_at file k)) (reserved rec))
       else total_at file k) /\
    reservations (file_of dir' lin) !! key = None.
Proof.
  intros Hc Hr Hs. unfold cancel. rewrite Hc. res_simpl. rewrite Hkey. res_simpl.
  rewrite load_ok by done. res_simpl.
  destruct (release_spec lin key sid file (dir_inv_file _ _ Hdir) rec code clock Hr Hs)
    as (p' & -> & Hi & Ht & Hres & _). res_simpl.
  destruct (commit_ok dir lin p' (close_view (with_close rec OpRelease code clock) p' false None) Hdir Hi)
    as [-> Hd']. eexists _, _. split; [reflexivity|]. rewrite file_of_insert.
  split; [done|]. do 3 (split; [done|]). split; [exact Ht|]. by rewrite Hres, lookup_delete_eq.
Qed.

(** After a settlement, repeating it is answered from the record
    without a write, and a different settlement of the same request is
    refused: a reservation is charged at most once. *)
Theorem settle_once rec fq i o proof st clock dir' r i2 o2 proof2 st2 clock2 :
  open_record key file = Some (rec, fq) -> require_session_scope rec sid = Ok tt ->
  usage_within rec i o -> digest_match proof = true ->
  canonical_digest (settlement_payload key i o (Some proof)) = Ok st ->
  settle dir lin sid rid (PInt i) (PInt o) (Some proof) clock = Ok (dir', r) ->
  0 <= i2 <= MAX_SAFE_INTEGER -> 0 <= o2 <= MAX_SAFE_INTEGER ->
  canonical_digest (settlement_payload key i2 o2 proof2) = Ok st2 ->
  (st2 = st -> exists r2,
     settle dir' lin sid rid (PInt i2) (PInt o2) proof2 clock2 = Ok (dir', r2) /\
     cl_idempotent r2 = true /\ cl_actual r2 = cl_actual r) /\
  (st2 <> st -> settle dir' lin sid rid (PInt i2) (PInt o2) proof2 clock2
     = Raise (SpendBudgetConflictError "spend_settlement_conflict")).
Proof.
  intros Ho Hs Hu Hp Hst Hset Hi2 Ho2 Hst2. destruct (open_max rec fq Ho) as [Hm1 Hm2].
  destruct (settle_dir rec fq i o proof st clock Ho Hs Hu Hp Hm1 Hm2 Hst) as (p' & E & Hi & _ & Hc).
  rewrite E in Hset. injection Hset as <- <-.
  destruct (commit_ok dir lin p' tt Hdir Hi) as [_ Hd'].
  assert (Eu : settle (<[stem lin := p']> (dir : gmap string payload)) lin sid rid (PInt i2) (PInt o2)
      proof2 clock2 = (out ← settle_locked key sid i2 o2 proof2 st2 clock2 p';
        commit (<[stem lin := p']> (dir : gmap string payload)) lin out)).
  { unfold settle. rewrite !non_negative_int_in by done. res_simpl. rewrite Hkey. res_simpl.
    rewrite Hst2. res_simpl. rewrite load_ok by done. by rewrite file_of_insert. }
  rewrite Eu. unfold settle_locked. rewrite Hc.
  assert (require_session_scope (with_settle rec st proof (usage_amounts rec i o)
    (amt_sub (reserved rec) (usage_amounts rec i o)) clock fq) sid = Ok tt) as -> by exact Hs.
  res_simpl. cbn [op with_settle settlement_fingerprint]. rewrite bool_decide_true by done. cbn [negb].
  split; [intros ->|intros Hne].
  - rewrite bool_decide_true by done. cbn [negb]. rewrite (close_result_spec lin) by done.
    eexists. split; [reflexivity|]. done.
  - rewrite bool_decide_false by congruence. done.
Qed.

Lemma filter_of_lookup (m m' : gmap string spend_record) (f : spend_record -> bool) :
  (forall k, m' !! k = match m !! k with
                       | Some r => if decide (k ∈ (items m).*1 /\ f r = true) then None else Some r
                       | None => None
                       end) ->
  m' = filter (fun kv : string * spend_record => f kv.2 = false) m.
Proof.
  intros Hm. apply map_eq. intros k. rewrite Hm.
  destruct (m !! k) as [q|] eqn:Eq; symmetry; [|apply map_lookup_filter_None; by left].
  case_decide as Hd.
  - apply map_lookup_filter_None. right. intros q' Hq'. simplify_eq. cbn. destruct Hd. congruence.
  - apply map_lookup_filter_Some. split; [done|]. cbn. apply not_true_iff_false. intros Hst. apply Hd.
    split; [|done]. apply list_elem_of_fmap. exists (k, q). split; [done|by apply elem_of_items].
Qed.

Lemma filter_none (m : gmap string spend_record) (f : spend_record -> bool) :
  filter (fun kv : string * spend_record => f kv.2 = true) (items m) = [] ->
  filter (fun kv : string * spend_record => f kv.2 = false) m = m.
Proof.
  intros Hf. apply map_filter_id. intros k r Hk. cbn. apply not_true_iff_false. intros Hr.
  apply (elem_of_nil (k, r)). rewrite <- Hf. apply list_elem_of_filter.
  split; [done|by apply elem_of_items].
Qed.

(** [quarantine_stale] never raises on a good ledger and moves to
    quarantine exactly the open reservations of the session created at or
    before the cutoff, one answer each; every total stays, so their holds
    remain in force. *)
Theorem quarantine_stale_exact age observed :
  0 <= age <= MAX_SAFE_INTEGER ->
  exists dir' results,
    quarantine_stale dir lin sid (PInt age) observed = Ok (dir', results) /\ dir_inv dir' /\
    scopes (file_of dir' lin) = scopes file /\
    length results = length (filter (fun kv : string * spend_record =>
      is_stale (scope_hash "session" sid) (observed - age) kv.2 = true) (items (reservations file))) /\
    reservations (file_of dir' lin) =
      filter (fun kv : string * spend_record =>
        is_stale (scope_hash "session" sid) (observed - age) kv.2 = false) (reservations file).
Proof.
  intros Ha. unfold quarantine_stale. rewrite non_negative_int_in by done. res_simpl.
  rewrite load_ok by done. res_simpl.
  destruct (stale_loop lin (scope_hash "session" sid) (observed - age) observed
    (items (reservations file)) file [] (dir_inv_file _ _ Hdir) (all_open_items file))
    as (p' & rs & -> & Hp & Hs & _ & Hlen & Hres & _). res_simpl. cbn [length] in Hlen.
  pose proof (filter_of_lookup _ _ _ Hres) as Ef. destruct rs as [|x rs].
  - eexists dir, []. split; [reflexivity|]. split; [done|]. split; [done|]. split; [done|].
    symmetry. apply filter_none. by apply nil_length_inv.
  - destruct (commit_ok dir lin p' (x :: rs) Hdir Hp) as [E Hd']. eexists _, _.
    split; [exact E|]. rewrite file_of_insert. split; [done|]. split; [done|]. by split.
Qed.

End CloseDir.

End Directory.

(** ** A concrete run *)

Module Demo.
#[local] Existing Instance demo_digests.

Definition per (a b c : Z) : pyval :=
  PDict [("session", PInt a); ("agent", PInt b); ("lineage", PInt c)].
Definition policy : pyval :=
  PDict [("version", PInt 1); ("currency", PStr "USD"); ("metered_tools", PList [PStr "llm"]);
         ("ceilings", PDict [("tokens", per 1000 2000 3000);
                             ("currency_micros", per 5000000 6000000 7000000)]);
         ("lineage_id", PStr "lineage-1")].
Definition quote : SpendQuote := MkQuote "q1" "llm" "m" "USD" 3000000 15000000 100 10000.
Definition request : SpendReservationRequest := MkRequest "req-1" "q1" "m" 100 50.
Definition proof : string := sha256_hex "usage".

Lemma quote_ok : quote_wf quote.
Proof. by constructor. Qed.

Definition inputs : reserve_inputs := Eval vm_compute in
  match prepare_reserve policy "s1" "a1" request quote 500 None with
  | Ok i => i
  | Raise _ => ReserveInputs (SpendPolicy "" [] (Ceilings (PerScope 0 0 0) (PerScope 0 0 0)) None) "" 0
      (SpendRecord "" "" "" "" "" amt0 (PerScope "" "" "") (Ceilings (PerScope 0 0 0) (PerScope 0 0 0))
         0 0 0 0 0 0 None None None None None None None None None None None)
  end.

Lemma inputs_ok : prepare_reserve policy "s1" "a1" request quote 500 None = Ok inputs.
Proof. vm_compute. reflexivity. Qed.

Lemma inputs_distinct : distinct_scopes inputs.
Proof. by repeat split. Qed.

(** The directory a call leaves, and that it returned with a given answer. *)
Definition out_dir {B} (m : res spend_exc (ledger_dir * B)) : ledger_dir :=
  match m with Ok (d, _) => d | Raise _ => ∅ end.
Definition answered {B} (f : B -> bool) (m : res spend_exc (ledger_dir * B)) : bool :=
  match m with Ok (_, r) => f r | Raise _ => false end.

Lemma answered_ok {B} (f : B -> bool) m : answered f m = true ->
  exists r, m = Ok (out_dir m, r) /\ f r = true.
Proof. destruct m as [[d r]|e]; [|done]. intros Hf. by exists r. Qed.

(** The directory after the request was accepted. *)
Definition dir1 : ledger_dir := out_dir (reserve ∅ policy "s1" "a1" request quote 500 None).

Lemma dir1_ok : exists r, reserve ∅ policy "s1" "a1" request quote 500 None = Ok (dir1, r) /\
  accepted r = true.
Proof.
  unfold dir1. apply (answered_ok accepted (reserve ∅ policy "s1" "a1" request quote 500 None)).
  vm_compute. reflexivity.
Qed.

Lemma step1 P : P inputs -> spend_step P ∅ dir1.
Proof.
  intros HP. destruct dir1_ok as (r & E & _).
  eapply step_reserve; [exact quote_ok|exact inputs_ok|exact HP|exact E].
Qed.

Lemma dir1_inv : dir_inv dir1.
Proof. eapply step_inv; [|apply dir_inv_empty|apply (step1 distinct_scopes), inputs_distinct]. done. Qed.

Definition cap (k : string) (d : dimension) : Z := 7000000.

Lemma spend_ceilings_hold_witness :
  committed (file_of dir1 "lineage-1") (scope_hash "session" "s1") Tokens <= 7000000.
Proof.
  apply (spend_ceilings_hold cap dir1).
  - intros k d. vm_compute. discriminate.
  - eapply rtc_l; [apply step1|apply rtc_refl].
    split; [apply inputs_distinct|]. by intros [] [].
Defined.

Lemma spend_ledger_consistent_witness :
  exists p, load dir1 "lineage-1" = Ok p /\ validate_payload p "lineage-1" = Ok tt.
Proof.
  destruct (spend_ledger_consistent dir1 "lineage-1") as (p & Hl & Hv & _).
  - eapply rtc_l; [apply step1, inputs_distinct|apply rtc_refl].
  - exists p. exact (conj Hl Hv).
Defined.

Lemma inputs_fresh : ~ has_prior (ri_record inputs) 500 (file_of ∅ (ri_lineage_id inputs)).
Proof.
  unfold file_of. intros [c [r Hr]]. revert Hr. change (_ !! stem _) with (@None payload).
  by destruct c.
Qed.

Lemma reserve_decides_witness :
  exists dir' r, reserve ∅ policy "s1" "a1" request quote 500 None = Ok (dir', r) /\
    accepted r = fits (file_of ∅ "lineage-1") (ri_record inputs).
Proof.
  destruct (reserve_decides ∅ policy "s1" "a1" request quote 500 None inputs) as (d & r & E & _ & Ha & _).
  - apply dir_inv_empty.
  - exact quote_ok.
  - exact inputs_ok.
  - exact inputs_distinct.
  - exact inputs_fresh.
  - apply Nat.ltb_lt. vm_compute. reflexivity.
  - exists d, r. exact (conj E Ha).
Defined.

Lemma reserve_no_double_witness :
  (exists r2, reserve dir1 policy "s1" "a1" request quote 500 None = Ok (dir1, r2) /\
     accepted r2 = false /\ res_idempotent r2 = true) \/
  reserve dir1 policy "s1" "a1" request quote 500 None
    = Raise (SpendBudgetConflictError "spend_request_conflict").
Proof.
  destruct dir1_ok as (r & E & Ha).
  exact (reserve_no_double ∅ policy "s1" "a1" request quote 500 None inputs dir1 r
    policy "s1" "a1" request quote 500 None inputs dir_inv_empty quote_ok inputs_ok inputs_distinct
    E Ha inputs_ok eq_refl eq_refl).
Defined.

Definition key : string := Eval vm_compute in reservation_hash (ri_record inputs).
Definition settlement (i o : Z) (proof : option string) : string :=
  match canonical_digest (settlement_payload key i o proof) with Ok d => d | Raise _ => "" end.

Lemma safe80 : 0 <= 80 <= MAX_SAFE_INTEGER.
Proof. by vm_compute. Qed.
Lemma safe20 : 0 <= 20 <= MAX_SAFE_INTEGER.
Proof. by vm_compute. Qed.
Lemma key_ok : reservation_hash_of "req-1" = Ok key.
Proof. vm_compute. reflexivity. Qed.
Lemma open1 : open_record key (file_of dir1 "lineage-1") = Some (ri_record inputs, false).
Proof. vm_compute. reflexivity. Qed.
Lemma session1 : require_session_scope (ri_record inputs) "s1" = Ok tt.
Proof. vm_compute. reflexivity. Qed.
Lemma usage1 : usage_within (ri_record inputs) 80 20.
Proof. by repeat split. Qed.
Lemma proof_ok : digest_match proof = true.
Proof. vm_compute. reflexivity. Qed.
Lemma settlement_ok : canonical_digest (settlement_payload key 80 20 (Some proof))
  = Ok (settlement 80 20 (Some proof)).
Proof. vm_compute. reflexivity. Qed.
Lemma settlement_bad : canonical_digest (settlement_payload key 80 20 None) = Ok (settlement 80 20 None).
Proof. vm_compute. reflexivity. Qed.

Lemma settle_exact_witness :
  exists dir' r, settle dir1 "lineage-1" "s1" "req-1" (PInt 80) (PInt 20) (Some proof) 600 = Ok (dir', r) /\
    cl_actual r = Amounts 100 540.
Proof.
  destruct (settle_exact dir1 "lineage-1" "s1" "req-1" key dir1_inv key_ok (ri_record inputs) false
    80 20 proof (settlement 80 20 (Some proof)) 600 open1 session1 usage1 proof_ok settlement_ok)
    as (d & r & E & _ & _ & _ & Ha & _).
  exists d, r. split; [exact E|]. rewrite Ha. reflexivity.
Defined.

Lemma settle_fails_closed_witness :
  exists dir' r, settle dir1 "lineage-1" "s1" "req-1" (PInt 80) (PInt 20) None 600 = Ok (dir', r) /\
    is_Some (quarantined_reservations (file_of dir' "lineage-1") !! key).
Proof.
  destruct (settle_fails_closed dir1 "lineage-1" "s1" "req-1" key dir1_inv key_ok (ri_record inputs) false
    80 20 None (settlement 80 20 None) 600 open1 session1 safe80 safe20
    settlement_bad ltac:(by intros [? _])) as (d & r & E & _ & _ & _ & _ & Hq).
  exists d, r. exact (conj E Hq).
Defined.

Lemma cancel_releases_witness :
  exists dir' r, cancel dir1 "lineage-1" "s1" "req-1" (PStr "tool_denied") 600 = Ok (dir', r) /\
    cl_refunded r = Amounts 150 1050.
Proof.
  destruct (cancel_releases dir1 "lineage-1" "s1" "req-1" key dir1_inv key_ok (ri_record inputs)
    (PStr "tool_denied") "tool_denied" 600 eq_refl ltac:(vm_compute; reflexivity) session1)
    as (d & r & E & _ & _ & _ & Hr & _).
  exists d, r. split; [exact E|]. rewrite Hr. reflexivity.
Defined.

Definition dir2 : ledger_dir :=
  out_dir (settle dir1 "lineage-1" "s1" "req-1" (PInt 80) (PInt 20) (Some proof) 600).
Lemma dir2_ok : exists r, settle dir1 "lineage-1" "s1" "req-1" (PInt 80) (PInt 20) (Some proof) 600
  = Ok (dir2, r) /\ cl_reconciled r = false.
Proof.
  unfold dir2. destruct (answered_ok (fun r => negb (cl_reconciled r))
    (settle dir1 "lineage-1" "s1" "req-1" (PInt 80) (PInt 20) (Some proof) 600)) as (r & E & Hr).
  - vm_compute. reflexivity.
  - exists r. split; [exact E|]. by apply negb_true_iff.
Qed.

(** The same settlement again is answered from the record. *)
Lemma settle_once_witness :
  exists r2, settle dir2 "lineage-1" "s1" "req-1" (PInt 80) (PInt 20) (Some proof) 700 = Ok (dir2, r2) /\
    cl_idempotent r2 = true.
Proof.
  destruct dir2_ok as (r & E & _).
  destruct (settle_once dir1 "lineage-1" "s1" "req-1" key dir1_inv key_ok (ri_record inputs) false
    80 20 proof (settlement 80 20 (Some proof)) 600 dir2 r 80 20 (Some proof)
    (settlement 80 20 (Some proof)) 700 open1 session1 usage1 proof_ok settlement_ok E
    safe80 safe20 settlement_ok) as [Hs _].
  destruct (Hs eq_refl) as (r2 & E2 & Hi & _).
  exists r2. exact (conj E2 Hi).
Defined.

Lemma quarantine_stale_exact_witness :
  exists dir' results, quarantine_stale dir1 "lineage-1" "s1" (PInt 60) 600 = Ok (dir', results) /\
    length results = 1%nat.
Proof.
  destruct (quarantine_stale_exact dir1 "lineage-1" "s1" dir1_inv 60 600 ltac:(by vm_compute))
    as (d & rs & E & _ & _ & Hl & _).
  exists d, rs. split; [exact E|]. rewrite Hl. vm_compute. reflexivity.
Defined.

End Demo.
