(* ===== verification/LineageBudget.v ===== *)
(** * The lineage budget ledger

    [src/python/vibap/lineage_budget.py]: the durable ledger in which sibling
    delegations reserve call budget from their parent.  A ledger file is the
    record [ledger]; files are the ones this class writes, so their
    [isinstance] tests hold by typing.  The directory is a map from file name
    to ledger, and a call holds the file lock throughout, so it is one atomic
    transition. *)

From S2P Require Import Prelude CanonicalJson.
Open Scope string_scope.
Open Scope Z_scope.

Module LineageBudget.

Inductive lineage_exc :=
| ValueError
| LineageBudgetConflictError.

Record reservation := Reservation {
  amount : Z;
  child_agent_id : option string;
  child_jti : option string
}.

Inductive close_operation := Release | Reject.
#[global] Instance close_operation_eq_dec : EqDecision close_operation.
Proof. solve_decision. Defined.

Record closed_reservation := Closed {
  c_operation : close_operation;
  c_amount : Z;
  c_child_agent_id : option string;
  c_child_jti : option string
}.

Record ledger := Ledger {
  reserved_total : Z;
  reservations : gmap string reservation;
  closed_reservations : gmap string closed_reservation
}.

Record ReservationResult := ReserveResult {
  accepted : bool;
  r_amount : Z;
  r_reserved_total : Z;
  remaining_before : Z;
  remaining_after : Z;
  r_idempotent : bool
}.

Record ReleaseResult := CloseResult {
  rel_amount : Z;
  rel_reserved_total : Z;
  rel_operation : close_operation;
  rel_idempotent : bool
}.

Definition empty_ledger : ledger := Ledger 0 ∅ ∅.

(** ** Operations on one file; [None] is "nothing to write" *)

Definition reserve_locked (request_id : string) (amt ceiling used_total : Z)
    (agent jti : option string) (floor : Z) (l : ledger)
    : res lineage_exc (option ledger * ReservationResult) :=
  let total := Z.max (reserved_total l) floor in
  let before := Z.max 0 (ceiling - used_total - total) in
  match reservations l !! request_id with
  | Some existing =>
      raise_if negb ((amount existing =? amt) && bool_decide (child_agent_id existing = agent))
        with LineageBudgetConflictError ;;
      Ok (None, ReserveResult true (amount existing) total before before true)
  | None =>
      if before <? amt then Ok (None, ReserveResult false amt total before before false)
      else
        let total' := total + amt in
        Ok (Some (Ledger total' (<[request_id := Reservation amt agent jti]> (reservations l))
                    (closed_reservations l)),
            ReserveResult true amt total' before (Z.max 0 (before - amt)) false)
  end.

Definition close_locked (request_id : string) (o : close_operation) (l : ledger)
    : res lineage_exc (option ledger * ReleaseResult) :=
  match closed_reservations l !! request_id with
  | Some prior =>
      raise_if negb (bool_decide (c_operation prior = o)) with LineageBudgetConflictError ;;
      Ok (None, CloseResult (c_amount prior) (reserved_total l) o true)
  | None =>
      match reservations l !! request_id with
      | None => Raise ValueError
      | Some active =>
          let total := Z.max 0 (reserved_total l - amount active) in
          Ok (Some (Ledger total (delete request_id (reservations l))
                (<[request_id := Closed o (amount active) (child_agent_id active) (child_jti active)]>
                   (closed_reservations l))),
              CloseResult (amount active) total o false)
      end
  end.

(** ** The directory *)

Section Files.
Context `{Digests}.

Definition dir := gmap string ledger.

(** [_path]. *)
Definition path (parent_jti : string) : string := sha256_hex parent_jti.
(** [_load] and [_persist]. *)
Definition load (d : dir) (parent_jti : string) : ledger :=
  default empty_ledger ((d : gmap string ledger) !! path parent_jti).
Definition persist (d : dir) (parent_jti : string) (l : ledger) : dir :=
  <[path parent_jti := l]> (d : gmap string ledger).

Definition write_back {A} (d : dir) (parent_jti : string) (out : option ledger * A) : dir * A :=
  (match out.1 with Some l => persist d parent_jti l | None => d end, out.2).

Definition reserve (d : dir) (parent_jti request_id : string) (amt ceiling used_total : Z)
    (agent jti : option string) (floor : Z) : res lineage_exc (dir * ReservationResult) :=
  raise_if negb (non_empty request_id) with ValueError ;;
  raise_if amt <? 0 with ValueError ;;
  raise_if (ceiling <? 0) || (used_total <? 0) with ValueError ;;
  out ← reserve_locked request_id amt ceiling used_total agent jti floor (load d parent_jti);
  Ok (write_back d parent_jti out).

Definition close_reservation (d : dir) (parent_jti request_id : string) (o : close_operation)
    : res lineage_exc (dir * ReleaseResult) :=
  raise_if negb (non_empty request_id) with ValueError ;;
  out ← close_locked request_id o (load d parent_jti);
  Ok (write_back d parent_jti out).

Definition release_reservation (d : dir) (parent_jti request_id : string) :=
  close_reservation d parent_jti request_id Release.
Definition reject (d : dir) (parent_jti request_id : string) :=
  close_reservation d parent_jti request_id Reject.

Definition total_reserved (d : dir) (parent_jti : string) (floor : Z) : Z :=
  Z.max (reserved_total (load d parent_jti)) floor.
Definition reservation_of (d : dir) (parent_jti request_id : string) : option reservation :=
  reservations (load d parent_jti) !! request_id.
Definition snapshot (d : dir) (parent_jti : string) : ledger := load d parent_jti.

End Files.

(** ** What is outstanding *)

Definition outstanding (l : ledger) : Z :=
  total_of amount (reservations l).

Definition nonneg_amounts (l : ledger) : Prop :=
  forall k r, reservations l !! k = Some r -> 0 <= amount r.

(** The outstanding reservations are covered by the total, which stays within
    [bound]. *)
Record ledger_ok (bound : Z) (l : ledger) : Prop := {
  lo_amounts : nonneg_amounts l;
  lo_covered : outstanding l <= reserved_total l;
  lo_nonneg : 0 <= reserved_total l;
  lo_bound : reserved_total l <= bound
}.

Lemma reserve_locked_ok bound rid amt ceiling used agent jti floor l out :
  ledger_ok bound l -> 0 <= amt -> 0 <= used -> 0 <= ceiling -> floor <= bound -> ceiling <= bound ->
  reserve_locked rid amt ceiling used agent jti floor l = Ok out ->
  match out.1 with None => True | Some l' => ledger_ok bound l' end.
Proof.
  intros [Ha Hc Hn Hb] Hamt Hused Hceil Hfl Hcb. unfold reserve_locked.
  destruct (reservations l !! rid) eqn:Er; [intros Ho; ok_steps Ho; by subst|].
  destruct (Z.ltb_spec (Z.max 0 (ceiling - used - Z.max (reserved_total l) floor)) amt);
    intros Ho; injection Ho as <-; cbn [fst]; [done|]. constructor.
  - intros k r Hk. cbn in Hk. apply lookup_insert_Some in Hk as [[_ <-]|[_ Hk]]; [done|by eapply Ha].
  - unfold outstanding in *. cbn. rewrite total_of_insert by done. cbn. lia.
  - cbn. lia.
  - cbn. lia.
Qed.

Lemma outstanding_split l rid r : nonneg_amounts l -> reservations l !! rid = Some r ->
  0 <= amount r /\ amount r <= outstanding l.
Proof.
  intros Ha Hr. split; [by eapply Ha|]. by apply (total_of_member amount _ rid).
Qed.

Lemma close_locked_ok bound rid o l out : ledger_ok bound l -> close_locked rid o l = Ok out ->
  match out.1 with None => True | Some l' => ledger_ok bound l' end.
Proof.
  intros [Ha Hc Hn Hb]. unfold close_locked.
  destruct (closed_reservations l !! rid); [intros Ho; ok_steps Ho; by subst|].
  destruct (reservations l !! rid) as [r|] eqn:Er; [|done]. intros [= <-]. cbn [fst].
  destruct (outstanding_split l rid r Ha Er). constructor.
  - intros k q Hk. cbn in Hk. apply lookup_delete_Some in Hk as [_ Hk]. by eapply Ha.
  - unfold outstanding in *. cbn. rewrite (total_of_delete _ _ rid r) in Hc by done. lia.
  - cbn. lia.
  - cbn. lia.
Qed.

(** ** Any sequence of calls *)

Section Runs.
Context `{Digests}.

(** One call that returned; every reserve is made under a ceiling and with a
    floor within the bound of the parent's file. *)
Inductive step (bound : string -> Z) (d d' : dir) : Prop :=
| step_reserve parent rid amt ceiling used agent jti floor r :
    ceiling <= bound (path parent) -> floor <= bound (path parent) ->
    reserve d parent rid amt ceiling used agent jti floor = Ok (d', r) -> step bound d d'
| step_close parent rid o r :
    close_reservation d parent rid o = Ok (d', r) -> step bound d d'.

Definition dir_ok (bound : string -> Z) (d : dir) : Prop :=
  forall parent, ledger_ok (bound (path parent)) (load d parent).

Lemma empty_ok b : 0 <= b -> ledger_ok b empty_ledger.
Proof.
  intros Hb. by constructor.
Qed.

Lemma load_write_back {A} d parent (out : option ledger * A) parent' :
  load (write_back d parent out).1 parent'
  = match out.1 with
    | Some l => if decide (path parent = path parent') then l else load d parent'
    | None => load d parent'
    end.
Proof.
  destruct out as [[l|] r]; [|done]. unfold load, write_back, persist. cbn [fst].
  case_decide as E; [by rewrite E, lookup_insert_eq|by rewrite lookup_insert_ne].
Qed.

Lemma write_back_ok {A} bound d parent (out : option ledger * A) : dir_ok bound d ->
  match out.1 with None => True | Some l => ledger_ok (bound (path parent)) l end ->
  dir_ok bound (write_back d parent out).1.
Proof.
  intros Hd Ho parent'. rewrite load_write_back. destruct out as [[l|] r]; cbn in *; [|apply Hd].
  case_decide as E; [by rewrite <- E|apply Hd].
Qed.

Lemma reserve_inv d parent rid amt ceiling used agent jti floor d' r :
  reserve d parent rid amt ceiling used agent jti floor = Ok (d', r) ->
  rid <> EmptyString /\ 0 <= amt /\ 0 <= ceiling /\ 0 <= used /\
  exists out, reserve_locked rid amt ceiling used agent jti floor (load d parent) = Ok out /\
    (d', r) = write_back d parent out.
Proof.
  unfold reserve. intros Ho. ok_steps Ho. repeat split; try lia; [by destruct rid|].
  exists x. split; [done|]. unfold write_back in *. congruence.
Qed.

Lemma step_ok bound d d' : dir_ok bound d -> step bound d d' -> dir_ok bound d'.
Proof.
  intros Hd [parent rid amt ceiling used agent jti floor r Hc Hf Ho|parent rid o r Ho].
  - apply reserve_inv in Ho as (_ & Ha & Hcl & Hu & out & Ho & E).
    assert (d' = (write_back d parent out).1) as -> by by rewrite <- E.
    apply write_back_ok; [done|]. eapply reserve_locked_ok; [apply Hd|..|exact Ho]; done.
  - unfold close_reservation in Ho. ok_steps Ho.
    assert (d' = (write_back d parent x).1) as -> by (unfold write_back in *; cbn; congruence).
    apply write_back_ok; [done|]. eapply close_locked_ok; [apply Hd|exact E].
Qed.

Lemma run_ok bound d : (forall k, 0 <= bound k) -> rtc (step bound) ∅ d -> dir_ok bound d.
Proof.
  intros Hb. apply (rtc_ind_r (dir_ok bound)).
  - intros parent. unfold load. change ((∅ : dir) !! path parent) with (@None ledger). by apply empty_ok.
  - intros x y _ Hs Hx. by eapply step_ok.
Qed.

(** C16. Sibling delegations can never be promised more than the parent's
    ceiling: after any sequence of reserve, release and reject calls the
    outstanding reservations of a parent are covered by its recorded total,
    and the total is within the ceiling. *)
Theorem siblings_within_ceiling bound d parent :
  (forall k, 0 <= bound k) -> rtc (step bound) ∅ d ->
  outstanding (load d parent) <= reserved_total (load d parent) <= bound (path parent).
Proof. intros Hb Hr. destruct (run_ok bound d Hb Hr parent). done. Qed.

(** A new reservation is granted exactly when it fits in what the
    ceiling leaves after the calls used and the budget already reserved; a
    granted one raises the total by its amount, a refused one writes nothing,
    and a retry with the same amount and child is answered without a write. *)
Theorem reserve_exact d parent rid amt ceiling used agent jti floor :
  rid <> EmptyString -> 0 <= amt -> 0 <= ceiling -> 0 <= used ->
  let l := load d parent in
  let total := Z.max (reserved_total l) floor in
  (forall prior, reservations l !! rid = Some prior ->
     reserve d parent rid amt ceiling used agent jti floor
     = if bool_decide (amount prior = amt /\ child_agent_id prior = agent)
       then Ok (d, ReserveResult true amt total (Z.max 0 (ceiling - used - total))
                     (Z.max 0 (ceiling - used - total)) true)
       else Raise LineageBudgetConflictError) /\
  (reservations l !! rid = None ->
     exists d' r, reserve d parent rid amt ceiling used agent jti floor = Ok (d', r) /\
       accepted r = bool_decide (amt = 0 \/ used + total + amt <= ceiling) /\
       (accepted r = false -> d' = d) /\
       (accepted r = true -> reserved_total (load d' parent) = total + amt /\
          outstanding (load d' parent) = outstanding l + amt)).
Proof.
  intros Hr Ha Hc Hu l total. unfold reserve.
  assert (negb (non_empty rid) = false) as -> by by destruct rid.
  destruct (Z.ltb_spec amt 0); [lia|]. destruct (Z.ltb_spec ceiling 0); [lia|].
  destruct (Z.ltb_spec used 0); [lia|]. cbn [orb]. fold l. unfold reserve_locked. fold total.
  split; [intros prior Er|intros Er]; rewrite Er.
  - destruct (Z.eqb_spec (amount prior) amt) as [<-|Hne]; cbn [andb negb].
    + do 2 case_bool_decide; try tauto; done.
    + case_bool_decide; [tauto|done].
  - destruct (Z.ltb_spec (Z.max 0 (ceiling - used - total)) amt).
    + eexists d, _. split; [reflexivity|]. cbn. split; [|done]. case_bool_decide; [lia|done].
    + eexists _, _. split; [reflexivity|]. cbn [accepted].
      split; [case_bool_decide; [done|lia]|]. split; [done|]. intros _.
      assert (Hl : load (persist d parent (Ledger (total + amt)
        (<[rid := Reservation amt agent jti]> (reservations l)) (closed_reservations l))) parent
        = Ledger (total + amt) (<[rid := Reservation amt agent jti]> (reservations l))
            (closed_reservations l)) by (unfold load, persist; by rewrite lookup_insert_eq).
      cbn. rewrite Hl. split; [done|]. unfold outstanding. cbn. rewrite total_of_insert by done. cbn. lia.
Qed.

(** Releasing or rejecting an open reservation returns exactly its
    amount when the total covers it, and closing it again the same way is
    answered without a write while the other way is refused. *)
Theorem close_exact d parent rid o prior :
  rid <> EmptyString -> reservations (load d parent) !! rid = Some prior ->
  closed_reservations (load d parent) !! rid = None ->
  ledger_ok (reserved_total (load d parent)) (load d parent) ->
  exists d' r, close_reservation d parent rid o = Ok (d', r) /\
    rel_amount r = amount prior /\
    reserved_total (load d' parent) = reserved_total (load d parent) - amount prior /\
    outstanding (load d' parent) = outstanding (load d parent) - amount prior /\
    (forall o', close_reservation d' parent rid o'
       = if decide (o' = o)
         then Ok (d', CloseResult (amount prior) (reserved_total (load d' parent)) o true)
         else Raise LineageBudgetConflictError).
Proof.
  intros Hr Hp Hn Hok. unfold close_reservation.
  assert (negb (non_empty rid) = false) as -> by by destruct rid.
  unfold close_locked at 1. rewrite Hn, Hp.
  destruct (outstanding_split _ rid prior (lo_amounts _ _ Hok) Hp) as [H0 H1].
  pose proof (lo_covered _ _ Hok). rewrite Z.max_r by lia.
  set (l' := Ledger _ _ _).
  exists (persist d parent l'),
    (CloseResult (amount prior) (reserved_total (load d parent) - amount prior) o false).
  assert (Hl : load (persist d parent l') parent = l') by (unfold load, persist; by rewrite lookup_insert_eq).
  split; [done|]. rewrite Hl. split; [done|]. split; [done|]. split.
  { unfold outstanding. cbn. rewrite (total_of_delete amount (reservations (load d parent)) rid prior) by done. lia. }
  intros o'. unfold close_locked. cbn [l' closed_reservations].
  rewrite lookup_insert_eq. cbn [c_operation c_amount]. case_decide as E.
  - by rewrite E, bool_decide_true.
  - by rewrite bool_decide_false by congruence.
Qed.

(** The file of [parent] has [rid] closed as [cl] and reserved again as [rv]. *)
Definition reused (parent rid : string) (cl : closed_reservation) (rv : reservation) (d : dir) : Prop :=
  closed_reservations (load d parent) !! rid = Some cl /\ reservations (load d parent) !! rid = Some rv.
Lemma reused_locked rid cl rv l rid' o out : closed_reservations l !! rid = Some cl -> reservations l !! rid = Some rv ->
  close_locked rid' o l = Ok out ->
  match out.1 with None => True | Some l' => closed_reservations l' !! rid = Some cl /\ reservations l' !! rid = Some rv end.
Proof.
  intros Hc Hr. unfold close_locked. destruct (closed_reservations l !! rid') eqn:Ec; [intros Ho; ok_steps Ho; by subst|].
  destruct (reservations l !! rid'); [|done]. intros [= <-]. assert (rid' <> rid) by congruence. cbn.
  by rewrite lookup_insert_ne, lookup_delete_ne.
Qed.
Lemma reused_reserve rid cl rv l rid' amt ceiling used agent jti floor out :
  closed_reservations l !! rid = Some cl -> reservations l !! rid = Some rv ->
  reserve_locked rid' amt ceiling used agent jti floor l = Ok out ->
  match out.1 with None => True | Some l' => closed_reservations l' !! rid = Some cl /\ reservations l' !! rid = Some rv end.
Proof.
  intros Hc Hr. unfold reserve_locked. destruct (reservations l !! rid') eqn:Er; [intros Ho; ok_steps Ho; by subst|].
  destruct (_ <? amt); intros [= <-]; [done|]. assert (rid' <> rid) by congruence. cbn. by rewrite lookup_insert_ne.
Qed.
Lemma reused_step bound parent rid cl rv d d' : reused parent rid cl rv d -> step bound d d' -> reused parent rid cl rv d'.
Proof.
  intros Hu [parent' rid' amt ceiling used agent jti floor r _ _ Ho|parent' rid' o r Ho].
  - apply reserve_inv in Ho as (_ & _ & _ & _ & out & Ho & E).
    assert (d' = (write_back d parent' out).1) as -> by by rewrite <- E.
    unfold reused. rewrite load_write_back. destruct out as [[l|] x]; [|exact Hu]. cbn. case_decide as Ep; [|exact Hu].
    unfold load in Ho. rewrite Ep in Ho. destruct Hu as [Hc Hr]. by apply (reused_reserve _ _ _ _ _ _ _ _ _ _ _ _ Hc Hr) in Ho.
  - unfold close_reservation in Ho. ok_steps Ho.
    assert (d' = (write_back d parent' x).1) as -> by (unfold write_back in *; cbn; congruence).
    unfold reused. rewrite load_write_back. destruct x as [[l|] y]; [|exact Hu]. cbn. case_decide as Ep; [|exact Hu].
    unfold load in E. rewrite Ep in E. destruct Hu as [Hc Hr]. by apply (reused_locked _ _ _ _ _ _ _ Hc Hr) in E.
Qed.

(** C36. A request id that was closed and is reserved again can never be
    closed.  In any reachable directory whose file has a closed request, once
    the same id is accepted for a new reservation, then after any further calls
    by any process the reservation is still there and its amount still counted,
    and a release or a reject is answered from the record of the first closing,
    or refused, without a change. *)
Theorem reused_request_id_leaks bound d parent rid cl amt ceiling used agent jti floor d1 r1 d2 :
  (forall k, 0 <= bound k) -> rtc (step bound) ∅ d -> closed_reservations (load d parent) !! rid = Some cl ->
  reservations (load d parent) !! rid = None -> ceiling <= bound (path parent) -> floor <= bound (path parent) ->
  reserve d parent rid amt ceiling used agent jti floor = Ok (d1, r1) -> accepted r1 = true ->
  rtc (step bound) d1 d2 ->
  reservations (load d2 parent) !! rid = Some (Reservation amt agent jti) /\
  amt <= outstanding (load d2 parent) <= reserved_total (load d2 parent) /\
  forall o, close_reservation d2 parent rid o
    = if decide (o = c_operation cl)
      then Ok (d2, CloseResult (c_amount cl) (reserved_total (load d2 parent)) o true)
      else Raise LineageBudgetConflictError.
Proof.
  intros Hb Hd Hcl Hn Hce Hfl Hres Hacc Hrun.
  assert (Hu : reused parent rid cl (Reservation amt agent jti) d1).
  { apply reserve_inv in Hres as (_ & _ & _ & _ & out & Ho & E). unfold reserve_locked in Ho. rewrite Hn in Ho.
    destruct (_ <? amt); injection Ho as <-; injection E as -> ->; [done|].
    unfold reused, load, persist. cbn. rewrite !lookup_insert_eq. cbn. by rewrite lookup_insert_eq. }
  assert (Hne : negb (non_empty rid) = false) by (apply reserve_inv in Hres as (Hne & _); by destruct rid).
  assert (Hd2 : rtc (step bound) ∅ d2)
    by (etrans; [exact Hd|]; eapply rtc_l; [exact (step_reserve bound d d1 parent rid amt ceiling used agent jti floor r1 Hce Hfl Hres)|exact Hrun]).
  clear Hres Hd. assert (Hu2 : reused parent rid cl (Reservation amt agent jti) d2).
  { clear Hd2. induction Hrun as [|x y z Hs _ IH]; [done|]. by apply IH, (reused_step bound _ _ _ _ x). }
  destruct Hu2 as [Hc2 Hr2]. destruct (run_ok bound d2 Hb Hd2 parent) as [Ha Hcov _ _].
  destruct (outstanding_split _ rid _ Ha Hr2) as [_ Ho]. cbn in Ho. split; [done|]. split; [done|].
  intros o. unfold close_reservation. rewrite Hne. unfold close_locked. rewrite Hc2. case_decide as E.
  - subst o. by rewrite bool_decide_true.
  - by rewrite bool_decide_false by congruence.
Qed.

End Runs.

(** ** A concrete run *)

Module Demo.
#[local] Existing Instance demo_digests.

Definition granted : dir := persist ∅ "p" (Ledger 6 (<["r1" := Reservation 6 (Some "c") None]> ∅) ∅).

Lemma granted_ok : reserve ∅ "p" "r1" 6 10 3 (Some "c") None 0
  = Ok (granted, ReserveResult true 6 6 7 1 false).
Proof. reflexivity. Qed.

Lemma load_granted : load granted "p" = Ledger 6 (<["r1" := Reservation 6 (Some "c") None]> ∅) ∅.
Proof. unfold load, granted, persist. by rewrite lookup_insert_eq. Qed.

Lemma siblings_within_ceiling_witness :
  outstanding (load granted "p") <= reserved_total (load granted "p") <= 10.
Proof.
  apply (siblings_within_ceiling (fun _ => 10) granted "p").
  - intros _. lia.
  - eapply rtc_l; [|apply rtc_refl]. eapply step_reserve; [| |exact granted_ok]; lia.
Defined.

Lemma reserve_exact_witness :
  exists d' r, reserve granted "p" "r2" 2 10 3 None None 0 = Ok (d', r) /\ accepted r = false.
Proof.
  destruct (reserve_exact granted "p" "r2" 2 10 3 None None 0 ltac:(discriminate) ltac:(lia)
    ltac:(lia) ltac:(lia)) as [_ Hn].
  destruct (Hn ltac:(vm_compute; reflexivity)) as (d' & r & E & Ha & _).
  exists d', r. split; [exact E|]. rewrite Ha. vm_compute. reflexivity.
Defined.

Lemma close_exact_witness :
  exists d' r, close_reservation granted "p" "r1" Release = Ok (d', r) /\ rel_amount r = 6.
Proof.
  destruct (close_exact granted "p" "r1" Release (Reservation 6 (Some "c") None))
    as (d' & r & E & Ha & _).
  - discriminate.
  - vm_compute. reflexivity.
  - vm_compute. reflexivity.
  - rewrite load_granted. constructor.
    + intros k r Hk. cbn in Hk. apply lookup_insert_Some in Hk as [[_ <-]|[_ Hk]]; [cbn; lia|].
      by rewrite lookup_empty in Hk.
    + by vm_compute.
    + by vm_compute.
    + by vm_compute.
  - exists d', r. exact (conj E Ha).
Defined.

(** Reserved, released, reserved again. *)
Definition released : dir :=
  persist granted "p" (Ledger 0 ∅ (<["r1" := Closed Release 6 (Some "c") None]> ∅)).
Lemma released_ok : close_reservation granted "p" "r1" Release = Ok (released, CloseResult 6 0 Release false).
Proof. reflexivity. Qed.
Definition again : dir :=
  persist released "p" (Ledger 4 (<["r1" := Reservation 4 None None]> ∅) (<["r1" := Closed Release 6 (Some "c") None]> ∅)).
Lemma again_ok : reserve released "p" "r1" 4 10 3 None None 0 = Ok (again, ReserveResult true 4 4 7 3 false).
Proof. reflexivity. Qed.
Lemma reused_request_id_leaks_witness :
  4 <= outstanding (load again "p") <= reserved_total (load again "p") /\
  close_reservation again "p" "r1" Release = Ok (again, CloseResult 6 4 Release true).
Proof.
  destruct (reused_request_id_leaks (fun _ => 10) released "p" "r1" (Closed Release 6 (Some "c") None) 4 10 3 None None 0
    again (ReserveResult true 4 4 7 3 false) again) as (_ & Ho & Hc).
  - intros _. lia.
  - eapply rtc_l; [eapply step_reserve; [| |exact granted_ok]; lia|].
    eapply rtc_l; [eapply step_close; exact released_ok|apply rtc_refl].
  - vm_compute. reflexivity.
  - vm_compute. reflexivity.
  - lia.
  - lia.
  - exact again_ok.
  - reflexivity.
  - apply rtc_refl.
  - exact (conj Ho (Hc Release)).
Defined.

End Demo.

End LineageBudget.
