(* ===== verification/Merkle.v ===== *)
(** * The transparency log's Merkle tree

    [src/python/vibap/transparency.py]: leaf and node hashes, the root, the
    inclusion proof of a leaf, its verification, and the part of
    [LocalSignedLogBackend.submit] that appends an entry and builds its
    evidence.  Byte strings are [string]s.  SHA-256 is an argument of the model
    ([hash], 32 bytes long); security statements hold up to a
    collision among the inputs that the two computations hash.

    A [while] loop runs on fuel; [climb_fuel] and [verify_fuel] are the number
    of levels, and the theorems below show the loops end within it. *)

From S2P Require Import Prelude CanonicalJson.
Open Scope string_scope.
Open Scope Z_scope.

Module Merkle.

Inductive anchor_exc := TransparencyError | AnchorVerificationError.

(** ** [bytes.hex] and [bytes.fromhex] *)

Definition hex_char (n : Z) : ascii := CanonicalJson.chr (if n <? 10 then 48 + n else 87 + n).
Fixpoint to_hex (s : string) : string :=
  match s with
  | EmptyString => EmptyString
  | String a s =>
      String (hex_char (CanonicalJson.code a / 16)) (String (hex_char (CanonicalJson.code a mod 16)) (to_hex s))
  end.

Definition hex_value (a : ascii) : option Z :=
  let c := CanonicalJson.code a in
  if (48 <=? c) && (c <=? 57) then Some (c - 48)
  else if (97 <=? c) && (c <=? 102) then Some (c - 87)
  else if (65 <=? c) && (c <=? 70) then Some (c - 55)
  else None.
Definition ascii_space (a : ascii) : bool :=
  let c := CanonicalJson.code a in (c =? 32) || ((9 <=? c) && (c <=? 13)).

(** ASCII whitespace is skipped between byte pairs; [None] is [ValueError]. *)
Fixpoint from_hex (s : string) : option string :=
  match s with
  | EmptyString => Some EmptyString
  | String a s1 =>
      if ascii_space a then from_hex s1
      else match s1 with
      | EmptyString => None
      | String b s2 =>
          x ← hex_value a; y ← hex_value b; rest ← from_hex s2;
          Some (String (CanonicalJson.chr (16 * x + y)) rest)
      end
  end.

Lemma hex_char_value n : 0 <= n < 16 -> hex_value (hex_char n) = Some n /\ ascii_space (hex_char n) = false.
Proof.
  intros Hn. assert (Hc : n ∈ seqZ 0 16) by (apply elem_of_seqZ; lia). revert n Hc Hn.
  apply (Forall_forall (fun n => 0 <= n < 16 ->
    hex_value (hex_char n) = Some n /\ ascii_space (hex_char n) = false)).
  repeat constructor.
Qed.

Lemma from_to_hex s : from_hex (to_hex s) = Some s.
Proof.
  induction s as [|a s IH]; [done|]. cbn [to_hex from_hex].
  pose proof (CanonicalJson.code_range a) as Hr.
  destruct (hex_char_value (CanonicalJson.code a / 16)) as [-> ->];
    [split; [apply Z.div_pos; lia|apply Z.div_lt_upper_bound; lia]|].
  destruct (hex_char_value (CanonicalJson.code a mod 16)) as [-> _]; [apply Z.mod_pos_bound; lia|].
  rewrite IH. cbn. do 2 f_equal. apply CanonicalJson.chr_code.
  pose proof (Z.div_mod (CanonicalJson.code a) 16). lia.
Qed.

Section Tree.
Variable hash : string -> string.
Hypothesis hash_len : forall s, String.length (hash s) = 32%nat.

(** [_hash_leaf], [_hash_children]. *)
Definition hash_leaf (body : string) : string := hash (String "000"%char body).
Definition hash_children (left right : string) : string := hash (String "001"%char (left ++ right)).

(** One round of the loop body over a level. *)
Fixpoint next_level (level : list string) : list string :=
  match level with
  | a :: b :: rest => hash_children a b :: next_level rest
  | rest => rest
  end.

(** The [while len(level) > 1] loop of [_merkle_root]. *)
Fixpoint climb (fuel : nat) (level : list string) : string :=
  match fuel with
  | O => default EmptyString (head level)
  | S fuel => if (1 <? length level)%nat then climb fuel (next_level level)
              else default EmptyString (head level)
  end.
Definition climb_fuel (level : list string) : nat := length level.

Definition merkle_root (leaves : list string) : string :=
  match leaves with
  | [] => hash EmptyString
  | _ => let level := hash_leaf <$> leaves in climb (climb_fuel level) level
  end.

(** The loop of [_merkle_proof]. *)
Fixpoint siblings (fuel : nat) (level : list string) (index : nat) : list string :=
  match fuel with
  | O => []
  | S fuel =>
      if (1 <? length level)%nat then
        (if Nat.odd index then [default EmptyString (level !! (index - 1)%nat)]
         else if (index + 1 <? length level)%nat then [default EmptyString (level !! (index + 1)%nat)]
         else [])
        ++ siblings fuel (next_level level) (Nat.div2 index)
      else []
  end%list.

Definition merkle_proof (leaves : list string) (index : Z) : res anchor_exc (list string) :=
  raise_if (index <? 0) || (Z.of_nat (length leaves) <=? index) with TransparencyError ;;
  let level := hash_leaf <$> leaves in
  Ok (siblings (climb_fuel level) level (Z.to_nat index)).

(** [bytes.fromhex] of a hash, with its length test. *)
Definition digest_of_hex (h : string) : res anchor_exc string :=
  match from_hex h with
  | None => Raise AnchorVerificationError
  | Some d => raise_if negb (String.length d =? 32)%nat with AnchorVerificationError ;; Ok d
  end.

(** The loop of [verify_inclusion_proof]: the hash reached and the hashes
    left over. *)
Fixpoint walk (fuel : nat) (current : string) (index width : Z) (hashes : list string)
    : res anchor_exc (string * list string) :=
  match fuel with
  | O => Ok (current, hashes)
  | S fuel =>
      if 1 <? width then
        let needs_left := index mod 2 =? 1 in
        let needs_right := negb needs_left && (index + 1 <? width) in
        if needs_left || needs_right then
          match hashes with
          | [] => Raise AnchorVerificationError
          | h :: hashes =>
              sibling ← digest_of_hex h;
              let current := if needs_left then hash_children sibling current
                             else hash_children current sibling in
              walk fuel current (index / 2) ((width + 1) / 2) hashes
          end
        else walk fuel current (index / 2) ((width + 1) / 2) hashes
      else Ok (current, hashes)
  end.
Definition verify_fuel (tree_size : Z) : nat := Z.to_nat (Z.log2_up tree_size).

Definition verify_inclusion_proof (body : string) (log_index tree_size : Z)
    (hashes_hex : list string) (root_hash_hex : string) : res anchor_exc unit :=
  raise_if (tree_size <=? 0) || (log_index <? 0) || (tree_size <=? log_index)
    with AnchorVerificationError ;;
  expected_root ← digest_of_hex root_hash_hex;
  '(current, rest) ← walk (verify_fuel tree_size) (hash_leaf body) log_index tree_size hashes_hex;
  raise_if negb (length rest =? 0)%nat with AnchorVerificationError ;;
  raise_if negb (String.eqb current expected_root) with AnchorVerificationError ;;
  Ok tt.

(** The evidence [LocalSignedLogBackend.submit] returns, and its append. *)
Record inclusion_evidence := Evidence {
  ev_body : string;
  ev_log_index : Z;
  ev_tree_size : Z;
  ev_hashes : list string;
  ev_root_hash : string
}.

Definition append_entry (entries : list string) (body : string)
    : res anchor_exc (list string * inclusion_evidence) :=
  let log_index := Z.of_nat (length entries) in
  let entries := (entries ++ [body])%list in
  let root_hash := merkle_root entries in
  proof ← merkle_proof entries log_index;
  Ok (entries, Evidence body log_index (Z.of_nat (length entries)) (to_hex <$> proof) (to_hex root_hash)).

(** ** Levels *)

Lemma next_level_length l : length (next_level l) = Nat.div2 (S (length l)).
Proof.
  remember (length l) as n eqn:Hn. revert l Hn.
  induction n as [n IH] using lt_wf_ind; intros [|a [|b l]] ->; cbn in *; try done.
  f_equal. rewrite (IH (length l)); [done|lia|done].
Qed.

(** Node [i] of the next level, from its children. *)
Lemma next_level_lookup l i a : l !! (2 * i)%nat = Some a ->
  next_level l !! i = Some (match l !! (2 * i + 1)%nat with
                            | Some b => hash_children a b
                            | None => a
                            end).
Proof.
  revert l. induction i as [|i IH]; intros l Ha.
  - destruct l as [|x [|y l]]; [done|by injection Ha as ->|by injection Ha as ->].
  - replace (2 * S i)%nat with (S (S (2 * i))) in * by lia.
    replace (S (S (2 * i)) + 1)%nat with (S (S (2 * i + 1))) by lia.
    destruct l as [|x [|y l]]; [done|done|]. apply (IH l). exact Ha.
Qed.

Lemma next_level_small l n : (length l <= 2 ^ S n)%nat -> (length (next_level l) <= 2 ^ n)%nat.
Proof.
  intros Hl. rewrite next_level_length, Nat.div2_div. cbn [Nat.pow] in Hl.
  pose proof (Nat.Div0.mul_div_le (S (length l)) 2). lia.
Qed.

Lemma pow2_small (l : list string) : (length l <= 2 ^ 0)%nat -> (length l <= 1)%nat.
Proof. done. Qed.

(** The loops only see the level they need, so more fuel changes nothing. *)
Lemma climb_more n k l : (length l <= 2 ^ n)%nat -> climb (n + k) l = climb n l.
Proof.
  revert l. induction n as [|n IH]; intros l Hl; cbn [climb Nat.add].
  - apply pow2_small in Hl. destruct k; [done|]. cbn [climb].
    by destruct (Nat.ltb_spec 1 (length l)); [lia|].
  - destruct (1 <? length l)%nat; [|done]. by apply IH, next_level_small.
Qed.

Lemma siblings_more n k l i : (length l <= 2 ^ n)%nat -> siblings (n + k) l i = siblings n l i.
Proof.
  revert l i. induction n as [|n IH]; intros l i Hl; cbn [siblings Nat.add].
  - apply pow2_small in Hl. destruct k; [done|]. cbn [siblings].
    by destruct (Nat.ltb_spec 1 (length l)); [lia|].
  - destruct (1 <? length l)%nat; [|done]. f_equal. by apply IH, next_level_small.
Qed.

(** ** Index arithmetic of the two sides *)

Lemma odd_mod i : (Z.of_nat i mod 2 =? 1) = Nat.odd i.
Proof.
  rewrite <- (Nat.negb_even i). destruct (Nat.even i) eqn:E.
  - apply Nat.even_spec in E as [k ->]. rewrite Nat2Z.inj_mul, Z.mul_comm, Z.mod_mul; done.
  - rewrite <- Nat.negb_odd, negb_false_iff in E. apply Nat.odd_spec in E as [k ->].
    replace (Z.of_nat (2 * k + 1)) with (1 + Z.of_nat k * 2) by lia. by rewrite Z.mod_add.
Qed.

Lemma half_index i : Z.of_nat i / 2 = Z.of_nat (Nat.div2 i).
Proof. by rewrite Nat.div2_div, Nat2Z.inj_div. Qed.

Lemma half_width (l : list string) :
  (Z.of_nat (length l) + 1) / 2 = Z.of_nat (length (next_level l)).
Proof. rewrite next_level_length, <- half_index. f_equal. lia. Qed.

Lemma half_in i (l : list string) : (i < length l)%nat -> (Nat.div2 i < length (next_level l))%nat.
Proof.
  intros Hi. rewrite next_level_length, !Nat.div2_div.
  apply Nat.div_lt_upper_bound; [lia|]. pose proof (Nat.div_mod_eq (S (length l)) 2).
  pose proof (Nat.mod_upper_bound (S (length l)) 2). lia.
Qed.

(** The parent of node [i]: what the verifier computes for it. *)
Lemma parent_odd l i a b : Nat.odd i = true -> l !! (i - 1)%nat = Some b -> l !! i = Some a ->
  next_level l !! Nat.div2 i = Some (hash_children b a).
Proof.
  intros [k ->]%Nat.odd_spec Hb Ha. replace (2 * k + 1 - 1)%nat with (2 * k)%nat in Hb by lia.
  replace (Nat.div2 (2 * k + 1)) with k by (rewrite Nat.add_1_r; symmetry; apply Nat.div2_succ_double).
  rewrite (next_level_lookup l k b Hb). by rewrite Ha.
Qed.

Lemma parent_even l i a : Nat.odd i = false -> l !! i = Some a ->
  next_level l !! Nat.div2 i
  = Some (match l !! (i + 1)%nat with Some b => hash_children a b | None => a end).
Proof.
  rewrite <- Nat.negb_even, negb_false_iff. intros [k ->]%Nat.even_spec Ha.
  rewrite Nat.div2_double. by apply next_level_lookup.
Qed.

(** ** The verifier follows the prover *)

Definition all32 (l : list string) : Prop := Forall (fun d => String.length d = 32%nat) l.

Lemma next_level_32 l : all32 l -> all32 (next_level l).
Proof.
  intros Hl. remember (length l) as n eqn:Hn. revert l Hn Hl.
  induction n as [n IH] using lt_wf_ind; intros [|a [|b l]] -> Hl; cbn [next_level]; try done.
  apply Forall_cons in Hl as [_ [_ Hl]%Forall_cons]. constructor; [apply hash_len|].
  by eapply (IH (length l)); [cbn; lia|..].
Qed.

Lemma digest_of_to_hex d : String.length d = 32%nat -> digest_of_hex (to_hex d) = Ok d.
Proof. intros Hd. unfold digest_of_hex. rewrite from_to_hex, Hd. done. Qed.

Lemma lookup_in (l : list string) i : (i < length l)%nat -> exists a, l !! i = Some a.
Proof. intros Hi. by apply lookup_lt_is_Some_2 in Hi. Qed.

Lemma singleton_head (l : list string) i a : (length l <= 1)%nat -> l !! i = Some a ->
  default EmptyString (head l) = a.
Proof. destruct l as [|x [|]], i; cbn; try done; try lia. by intros _ [= ->]. Qed.

Lemma walk_complete n l i a rest :
  (length l <= 2 ^ n)%nat -> all32 l -> l !! i = Some a ->
  walk n a (Z.of_nat i) (Z.of_nat (length l)) ((to_hex <$> siblings n l i) ++ rest)%list
  = Ok (climb n l, rest).
Proof.
  revert l i a. induction n as [|n IH]; intros l i a Hl H32 Ha; cbn [walk climb siblings].
  - by rewrite (singleton_head l i a).
  - destruct (Nat.ltb_spec 1 (length l)), (Z.ltb_spec 1 (Z.of_nat (length l))); try lia.
    2: { by rewrite (singleton_head l i a) by (lia || done). }
    pose proof (lookup_lt_Some _ _ _ Ha) as Hi.
    pose proof (next_level_small l n Hl) as Hs. pose proof (next_level_32 l H32) as H32'.
    rewrite odd_mod, half_index, half_width. destruct (Nat.odd i) eqn:Eo.
    + cbn [negb andb orb]. destruct (lookup_in l (i - 1)) as [b Hb]; [lia|]. rewrite Hb. cbn.
      rewrite digest_of_to_hex by (by eapply Forall_lookup in H32). res_simpl.
      rewrite <- (IH (next_level l) (Nat.div2 i) (hash_children b a) Hs H32'); [done|].
      by apply parent_odd.
    + cbn [negb andb orb]. pose proof (parent_even l i a Eo Ha) as Hp.
      destruct (Nat.ltb_spec (i + 1) (length l)), (Z.ltb_spec (Z.of_nat i + 1) (Z.of_nat (length l)));
        try lia.
      * destruct (lookup_in l (i + 1)) as [b Hb]; [lia|]. rewrite Hb in Hp |- *. cbn.
        rewrite digest_of_to_hex by (by eapply Forall_lookup in H32). res_simpl.
        by rewrite <- (IH (next_level l) (Nat.div2 i) (hash_children a b) Hs H32').
      * rewrite (lookup_ge_None_2 l (i + 1)) in Hp by lia. by rewrite <- (IH (next_level l) (Nat.div2 i) a Hs H32').
Qed.

(** ** What is hashed

    The inputs [merkle_root] hashes for the nodes above a level, and the ones
    the verifier's loop hashes, in their order. *)
Definition leaf_input (body : string) : string := String "000"%char body.
Definition node_input (left right : string) : string := String "001"%char (left ++ right).

Fixpoint level_inputs (level : list string) : list string :=
  match level with
  | a :: b :: rest => node_input a b :: level_inputs rest
  | _ => []
  end.
Fixpoint climb_inputs (fuel : nat) (level : list string) : list string :=
  match fuel with
  | O => []
  | S fuel => if (1 <? length level)%nat then level_inputs level ++ climb_inputs fuel (next_level level) else []
  end%list.
Definition root_inputs (leaves : list string) : list string :=
  ((leaf_input <$> leaves) ++ climb_inputs (climb_fuel leaves) (hash_leaf <$> leaves))%list.

Fixpoint walk_inputs (fuel : nat) (current : string) (index width : Z) (hashes : list string) : list string :=
  match fuel, hashes with
  | S fuel, h :: hashes' =>
      if 1 <? width then
        if index mod 2 =? 1 then
          match digest_of_hex h with
          | Ok d => node_input d current :: walk_inputs fuel (hash_children d current) (index / 2) ((width + 1) / 2) hashes'
          | Raise _ => []
          end
        else if index + 1 <? width then
          match digest_of_hex h with
          | Ok d => node_input current d :: walk_inputs fuel (hash_children current d) (index / 2) ((width + 1) / 2) hashes'
          | Raise _ => []
          end
        else walk_inputs fuel current (index / 2) ((width + 1) / 2) hashes
      else []
  | S fuel, [] => walk_inputs fuel current (index / 2) ((width + 1) / 2) []
  | O, _ => []
  end.
Definition proof_inputs (body : string) (log_index tree_size : Z) (hashes : list string) : list string :=
  leaf_input body :: walk_inputs (verify_fuel tree_size) (hash_leaf body) log_index tree_size hashes.

Lemma climb_inputs_more n k l : (length l <= 2 ^ n)%nat -> climb_inputs (n + k) l = climb_inputs n l.
Proof.
  revert l. induction n as [|n IH]; intros l Hl; cbn [climb_inputs Nat.add].
  - apply pow2_small in Hl. destruct k; [done|]. cbn [climb_inputs].
    by destruct (Nat.ltb_spec 1 (length l)); [lia|].
  - destruct (1 <? length l)%nat; [|done]. f_equal. by apply IH, next_level_small.
Qed.

Lemma level_inputs_pair l i a b : l !! (2 * i)%nat = Some a -> l !! (2 * i + 1)%nat = Some b ->
  node_input a b ∈ level_inputs l.
Proof.
  revert l. induction i as [|i IH]; intros l Ha Hb.
  - destruct l as [|x [|y l]]; try done. injection Ha as ->. injection Hb as ->. apply list_elem_of_here.
  - replace (2 * S i)%nat with (S (S (2 * i))) in Ha, Hb by lia.
    destruct l as [|x [|y l]]; [done|done|]. apply list_elem_of_further, (IH l); [exact Ha|].
    replace (S (S (2 * i)) + 1)%nat with (S (S (2 * i + 1))) in Hb by lia. exact Hb.
Qed.
Lemma level_inputs_odd l i a b : Nat.odd i = true -> l !! (i - 1)%nat = Some b -> l !! i = Some a ->
  node_input b a ∈ level_inputs l.
Proof.
  intros [k ->]%Nat.odd_spec Hb Ha. replace (2 * k + 1 - 1)%nat with (2 * k)%nat in Hb by lia.
  by eapply level_inputs_pair.
Qed.
Lemma level_inputs_even l i a b : Nat.odd i = false -> l !! i = Some a -> l !! (i + 1)%nat = Some b ->
  node_input a b ∈ level_inputs l.
Proof.
  rewrite <- Nat.negb_even, negb_false_iff. intros [k ->]%Nat.even_spec Ha Hb. by eapply level_inputs_pair.
Qed.

Lemma app_inj_len (a b c d : string) : String.length a = String.length c -> a ++ b = c ++ d ->
  a = c /\ b = d.
Proof.
  revert c. induction a as [|x a IH]; intros [|y c] Hl E; try done.
  rewrite !str_app_cons in E. injection E as -> E. injection Hl as Hl.
  by destruct (IH c Hl E) as [-> ->].
Qed.

(** Equal nodes have equal children. *)
Lemma hash_children_inj xs ys a b c d : String.length a = 32%nat -> String.length c = 32%nat ->
  node_input a b ∈ xs -> node_input c d ∈ ys ->
  hash_children a b = hash_children c d -> (a = c /\ b = d) \/ collide hash xs ys.
Proof.
  intros Ha Hc Hx Hy E. destruct (same_digest hash xs ys _ _ Hx Hy E) as [[= E']|]; [left|by right].
  apply app_inj_len; [congruence|done].
Qed.

Lemma digest_of_hex_len h d : digest_of_hex h = Ok d -> String.length d = 32%nat.
Proof.
  unfold digest_of_hex. destruct (from_hex h); [|done].
  destruct (Nat.eqb_spec (String.length s) 32); [|done]. by intros [= <-].
Qed.

Lemma hash_children_len a b : String.length (hash_children a b) = 32%nat.
Proof. apply hash_len. Qed.

(** Reaching the root of a level from a value at a position means the value is
    the level's node there, or a node hashed for the root and one hashed by the
    walk collide. *)
Lemma walk_sound n l i v hs c rest :
  (length l <= 2 ^ n)%nat -> all32 l -> (i < length l)%nat -> String.length v = 32%nat ->
  walk n v (Z.of_nat i) (Z.of_nat (length l)) hs = Ok (c, rest) -> c = climb n l ->
  l !! i = Some v \/ collide hash (climb_inputs n l) (walk_inputs n v (Z.of_nat i) (Z.of_nat (length l)) hs).
Proof.
  revert l i v hs. induction n as [|n IH]; intros l i v hs Hl H32 Hi Hv; cbn [walk climb climb_inputs].
  - intros [= -> ->] Ec. left. destruct l as [|x [|]], i; cbn in *; try lia. by subst.
  - cbn [walk_inputs]. destruct (Nat.ltb_spec 1 (length l)), (Z.ltb_spec 1 (Z.of_nat (length l))); try lia.
    2: { intros [= -> ->] Ec. left. destruct l as [|x [|]], i; cbn in *; try lia. by subst. }
    pose proof (next_level_small l n Hl) as Hs. pose proof (next_level_32 l H32) as H32'.
    pose proof (half_in i l Hi) as Hi'. destruct (lookup_in l i Hi) as [a Ha].
    assert (String.length a = 32%nat) by by eapply Forall_lookup in H32.
    rewrite odd_mod, half_index, half_width. destruct (Nat.odd i) eqn:Eo; cbn [negb andb orb].
    + destruct hs as [|h hs]; [done|]. intros Hw Ec. apply bind_ok in Hw as (sib & Hsib & Hw). rewrite Hsib.
      apply digest_of_hex_len in Hsib. destruct (lookup_in l (i - 1)) as [b Hb]; [lia|].
      assert (String.length b = 32%nat) by by eapply Forall_lookup in H32.
      destruct (IH _ _ _ _ Hs H32' Hi' (hash_children_len _ _) Hw Ec) as [E|Hc];
        [|right; eapply collide_mono, Hc; set_solver].
      rewrite (parent_odd l i a b Eo Hb Ha) in E. injection E as E.
      pose proof (level_inputs_odd l i a b Eo Hb Ha) as Hin.
      eapply hash_children_inj in E as [[_ ->]|Hc]; [by left|right; exact Hc|done|done|set_solver|set_solver].
    + pose proof (parent_even l i a Eo Ha) as Hp.
      destruct (Z.ltb_spec (Z.of_nat i + 1) (Z.of_nat (length l))).
      * destruct hs as [|h hs]; [done|]. intros Hw Ec. apply bind_ok in Hw as (sib & Hsib & Hw). rewrite Hsib.
        destruct (lookup_in l (i + 1)) as [b Hb]; [lia|]. rewrite Hb in Hp.
        destruct (IH _ _ _ _ Hs H32' Hi' (hash_children_len _ _) Hw Ec) as [E|Hc];
          [|right; eapply collide_mono, Hc; set_solver].
        rewrite Hp in E. injection E as E. pose proof (level_inputs_even l i a b Eo Ha Hb) as Hin.
        eapply hash_children_inj in E as [[-> _]|Hc]; [by left|right; exact Hc|done|done|set_solver|set_solver].
      * intros Hw Ec. rewrite (lookup_ge_None_2 l (i + 1)) in Hp by lia.
        destruct (IH _ _ _ _ Hs H32' Hi' Hv Hw Ec) as [E|Hc].
        -- rewrite Hp in E. injection E as ->. by left.
        -- right. destruct hs; (eapply collide_mono, Hc; [set_solver|done]).
Qed.

(** ** Enough fuel *)

Lemma verify_fuel_enough n : (0 < n)%nat -> (n <= 2 ^ verify_fuel (Z.of_nat n))%nat.
Proof.
  intros Hn. unfold verify_fuel. apply Nat2Z.inj_le. rewrite Nat2Z.inj_pow.
  pose proof (Z.log2_up_nonneg (Z.of_nat n)). rewrite Z2Nat.id by done.
  destruct (Nat.eq_dec n 1%nat) as [->|]; [done|]. apply Z.log2_up_spec. lia.
Qed.

Lemma verify_fuel_le n : (verify_fuel (Z.of_nat n) <= n)%nat.
Proof.
  unfold verify_fuel. pose proof (Z.log2_up_nonneg (Z.of_nat n)).
  destruct n as [|n]; [done|]. pose proof (Z.log2_up_lt_lin (Z.of_nat (S n)) ltac:(lia)). lia.
Qed.

Definition leaf_level (leaves : list string) : list string := hash_leaf <$> leaves.

Lemma leaf_level_32 leaves : all32 (leaf_level leaves).
Proof. apply Forall_fmap, Forall_true. intros x. apply hash_len. Qed.

Section Fuel.
Variables (leaves : list string) (i : nat) (leaf : string).
Hypothesis Hleaf : leaves !! i = Some leaf.
#[local] Abbreviation n := (verify_fuel (Z.of_nat (length leaves))).

Lemma leaves_pos : (0 < length leaves)%nat.
Proof. apply lookup_lt_Some in Hleaf. lia. Qed.
Lemma leaf_level_small : (length (leaf_level leaves) <= 2 ^ n)%nat.
Proof. unfold leaf_level. rewrite length_fmap. apply verify_fuel_enough, leaves_pos. Qed.

Lemma root_is_climb : merkle_root leaves = climb n (leaf_level leaves).
Proof.
  assert (E : merkle_root leaves = climb (climb_fuel (leaf_level leaves)) (leaf_level leaves)).
  { pose proof leaves_pos as Hp. clear -Hp. by destruct leaves; [cbn in Hp; lia|]. }
  rewrite E. unfold climb_fuel.
  replace (length (leaf_level leaves)) with (n + (length leaves - n))%nat
    by (unfold leaf_level; rewrite length_fmap; pose proof (verify_fuel_le (length leaves)); lia).
  apply climb_more, leaf_level_small.
Qed.

Lemma climb_inputs_root : climb_inputs (climb_fuel leaves) (leaf_level leaves) = climb_inputs n (leaf_level leaves).
Proof.
  unfold climb_fuel. replace (length leaves) with (n + (length leaves - n))%nat at 1
    by (pose proof (verify_fuel_le (length leaves)); lia).
  apply climb_inputs_more, leaf_level_small.
Qed.

Lemma proof_is_siblings : merkle_proof leaves (Z.of_nat i) = Ok (siblings n (leaf_level leaves) i).
Proof.
  unfold merkle_proof. apply lookup_lt_Some in Hleaf as Hi.
  destruct (Z.ltb_spec (Z.of_nat i) 0); [lia|].
  destruct (Z.leb_spec (Z.of_nat (length leaves)) (Z.of_nat i)); [lia|]. cbn [orb].
  fold (leaf_level leaves). rewrite Nat2Z.id. f_equal. unfold climb_fuel.
  replace (length (leaf_level leaves)) with (n + (length leaves - n))%nat
    by (unfold leaf_level; rewrite length_fmap; pose proof (verify_fuel_le (length leaves)); lia).
  apply siblings_more, leaf_level_small.
Qed.
End Fuel.

Lemma climb_32 n l : all32 l -> (0 < length l)%nat -> String.length (climb n l) = 32%nat.
Proof.
  revert l. induction n as [|n IH]; intros l H32 Hl; cbn [climb].
  - destruct H32; cbn in *; [lia|done].
  - destruct (Nat.ltb_spec 1 (length l)).
    + apply IH; [by apply next_level_32|]. pose proof (half_in 0 l Hl). cbn in *. lia.
    + destruct H32; cbn in *; [lia|done].
Qed.

Lemma root_32 leaves i leaf : leaves !! i = Some leaf -> String.length (merkle_root leaves) = 32%nat.
Proof.
  intros Hl. rewrite (root_is_climb leaves i leaf Hl). apply climb_32; [apply leaf_level_32|].
  unfold leaf_level. rewrite length_fmap. by eapply leaves_pos.
Qed.

Lemma verify_complete leaves i leaf : leaves !! i = Some leaf ->
  exists proof, merkle_proof leaves (Z.of_nat i) = Ok proof /\
    verify_inclusion_proof leaf (Z.of_nat i) (Z.of_nat (length leaves))
      (to_hex <$> proof) (to_hex (merkle_root leaves)) = Ok tt.
Proof.
  intros Hl. eexists. split; [by eapply proof_is_siblings|]. unfold verify_inclusion_proof.
  pose proof (lookup_lt_Some _ _ _ Hl).
  destruct (Z.leb_spec (Z.of_nat (length leaves)) 0); [lia|].
  destruct (Z.ltb_spec (Z.of_nat i) 0); [lia|].
  destruct (Z.leb_spec (Z.of_nat (length leaves)) (Z.of_nat i)); [lia|]. cbn [orb].
  rewrite digest_of_to_hex by by eapply root_32. res_simpl.
  pose proof (walk_complete (verify_fuel (Z.of_nat (length leaves))) (leaf_level leaves) i
    (hash_leaf leaf) [] (leaf_level_small leaves i leaf Hl) (leaf_level_32 leaves)) as Hw.
  rewrite (length_fmap hash_leaf leaves : length (leaf_level leaves) = _), app_nil_r in Hw.
  rewrite Hw by (unfold leaf_level; by rewrite list_lookup_fmap, Hl). cbn.
  by rewrite (root_is_climb leaves i leaf Hl), String.eqb_refl.
Qed.

(** Every leaf of the log has a proof that verifies: the proof
    [_merkle_proof] builds for any entry, at any tree size, is accepted by
    [verify_inclusion_proof] against the root [_merkle_root] computes. *)
Theorem inclusion_complete leaves i leaf : leaves !! i = Some leaf ->
  exists proof, merkle_proof leaves (Z.of_nat i) = Ok proof /\
    verify_inclusion_proof leaf (Z.of_nat i) (Z.of_nat (length leaves))
      (to_hex <$> proof) (to_hex (merkle_root leaves)) = Ok tt.
Proof. apply verify_complete. Qed.

(** C17. An accepted inclusion proof is truthful: if it verifies against the
    root and size of a log, the body is the log's entry at that index, or one of
    the inputs hashed for the log's root and one of the inputs hashed by the
    verifier are different and have the same SHA-256 digest. *)
Theorem inclusion_sound leaves body log_index hashes root_hex :
  digest_of_hex root_hex = Ok (merkle_root leaves) ->
  verify_inclusion_proof body log_index (Z.of_nat (length leaves)) hashes root_hex = Ok tt ->
  leaves !! Z.to_nat log_index = Some body \/
  collide hash (root_inputs leaves) (proof_inputs body log_index (Z.of_nat (length leaves)) hashes).
Proof.
  intros Hr Hv. unfold verify_inclusion_proof in Hv.
  destruct (Z.leb_spec (Z.of_nat (length leaves)) 0); [done|].
  destruct (Z.ltb_spec log_index 0); [done|].
  destruct (Z.leb_spec (Z.of_nat (length leaves)) log_index); [done|]. cbn [orb] in Hv.
  rewrite Hr in Hv. apply bind_ok in Hv as (x & [= <-] & Hv).
  apply bind_ok in Hv as ([c rest] & Hw & Hv). ok_steps Hv. apply negb_false_iff, String.eqb_eq in G0.
  set (i := Z.to_nat log_index) in *. assert (Ei : log_index = Z.of_nat i) by lia.
  destruct (lookup_in leaves i) as [leaf Hl]; [lia|]. rewrite Ei in Hw |- *.
  rewrite (root_is_climb leaves i leaf Hl) in G0.
  unfold root_inputs, proof_inputs. fold (leaf_level leaves). rewrite (climb_inputs_root leaves i leaf Hl).
  assert (Elen : length (leaf_level leaves) = length leaves) by apply length_fmap. rewrite <- Elen in Hw at 2.
  destruct (walk_sound _ (leaf_level leaves) i (hash_leaf body) hashes c rest
    (leaf_level_small leaves i leaf Hl) (leaf_level_32 leaves) ltac:(lia) (hash_len _) Hw G0) as [E|Hc];
    [|right; rewrite Elen in Hc; eapply collide_mono, Hc; set_solver].
  unfold leaf_level in E. rewrite list_lookup_fmap, Hl in E. injection E as E.
  eapply (same_digest hash) in E as [[= ->]|Hc]; [by left|right; exact Hc| |apply list_elem_of_here].
  apply elem_of_app. left. apply list_elem_of_fmap. exists leaf. split; [done|]. by eapply list_elem_of_lookup_2.
Qed.

(** Appending never fails, keeps every earlier entry in place, and
    returns evidence the verifier accepts for the new entry. *)
Theorem append_entry_verifies entries body :
  exists ev, append_entry entries body = Ok ((entries ++ [body])%list, ev) /\
    ev_log_index ev = Z.of_nat (length entries) /\
    verify_inclusion_proof (ev_body ev) (ev_log_index ev) (ev_tree_size ev) (ev_hashes ev)
      (ev_root_hash ev) = Ok tt.
Proof.
  assert (Hl : (entries ++ [body])%list !! length entries = Some body)
    by (rewrite lookup_app_r, Nat.sub_diag by lia; done).
  destruct (verify_complete _ _ _ Hl) as (proof & Hp & Hv). unfold append_entry. rewrite Hp.
  eexists. split; [reflexivity|]. split; [done|exact Hv].
Qed.

End Tree.

(** ** A concrete log of three entries *)
Module Demo.
Definition demo_hash (s : string) : string :=
  default EmptyString (from_hex (sha256_hex (Digests := demo_digests) s)).

(** 64 lowercase hex digits read back as 32 bytes. *)
Lemma from_hex_digest s n : str_all is_lower_hex s = true -> String.length s = (2 * n)%nat ->
  exists d, from_hex s = Some d /\ String.length d = n.
Proof.
  revert s. induction n as [|n IH]; intros s Hs Hl.
  - destruct s; [by exists EmptyString|done].
  - destruct s as [|a [|b s]]; cbn in Hl; try lia. cbn in Hs.
    apply andb_true_iff in Hs as [Ha Hs]. apply andb_true_iff in Hs as [Hb Hs].
    destruct (IH s Hs ltac:(lia)) as (d & Hd & Hlen).
    assert (Hv : forall c, is_lower_hex c = true -> ascii_space c = false /\ exists x, hex_value c = Some x).
    { intros c Hc. destruct c as [[] [] [] [] [] [] [] []]; try done; (split; [done|by eexists]). }
    destruct (Hv a Ha) as [Ea [x Ex]], (Hv b Hb) as [_ [y Ey]].
    exists (String (CanonicalJson.chr (16 * x + y)) d). cbn. rewrite Ea, Ex, Ey, Hd. cbn.
    split; [done|]. by rewrite Hlen.
Qed.

Lemma demo_hash_len s : String.length (demo_hash s) = 32%nat.
Proof.
  pose proof (sha256_hex_shape (Digests := demo_digests) s) as Hs. unfold digest_match in Hs.
  apply andb_true_iff in Hs as [Hl Ha]. apply Nat.eqb_eq in Hl.
  destruct (from_hex_digest _ 32 Ha Hl) as (d & Hd & Hlen). unfold demo_hash. by rewrite Hd.
Qed.

Definition log : list string := ["entry-0"; "entry-1"; "entry-2"].

Lemma inclusion_complete_witness :
  exists proof, merkle_proof demo_hash log 2 = Ok proof /\
    verify_inclusion_proof demo_hash "entry-2" 2 3 (to_hex <$> proof) (to_hex (merkle_root demo_hash log))
    = Ok tt.
Proof. apply (inclusion_complete demo_hash demo_hash_len log 2 "entry-2"). reflexivity. Defined.

Definition hashes1 : list string := match merkle_proof demo_hash log 1 with Ok p => to_hex <$> p | Raise _ => [] end.
Lemma inclusion_sound_witness :
  log !! 1%nat = Some "entry-1" \/
  collide demo_hash (root_inputs demo_hash log) (proof_inputs demo_hash "entry-1" 1 3 hashes1).
Proof.
  apply (inclusion_sound demo_hash demo_hash_len log "entry-1" 1 hashes1 (to_hex (merkle_root demo_hash log))).
  - vm_compute. reflexivity.
  - vm_compute. reflexivity.
Defined.

Lemma append_entry_verifies_witness :
  exists ev, append_entry demo_hash log "entry-3" = Ok ((log ++ ["entry-3"])%list, ev) /\
    ev_log_index ev = 3.
Proof.
  destruct (append_entry_verifies demo_hash demo_hash_len log "entry-3") as (ev & E & Hi & _).
  exists ev. exact (conj E Hi).
Defined.
End Demo.
End Merkle.
