(* ===== verification/RiskPolicy.v ===== *)
(** * Risk contracts and the signed risk policy

    The first half of [src/python/vibap/risk_budget.py]: the closed vocabulary
    of risk facts, the tool contracts that derive them from tool arguments
    ([ToolRiskContract], [ToolRiskRegistry]) and the [risk_budget] claim that
    caps them ([normalize_risk_budget], [attenuate_risk_budget],
    [project_risk_budget], [validate_action_risk]).

    The JSON Schema validator is the third-party package [jsonschema]; it is
    the class [JsonSchema], of which nothing is assumed. *)

From Stdlib Require Import DecimalString DecimalFacts DecimalPos DecimalN DecimalZ.
From S2P Require Import Prelude CanonicalJson.
Open Scope string_scope.
Open Scope Z_scope.

Module RiskPolicy.

Definition RISK_BUDGET_VERSION : Z := 1.
Definition MAX_RISK_VALUE : Z := 2 ^ 63 - 1.
Definition MAX_CONTRACT_BYTES : Z := 64 * 1024.
Definition MAX_ARGUMENT_BYTES : Z := 64 * 1024.
Definition MAX_SCHEMA_NODES : Z := 4096.
Definition MAX_SCHEMA_DEPTH : Z := 64.

Definition NUMERIC_RISK_FACTS : list string :=
  ["destructive_targets"; "objects_affected"; "bytes_affected"].
Definition CATEGORICAL_RISK_LEVELS : list (string * list string) :=
  [("secret_sensitivity",
     ["none"; "public"; "internal"; "confidential"; "restricted"; "regulated"; "unknown"]);
   ("destination_risk",
     ["local"; "private_network"; "trusted_service"; "public_internet"; "untrusted"; "unknown"]);
   ("filesystem_scope",
     ["none"; "declared"; "workspace"; "external"; "system"; "unknown"]);
   ("irreversibility",
     ["reversible"; "compensatable"; "irreversible"; "unknown"])].
Definition ALL_RISK_FACTS : list string := NUMERIC_RISK_FACTS ++ dkeys CATEGORICAL_RISK_LEVELS.
Definition EXTRACTOR_KINDS : list string := ["integer"; "array_length"; "constant"; "enum"].

Definition numeric (fact : string) : bool := str_in fact NUMERIC_RISK_FACTS.

(** The exceptions; [RiskBudgetError] keeps the text where it is a
    machine-readable code.  [KeyError] and [ValueError] are what a subscript
    and [tuple.index] raise. *)
Inductive risk_exc : Type :=
| RiskBudgetError (code : string)
| RiskFactError
| RiskBudgetConflictError
| RiskBudgetReplayError
| PermissionError
| TypeError
| RuntimeError
| KeyError
| ValueError
| CanonicalizationError.
#[global] Instance risk_exc_eq_dec : EqDecision risk_exc.
Proof. solve_decision. Defined.

Abbreviation risk_invalid := (RiskBudgetError EmptyString).

(** ** Field validators *)

Definition require_object (value : pyval) : res risk_exc (list (string * pyval)) :=
  match value with PDict d => Ok d | _ => Raise risk_invalid end.

Definition require_string (value : pyval) (max_bytes : Z) : res risk_exc string :=
  match value with
  | PStr s =>
      let normalized := py_strip s in
      raise_if negb (non_empty normalized) with risk_invalid ;;
      raise_if max_bytes <? byte_len normalized with risk_invalid ;;
      Ok normalized
  | _ => Raise risk_invalid
  end.

Definition require_risk_int (value : pyval) : res risk_exc Z :=
  match value with
  | PInt z => raise_if (z <? 0) || (MAX_RISK_VALUE <? z) with risk_invalid ;; Ok z
  | _ => Raise risk_invalid
  end.

(** A risk fact's value: a count, or a level of its category. *)
Inductive fact_value := FInt (z : Z) | FLevel (s : string).
#[global] Instance fact_value_eq_dec : EqDecision fact_value.
Proof. solve_decision. Defined.
Definition fact_pyval (v : fact_value) : pyval :=
  match v with FInt z => PInt z | FLevel s => PStr s end.

(** [ToolRiskContract._validate_fact]. *)
Definition validate_fact (fact : string) (value : pyval) : res risk_exc fact_value :=
  if numeric fact then
    match require_risk_int value with
    | Ok z => Ok (FInt z)
    | Raise _ => Raise RiskFactError
    end
  else
    match dget fact CATEGORICAL_RISK_LEVELS, value with
    | Some levels, PStr s =>
        raise_if negb (str_in s levels) with RiskFactError ;; Ok (FLevel s)
    | _, _ => Raise RiskFactError
    end.

(** ** The input schema's shape *)

Definition ref_key (key : string) : bool := str_in key ["$ref"; "$dynamicRef"; "$recursiveRef"].
Definition local_ref (child : pyval) : bool :=
  match child with PStr s => String.prefix "#" s | _ => false end.

(** The inner [visit]; the closure's [nodes] is threaded. *)
Fixpoint visit (node : pyval) (depth nodes : Z) : res risk_exc Z :=
  let nodes := nodes + 1 in
  raise_if MAX_SCHEMA_NODES <? nodes with risk_invalid ;;
  raise_if MAX_SCHEMA_DEPTH <? depth with risk_invalid ;;
  match node with
  | PDict d =>
      (fix children (d : list (string * pyval)) (nodes : Z) : res risk_exc Z :=
         match d with
         | [] => Ok nodes
         | (key, child) :: d =>
             raise_if ref_key key && negb (local_ref child) with risk_invalid ;;
             nodes ← visit child (depth + 1) nodes;
             children d nodes
         end) d nodes
  | PList l =>
      (fix children (l : list pyval) (nodes : Z) : res risk_exc Z :=
         match l with
         | [] => Ok nodes
         | child :: l =>
             nodes ← visit child (depth + 1) nodes;
             children l nodes
         end) l nodes
  | _ => Ok nodes
  end.

Definition validate_schema_shape (value : pyval) : res risk_exc unit :=
  _ ← visit value 0 0; Ok tt.

(** ** JSON pointers *)

(** [s.replace("~" + c, out)]. *)
Fixpoint replace_tilde (c out : ascii) (s : string) : string :=
  match s with
  | EmptyString => EmptyString
  | String a s1 =>
      match s1 with
      | EmptyString => String a EmptyString
      | String b s2 =>
          if Ascii.eqb a "~" && Ascii.eqb b c then String out (replace_tilde c out s2)
          else String a (replace_tilde c out s1)
      end
  end.
Definition unescape (raw_part : string) : string :=
  replace_tilde "0" "~" (replace_tilde "1" "/" raw_part).

Definition is_digit (a : ascii) : bool := byte_in 48 57 a.
Fixpoint int10 (s : string) (acc : Z) : Z :=
  match s with
  | EmptyString => acc
  | String a s => int10 s (10 * acc + (Z.of_N (N_of_ascii a) - 48))
  end.

(** One step of the pointer loop. *)
Definition pointer_step (part : string) (current : pyval) : res risk_exc pyval :=
  match current with
  | PDict d =>
      match dget part d with Some v => Ok v | None => Raise RiskFactError end
  | PList l =>
      raise_if negb (str_all is_digit part && non_empty part)
               || (String.prefix "0" part && negb (String.eqb part "0")) with RiskFactError ;;
      let index := int10 part 0 in
      raise_if Z.of_nat (length l) <=? index with RiskFactError ;;
      match l !! Z.to_nat index with Some v => Ok v | None => Raise RiskFactError end
  | _ => Raise RiskFactError
  end.

Definition json_pointer (document : pyval) (pointer : string) : res risk_exc pyval :=
  match pointer with
  | EmptyString => Ok document
  | String a rest =>
      raise_if negb (Ascii.eqb a "/") with RiskFactError ;;
      foldR (fun raw_part current => pointer_step (unescape raw_part) current)
        (split_on "/" rest) document
  end.

(** The scan of [_pointer_syntax_is_valid]. *)
Fixpoint tildes_valid (s : string) : bool :=
  match s with
  | EmptyString => true
  | String a s1 =>
      if Ascii.eqb a "~" then
        match s1 with
        | EmptyString => false
        | String b s2 => (Ascii.eqb b "0" || Ascii.eqb b "1") && tildes_valid s2
        end
      else tildes_valid s1
  end.
Definition pointer_syntax_is_valid (pointer : string) : bool :=
  (negb (non_empty pointer) || String.prefix "/" pointer) && tildes_valid pointer.

(** ** Tool contracts *)

Class JsonSchema := {
  check_schema : pyval -> bool;
  schema_validates : string -> pyval -> bool
}.

(** How a fact is derived from the arguments of a call. *)
Inductive extractor :=
| XConstant (value : fact_value)
| XInteger (pointer : string)
| XArrayLength (pointer : string)
| XEnum (pointer : string).

(** [_risk_contract_json] is kept as the extractors it encodes, in the order
    of [mandatory_facts]. *)
Record ToolRiskContract := MkContract {
  tool_name : string;
  input_schema_json : string;
  extractors : list (string * extractor);
  digest : string
}.
Definition mandatory_facts (c : ToolRiskContract) : list string := dkeys (extractors c).

Definition hashable (v : pyval) : bool :=
  match v with PList _ | PDict _ => false | _ => true end.

(** The body of the loop over [mandatory] in [from_schema]. *)
Definition parse_extractor (fact : string) (spec : pyval) : res risk_exc extractor :=
  spec ← require_object spec;
  let kind := py_get "kind" spec in
  raise_if negb (hashable kind) with TypeError ;;
  match kind with
  | PStr kind =>
      raise_if negb (str_in kind EXTRACTOR_KINDS) with risk_invalid ;;
      if String.eqb kind "constant" then
        raise_if negb (same_set (dkeys spec) ["kind"; "value"]) with risk_invalid ;;
        value ← validate_fact fact (py_get "value" spec);
        Ok (XConstant value)
      else
        raise_if negb (same_set (dkeys spec) ["kind"; "pointer"]) with risk_invalid ;;
        match py_get "pointer" spec with
        | PStr pointer =>
            raise_if negb (pointer_syntax_is_valid pointer) with risk_invalid ;;
            if String.eqb kind "enum" then
              raise_if negb (has_key fact CATEGORICAL_RISK_LEVELS) with risk_invalid ;;
              Ok (XEnum pointer)
            else
              raise_if negb (numeric fact) with risk_invalid ;;
              Ok (if String.eqb kind "integer" then XInteger pointer else XArrayLength pointer)
        | _ => Raise risk_invalid
        end
  | _ => Raise risk_invalid
  end.

(** [not isinstance(fact, str) or fact not in ALL_RISK_FACTS], negated. *)
Definition known_fact (v : pyval) : option string :=
  match v with
  | PStr s => if str_in s ALL_RISK_FACTS then Some s else None
  | _ => None
  end.

Section Contracts.
Context `{Digests, JsonSchema}.

Definition bounded_json_bytes (value : pyval) (limit : Z) : res risk_exc string :=
  match canonical_json_bytes value with
  | None => Raise risk_invalid
  | Some encoded => raise_if limit <? byte_len encoded with risk_invalid ;; Ok encoded
  end.

Definition dumps (value : pyval) : res risk_exc string :=
  match canonical_json_bytes value with
  | Some encoded => Ok encoded
  | None => Raise CanonicalizationError
  end.

(** [ToolRiskContract.from_schema].  Two members of [mandatory] that compare
    equal are either equal names or refused as unknown facts, so comparing
    names decides which of the two errors of the same class is raised. *)
Definition from_schema (name input_schema risk_contract : pyval) : res risk_exc ToolRiskContract :=
  name ← require_string name 256;
  schema ← require_object input_schema;
  contract ← require_object risk_contract;
  _ ← bounded_json_bytes (PDict schema) MAX_CONTRACT_BYTES;
  _ ← bounded_json_bytes (PDict contract) MAX_CONTRACT_BYTES;
  _ ← validate_schema_shape (PDict schema);
  raise_if negb (check_schema (PDict schema)) with risk_invalid ;;
  raise_if negb (same_set (dkeys contract) ["version"; "mandatory_facts"; "extractors"])
    with risk_invalid ;;
  raise_if negb (py_eq_int (py_get "version" contract) RISK_BUDGET_VERSION) with risk_invalid ;;
  match py_get "mandatory_facts" contract with
  | PList mandatory =>
      raise_if (length mandatory =? 0)%nat with risk_invalid ;;
      match py_get "extractors" contract with
      | PDict specs =>
          raise_if (length specs =? 0)%nat with risk_invalid ;;
          raise_if negb (forallb hashable mandatory) with TypeError ;;
          match mapM known_fact mandatory with
          | None => Raise risk_invalid
          | Some facts =>
              raise_if negb (bool_decide (NoDup facts)) with risk_invalid ;;
              raise_if negb (same_set (dkeys specs) facts) with risk_invalid ;;
              parsed ← mapR (fun fact =>
                  x ← parse_extractor fact (py_get fact specs); Ok (fact, x)) facts;
              let normalized_contract :=
                PDict [("version", PInt RISK_BUDGET_VERSION);
                       ("mandatory_facts", PList mandatory);
                       ("extractors", PDict ((fun fact => (fact, py_get fact specs)) <$> facts))] in
              material ← dumps (PDict [("tool_name", PStr name);
                                       ("input_schema", PDict schema);
                                       ("risk_contract", normalized_contract)]);
              let digest := "sha256:" ++ sha256_hex material in
              schema_json ← dumps (PDict schema);
              _ ← dumps normalized_contract;
              Ok (MkContract name schema_json parsed digest)
          end
      | _ => Raise risk_invalid
      end
  | _ => Raise risk_invalid
  end.

(** The value an extractor reads from the arguments. *)
Definition extract_raw (x : extractor) (args : pyval) : res risk_exc pyval :=
  match x with
  | XConstant v => Ok (fact_pyval v)
  | XArrayLength p =>
      raw ← json_pointer args p;
      match raw with PList l => Ok (PInt (Z.of_nat (length l))) | _ => Raise RiskFactError end
  | XInteger p =>
      raw ← json_pointer args p;
      match raw with PInt z => Ok (PInt z) | _ => Raise RiskFactError end
  | XEnum p =>
      raw ← json_pointer args p;
      match raw with PStr s => Ok (PStr s) | _ => Raise RiskFactError end
  end.

(** [ToolRiskContract.extract]. *)
Definition extract (c : ToolRiskContract) (arguments : pyval)
    : res risk_exc (list (string * fact_value)) :=
  match arguments with
  | PDict _ =>
      raise_if negb (is_ok (bounded_json_bytes arguments MAX_ARGUMENT_BYTES)) with RiskFactError ;;
      raise_if negb (schema_validates (input_schema_json c) arguments) with RiskFactError ;;
      mapR (fun '(fact, x) =>
              raw ← extract_raw x arguments;
              v ← validate_fact fact raw;
              Ok (fact, v)) (extractors c)
  | _ => Raise RiskFactError
  end.
End Contracts.

(** [ToolRiskRegistry]. *)
Record ToolRiskRegistry := MkRegistry {
  contracts : gmap string ToolRiskContract;
  frozen : bool
}.
Definition empty_registry : ToolRiskRegistry := MkRegistry ∅ false.
Definition register (c : ToolRiskContract) (r : ToolRiskRegistry) : res risk_exc ToolRiskRegistry :=
  raise_if frozen r with RuntimeError ;;
  match contracts r !! tool_name c with
  | Some _ => Raise RiskBudgetConflictError
  | None => Ok (MkRegistry (<[tool_name c := c]> (contracts r)) (frozen r))
  end.
Definition freeze (r : ToolRiskRegistry) : ToolRiskRegistry := MkRegistry (contracts r) true.
Definition resolve (tool : string) (r : ToolRiskRegistry) : option ToolRiskContract :=
  contracts r !! tool.

(** ** [int(s, 16)]

    Unicode 15 decimal digits and spaces count as their ASCII counterparts. *)

Definition UNICODE_ZEROS : list Z :=
  [1632; 1776; 1984; 2406; 2534; 2662; 2790; 2918; 3046; 3174; 3302; 3430; 3558; 3664; 3792;
   3872; 4160; 4240; 6112; 6160; 6470; 6608; 6784; 6800; 6992; 7088; 7232; 7248; 42528; 43216;
   43264; 43472; 43504; 43600; 44016; 65296; 66720; 68912; 69734; 69872; 69942; 70096; 70384;
   70736; 70864; 71248; 71360; 71472; 71904; 72016; 72784; 73040; 73120; 73552; 92768; 92864;
   93008; 120782; 120792; 120802; 120812; 120822; 123200; 123632; 124144; 125264; 130032].
Definition UNICODE_SPACES : list Z :=
  [133; 160; 5760] ++ seqZ 8192 11 ++ [8232; 8233; 8239; 8287; 12288].

Definition int_char (p : Z) : Z :=
  if p <? 127 then p
  else if existsb (Z.eqb p) UNICODE_SPACES then 32
  else match List.find (fun z => (z <=? p) && (p <? z + 10)) UNICODE_ZEROS with
       | Some z => 48 + (p - z)
       | None => 63
       end.
Definition int_space (c : Z) : bool := ((9 <=? c) && (c <=? 13)) || (c =? 32).
Definition hex_digit (c : Z) : bool :=
  ((48 <=? c) && (c <=? 57)) || ((65 <=? c) && (c <=? 70)) || ((97 <=? c) && (c <=? 102)).

Fixpoint skip_spaces (l : list Z) : list Z :=
  match l with
  | c :: l' => if int_space c then skip_spaces l' else l
  | [] => []
  end.
(** Digits with single underscores between them, then spaces to the end. *)
Fixpoint hex_run (l : list Z) (underscore : bool) : bool :=
  match l with
  | [] => negb underscore
  | c :: l' =>
      if hex_digit c then hex_run l' false
      else if c =? 95 then negb underscore && hex_run l' true
      else negb underscore && forallb int_space l
  end.
Definition hex_body (l : list Z) : bool :=
  match l with c :: _ => hex_digit c && hex_run l false | [] => false end.
Definition int16_ok (s : string) : bool :=
  match CanonicalJson.utf8_decode s with
  | None => false
  | Some l =>
      let l := skip_spaces (int_char <$> l) in
      let l := match l with
               | c :: l' => if (c =? 43) || (c =? 45) then l' else l
               | [] => l
               end in
      hex_body (match l with
                | 48 :: x :: l' =>
                    if (x =? 120) || (x =? 88) then
                      match l' with 95 :: l'' => l'' | _ => l' end
                    else l
                | _ => l
                end)
  end.

(** ** The signed [risk_budget] claim *)

Record tool_policy := ToolPolicy {
  contract_digest : string;
  max_facts : list (string * fact_value)
}.
Record risk_policy := RiskPol {
  rp_lineage_id : string;
  rp_tools : list (string * tool_policy);
  rp_ceilings : list (string * per_scope Z)
}.

Definition SHA_PREFIX : string := "sha256:".

(** [_require_string] and the three digest tests of the tools loop. *)
Definition contract_digest_of (value : pyval) : res risk_exc string :=
  digest ← require_string value 256;
  let hex := substring 7 (String.length digest) digest in
  raise_if negb (String.prefix SHA_PREFIX digest) || negb (py_len digest =? 71)%nat
    with risk_invalid ;;
  raise_if negb (int16_ok hex) with risk_invalid ;;
  raise_if negb (String.eqb hex (py_lower hex)) with risk_invalid ;;
  Ok digest.

Definition caps_of (value : pyval) : res risk_exc (list (string * fact_value)) :=
  raw_caps ← require_object value;
  raise_if (length raw_caps =? 0)%nat
           || existsb (fun kv => negb (str_in kv.1 ALL_RISK_FACTS)) raw_caps with risk_invalid ;;
  mapR (fun kv => v ← validate_fact kv.1 kv.2; Ok (kv.1, v)) raw_caps.

Definition tool_policy_of (value : pyval) : res risk_exc tool_policy :=
  raw ← require_object value;
  raise_if negb (same_set (dkeys raw) ["contract_digest"; "max_facts"]) with risk_invalid ;;
  digest ← contract_digest_of (py_get "contract_digest" raw);
  caps ← caps_of (py_get "max_facts" raw);
  Ok (ToolPolicy digest caps).

(** The loop over [raw_tools]. *)
Definition tools_of (raw_tools : list (string * pyval))
    : res risk_exc (list (string * tool_policy)) :=
  foldR (fun kv tools =>
           name ← require_string (PStr kv.1) 256;
           raise_if has_key name tools with risk_invalid ;;
           pol ← tool_policy_of kv.2;
           Ok (tools ++ [(name, pol)])%list) raw_tools [].

(** The loop over [raw_ceilings]. *)
Definition ceiling_of (kv : string * pyval) : res risk_exc (string * per_scope Z) :=
  raise_if negb (numeric kv.1) with risk_invalid ;;
  scopes ← require_object kv.2;
  raise_if negb (same_set (dkeys scopes) (scope_name <$> SCOPES)) with risk_invalid ;;
  s ← require_risk_int (py_get "session" scopes);
  a ← require_risk_int (py_get "agent" scopes);
  l ← require_risk_int (py_get "lineage" scopes);
  Ok (kv.1, PerScope s a l).

(** The numeric facts some tool policy caps. *)
Definition numeric_facts (tools : list (string * tool_policy)) : list string :=
  tools ≫= fun t => filter numeric (dkeys (max_facts t.2)).

Definition normalize_risk_budget (value : pyval) (lineage_id : option string)
    : res risk_exc risk_policy :=
  policy ← require_object value;
  raise_if negb (subset_b (dkeys policy) ["version"; "lineage_id"; "tools"; "ceilings"])
    with risk_invalid ;;
  raise_if negb (py_eq_int (py_get "version" policy) RISK_BUDGET_VERSION) with risk_invalid ;;
  effective ← require_string
      (match lineage_id with Some l => PStr l | None => py_get "lineage_id" policy end) 256;
  raw_tools ← require_object (py_get "tools" policy);
  raw_ceilings ← require_object (py_get "ceilings" policy);
  raise_if (length raw_tools =? 0)%nat with risk_invalid ;;
  tools ← tools_of raw_tools;
  ceilings ← mapR ceiling_of raw_ceilings;
  raise_if negb (same_set (dkeys ceilings) (numeric_facts tools)) with risk_invalid ;;
  Ok (RiskPol effective tools ceilings).

(** The normalized claim as the dict the code returns. *)
Definition tool_policy_dict (t : tool_policy) : pyval :=
  PDict [("contract_digest", PStr (contract_digest t));
         ("max_facts", PDict (prod_map id fact_pyval <$> max_facts t))].
Definition scope_dict (p : per_scope Z) : pyval :=
  PDict [("session", PInt (session p)); ("agent", PInt (agent p)); ("lineage", PInt (lineage p))].
Definition risk_policy_dict (p : risk_policy) : list (string * pyval) :=
  [("version", PInt RISK_BUDGET_VERSION);
   ("lineage_id", PStr (rp_lineage_id p));
   ("tools", PDict (prod_map id tool_policy_dict <$> rp_tools p));
   ("ceilings", PDict (prod_map id scope_dict <$> rp_ceilings p))].

(** ** Attenuation, projection and the per-action check *)

(** [levels.index(s)]. *)
Fixpoint index_of (s : string) (levels : list string) : option Z :=
  match levels with
  | [] => None
  | l :: levels => if String.eqb s l then Some 0 else Z.succ <$> index_of s levels
  end.
(** [CATEGORICAL_RISK_LEVELS[fact].index(str(v))]. *)
Definition level_of (fact : string) (v : fact_value) : res risk_exc Z :=
  match dget fact CATEGORICAL_RISK_LEVELS with
  | None => Raise KeyError
  | Some levels =>
      match v with
      | FLevel s => match index_of s levels with Some i => Ok i | None => Raise ValueError end
      | FInt _ => Raise ValueError
      end
  end.
(** [int(v)] of a numeric fact. *)
Definition int_of_fact (v : fact_value) : res risk_exc Z :=
  match v with FInt z => Ok z | FLevel _ => Raise ValueError end.

(** The rank a fact's values are compared by. *)
Definition rank (fact : string) (v : fact_value) : res risk_exc Z :=
  if numeric fact then int_of_fact v else level_of fact v.

Definition subscript {A} (k : string) (d : list (string * A)) : res risk_exc A :=
  match dget k d with Some v => Ok v | None => Raise KeyError end.

Definition check_tool (parent_tools : list (string * tool_policy)) (kv : string * tool_policy)
    : res risk_exc unit :=
  parent_policy ← subscript kv.1 parent_tools;
  let child_policy := kv.2 in
  raise_if negb (String.eqb (contract_digest child_policy) (contract_digest parent_policy))
    with PermissionError ;;
  raise_if negb (same_set (dkeys (max_facts child_policy)) (dkeys (max_facts parent_policy)))
    with PermissionError ;;
  iterR (fun '(fact, child_cap) =>
           parent_cap ← subscript fact (max_facts parent_policy);
           c ← rank fact child_cap;
           p ← rank fact parent_cap;
           raise_if p <? c with PermissionError ;; Ok tt) (max_facts child_policy).

Definition check_ceiling (parent : list (string * per_scope Z)) (kv : string * per_scope Z)
    : res risk_exc unit :=
  iterR (fun scope =>
           bound ← subscript kv.1 parent;
           raise_if at_scope bound scope <? at_scope kv.2 scope with PermissionError ;; Ok tt) SCOPES.

Definition attenuate_risk_budget (parent : pyval) (child : option (list (string * pyval)))
    : res risk_exc risk_policy :=
  normalized_parent ← normalize_risk_budget parent None;
  match child with
  | None => Ok normalized_parent
  | Some child =>
      raise_if negb (py_eq_str (py_get "lineage_id" child) (rp_lineage_id normalized_parent))
        with PermissionError ;;
      normalized_child ← normalize_risk_budget (PDict child) (Some (rp_lineage_id normalized_parent));
      raise_if negb (String.eqb (rp_lineage_id normalized_child) (rp_lineage_id normalized_parent))
        with PermissionError ;;
      raise_if negb (subset_b (dkeys (rp_tools normalized_child)) (dkeys (rp_tools normalized_parent)))
        with PermissionError ;;
      _ ← iterR (check_tool (rp_tools normalized_parent)) (rp_tools normalized_child);
      raise_if negb (subset_b (dkeys (rp_ceilings normalized_child))
                              (dkeys (rp_ceilings normalized_parent))) with PermissionError ;;
      _ ← iterR (check_ceiling (rp_ceilings normalized_parent)) (rp_ceilings normalized_child);
      Ok normalized_child
  end.

Definition project_risk_budget (policy : pyval) (allowed_tools : list string)
    : res risk_exc (option risk_policy) :=
  normalized ← normalize_risk_budget policy None;
  let retained_tools := filter (fun t => str_in t.1 allowed_tools) (rp_tools normalized) in
  if (length retained_tools =? 0)%nat then Ok None
  else
    let facts := numeric_facts retained_tools in
    let projected :=
      RiskPol (rp_lineage_id normalized) retained_tools
        (filter (fun c => str_in c.1 facts) (rp_ceilings normalized)) in
    p ← normalize_risk_budget (PDict (risk_policy_dict projected)) None;
    Ok (Some p).

(** The loop body of [validate_action_risk]; a numeric fact is returned. *)
Definition check_fact (caps : list (string * fact_value)) (kv : string * fact_value)
    : res risk_exc (option (string * Z)) :=
  validated ← validate_fact kv.1 (fact_pyval kv.2);
  cap ← subscript kv.1 caps;
  if numeric kv.1 then
    v ← int_of_fact validated;
    c ← int_of_fact cap;
    raise_if c <? v with RiskBudgetError "risk_action_cap_exceeded" ;;
    Ok (Some (kv.1, v))
  else
    raise_if bool_decide (validated = FLevel "unknown")
      with RiskBudgetError "risk_action_cap_exceeded" ;;
    v ← level_of kv.1 validated;
    c ← level_of kv.1 cap;
    raise_if c <? v with RiskBudgetError "risk_action_cap_exceeded" ;;
    Ok None.

Definition somes {A} (l : list (option A)) : list A := omap id l.

(** The checks of [validate_action_risk] after normalisation. *)
Definition check_action (normalized : risk_policy) (contract : ToolRiskContract)
    (facts : list (string * fact_value)) : res risk_exc (list (string * Z)) :=
  match dget (tool_name contract) (rp_tools normalized) with
  | None => Raise (RiskBudgetError "risk_policy_tool_missing")
  | Some tool_policy =>
      raise_if negb (String.eqb (contract_digest tool_policy) (digest contract))
        with RiskBudgetError "risk_contract_digest_mismatch" ;;
      raise_if negb (same_set (dkeys facts) (mandatory_facts contract))
        with RiskBudgetError "risk_fact_set_mismatch" ;;
      let caps := max_facts tool_policy in
      raise_if negb (same_set (dkeys caps) (dkeys facts))
        with RiskBudgetError "risk_policy_fact_cap_missing" ;;
      numbers ← mapR (check_fact caps) facts;
      Ok (somes numbers)
  end.

Definition validate_action_risk (policy : pyval) (contract : ToolRiskContract)
    (facts : list (string * fact_value)) : res risk_exc (list (string * Z)) :=
  normalized ← normalize_risk_budget policy None;
  check_action normalized contract facts.

(** ** The shape check *)

(** The number of nodes of a value, its nesting depth, and that every schema
    reference in it is local. *)
Fixpoint size (v : pyval) : Z :=
  match v with
  | PList l => 1 + foldr (fun x n => size x + n) 0 l
  | PDict d => 1 + foldr (fun kv n => size kv.2 + n) 0 d
  | _ => 1
  end.
Fixpoint height (v : pyval) : Z :=
  match v with
  | PList l => foldr (fun x n => (1 + height x) `max` n) 0 l
  | PDict d => foldr (fun kv n => (1 + height kv.2) `max` n) 0 d
  | _ => 0
  end.
Fixpoint local_refs (v : pyval) : bool :=
  match v with
  | PList l => forallb local_refs l
  | PDict d => forallb (fun kv => (negb (ref_key kv.1) || local_ref kv.2) && local_refs kv.2) d
  | _ => true
  end.

(** What [visit] computes. *)
Definition visits (v : pyval) : Prop := forall d n m,
  visit v d n = Ok m <-> m = n + size v /\ m <= MAX_SCHEMA_NODES /\
    d + height v <= MAX_SCHEMA_DEPTH /\ local_refs v = true.

Lemma size_pos v : 1 <= size v.
Proof.
  induction v as [| | | | |l IH|d IH] using pyval_ind; cbn [size]; try lia.
  - assert (0 <= foldr (fun x n => size x + n) 0 l); [|lia]. induction IH; simpl; lia.
  - assert (0 <= foldr (fun kv n => size kv.2 + n) 0 d); [|lia]. induction IH; simpl; lia.
Qed.

Lemma height_nonneg v : 0 <= height v.
Proof.
  induction v as [| | | | |l IH|d IH] using pyval_ind; cbn [height]; try lia.
  - induction IH; simpl; lia.
  - induction IH; simpl; lia.
Qed.

(** The loop over the children of a node, given what [visit] does on each. *)
Lemma visit_list l d n m :
  Forall visits l -> n <= MAX_SCHEMA_NODES -> d <= MAX_SCHEMA_DEPTH ->
  (fix children (l : list pyval) (nodes : Z) : res risk_exc Z :=
     match l with
     | [] => Ok nodes
     | child :: l => nodes ← visit child (d + 1) nodes; children l nodes
     end) l n = Ok m <->
  m = n + foldr (fun x k => size x + k) 0 l /\ m <= MAX_SCHEMA_NODES /\
  d + foldr (fun x k => (1 + height x) `max` k) 0 l <= MAX_SCHEMA_DEPTH /\
  forallb local_refs l = true.
Proof.
  intros Hl. revert n. induction Hl as [|x l Hx Hl IH]; intros n Hn Hd; cbn [foldr forallb].
  { split; [intros [= <-]; repeat split; lia|]. intros (-> & _). f_equal. lia. }
  pose proof (size_pos x). pose proof (height_nonneg x).
  assert (0 <= foldr (fun x k => size x + k) 0 l).
  { clear. induction l as [|y l IH]; simpl; [lia|]. pose proof (size_pos y). lia. }
  split.
  - intros Ho. bind_inv Ho. apply Hx in E as (-> & ? & ? & ->).
    apply IH in Ho as (-> & ? & ? & ->); [|lia|lia]. repeat split; lia.
  - intros (-> & ? & ? & [Hr Hr']%andb_true_iff).
    rewrite (proj2 (Hx (d + 1) n (n + size x))) by (repeat split; [lia|lia|done]).
    res_simpl. apply IH; [lia|lia|]. repeat split; [lia|lia|lia|done].
Qed.

Lemma visit_dict kvs d n m :
  Forall (fun kv : string * pyval => visits kv.2) kvs ->
  n <= MAX_SCHEMA_NODES -> d <= MAX_SCHEMA_DEPTH ->
  (fix children (kvs : list (string * pyval)) (nodes : Z) : res risk_exc Z :=
     match kvs with
     | [] => Ok nodes
     | (key, child) :: kvs =>
         raise_if ref_key key && negb (local_ref child) with risk_invalid ;;
         nodes ← visit child (d + 1) nodes; children kvs nodes
     end) kvs n = Ok m <->
  m = n + foldr (fun kv k => size kv.2 + k) 0 kvs /\ m <= MAX_SCHEMA_NODES /\
  d + foldr (fun kv k => (1 + height kv.2) `max` k) 0 kvs <= MAX_SCHEMA_DEPTH /\
  forallb (fun kv => (negb (ref_key kv.1) || local_ref kv.2) && local_refs kv.2) kvs = true.
Proof.
  intros Hl. revert n. induction Hl as [|[key x] kvs Hx Hl IH]; intros n Hn Hd; cbn [foldr forallb fst snd].
  { split; [intros [= <-]; repeat split; lia|]. intros (-> & _). f_equal. lia. }
  cbn [snd] in Hx. pose proof (size_pos x). pose proof (height_nonneg x).
  assert (0 <= foldr (fun (kv : string * pyval) k => size kv.2 + k) 0 kvs).
  { clear. induction kvs as [|y l IH]; simpl; [lia|]. pose proof (size_pos y.2). lia. }
  rewrite guard_ok. replace (ref_key key && negb (local_ref x))
    with (negb (negb (ref_key key) || local_ref x)) by (by destruct (ref_key key), (local_ref x)).
  rewrite negb_false_iff. split.
  - intros [-> Ho]. bind_inv Ho. apply Hx in E as (-> & ? & ? & ->).
    apply IH in Ho as (-> & ? & ? & ->); [|lia|lia]. repeat split; lia.
  - intros (-> & ? & ? & [[-> Hr]%andb_true_iff Hr']%andb_true_iff). split; [done|].
    rewrite (proj2 (Hx (d + 1) n (n + size x))) by (repeat split; [lia|lia|done]).
    res_simpl. apply IH; [lia|lia|]. repeat split; [lia|lia|lia|done].
Qed.

Lemma visits_all v : visits v.
Proof.
  induction v as [| | | | |l IH|kvs IH] using pyval_ind; intros d n m; cbn [visit];
    rewrite !guard_ok, !Z.ltb_ge.
  1-5: cbn [size height local_refs]; split;
    [intros (? & ? & [= <-]); repeat split; lia|intros (-> & ? & ? & _); repeat split; lia].
  - cbn [size height local_refs]. split.
    + intros (? & ? & Ho). apply visit_list in Ho as (-> & ? & ? & ?); [|done|lia|lia].
      repeat split; [lia|lia|lia|done].
    + intros (-> & ? & ? & ?).
      assert (0 <= foldr (fun x k => size x + k) 0 l /\
              0 <= foldr (fun x k => (1 + height x) `max` k) 0 l) as [? ?].
      { clear. induction l as [|y l IH]; simpl; [lia|]. pose proof (size_pos y).
        pose proof (height_nonneg y). lia. }
      split; [lia|]. split; [lia|]. apply visit_list; [done|lia|lia|].
      repeat split; [lia|lia|lia|done].
  - cbn [size height local_refs]. split.
    + intros (? & ? & Ho). apply visit_dict in Ho as (-> & ? & ? & ?); [|done|lia|lia].
      repeat split; [lia|lia|lia|done].
    + intros (-> & ? & ? & ?).
      assert (0 <= foldr (fun (kv : string * pyval) k => size kv.2 + k) 0 kvs /\
              0 <= foldr (fun (kv : string * pyval) k => (1 + height kv.2) `max` k) 0 kvs) as [? ?].
      { clear. induction kvs as [|y l IH]; simpl; [lia|]. pose proof (size_pos y.2).
        pose proof (height_nonneg y.2). lia. }
      split; [lia|]. split; [lia|]. apply visit_dict; [done|lia|lia|].
      repeat split; [lia|lia|lia|done].
Qed.

(** The schema guard accepts exactly the schemas with at most 4096
    nodes, at most 64 levels of nesting and only local references. *)
Theorem schema_shape_exact v :
  validate_schema_shape v = Ok tt <->
  size v <= MAX_SCHEMA_NODES /\ height v <= MAX_SCHEMA_DEPTH /\ local_refs v = true.
Proof.
  unfold validate_schema_shape. pose proof (visits_all v 0 0) as Hv. split.
  - intros Ho. bind_inv Ho. apply Hv in E. naive_solver lia.
  - intros (? & ? & ?). rewrite (proj2 (Hv (size v))); [done|]. repeat split; [lia|lia|done].
Qed.

(** ** Pointers *)

(** RFC 6901 escaping, and the pointer of a path. *)
Fixpoint escape (s : string) : string :=
  match s with
  | EmptyString => EmptyString
  | String a s =>
      if Ascii.eqb a "~" then String "~" (String "0" (escape s))
      else if Ascii.eqb a "/" then String "~" (String "1" (escape s))
      else String a (escape s)
  end.
Fixpoint pointer_of (path : list string) : string :=
  match path with
  | [] => EmptyString
  | part :: path => String "/" (escape part ++ pointer_of path)
  end.

(** [at_path doc path v]: following [path] from [doc] leads to [v]. *)
Inductive at_path : pyval -> list string -> pyval -> Prop :=
| at_here v : at_path v [] v
| at_key d k w path v :
    dget k d = Some w -> at_path w path v -> at_path (PDict d) (k :: path) v
| at_index l (i : nat) w path v :
    l !! i = Some w -> at_path w path v ->
    at_path (PList l) (CanonicalJson.str_int (Z.of_nat i) :: path) v.

Lemma replace_other c out a s :
  a <> "~"%char -> replace_tilde c out (String a s) = String a (replace_tilde c out s).
Proof.
  intros Ha. destruct s as [|b s]; [done|]. cbn [replace_tilde].
  by rewrite (proj2 (Ascii.eqb_neq a "~"%char) Ha).
Qed.

Lemma unescape_escape s : unescape (escape s) = s.
Proof.
  unfold unescape. induction s as [|a s IH]; [done|]. cbn [escape].
  destruct (Ascii.eqb_spec a "~") as [->|Ht].
  { change (replace_tilde "1" "/" (String "~" (String "0" (escape s))))
      with (String "~" (replace_tilde "1" "/" (String "0" (escape s)))).
    rewrite (replace_other "1" "/" "0") by done.
    cbn [replace_tilde]. cbn. by rewrite IH. }
  destruct (Ascii.eqb_spec a "/") as [->|Hs].
  { change (replace_tilde "1" "/" (String "~" (String "1" (escape s))))
      with (String "/" (replace_tilde "1" "/" (escape s))).
    by rewrite replace_other, IH. }
  by rewrite !replace_other, IH.
Qed.

Lemma escape_no_slash s : str_all (fun a => negb (Ascii.eqb a "/")) (escape s) = true.
Proof.
  induction s as [|a s IH]; [done|]. cbn [escape].
  destruct (Ascii.eqb_spec a "~"); [done|]. destruct (Ascii.eqb_spec a "/"); [done|].
  cbn [str_all]. rewrite IH. by rewrite (proj2 (Ascii.eqb_neq a "/"%char)).
Qed.

Lemma split_pointer part path :
  split_on "/" (escape part ++ pointer_of path) = escape <$> (part :: path).
Proof.
  revert part. induction path as [|p path IH]; intros part; cbn [pointer_of].
  - rewrite str_app_nil_r. apply split_on_no, escape_no_slash.
  - by rewrite split_on_app, (split_on_no _ (escape part)), IH by apply escape_no_slash.
Qed.

Lemma tildes_valid_escape s t : tildes_valid t = true -> tildes_valid (escape s ++ t) = true.
Proof.
  intros Ht. induction s as [|a s IH]; [done|]. cbn [escape].
  destruct (Ascii.eqb_spec a "~"); [done|]. destruct (Ascii.eqb_spec a "/"); [done|].
  rewrite str_app_cons. cbn [tildes_valid]. by destruct (Ascii.eqb_spec a "~").
Qed.

Lemma pointer_of_valid path : pointer_syntax_is_valid (pointer_of path) = true.
Proof.
  assert (Ht : forall path, tildes_valid (pointer_of path) = true).
  { induction path0 as [|part path0 IH]; [done|]. by apply tildes_valid_escape. }
  destruct path as [|part path]; [done|]. unfold pointer_syntax_is_valid.
  rewrite (Ht (part :: path)). cbn. by destruct (_ ++ _).
Qed.

(** Decimal numerals. *)
Lemma int10_uint_acc u acc :
  int10 (NilEmpty.string_of_uint u) (Zpos acc) = Zpos (Pos.of_uint_acc u acc).
Proof.
  revert acc. induction u; intros acc; cbn [NilEmpty.string_of_uint int10 Pos.of_uint_acc]; [done|..];
    rewrite <- IHu; f_equal; cbn; lia.
Qed.

Lemma int10_uint u : int10 (NilEmpty.string_of_uint u) 0 = Z.of_N (Pos.of_uint u).
Proof.
  induction u; cbn [NilEmpty.string_of_uint int10 Pos.of_uint]; [done|done|..];
    exact (int10_uint_acc u _).
Qed.

Lemma uint_digits u : str_all is_digit (NilEmpty.string_of_uint u) = true.
Proof. induction u; done. Qed.

(** The numeral of an index is one the code accepts and reads back. *)
Lemma index_numeral i :
  let k := CanonicalJson.str_int (Z.of_nat i) in
  str_all is_digit k && non_empty k = true /\
  String.prefix "0" k && negb (String.eqb k "0") = false /\ int10 k 0 = Z.of_nat i.
Proof.
  unfold CanonicalJson.str_int. destruct i as [|i]; [done|].
  change (Z.of_nat (S i)) with (Z.pos (Pos.of_succ_nat i)). set (p := Pos.of_succ_nat i).
  change (NilZero.string_of_int (Z.to_int (Z.pos p))) with (NilZero.string_of_uint (Pos.to_uint p)).
  cbv zeta.
  assert (Hu : Z.of_N (Pos.of_uint (Pos.to_uint p)) = Z.pos p)
    by (by rewrite DecimalPos.Unsigned.of_to).
  assert (Hn : Decimal.unorm (Pos.to_uint p) = Pos.to_uint p).
  { pose proof (DecimalPos.Unsigned.to_of (Pos.to_uint p)) as Ht.
    rewrite DecimalPos.Unsigned.of_to in Ht. by rewrite <- Ht. }
  assert (Hz : forall u, Pos.to_uint p = Decimal.D0 u -> False).
  { intros u Eu. rewrite Eu in Hn. unfold Decimal.unorm in Hn. rewrite nzhead_D0 in Hn.
    destruct (Decimal.nzhead u) eqn:En; try discriminate.
    - rewrite <- Hn in Eu. rewrite Eu in Hu. by cbn in Hu.
    - by apply nzhead_nonzero in En. }
  assert (Hs : NilZero.string_of_uint (Pos.to_uint p) = NilEmpty.string_of_uint (Pos.to_uint p)).
  { by destruct (Pos.to_uint p). }
  rewrite Hs, uint_digits, int10_uint, Hu.
  destruct (Pos.to_uint p) eqn:E; try done. by edestruct Hz.
Qed.

Lemma at_path_steps doc path v :
  at_path doc path v -> foldR pointer_step path doc = Ok v.
Proof.
  induction 1 as [v|d k w path v Hk Hp IH|l i w path v Hi Hp IH]; [done|..]; cbn [foldR pointer_step].
  - by rewrite Hk.
  - destruct (index_numeral i) as (-> & -> & ->). cbn [negb orb].
    pose proof (lookup_lt_Some _ _ _ Hi). destruct (Z.leb_spec (Z.of_nat (length l)) (Z.of_nat i)); [lia|].
    by rewrite Nat2Z.id, Hi.
Qed.

(** Extractor pointers follow RFC 6901: the pointer written for a path of
    keys and array indices is accepted as syntax and resolves, in any document
    with a value at that path, to that value; the escapes for [~] and [/] and
    numeric keys of objects included. *)
Theorem pointer_resolves doc path v :
  at_path doc path v ->
  pointer_syntax_is_valid (pointer_of path) = true /\ json_pointer doc (pointer_of path) = Ok v.
Proof.
  intros Hp. split; [apply pointer_of_valid|]. apply at_path_steps in Hp as <-.
  destruct path as [|part path]; [done|]. cbn [pointer_of json_pointer Ascii.eqb].
  rewrite split_pointer. change (negb (Ascii.eqb "/" "/")) with false. cbn [negb].
  generalize (part :: path). clear. intros l. revert doc.
  induction l as [|p l IH]; intros doc; [done|]. rewrite fmap_cons. cbn [foldR].
  rewrite unescape_escape. destruct (pointer_step p doc); [apply IH|done].
Qed.

(** ** The normalised policy *)

Lemma require_string_fix v n s : require_string v n = Ok s -> require_string (PStr s) n = Ok s.
Proof.
  destruct v as [| | | |t| |]; try discriminate. cbn [require_string].
  rewrite !guard_ok. intros (Hne & Hlen & [= <-]). by rewrite py_strip_idem, Hne, Hlen.
Qed.

Lemma require_risk_int_ok v z :
  require_risk_int v = Ok z <-> v = PInt z /\ 0 <= z <= MAX_RISK_VALUE.
Proof.
  destruct v; cbn; try (split; [discriminate|by intros [? ?]]). rewrite guard_ok.
  split; [intros [? [= <-]]; split; [done|lia]|intros [[= <-] ?]; split; [lia|done]].
Qed.

Lemma validate_fact_fix fact v x :
  validate_fact fact v = Ok x -> validate_fact fact (fact_pyval x) = Ok x.
Proof.
  unfold validate_fact. destruct (numeric fact).
  - destruct (require_risk_int v) as [z|] eqn:E; [|done]. intros [= <-].
    apply require_risk_int_ok in E as [-> Hz]. cbn [fact_pyval].
    by rewrite (proj2 (require_risk_int_ok (PInt z) z)).
  - destruct (dget fact _) as [levels|]; [|done]. destruct v; try done.
    rewrite guard_ok. intros [Hs [= <-]]. cbn. by rewrite Hs.
Qed.

(** A fact value that [validate_fact] accepts. *)
Definition fact_ok (kv : string * fact_value) : Prop :=
  str_in kv.1 ALL_RISK_FACTS = true /\ validate_fact kv.1 (fact_pyval kv.2) = Ok kv.2.

Record tool_wf (kv : string * tool_policy) : Prop := {
  tw_name : require_string (PStr kv.1) 256 = Ok kv.1;
  tw_digest : contract_digest_of (PStr (contract_digest kv.2)) = Ok (contract_digest kv.2);
  tw_nonempty : max_facts kv.2 <> [];
  tw_facts : Forall fact_ok (max_facts kv.2)
}.

Definition ceiling_wf (kv : string * per_scope Z) : Prop :=
  numeric kv.1 = true /\ forall s, 0 <= at_scope kv.2 s <= MAX_RISK_VALUE.

(** What the normaliser produces. *)
Record risk_wf (p : risk_policy) : Prop := {
  rw_lineage : require_string (PStr (rp_lineage_id p)) 256 = Ok (rp_lineage_id p);
  rw_nonempty : rp_tools p <> [];
  rw_nodup : NoDup (dkeys (rp_tools p));
  rw_tools : Forall tool_wf (rp_tools p);
  rw_ceilings : Forall ceiling_wf (rp_ceilings p);
  rw_covered : same_set (dkeys (rp_ceilings p)) (numeric_facts (rp_tools p)) = true
}.

Lemma contract_digest_of_fix v d :
  contract_digest_of v = Ok d -> contract_digest_of (PStr d) = Ok d.
Proof.
  unfold contract_digest_of. intros Ho. bind_inv Ho.
  rewrite !guard_ok in Ho. destruct Ho as (H1 & H2 & H3 & [= <-]).
  rewrite (require_string_fix _ _ _ E). res_simpl. by rewrite H1, H2, H3.
Qed.

Lemma caps_of_ok v caps : caps_of v = Ok caps -> caps <> [] /\ Forall fact_ok caps.
Proof.
  unfold caps_of. intros Ho. bind_inv Ho. rewrite guard_ok in Ho.
  destruct Ho as [[Hl Hk]%orb_false_iff Ho]. split.
  - intros ->. apply mapR_Forall2 in Ho. inversion Ho; subst. done.
  - apply Forall_forall. intros kv Hkv. destruct (mapR_out _ _ _ _ Ho Hkv) as ([k raw] & Hf & Hin).
    bind_inv Hf. injection Hf as <-. split; cbn [fst snd] in *; [|by eapply validate_fact_fix].
    destruct (str_in k ALL_RISK_FACTS) eqn:Ek; [done|].
    assert (existsb (fun kv => negb (str_in kv.1 ALL_RISK_FACTS)) x = true) as Hx; [|congruence].
    apply existsb_exists. exists (k, raw). split; [by apply list_elem_of_In|]. cbn [fst]. by rewrite Ek.
Qed.

Lemma caps_of_dict caps : caps <> [] -> Forall fact_ok caps ->
  caps_of (PDict (prod_map id fact_pyval <$> caps)) = Ok caps.
Proof.
  intros Hne Hf. unfold caps_of, require_object. res_simpl. rewrite guard_ok. split.
  - apply orb_false_iff. split; [by destruct caps|]. clear Hne.
    induction Hf as [|[k v] caps [Hk _] Hf IH]; [done|]. rewrite fmap_cons. cbn [existsb fst prod_map].
    cbn [fst id] in *. by rewrite IH, Hk.
  - apply mapR_Forall2. clear Hne. induction Hf as [|[k v] caps [_ Hv] Hf IH]; constructor; [|done].
    cbn [fst snd prod_map id] in *. by rewrite Hv.
Qed.

Lemma tool_policy_of_dict t :
  contract_digest_of (PStr (contract_digest t)) = Ok (contract_digest t) ->
  max_facts t <> [] -> Forall fact_ok (max_facts t) ->
  tool_policy_of (tool_policy_dict t) = Ok t.
Proof.
  intros Hd Hne Hf. unfold tool_policy_of, tool_policy_dict, require_object. res_simpl.
  change (negb (same_set _ _)) with false. cbn [negb].
  change (py_get "contract_digest" _) with (PStr (contract_digest t)).
  change (py_get "max_facts" _) with (PDict (prod_map id fact_pyval <$> max_facts t)).
  rewrite Hd. res_simpl. rewrite caps_of_dict by done. by destruct t.
Qed.

Lemma tools_of_wf raw acc r :
  Forall tool_wf acc -> NoDup (dkeys acc) ->
  foldR (fun kv tools =>
           name ← require_string (PStr kv.1) 256;
           raise_if has_key name tools with risk_invalid ;;
           pol ← tool_policy_of kv.2;
           Ok (tools ++ [(name, pol)])%list) raw acc = Ok r ->
  Forall tool_wf r /\ NoDup (dkeys r) /\ length r = (length acc + length raw)%nat.
Proof.
  revert acc. induction raw as [|[k v] raw IH]; intros acc Hw Hn Ho.
  { injection Ho as <-. rewrite Nat.add_0_r. done. }
  cbn [foldR] in Ho. bind_inv Ho. bind_inv E. rewrite guard_ok in E. destruct E as [Hk E].
  bind_inv E. injection E as <-. rename x0 into name, x1 into pol.
  apply IH in Ho as (? & ? & ->).
  - split; [done|]. split; [done|]. rewrite length_app. cbn. lia.
  - apply Forall_app. split; [done|]. apply Forall_singleton.
    unfold tool_policy_of in E1. bind_inv E1. rewrite guard_ok in E1. destruct E1 as [_ E1].
    bind_inv E1. bind_inv E1. injection E1 as <-. destruct (caps_of_ok _ _ E3).
    constructor; [by eapply require_string_fix|by eapply contract_digest_of_fix|done|done].
  - unfold dkeys. rewrite fmap_app. apply NoDup_app. split; [done|]. split.
    + intros y Hy ->%list_elem_of_singleton. apply str_in_false in Hk. done.
    + apply NoDup_singleton.
Qed.

Lemma tools_of_dict tools acc :
  Forall tool_wf tools -> NoDup (dkeys (acc ++ tools)%list) ->
  foldR (fun kv tools =>
           name ← require_string (PStr kv.1) 256;
           raise_if has_key name tools with risk_invalid ;;
           pol ← tool_policy_of kv.2;
           Ok (tools ++ [(name, pol)])%list) (prod_map id tool_policy_dict <$> tools) acc
  = Ok (acc ++ tools)%list.
Proof.
  intros Hw. revert acc. induction Hw as [|[k t] tools [Hk Hd Hne Hf] Hw IH]; intros acc Hn.
  { cbn. by rewrite app_nil_r. }
  cbn [fst snd] in *. rewrite fmap_cons. cbn [foldR prod_map fst snd id]. rewrite Hk. res_simpl.
  assert (Hnew : has_key k acc = false).
  { unfold dkeys in Hn. rewrite fmap_app, NoDup_app in Hn. destruct Hn as (_ & Hx & _).
    apply str_in_false. intros Hi. apply (Hx k Hi). set_solver. }
  rewrite Hnew, tool_policy_of_dict by done. res_simpl. rewrite IH; by rewrite <- app_assoc.
Qed.

Lemma ceiling_of_ok kv r : ceiling_of kv = Ok r -> ceiling_wf r.
Proof.
  unfold ceiling_of. rewrite guard_ok. intros [Hn Ho]. bind_inv Ho. rewrite guard_ok in Ho.
  destruct Ho as [_ Ho]. do 3 bind_inv Ho. injection Ho as <-.
  apply require_risk_int_ok in E0 as [_ ?], E1 as [_ ?], E2 as [_ ?].
  split; [by apply negb_false_iff in Hn|by intros []].
Qed.

Lemma ceiling_of_dict kv : ceiling_wf kv -> ceiling_of (prod_map id scope_dict kv) = Ok kv.
Proof.
  destruct kv as [k [s a l]]. intros [Hn Hb]. unfold ceiling_of. cbn [prod_map fst snd id] in *.
  rewrite Hn. cbn [negb require_object scope_dict]. res_simpl.
  change (negb (same_set _ _)) with false. cbn [negb].
  change (py_get "session" _) with (PInt s). change (py_get "agent" _) with (PInt a).
  change (py_get "lineage" _) with (PInt l).
  pose proof (Hb Session). pose proof (Hb Agent). pose proof (Hb Lineage). cbn [at_scope session agent lineage] in *.
  by rewrite !(proj2 (require_risk_int_ok _ _)) by done.
Qed.

Lemma normalize_risk_wf v l p : normalize_risk_budget v l = Ok p -> risk_wf p.
Proof.
  unfold normalize_risk_budget. intros Ho. bind_inv Ho. rewrite !guard_ok in Ho.
  destruct Ho as (_ & _ & Ho). do 3 bind_inv Ho. rewrite guard_ok in Ho. destruct Ho as [Hne Ho].
  do 2 bind_inv Ho. rewrite guard_ok in Ho. destruct Ho as [Hc [= <-]].
  destruct (tools_of_wf _ _ _ (Forall_nil_2 _) (NoDup_nil_2) E3) as (Hw & Hn & Hl).
  constructor; cbn [rp_lineage_id rp_tools rp_ceilings]; try done.
  - by eapply require_string_fix.
  - intros ->. cbn in Hl. rewrite <- Hl in Hne. done.
  - apply Forall_forall. intros kv Hkv. destruct (mapR_out _ _ _ _ E4 Hkv) as (y & Hy & _).
    by eapply ceiling_of_ok.
  - by apply negb_false_iff in Hc.
Qed.

Lemma normalize_risk_dict p :
  risk_wf p -> normalize_risk_budget (PDict (risk_policy_dict p)) None = Ok p.
Proof.
  intros [Hl Hne Hn Ht Hc Hs]. unfold normalize_risk_budget, require_object. res_simpl.
  change (negb (subset_b _ _)) with false. cbn [negb].
  change (py_get "version" _) with (PInt RISK_BUDGET_VERSION).
  change (negb (py_eq_int _ _)) with false. cbn [negb].
  change (py_get "lineage_id" _) with (PStr (rp_lineage_id p)). rewrite Hl. res_simpl.
  change (py_get "tools" _) with (PDict (prod_map id tool_policy_dict <$> rp_tools p)).
  change (py_get "ceilings" _) with (PDict (prod_map id scope_dict <$> rp_ceilings p)). res_simpl.
  rewrite length_fmap. destruct (length (rp_tools p) =? 0)%nat eqn:E0.
  { apply Nat.eqb_eq, nil_length_inv in E0. done. }
  unfold tools_of. rewrite (tools_of_dict (rp_tools p) []) by done. res_simpl.
  assert (Hm : mapR ceiling_of (prod_map id scope_dict <$> rp_ceilings p) = Ok (rp_ceilings p)).
  { apply mapR_Forall2, Forall2_fmap_l. clear -Hc. induction Hc as [|x l Hx Hc IH]; constructor; [|done].
    by apply ceiling_of_dict. }
  rewrite Hm. res_simpl. cbn [app]. rewrite Hs. by destruct p.
Qed.

(** Normalising a risk claim is idempotent: the dictionary a normalised
    claim is written back as normalises to the same policy, and a normalised
    policy only has validated caps, distinct tools and ceilings within
    [0, 2^63 - 1] for exactly the numeric facts its tools cap. *)
Theorem normalize_risk_idempotent v l p :
  normalize_risk_budget v l = Ok p ->
  normalize_risk_budget (PDict (risk_policy_dict p)) None = Ok p /\ risk_wf p.
Proof.
  intros Hp%normalize_risk_wf. split; [by apply normalize_risk_dict|done].
Qed.

(** ** Caps, attenuation and projection *)

Lemma validate_fact_id fact v x : validate_fact fact (fact_pyval v) = Ok x -> x = v.
Proof.
  unfold validate_fact. destruct (numeric fact).
  - destruct v; cbn -[require_risk_int]; [|done].
    destruct (require_risk_int (PInt z)) eqn:E; [|done]. apply require_risk_int_ok in E as [[= ->] _].
    by intros [= <-].
  - destruct (dget fact _) as [levels|]; [|done]. destruct v; cbn; [done|].
    rewrite guard_ok. by intros [_ [= <-]].
Qed.

(** A fact passes under a cap: it is valid, known, and ranks no higher. *)
Definition under_cap (caps : list (string * fact_value)) (kv : string * fact_value) : Prop :=
  validate_fact kv.1 (fact_pyval kv.2) = Ok kv.2 /\ kv.2 <> FLevel "unknown" /\
  exists cap v c, dget kv.1 caps = Some cap /\ rank kv.1 kv.2 = Ok v /\ rank kv.1 cap = Ok c /\ v <= c.

(** The numeric facts of a list of facts. *)
Definition numeric_part (kv : string * fact_value) : option (string * Z) :=
  match kv.2 with FInt z => Some (kv.1, z) | FLevel _ => None end.

Lemma check_fact_ok caps kv r :
  check_fact caps kv = Ok r <-> under_cap caps kv /\ r = numeric_part kv.
Proof.
  destruct kv as [fact v]. unfold check_fact, under_cap, rank, subscript, numeric_part. cbn [fst snd].
  assert (Hk : forall x, validate_fact fact (fact_pyval v) = Ok x -> x = v /\
    (numeric fact = true -> exists z, v = FInt z) /\ (numeric fact = false -> exists l, v = FLevel l)).
  { intros x Hx. pose proof (validate_fact_id _ _ _ Hx). subst x. split; [done|].
    unfold validate_fact in Hx. destruct (numeric fact).
    - destruct v; [split; [by eexists|done]|]. done.
    - split; [done|]. intros _. destruct (dget fact _); [|done]. destruct v; [done|by eexists]. }
  destruct (validate_fact fact (fact_pyval v)) as [x|e]; res_simpl; [|naive_solver].
  destruct (Hk x eq_refl) as (-> & Hnum & Hcat). clear Hk.
  destruct (dget fact caps) as [cap|]; res_simpl; [|naive_solver].
  destruct (numeric fact).
  - destruct (Hnum eq_refl) as [z ->]. cbn [int_of_fact]. res_simpl.
    destruct (int_of_fact cap) as [c|] eqn:Ec; res_simpl.
    2: { split; [done|]. intros ((_ & _ & ? & ? & ? & [= <-] & _ & ? & _) & _). congruence. }
    rewrite guard_ok, Z.ltb_ge. split.
    + intros [Hle [= <-]]. repeat split; [done|]. exists cap, z, c. done.
    + intros ((_ & _ & ? & ? & ? & [= <-] & [= <-] & Hc & Hle) & ->). split; [|done]. congruence.
  - destruct (Hcat eq_refl) as [l ->]. rewrite guard_ok, bool_decide_eq_false.
    destruct (level_of fact (FLevel l)) as [i|] eqn:El; res_simpl.
    2: { split; [by intros [_ ?]|]. by intros ((_ & _ & ? & ? & ? & _ & ? & _) & _). }
    destruct (level_of fact cap) as [c|] eqn:Ec; res_simpl.
    2: { split; [by intros [_ ?]|].
         intros ((_ & _ & ? & ? & ? & [= <-] & _ & ? & _) & _). congruence. }
    rewrite guard_ok, Z.ltb_ge. split.
    + intros (Hu & Hle & [= <-]). repeat split; [done|]. by exists cap, i, c.
    + intros ((_ & Hu & ? & ? & ? & [= <-] & Hr & Hr' & Hle) & ->). split; [done|]. split; [|done]. congruence.
Qed.

Lemma check_facts_ok caps facts n :
  (numbers ← mapR (check_fact caps) facts; Ok (somes numbers)) = Ok n <->
  Forall (under_cap caps) facts /\ n = omap numeric_part facts.
Proof.
  assert (Hm : forall r, mapR (check_fact caps) facts = Ok r <->
    Forall (under_cap caps) facts /\ r = numeric_part <$> facts).
  { intros r. rewrite mapR_Forall2. split.
    - induction 1 as [|x y l r Hx Hf [IH ->]]; [done|]. apply check_fact_ok in Hx as [? ->].
      split; [by constructor|done].
    - intros [Hf ->]. induction Hf; constructor; [|done]. by apply check_fact_ok. }
  assert (Ho : somes (numeric_part <$> facts) = omap numeric_part facts).
  { clear. unfold somes. induction facts as [|x l IH]; [done|]. cbn. by rewrite IH. }
  split.
  - intros Hx. bind_inv Hx. apply Hm in E as [? ->]. injection Hx as <-. by rewrite Ho.
  - intros [Hf ->]. rewrite (proj2 (Hm _) (conj Hf eq_refl)). res_simpl. by rewrite Ho.
Qed.

(** The per-action check is exact: it returns, and returns the numeric
    facts, iff the policy covers the tool under this very contract, the facts
    are exactly the contract's and the policy's, and every fact is valid,
    known, and within its cap. *)
Theorem action_check_exact policy P contract facts n :
  normalize_risk_budget policy None = Ok P ->
  validate_action_risk policy contract facts = Ok n <->
  exists t, dget (tool_name contract) (rp_tools P) = Some t /\
    contract_digest t = digest contract /\
    (forall f, f ∈ dkeys facts <-> f ∈ mandatory_facts contract) /\
    (forall f, f ∈ dkeys (max_facts t) <-> f ∈ dkeys facts) /\
    Forall (under_cap (max_facts t)) facts /\ n = omap numeric_part facts.
Proof.
  intros HP. unfold validate_action_risk. rewrite HP. res_simpl. unfold check_action.
  destruct (dget _ _) as [t|]; [|naive_solver].
  rewrite !guard_ok, !negb_false_iff, String.eqb_eq, !same_set_spec, check_facts_ok.
  split; [intros ?; exists t; naive_solver|]. intros (? & [= <-] & ?). naive_solver.
Qed.

Lemma check_tool_caps parents kv f v :
  check_tool parents kv = Ok tt -> under_cap (max_facts kv.2) (f, v) ->
  exists t, dget kv.1 parents = Some t /\ under_cap (max_facts t) (f, v).
Proof.
  unfold check_tool, subscript. intros Ho. bind_inv Ho. destruct (dget kv.1 parents) as [t|]; [|done].
  injection E as <-. rewrite !guard_ok in Ho. destruct Ho as (_ & _ & Ho).
  intros (Hv & Hu & cap & a & c & Hd & Ha & Hc & Hle). exists t. split; [done|].
  split; [done|]. split; [done|]. cbn [fst snd] in *.
  rewrite iterR_ok in Ho. specialize (Ho (f, cap) (dget_elem _ _ _ Hd)). cbn beta iota in Ho.
  destruct (dget f (max_facts t)) as [pcap|]; [|done]. cbn [mbind res_bind] in Ho. rewrite Hc in Ho.
  apply bind_ok in Ho as (x & [= <-] & Ho). apply bind_ok in Ho as (pc & Hpc & Ho).
  rewrite guard_ok, Z.ltb_ge in Ho. exists pcap, a, pc. repeat split; [done..|lia].
Qed.

Lemma check_tool_same parents kv :
  check_tool parents kv = Ok tt ->
  exists t, dget kv.1 parents = Some t /\ contract_digest t = contract_digest kv.2 /\
    forall f, f ∈ dkeys (max_facts t) <-> f ∈ dkeys (max_facts kv.2).
Proof.
  unfold check_tool, subscript. intros Ho. bind_inv Ho. destruct (dget kv.1 parents) as [t|]; [|done].
  injection E as <-. rewrite !guard_ok, !negb_false_iff, String.eqb_eq, same_set_spec in Ho.
  exists t. naive_solver.
Qed.

(** What attenuation checked of a child it returned. *)
Record narrower (p c : risk_policy) : Prop := {
  na_lineage : rp_lineage_id c = rp_lineage_id p;
  na_tools : forall kv, kv ∈ rp_tools c -> check_tool (rp_tools p) kv = Ok tt;
  na_ceilings : forall f b, dget f (rp_ceilings c) = Some b ->
    exists b', dget f (rp_ceilings p) = Some b' /\ forall s, at_scope b s <= at_scope b' s
}.

Lemma attenuate_narrower parent child c :
  attenuate_risk_budget parent (Some child) = Ok c ->
  exists p, normalize_risk_budget parent None = Ok p /\ risk_wf c /\ narrower p c.
Proof.
  unfold attenuate_risk_budget. intros Ho. bind_inv Ho. rename x into p. exists p. split; [done|].
  rewrite guard_ok in Ho. destruct Ho as [_ Ho]. bind_inv Ho.
  rewrite !guard_ok, negb_false_iff, String.eqb_eq in Ho. destruct Ho as (Hl & _ & Ho).
  rewrite bind_unit_ok, guard_ok, bind_unit_ok in Ho. destruct Ho as (Ht & _ & Hc & [= ->]).
  split; [by eapply normalize_risk_wf|]. constructor; [done|by apply iterR_ok|].
  intros f b Hb. rewrite iterR_ok in Hc. specialize (Hc (f, b) (dget_elem _ _ _ Hb)).
  unfold check_ceiling, subscript in Hc. cbn [fst snd] in Hc. rewrite iterR_ok in Hc.
  destruct (dget f (rp_ceilings p)) as [b'|].
  - exists b'. split; [done|]. intros s.
    assert (Hs : s ∈ SCOPES) by (destruct s; set_solver).
    specialize (Hc s Hs). cbn in Hc. rewrite guard_ok, Z.ltb_ge in Hc. lia.
  - assert (Hs : Session ∈ SCOPES) by set_solver. by specialize (Hc Session Hs).
Qed.

(** A narrower policy admits fewer actions, at the same charge. *)
Lemma narrower_check_action p c contract facts n :
  narrower p c -> check_action c contract facts = Ok n -> check_action p contract facts = Ok n.
Proof.
  intros [_ Ht _]. unfold check_action. destruct (dget _ (rp_tools c)) as [t|] eqn:Et; [|done].
  specialize (Ht _ (dget_elem _ _ _ Et)). destruct (check_tool_same _ _ Ht) as (t' & Et' & Hd & Hf).
  cbn [fst snd] in *. rewrite Et'.
  rewrite !guard_ok, !negb_false_iff, !String.eqb_eq, !same_set_spec, !check_facts_ok.
  intros (Hdg & Hm & Hs & Hcap & ->). repeat split; [congruence|apply Hm|apply Hm|set_solver|set_solver|].
  eapply Forall_impl; [done|]. intros [f v] Hu.
  destruct (check_tool_caps _ _ _ _ Ht Hu) as (t2 & Et2 & ?). cbn [fst] in *. by simplify_eq.
Qed.

(** Attenuation never broadens: every action the child policy admits
    the parent policy admits with the same numeric charge, and each ceiling of
    the child is at most the parent's at every scope, in the same lineage. *)
Theorem attenuation_sound parent child c :
  attenuate_risk_budget parent child = Ok c ->
  (forall contract facts n,
     validate_action_risk (PDict (risk_policy_dict c)) contract facts = Ok n ->
     validate_action_risk parent contract facts = Ok n) /\
  exists p, normalize_risk_budget parent None = Ok p /\ rp_lineage_id c = rp_lineage_id p /\
    forall f b, dget f (rp_ceilings c) = Some b ->
      exists b', dget f (rp_ceilings p) = Some b' /\ forall s, at_scope b s <= at_scope b' s.
Proof.
  destruct child as [child|]; intros Ho.
  2: { cbn in Ho. bind_inv Ho. injection Ho as ->. split.
       - unfold validate_action_risk. rewrite E, normalize_risk_dict by (by eapply normalize_risk_wf).
         done.
       - exists c. repeat split; [done|]. intros f b Hb. exists b. split; [done|lia]. }
  apply attenuate_narrower in Ho as (p & Hp & Hw & Hn). split; [|exists p; by destruct Hn].
  intros contract facts n. unfold validate_action_risk. rewrite Hp, normalize_risk_dict by done.
  by apply narrower_check_action.
Qed.

Lemma numeric_facts_spec tools f :
  f ∈ numeric_facts tools <->
  exists t, t ∈ tools /\ f ∈ dkeys (max_facts t.2) /\ numeric f = true.
Proof.
  unfold numeric_facts. rewrite list_elem_of_bind. split.
  - intros (t & [Hn Hf]%list_elem_of_filter & Ht). exists t. split; [done|]. split; [done|].
    by apply Is_true_true.
  - intros (t & Ht & Hf & Hn). exists t. split; [|done]. apply list_elem_of_filter.
    split; [by apply Is_true_true|done].
Qed.

Lemma filter_sub {A} (q : A -> bool) (l : list A) x : x ∈ filter q l <-> q x = true /\ x ∈ l.
Proof. rewrite list_elem_of_filter. by rewrite Is_true_true. Qed.

Lemma NoDup_keys_filter {A} (q : string * A -> bool) d :
  NoDup (dkeys d) -> NoDup (dkeys (filter q d)).
Proof.
  induction d as [|[k v] d IH]; [done|]. rewrite dkeys_cons. intros [Hk Hd]%NoDup_cons.
  rewrite filter_cons. case_decide; [|by apply IH]. rewrite dkeys_cons. apply NoDup_cons.
  split; [|by apply IH]. intros Hi. apply Hk. apply list_elem_of_fmap in Hi as ([k' v'] & -> & Hi).
  apply filter_sub in Hi as [_ Hi]. apply list_elem_of_fmap. by exists (k', v').
Qed.

Lemma dget_filter {A} (q : string -> bool) k (d : list (string * A)) :
  dget k (filter (fun kv => q kv.1) d) = if q k then dget k d else None.
Proof.
  induction d as [|[k' v] d IH]; [by destruct (q k)|]. rewrite filter_cons. cbn [fst dget].
  destruct (q k') eqn:E; [rewrite decide_True by (cbn; tauto)
    |rewrite decide_False by (cbn; tauto)]; cbn [dget fst];
    destruct (String.eqb_spec k k') as [->|]; rewrite ?IH; by rewrite ?E.
Qed.

(** What is projected: the policy itself, on fewer tools. *)
Definition projected (P : risk_policy) (allowed : list string) : risk_policy :=
  let tools := filter (fun t => str_in t.1 allowed) (rp_tools P) in
  RiskPol (rp_lineage_id P) tools
    (filter (fun c => str_in c.1 (numeric_facts tools)) (rp_ceilings P)).

Lemma projected_wf P allowed :
  risk_wf P -> rp_tools (projected P allowed) <> [] -> risk_wf (projected P allowed).
Proof.
  intros [Hl _ Hn Ht Hc Hs] Hne. constructor; cbn [rp_lineage_id rp_tools rp_ceilings projected] in *; try done.
  - by apply NoDup_keys_filter.
  - apply Forall_forall. intros t [_ Hi]%filter_sub. by eapply Forall_forall in Ht.
  - apply Forall_forall. intros t [_ Hi]%filter_sub. by eapply Forall_forall in Hc.
  - apply same_set_spec. rewrite same_set_spec in Hs. intros f. set (tools := filter _ (rp_tools P)).
    rewrite <- dget_is_Some, (dget_filter (fun f => str_in f (numeric_facts tools))).
    destruct (str_in f (numeric_facts tools)) eqn:E.
    + apply str_in_spec in E. rewrite dget_is_Some, Hs. split; [done|]. intros _.
      rewrite numeric_facts_spec in *. destruct E as (t & [_ Hi]%filter_sub & Hf). by exists t.
    + apply str_in_false in E. split; [by intros []|done].
Qed.

Lemma project_ok policy allowed p :
  project_risk_budget policy allowed = Ok (Some p) ->
  exists P, normalize_risk_budget policy None = Ok P /\ p = projected P allowed /\ risk_wf p.
Proof.
  unfold project_risk_budget. intros Ho. apply bind_ok in Ho as (P & HP & Ho). exists P. split; [done|].
  pose proof (normalize_risk_wf _ _ _ HP) as Hw.
  destruct (length _ =? 0)%nat eqn:E0; [done|]. apply bind_ok in Ho as (q & Hq & [= ->]).
  fold (projected P allowed) in Hq. rewrite normalize_risk_dict in Hq.
  - injection Hq as <-. split; [done|]. apply projected_wf; [done|].
    intros E. unfold projected in E. cbn [rp_tools] in E. rewrite E in E0. done.
  - apply projected_wf; [done|]. intros E. unfold projected in E. cbn [rp_tools] in E. rewrite E in E0. done.
Qed.

Lemma project_none policy allowed :
  project_risk_budget policy allowed = Ok None ->
  exists P, normalize_risk_budget policy None = Ok P /\
    forall t, t ∈ dkeys (rp_tools P) -> t ∉ allowed.
Proof.
  unfold project_risk_budget. intros Ho. apply bind_ok in Ho as (P & HP & Ho). exists P. split; [done|].
  destruct (length _ =? 0)%nat eqn:E0; [|by apply bind_ok in Ho as (? & _ & ?)].
  apply Nat.eqb_eq, nil_length_inv in E0. intros t (kv & -> & Hi)%list_elem_of_fmap Ha%str_in_spec.
  assert (Hx : kv ∈ filter (fun t => str_in t.1 allowed) (rp_tools P)) by (by apply filter_sub).
  rewrite E0 in Hx. by apply elem_of_nil in Hx.
Qed.

(** A projected policy decides an action on a retained tool as the original. *)
Lemma projected_check_action P allowed contract facts n :
  check_action (projected P allowed) contract facts = Ok n -> check_action P contract facts = Ok n.
Proof.
  unfold check_action, projected. cbn [rp_tools]. rewrite (dget_filter (fun t => str_in t allowed)).
  by destruct (str_in _ allowed).
Qed.

Lemma projected_ceiling P allowed f b :
  dget f (rp_ceilings (projected P allowed)) = Some b -> dget f (rp_ceilings P) = Some b.
Proof.
  unfold projected. cbn [rp_ceilings]. rewrite (dget_filter (fun f => str_in f _)). by destruct (str_in f _).
Qed.

(** Projection onto retained tools is exact and total: a policy that
    normalises always projects; to nothing when no governed tool is retained,
    and otherwise to a policy that keeps each retained tool's caps, drops the
    others, and keeps the ceiling of every numeric fact a retained tool has. *)
Theorem projection_exact policy P allowed :
  normalize_risk_budget policy None = Ok P ->
  ((forall t, t ∈ dkeys (rp_tools P) -> t ∉ allowed) ->
     project_risk_budget policy allowed = Ok None) /\
  (forall tool, tool ∈ dkeys (rp_tools P) -> tool ∈ allowed ->
     exists p, project_risk_budget policy allowed = Ok (Some p) /\ risk_wf p /\
       rp_lineage_id p = rp_lineage_id P /\
       (forall t, dget t (rp_tools p) = if str_in t allowed then dget t (rp_tools P) else None) /\
       (forall t pol f, dget t (rp_tools p) = Some pol -> f ∈ dkeys (max_facts pol) ->
          numeric f = true ->
          is_Some (dget f (rp_ceilings p)) /\ dget f (rp_ceilings p) = dget f (rp_ceilings P))).
Proof.
  intros HP. pose proof (normalize_risk_wf _ _ _ HP) as Hw.
  unfold project_risk_budget. rewrite HP. res_simpl. split.
  - intros Hnone. replace (filter _ (rp_tools P)) with (@nil (string * tool_policy)); [done|].
    symmetry. apply elem_of_nil_inv. intros t [Ha%str_in_spec Hi]%filter_sub.
    apply (Hnone t.1); [|done]. apply list_elem_of_fmap. by exists t.
  - intros tool Hi Ha. apply dget_is_Some in Hi as [pol Hpol].
    assert (Hget : forall t, dget t (rp_tools (projected P allowed)) =
      if str_in t allowed then dget t (rp_tools P) else None)
      by (intros; apply (dget_filter (fun t => str_in t allowed))).
    assert (Hne : rp_tools (projected P allowed) <> []).
    { intros E. specialize (Hget tool). rewrite E, (proj2 (str_in_spec _ _) Ha), Hpol in Hget. done. }
    destruct (length _ =? 0)%nat eqn:E0; [apply Nat.eqb_eq, nil_length_inv in E0; done|].
    pose proof (projected_wf P allowed Hw Hne) as Hpw. exists (projected P allowed).
    fold (projected P allowed). rewrite (normalize_risk_dict (projected P allowed)) by done.
    split; [done|]. split; [done|]. split; [done|]. split; [done|].
    intros t pl f Ht Hf Hn. split.
    + apply dget_is_Some. destruct Hpw as [_ _ _ _ _ Hs]. rewrite same_set_spec in Hs. apply Hs.
      apply numeric_facts_spec. eexists. split; [by eapply dget_elem|done].
    + cbn [rp_ceilings projected]. rewrite (dget_filter (fun f => str_in f _)).
      rewrite (proj2 (str_in_spec _ _)); [done|]. apply numeric_facts_spec.
      eexists. split; [by eapply dget_elem|done].
Qed.

(** ** Extraction *)

Section Extraction.
Context `{Digests, JsonSchema}.

(** Extraction is complete and typed: facts are returned for exactly the
    mandatory facts, in order; each is the contract's constant or the value at
    its pointer (the length, for an array), and each is in its fact's domain. *)
Theorem extract_exact c args facts :
  extract c args = Ok facts ->
  dkeys facts = mandatory_facts c /\
  Forall2 (fun x kv => kv.1 = x.1 /\ validate_fact kv.1 (fact_pyval kv.2) = Ok kv.2 /\
    match x.2 with
    | XConstant v => kv.2 = v
    | XInteger p | XEnum p => json_pointer args p = Ok (fact_pyval kv.2)
    | XArrayLength p => exists l, json_pointer args p = Ok (PList l) /\
                                  kv.2 = FInt (Z.of_nat (length l))
    end) (extractors c) facts.
Proof.
  unfold extract. destruct args; try done. rewrite !guard_ok. intros (_ & _ & Ho). split.
  - eapply (mapR_keys (fun '(fact, x) => _)); [|exact Ho]. intros [f x] y Hy. cbn in Hy.
    do 2 bind_inv Hy. by injection Hy as <-.
  - apply mapR_Forall2 in Ho. eapply Forall2_impl; [exact Ho|]. intros [f x] kv Hx. cbn beta iota in Hx.
    bind_inv Hx. bind_inv Hx. injection Hx as <-. cbn [fst snd].
    pose proof (validate_fact_fix _ _ _ E0) as Hf. split; [done|]. split; [done|].
    destruct x as [v|p|p|p]; cbn [extract_raw] in E.
    + injection E as <-. by apply validate_fact_id in E0.
    + bind_inv E. rewrite E1. destruct x; try done. injection E as <-.
      by apply (validate_fact_id f (FInt _)) in E0 as ->.
    + bind_inv E. rewrite E1. destruct x; try done. injection E as <-. exists l.
      split; [done|]. by apply (validate_fact_id f (FInt _)) in E0.
    + bind_inv E. rewrite E1. destruct x; try done. injection E as <-.
      by apply (validate_fact_id f (FLevel _)) in E0 as ->.
Qed.
End Extraction.

(** ** Concrete instances *)

Module Demo.
#[local] Existing Instance demo_digests.
#[local] Instance demo_schema : JsonSchema := {|
  check_schema v := match v with PDict _ => true | _ => false end;
  schema_validates _ v := match v with PDict _ => true | _ => false end
|}.

Definition args : pyval :=
  PDict [("paths", PList [PStr "a"; PStr "b"]); ("a/b~c", PDict [("0", PInt 7)]);
         ("dest", PStr "local")].

Lemma pointer_resolves_witness : json_pointer args "/a~1b~0c/0" = Ok (PInt 7).
Proof.
  apply (pointer_resolves args ["a/b~c"; "0"] (PInt 7)).
  apply (at_key _ _ (PDict [("0", PInt 7)])); [reflexivity|].
  apply (at_key _ _ (PInt 7)); [reflexivity|]. apply at_here.
Defined.

Definition hex64 : string := "0123456789abcdef0123456789abcdef0123456789abcdef0123456789abcdef".
Definition claim (objects ceiling : Z) : list (string * pyval) :=
  [("version", PInt 1); ("lineage_id", PStr "root");
   ("tools", PDict [(" rm ", PDict [("contract_digest", PStr ("sha256:" ++ hex64));
       ("max_facts", PDict [("objects_affected", PInt objects); ("destination_risk", PStr "local")])])]);
   ("ceilings", PDict [("objects_affected",
       PDict [("session", PInt ceiling); ("agent", PInt ceiling); ("lineage", PInt ceiling)])])].
Definition pol (objects ceiling : Z) : risk_policy :=
  RiskPol "root"
    [("rm", ToolPolicy ("sha256:" ++ hex64)
       [("objects_affected", FInt objects); ("destination_risk", FLevel "local")])]
    [("objects_affected", PerScope ceiling ceiling ceiling)].

Lemma normalize_risk_idempotent_witness :
  normalize_risk_budget (PDict (risk_policy_dict (pol 5 20))) None = Ok (pol 5 20).
Proof.
  destruct (normalize_risk_idempotent (PDict (claim 5 20)) None (pol 5 20)) as [Hn _].
  - vm_compute. reflexivity.
  - exact Hn.
Defined.

Definition contract : ToolRiskContract :=
  MkContract "rm" "{}" [("objects_affected", XArrayLength "/paths"); ("destination_risk", XEnum "/dest")]
    ("sha256:" ++ hex64).
Definition facts : list (string * fact_value) :=
  [("objects_affected", FInt 2); ("destination_risk", FLevel "local")].

Lemma extract_exact_witness : dkeys facts = mandatory_facts contract.
Proof. apply (extract_exact contract args facts). vm_compute. reflexivity. Defined.

Lemma action_check_exact_witness :
  validate_action_risk (PDict (claim 5 20)) contract facts = Ok [("objects_affected", 2)].
Proof.
  apply (action_check_exact (PDict (claim 5 20)) (pol 5 20)); [vm_compute; reflexivity|].
  eexists. split; [reflexivity|]. split; [reflexivity|]. split; [done|]. split; [done|]. split; [|reflexivity].
  repeat constructor; try done.
  - exists (FInt 5), 2, 5. done.
  - exists (FLevel "local"), 0, 0. done.
Defined.

Lemma attenuation_sound_witness :
  validate_action_risk (PDict (claim 5 20)) contract facts = Ok [("objects_affected", 2)].
Proof.
  apply (attenuation_sound (PDict (claim 5 20)) (Some (claim 3 10)) (pol 3 10));
    vm_compute; reflexivity.
Defined.

Lemma projection_exact_witness :
  exists p, project_risk_budget (PDict (claim 5 20)) ["rm"; "ls"] = Ok (Some p) /\
    rp_lineage_id p = "root".
Proof.
  destruct (projection_exact (PDict (claim 5 20)) (pol 5 20) ["rm"; "ls"]) as [_ Hp];
    [vm_compute; reflexivity|].
  destruct (Hp "rm") as (p & Ho & _ & Hl & _);
    [apply str_in_spec; reflexivity|apply str_in_spec; reflexivity|].
  exists p. exact (conj Ho Hl).
Defined.
End Demo.

End RiskPolicy.
