(* ===== verification/Passport.v ===== *)
(** * Mission passports and delegation

    [src/python/vibap/passport.py]: the working-directory claim
    ([_normalize_cwd], [_cwd_is_subpath]), [MissionPassport] and its
    construction, [issue_passport], the delegation chain
    ([delegation_chain_entries]), [verify_passport], proof of possession
    ([create_kb_jwt], [verify_pop]) and [derive_child_passport].

    A token's claims are the dict the code signs and reads, a list of items.
    Claims the code signs as [list[str]], [int] or [bool] are read as such; a
    signed claim of another shape is a [TypeErr].  The JWT library is the
    class [Jwt]: signing, decoding, and the documented fact that decoding a
    token it signed returns the signed claims while they are valid.  Clock
    readings are arguments: [int(time.time())] in seconds, [time.time()] in
    units of 2^-22 s, the resolution of a double of that size. *)

From S2P Require Import Prelude CanonicalJson SpendPolicy RiskPolicy.
Open Scope string_scope.
Open Scope Z_scope.

Module Passport.

Definition DEFAULT_ISSUER : string := "vibap-governance-proxy".
Definition DEFAULT_AUDIENCE : string := "vibap-proxy".
Definition DELEGATION_CHAIN_CLAIM : string := "delegation_chain".
Definition MAX_DELEGATION_DEPTH : nat := 16.
Definition UNRESTRICTED_RESOURCE_SCOPE_PATTERN : string := "**".
Definition DELEGATED_MIC_CLAIMS : list string :=
  ["conformance_profile"; "receipt_policy"; "tool_manifest_digest"].
Definition SUPPORTED_CONFORMANCE_PROFILES : list string :=
  ["Delegation-Core"; "MIC-State"; "MIC-Evidence"].
Definition SUPPORTED_RECEIPT_LEVELS : list string :=
  ["minimal"; "counter_signed"; "transparency_logged"].
Definition DEFAULT_IAT_FUTURE_SKEW_S : Z := 300.
Definition DEFAULT_IAT_PAST_SKEW_S : Z := 30 * 86400.

Definition claims := list (string * pyval).

Inductive passport_exc : Type :=
| PermissionErr
| ValueErr
| KeyErr
| TypeErr
| InvalidToken
| SpendErr (e : spend_exc)
| RiskErr (e : RiskPolicy.risk_exc).

Definition lift {E A} (f : E -> passport_exc) (m : res E A) : res passport_exc A :=
  match m with Ok a => Ok a | Raise e => Raise (f e) end.

Definition resource_scope_is_explicitly_unrestricted (scope : list string) : bool :=
  bool_decide (scope = [UNRESTRICTED_RESOURCE_SCOPE_PATTERN]).

(** ** Clock and integer reads *)

Definition TICKS : Z := 2 ^ 22.

(** [int(s)] for a string: decimal digits with single underscores, a sign,
    surrounding spaces. *)
Fixpoint dec_run (l : list Z) (acc : Z) (underscore : bool) : option Z :=
  match l with
  | [] => if underscore then None else Some acc
  | c :: l' =>
      if (48 <=? c) && (c <=? 57) then dec_run l' (10 * acc + (c - 48)) false
      else if c =? 95 then (if underscore then None else dec_run l' acc true)
      else if underscore then None
      else if forallb RiskPolicy.int_space l then Some acc else None
  end.
Definition dec_body (l : list Z) : option Z :=
  match l with
  | c :: _ => if (48 <=? c) && (c <=? 57) then dec_run l 0 false else None
  | [] => None
  end.
Definition int_of_str (s : string) : option Z :=
  match CanonicalJson.utf8_decode s with
  | None => None
  | Some l =>
      match RiskPolicy.skip_spaces (RiskPolicy.int_char <$> l) with
      | 43 :: l => dec_body l
      | 45 :: l => Z.opp <$> dec_body l
      | l => dec_body l
      end
  end.

(** [int(v)], [None] for the [TypeError] or [ValueError] it raises; an
    infinity raises [OverflowError], which no caller here catches either. *)
Definition py_int (v : pyval) : option Z :=
  match v with
  | PBool b => Some (if b then 1 else 0)
  | PInt z => Some z
  | PFloat (SpecFloat.S754_zero _) => Some 0
  | PFloat (SpecFloat.S754_finite s m e) =>
      let t := if 0 <=? e then Z.pos m * 2 ^ e else Z.pos m / 2 ^ (- e) in
      Some (if s then - t else t)
  | PStr s => int_of_str s
  | _ => None
  end.

(** [assert_iat_in_window]; [now] in ticks. *)
Definition assert_iat_in_window (iat : pyval) (future_skew_s past_skew_s now : Z)
    : res passport_exc unit :=
  match py_int iat with
  | None => Raise InvalidToken
  | Some iat_int =>
      raise_if match iat with PBool _ => true | _ => false end with InvalidToken ;;
      raise_if negb (future_skew_s =? 0) && (now + future_skew_s * TICKS <? iat_int * TICKS)
        with InvalidToken ;;
      raise_if negb (past_skew_s =? 0) && (iat_int * TICKS <? now - past_skew_s * TICKS)
        with InvalidToken ;;
      Ok tt
  end.

(** ** The working directory *)

(** [posixpath.normpath]. *)
Definition norm_step (absolute : bool) (acc : list string) (comp : string) : list string :=
  if str_in comp [""; "."] then acc
  else if negb (String.eqb comp "..")
          || (negb absolute && bool_decide (acc = []))
          || (match acc with c :: _ => String.eqb c ".." | [] => false end)
  then comp :: acc
  else match acc with _ :: acc => acc | [] => [] end.
Definition initial_slashes (path : string) : nat :=
  if String.prefix "//" path && negb (String.prefix "///" path) then 2%nat
  else if String.prefix "/" path then 1%nat else 0%nat.
Fixpoint join (sep : string) (l : list string) : string :=
  match l with
  | [] => ""
  | [w] => w
  | w :: l => w ++ sep ++ join sep l
  end.
Fixpoint slashes (n : nat) : string :=
  match n with O => "" | S n => "/" ++ slashes n end.
Definition normpath (path : string) : string :=
  if negb (non_empty path) then "."
  else
    let n := initial_slashes path in
    let comps := reverse (foldl (norm_step (0 <? n)%nat) [] (split_on "/" path)) in
    let normed := slashes n ++ join "/" comps in
    if non_empty normed then normed else ".".

(** [_normalize_cwd] of a string or [None]. *)
Definition normalize_cwd (value : option string) : res passport_exc (option string) :=
  match value with
  | None => Ok None
  | Some value =>
      let stripped := py_strip value in
      if negb (non_empty stripped) then Ok None
      else
        raise_if negb (String.prefix "/" stripped) with ValueErr ;;
        raise_if str_in ".." (split_on "/" stripped) with ValueErr ;;
        Ok (Some (normpath stripped))
  end.

Definition cwd_is_subpath (child parent : string) : bool :=
  if String.eqb child parent then true
  else if String.eqb parent "/" then String.prefix "/" child
  else String.prefix (parent ++ "/") child.

(** ** Reading signed claims *)

(** [isinstance(value, str)] lists, as [issue_passport] signs them. *)
Definition as_str (v : pyval) : option string := match v with PStr s => Some s | _ => None end.
Definition str_list (v : pyval) : res passport_exc (list string) :=
  match v with
  | PList l => match mapM as_str l with Some l => Ok l | None => Raise TypeErr end
  | _ => Raise TypeErr
  end.
(** [claims.get(k, [])]. *)
Definition get_str_list (k : string) (c : claims) : res passport_exc (list string) :=
  match dget k c with None => Ok [] | Some v => str_list v end.
(** [int(v)]. *)
Definition int_of (v : pyval) : res passport_exc Z :=
  match py_int v with
  | Some z => Ok z
  | None => Raise (match v with PStr _ | PFloat _ => ValueErr | _ => TypeErr end)
  end.
(** [c.get(k, dflt)]. *)
Definition get_or (k : string) (dflt : pyval) (c : claims) : pyval := default dflt (dget k c).
Definition truthy (v : pyval) : bool :=
  match v with
  | PNone => false
  | PBool b => b
  | PInt z => negb (z =? 0)
  | PFloat (SpecFloat.S754_zero _) => false
  | PFloat _ => true
  | PStr s => non_empty s
  | PList l => negb (length l =? 0)%nat
  | PDict d => negb (length d =? 0)%nat
  end.
Definition get_opt_str (k : string) (e : passport_exc) (c : claims)
    : res passport_exc (option string) :=
  match py_get k c with
  | PNone => Ok None
  | PStr s => Ok (Some s)
  | _ => Raise e
  end.

(** ** [MissionPassport] *)

Record MissionPassport := MkMission {
  m_agent_id : string;
  m_mission : string;
  m_allowed_tools : list string;
  m_forbidden_tools : list string;
  m_resource_scope : list string;
  m_max_tool_calls : Z;
  m_max_duration_s : Z;
  m_delegation_allowed : bool;
  m_max_delegation_depth : Z;
  m_parent_jti : option string;
  m_cwd : option string;
  m_allowed_side_effect_classes : list string;
  m_max_tool_calls_per_class : list (string * pyval);
  m_holder_key_thumbprint : option string;
  m_holder_spiffe_id : option string;
  m_mission_id : option string;
  m_additional_policies : list pyval;
  m_spend_budget : option spend_policy;
  m_risk_budget : option claims
}.

(** [__post_init__]: the [cwd] and the spend budget are normalised, and [**]
    stands alone. *)
Definition new_mission (agent_id mission : string) (allowed_tools forbidden_tools
    resource_scope : list string) (max_tool_calls max_duration_s : Z) (delegation_allowed : bool)
    (max_delegation_depth : Z) (parent_jti cwd : option string)
    (allowed_side_effect_classes : list string) (per_class : list (string * pyval))
    (holder_key_thumbprint holder_spiffe_id mission_id : option string)
    (additional_policies : list pyval) (spend_budget : option pyval) (risk_budget : option claims)
    : res passport_exc MissionPassport :=
  cwd ← normalize_cwd cwd;
  spend ← match spend_budget with
          | None => Ok None
          | Some raw => p ← lift SpendErr (normalize_spend_budget raw None false); Ok (Some p)
          end;
  raise_if str_in UNRESTRICTED_RESOURCE_SCOPE_PATTERN resource_scope
           && negb (resource_scope_is_explicitly_unrestricted resource_scope) with ValueErr ;;
  Ok (MkMission agent_id mission allowed_tools forbidden_tools resource_scope max_tool_calls
        max_duration_s delegation_allowed max_delegation_depth parent_jti cwd
        allowed_side_effect_classes per_class holder_key_thumbprint holder_spiffe_id mission_id
        additional_policies spend risk_budget).

Definition KNOWN_FIELDS : list string :=
  ["agent_id"; "mission"; "allowed_tools"; "forbidden_tools"; "resource_scope"; "max_tool_calls";
   "max_duration_s"; "delegation_allowed"; "max_delegation_depth"; "parent_jti"; "cwd";
   "allowed_side_effect_classes"; "max_tool_calls_per_class"; "holder_key_thumbprint";
   "holder_spiffe_id"; "additional_policies"; "spend_budget"; "risk_budget"; "mission_id";
   "budget"; "ttl_s"; "issued_at"; "expires_at"].

Definition req_str (k : string) (d : claims) : res passport_exc string :=
  match dget k d with Some (PStr s) => Ok s | Some _ => Raise TypeErr | None => Raise KeyErr end.
Definition opt_dict (k : string) (d : claims) : res passport_exc (option claims) :=
  match dget k d with
  | None => Ok None
  | Some (PDict x) => Ok (Some x)
  | Some _ => Raise ValueErr
  end.

(** [MissionPassport.from_dict]. *)
Definition from_dict (data : claims) : res passport_exc MissionPassport :=
  raise_if negb (subset_b (dkeys data) KNOWN_FIELDS) with ValueErr ;;
  spend ← opt_dict "spend_budget" data;
  risk ← opt_dict "risk_budget" data;
  agent_id ← req_str "agent_id" data;
  mission ← req_str "mission" data;
  allowed ← get_str_list "allowed_tools" data;
  forbidden ← get_str_list "forbidden_tools" data;
  scope ← get_str_list "resource_scope" data;
  budget ← (let b := py_get "budget" data in
            if truthy b then match b with PDict d => Ok d | _ => Raise TypeErr end else Ok []);
  calls ← int_of (get_or "max_tool_calls" (get_or "max_tool_calls" (PInt 50) budget) data);
  duration ← int_of (get_or "max_duration_s" (get_or "max_duration_s" (PInt 600) budget) data);
  let delegation := truthy (get_or "delegation_allowed" (PBool false) data) in
  depth ← int_of (get_or "max_delegation_depth" (PInt 0) data);
  parent ← get_opt_str "parent_jti" TypeErr data;
  cwd ← get_opt_str "cwd" ValueErr data;
  classes ← get_str_list "allowed_side_effect_classes" data;
  per_class ← match dget "max_tool_calls_per_class" data with
              | None => Ok []
              | Some (PDict d) => Ok d
              | Some _ => Raise TypeErr
              end;
  thumb ← get_opt_str "holder_key_thumbprint" TypeErr data;
  spiffe ← get_opt_str "holder_spiffe_id" TypeErr data;
  policies ← match dget "additional_policies" data with
             | None => Ok []
             | Some (PList l) => Ok l
             | Some _ => Raise TypeErr
             end;
  mission_id ← get_opt_str "mission_id" TypeErr data;
  new_mission agent_id mission allowed forbidden scope calls duration delegation depth parent cwd
    classes per_class thumb spiffe mission_id policies (PDict <$> spend) risk.

(** [_ttl_from_payload]; [now] is [time.time()] truncated. *)
Definition ttl_from_payload (data : claims) (now : Z) : res passport_exc (option Z) :=
  match dget "ttl_s" data with
  | Some v => z ← int_of v; Ok (Some z)
  | None =>
      match dget "expires_at" data with
      | None => Ok None
      | Some v =>
          reference ← match dget "issued_at" data with Some i => int_of i | None => Ok now end;
          exp ← int_of v;
          raise_if exp - reference <=? 0 with ValueErr ;; Ok (Some (exp - reference))
      end
  end.

(** ** JWTs

    [jwt.encode] and [jwt.decode] with the issuer's (or the holder's) key
    pair.  [token_text] is the compact serialisation, of which the code only
    takes a hash. *)

(** The registered claims [jwt.decode] checks, with its required names. *)
Definition jwt_claims_ok (c : claims) (audience : option string) (require : list string) (now : Z)
    : bool :=
  forallb (fun k => has_key k c) require
  && match audience with Some a => py_eq_str (py_get "aud" c) a | None => true end
  && match dget "exp" c with Some (PInt e) => now <? e * TICKS | Some _ => false | None => true end
  && match dget "nbf" c with Some (PInt n) => n * TICKS <=? now | Some _ => false | None => true end.

Class Jwt := {
  token : Type;
  token_text : token -> string;
  private_key : Type;
  public_key : Type;
  public_of : private_key -> public_key;
  jwk_x : public_key -> Z;
  jwk_y : public_key -> Z;
  jwt_encode : claims -> private_key -> token;
  jwt_decode : token -> public_key -> option string -> list string -> Z -> option claims;
  (** the claims in a token's payload segment *)
  jwt_payload : token -> claims;
  jwt_payload_encode : forall c key, jwt_payload (jwt_encode c key) = c;
  jwt_decode_payload : forall t key audience require now c,
    jwt_decode t key audience require now = Some c -> c = jwt_payload t;
  jwt_decode_unexpired : forall t key audience require now c e,
    jwt_decode t key audience require now = Some c -> dget "exp" c = Some (PInt e) -> now < e * TICKS;
  jwt_decode_encode : forall c key audience require now,
    jwt_claims_ok c audience require now = true ->
    jwt_decode (jwt_encode c key) (public_of key) audience require now = Some c
}.

(** One link of a delegation chain; an absent key is [None]. *)
Record link := Link {
  l_jti : string;
  l_token_hash : option string;
  l_parent_jti : option string;
  l_parent_token_hash : option string
}.
#[global] Instance link_eq_dec : EqDecision link.
Proof. solve_decision. Defined.

Definition opt_item (k : string) (v : option string) : claims :=
  match v with Some s => [(k, PStr s)] | None => [] end.
Definition link_dict (l : link) : pyval :=
  PDict ([("jti", PStr (l_jti l))] ++ opt_item "token_hash" (l_token_hash l)
         ++ opt_item "parent_jti" (l_parent_jti l)
         ++ opt_item "parent_token_hash" (l_parent_token_hash l))%list.

(** [_require_nonempty_str]. *)
Definition require_nonempty_str (v : pyval) : res passport_exc string :=
  match v with
  | PStr s => raise_if negb (non_empty s) with PermissionErr ;; Ok s
  | _ => Raise PermissionErr
  end.
Definition optional_nonempty_str (v : pyval) : res passport_exc (option string) :=
  match v with PNone => Ok None | _ => s ← require_nonempty_str v; Ok (Some s) end.

(** The loop of [delegation_chain_entries]. *)
Fixpoint chain_loop (raw_chain : list pyval) (seen : list string) (expected_jti : option string)
    : res passport_exc (list link) :=
  match raw_chain with
  | [] => match expected_jti with Some _ => Raise PermissionErr | None => Ok [] end
  | PDict raw_link :: raw_chain =>
      link_jti ← require_nonempty_str (py_get "jti" raw_link);
      raise_if negb (bool_decide (Some link_jti = expected_jti)) with PermissionErr ;;
      raise_if str_in link_jti seen with PermissionErr ;;
      token_hash ← optional_nonempty_str (py_get "token_hash" raw_link);
      next_parent ← optional_nonempty_str (py_get "parent_jti" raw_link);
      parent_token_hash ←
        match next_parent with
        | None => Ok None
        | Some _ => optional_nonempty_str (py_get "parent_token_hash" raw_link)
        end;
      rest ← chain_loop raw_chain (link_jti :: seen) next_parent;
      Ok (Link link_jti token_hash next_parent parent_token_hash :: rest)
  | _ :: _ => Raise PermissionErr
  end.

Definition delegation_chain_entries (c : claims) : res passport_exc (list link) :=
  current_jti ← require_nonempty_str (py_get "jti" c);
  let raw_chain := py_get DELEGATION_CHAIN_CLAIM c in
  match py_get "parent_jti" c with
  | PNone =>
      match raw_chain with
      | PNone | PList [] => Ok []
      | _ => Raise PermissionErr
      end
  | parent_jti_raw =>
      parent_jti ← require_nonempty_str parent_jti_raw;
      match raw_chain with
      | PList raw_chain =>
          raise_if (length raw_chain =? 0)%nat with PermissionErr ;;
          raise_if (MAX_DELEGATION_DEPTH <? length raw_chain)%nat with PermissionErr ;;
          chain_loop raw_chain [current_jti] (Some parent_jti)
      | _ => Raise PermissionErr
      end
  end.

(** [_inherited_mic_conformance_claims]. *)
Definition MIC_DIGEST_PREFIX : string := "sha-256:".
Definition manifest_digest_ok (v : pyval) : bool :=
  match v with
  | PStr s => String.prefix MIC_DIGEST_PREFIX s
              && digest_match (substring 8 (String.length s) s)
  | _ => false
  end.
Definition inherited_mic_conformance_claims (parent : claims) : res passport_exc claims :=
  if negb (has_key "conformance_profile" parent) then Ok []
  else
    raise_if negb (forallb (fun k => has_key k parent) DELEGATED_MIC_CLAIMS) with PermissionErr ;;
    match py_get "conformance_profile" parent, py_get "receipt_policy" parent with
    | PStr profile, PDict policy =>
        raise_if negb (str_in profile SUPPORTED_CONFORMANCE_PROFILES) with PermissionErr ;;
        raise_if negb (same_set (dkeys policy) ["level"]) with PermissionErr ;;
        match py_get "level" policy with
        | PStr level =>
            raise_if negb (str_in level SUPPORTED_RECEIPT_LEVELS) with PermissionErr ;;
            raise_if String.eqb profile "MIC-Evidence" && String.eqb level "minimal"
              with PermissionErr ;;
            raise_if negb (manifest_digest_ok (py_get "tool_manifest_digest" parent))
              with PermissionErr ;;
            Ok ((fun k => (k, py_get k parent)) <$> DELEGATED_MIC_CLAIMS)
        | _ => Raise PermissionErr
        end
    | _, _ => Raise PermissionErr
    end.

(** Equality of two validated bundles: texts, and [{"level": ...}]. *)
Definition same_mic (a b : claims) : bool :=
  py_eq_str (py_get "conformance_profile" a)
    (default "" (as_str (py_get "conformance_profile" b)))
  && py_eq_str (py_get "tool_manifest_digest" a)
       (default "" (as_str (py_get "tool_manifest_digest" b)))
  && match py_get "receipt_policy" a, py_get "receipt_policy" b with
     | PDict p, PDict q =>
         py_eq_str (py_get "level" p) (default "" (as_str (py_get "level" q)))
     | _, _ => false
     end.

(** The canonical text of a UUID, any case. *)
Definition uuid_char (i : nat) (a : ascii) : bool :=
  if existsb (Nat.eqb i) [8; 13; 18; 23]%nat
  then Ascii.eqb a "-" else is_lower_hex (ascii_lower a).
Fixpoint uuid_match_from (i : nat) (s : string) : bool :=
  match s with
  | EmptyString => (i =? 36)%nat
  | String a s => uuid_char i a && uuid_match_from (S i) s
  end.
Definition uuid_match (s : string) : bool := uuid_match_from 0 s.

(** [x if x else y] on optional text, and [if x:] around a claim. *)
Definition nonempty_opt (o : option string) : option string :=
  match o with Some s => if non_empty s then Some s else None | None => None end.

Section Tokens.
Context `{Digests, Jwt}.

Definition token_sha256 (t : token) : string := sha256_hex (token_text t).

Definition derive_mission_id (agent_id mission_text : string) : string :=
  "mission:" ++ agent_id ++ ":" ++ substring 0 12 (sha256_hex mission_text).

(** The spend claim [issue_passport] signs. *)
Definition issue_spend (mission : MissionPassport) (jti : string) : res passport_exc claims :=
  match m_spend_budget mission with
  | None => Ok []
  | Some p =>
      let inherited := sp_lineage_id p in
      raise_if bool_decide (m_parent_jti mission = None /\ inherited <> None) with ValueErr ;;
      raise_if bool_decide (m_parent_jti mission <> None /\ inherited = None) with ValueErr ;;
      q ← lift SpendErr (normalize_spend_budget (spend_policy_dict p)
            (Some (default jti inherited)) true);
      Ok [("spend_budget", spend_policy_dict q)]
  end.

(** The risk claim [issue_passport] signs. *)
Definition issue_risk (mission : MissionPassport) (jti : string) : res passport_exc claims :=
  match m_risk_budget mission with
  | None => Ok []
  | Some raw =>
      let lineage := match py_get "lineage_id" raw with PNone => Some jti | _ => None end in
      p ← lift RiskErr (RiskPolicy.normalize_risk_budget (PDict raw) lineage);
      raise_if negb (subset_b (dkeys (RiskPolicy.rp_tools p)) (m_allowed_tools mission)) with ValueErr ;;
      Ok [("risk_budget", PDict (RiskPolicy.risk_policy_dict p))]
  end.

Definition str_pylist (l : list string) : pyval := PList (PStr <$> l).

(** [issue_passport]: the claims that are signed; [now] is
    [int(time.time())], [fresh] is [str(uuid.uuid4())]. *)
Definition issue_claims (mission : MissionPassport) (issuer audience : string)
    (ttl_s : option Z) (extra_claims : claims) (jti_override : option string)
    (fresh : string) (now : Z) : res passport_exc claims :=
  let ttl := default (m_max_duration_s mission) ttl_s in
  raise_if ttl <=? 0 with ValueErr ;;
  raise_if match jti_override with Some j => negb (uuid_match j) | None => false end with ValueErr ;;
  let jti := default fresh jti_override in
  let mission_id := default (derive_mission_id (m_agent_id mission) (m_mission mission))
                      (nonempty_opt (m_mission_id mission)) in
  let base :=
    [("iss", PStr issuer); ("sub", PStr (m_agent_id mission)); ("aud", PStr audience);
     ("iat", PInt now); ("nbf", PInt now); ("exp", PInt (now + ttl)); ("jti", PStr jti);
     ("mission_id", PStr mission_id); ("mission", PStr (m_mission mission));
     ("allowed_tools", str_pylist (m_allowed_tools mission));
     ("forbidden_tools", str_pylist (m_forbidden_tools mission));
     ("resource_scope", str_pylist (m_resource_scope mission));
     ("max_tool_calls", PInt (m_max_tool_calls mission));
     ("max_duration_s", PInt (m_max_duration_s mission));
     ("delegation_allowed", PBool (m_delegation_allowed mission));
     ("max_delegation_depth", PInt (m_max_delegation_depth mission))] in
  let optional :=
    (opt_item "parent_jti" (nonempty_opt (m_parent_jti mission))
     ++ opt_item "cwd" (m_cwd mission)
     ++ (if (length (m_allowed_side_effect_classes mission) =? 0)%nat then []
         else [("allowed_side_effect_classes", str_pylist (m_allowed_side_effect_classes mission))])
     ++ (if (length (m_max_tool_calls_per_class mission) =? 0)%nat then []
         else [("max_tool_calls_per_class", PDict (m_max_tool_calls_per_class mission))])
     ++ (if (length (m_additional_policies mission) =? 0)%nat then []
         else [("additional_policies", PList (m_additional_policies mission))]))%list in
  spend ← issue_spend mission jti;
  risk ← issue_risk mission jti;
  let cnf := match nonempty_opt (m_holder_key_thumbprint mission) with
             | Some t => [("cnf", PDict [("jkt", PStr t)])]
             | None => []
             end in
  let signed := (base ++ optional ++ spend ++ risk ++ cnf)%list in
  raise_if existsb (fun k => has_key k signed) (dkeys extra_claims) with ValueErr ;;
  Ok (signed ++ extra_claims)%list.

Definition issue_passport (mission : MissionPassport) (key : private_key) (issuer audience : string)
    (ttl_s : option Z) (extra_claims : claims) (jti_override : option string)
    (fresh : string) (now : Z) : res passport_exc token :=
  c ← issue_claims mission issuer audience ttl_s extra_claims jti_override fresh now;
  Ok (jwt_encode c key).

(** [_decode_passport] at the clock reading [now] (ticks). *)
Definition REQUIRED_CLAIMS : list string := ["iss"; "sub"; "aud"; "iat"; "exp"; "jti"].
Definition decode_passport (t : token) (key : public_key) (audience : string) (now : Z)
    : res passport_exc claims :=
  match jwt_decode t key (Some audience) REQUIRED_CLAIMS now with
  | None => Raise InvalidToken
  | Some c =>
      _ ← assert_iat_in_window (py_get "iat" c) DEFAULT_IAT_FUTURE_SKEW_S DEFAULT_IAT_PAST_SKEW_S now;
      Ok c
  end.

(** The chain link of the holder of [parent]: the dict built both by
    [_expected_chain_for_parent] and by [derive_child_passport]. *)
Definition parent_link (parent : claims) (parent_token : token) : res passport_exc link :=
  jti ← require_nonempty_str (py_get "jti" parent);
  pj ← optional_nonempty_str (py_get "parent_jti" parent);
  Ok (Link jti (Some (token_sha256 parent_token)) pj
        match pj, py_get "parent_token_hash" parent with
        | Some _, PStr h => nonempty_opt (Some h)
        | _, _ => None
        end).
Definition expected_chain_for_parent (parent : claims) (parent_token : token)
    : res passport_exc (list link) :=
  l ← parent_link parent parent_token;
  rest ← delegation_chain_entries parent;
  Ok (l :: rest).

(** The walk over the cold lineage index. *)
Definition check_trusted_link (hashes : gmap string string)
    (lineage : gmap string (option string * option string)) (l : link) : res passport_exc unit :=
  raise_if match nonempty_opt (l_token_hash l) with None => true | Some _ => false end
    with PermissionErr ;;
  raise_if negb (bool_decide (hashes !! l_jti l = l_token_hash l)) with PermissionErr ;;
  match lineage !! l_jti l with
  | None => Raise PermissionErr
  | Some edge =>
      raise_if negb (bool_decide (edge.1 = l_parent_jti l)) with PermissionErr ;;
      raise_if negb (bool_decide (edge.2 = l_parent_token_hash l)) with PermissionErr ;;
      Ok tt
  end.

Definition verify_passport (t : token) (key : public_key) (audience : string)
    (parent_token : option token) (trusted_hashes : option (gmap string string))
    (trusted_lineage : option (gmap string (option string * option string))) (now now' : Z)
    : res passport_exc claims :=
  c ← decode_passport t key audience now;
  chain ← delegation_chain_entries c;
  match py_get "parent_jti" c with
  | PNone => Ok c
  | parent_jti =>
      parent_token_hash ← require_nonempty_str (py_get "parent_token_hash" c);
      match parent_token with
      | None =>
          match trusted_hashes, trusted_lineage with
          | Some hashes, Some lineage =>
              match chain with
              | [] => Raise PermissionErr
              | first :: _ =>
                  raise_if negb (bool_decide (l_token_hash first = Some parent_token_hash))
                    with PermissionErr ;;
                  _ ← iterR (check_trusted_link hashes lineage) chain;
                  Ok c
              end
          | _, _ => Raise PermissionErr
          end
      | Some parent_token =>
          parent ← decode_passport parent_token key audience now';
          raise_if negb (match py_get "jti" parent, parent_jti with
                         | PStr a, PStr b => String.eqb a b
                         | _, _ => false
                         end) with PermissionErr ;;
          raise_if negb (String.eqb parent_token_hash (token_sha256 parent_token)) with PermissionErr ;;
          expected ← expected_chain_for_parent parent parent_token;
          raise_if negb (bool_decide (chain = expected)) with PermissionErr ;;
          parent_mic ← inherited_mic_conformance_claims parent;
          match parent_mic with
          | [] => Ok c
          | _ =>
              child_mic ← inherited_mic_conformance_claims c;
              raise_if negb (same_mic child_mic parent_mic) with PermissionErr ;;
              Ok c
          end
      end
  end.
End Tokens.

(** *** Delegation *)

(** [v <= 0] on a signed number. *)
Definition num_le0 (v : pyval) : res passport_exc bool :=
  match v with
  | PInt z => Ok (z <=? 0)
  | PBool b => Ok (negb b)
  | PFloat (SpecFloat.S754_zero _) => Ok true
  | PFloat (SpecFloat.S754_finite sign _ _) => Ok sign
  | PFloat (SpecFloat.S754_infinity sign) => Ok sign
  | PFloat SpecFloat.S754_nan => Ok false
  | _ => Raise TypeErr
  end.

(** What the caller of [derive_child_passport] asks for. *)
Record child_request := MkChild {
  child_agent_id : string;
  child_allowed_tools : list string;
  child_mission : string;
  child_ttl_s : option Z;
  child_max_tool_calls : option Z;
  parent_calls_remaining : option Z;
  parent_reserved_for_descendants : Z;
  child_resource_scope : option (list string);
  child_cwd : option string;
  child_risk_budget : option claims
}.

(** Escrow: the child's budget under the parent's [ceiling]. *)
Definition child_budget_of (r : child_request) (ceiling : Z) : res passport_exc Z :=
  let reserved := parent_reserved_for_descendants r in
  raise_if reserved <? 0 with PermissionErr ;;
  raise_if ceiling <? reserved with PermissionErr ;;
  let escrow_remaining := ceiling - reserved in
  raise_if escrow_remaining <=? 0 with PermissionErr ;;
  raise_if match parent_calls_remaining r with Some n => n <=? 0 | None => false end
    with PermissionErr ;;
  raise_if match child_max_tool_calls r with Some n => n <=? 0 | None => false end
    with PermissionErr ;;
  Ok (foldr Z.min ceiling
        ([escrow_remaining] ++ option_list (parent_calls_remaining r)
         ++ option_list (child_max_tool_calls r))%list).

Definition child_scope_of (r : child_request) (parent_scope : list string)
    : res passport_exc (list string) :=
  match child_resource_scope r with
  | None => Ok parent_scope
  | Some scope =>
      let requested := sorted_set scope in
      raise_if str_in UNRESTRICTED_RESOURCE_SCOPE_PATTERN requested
               && negb (resource_scope_is_explicitly_unrestricted requested) with PermissionErr ;;
      if (length requested =? 0)%nat then Ok []
      else if resource_scope_is_explicitly_unrestricted parent_scope then Ok requested
      else
        raise_if negb (subset_b scope parent_scope) with PermissionErr ;; Ok requested
  end.

Definition child_cwd_of (r : child_request) (parent_cwd : option string)
    : res passport_exc (option string) :=
  match child_cwd r with
  | None => Ok parent_cwd
  | Some requested =>
      final ← normalize_cwd (Some requested);
      match final, parent_cwd with
      | None, Some _ => Raise PermissionErr
      | None, None => Ok None
      | Some _, None => Raise PermissionErr
      | Some f, Some p =>
          raise_if negb (cwd_is_subpath f p) with PermissionErr ;; Ok (Some f)
      end
  end.

Definition child_risk_of (r : child_request) (parent_risk : pyval) (child_tools : list string)
    : res passport_exc (option RiskPolicy.risk_policy) :=
  match parent_risk with
  | PNone =>
      raise_if match child_risk_budget r with Some _ => true | None => false end with PermissionErr ;;
      Ok None
  | PDict _ =>
      projected ← lift RiskErr (RiskPolicy.project_risk_budget parent_risk child_tools);
      match projected with
      | None =>
          raise_if match child_risk_budget r with Some _ => true | None => false end
            with PermissionErr ;;
          Ok None
      | Some projected =>
          final ← lift RiskErr (RiskPolicy.attenuate_risk_budget
                    (PDict (RiskPolicy.risk_policy_dict projected)) (child_risk_budget r));
          raise_if negb (same_set (dkeys (RiskPolicy.rp_tools final))
                                  (dkeys (RiskPolicy.rp_tools projected))) with PermissionErr ;;
          Ok (Some final)
      end
  | _ => Raise PermissionErr
  end.

Definition subscript (k : string) (c : claims) : res passport_exc pyval :=
  match dget k c with Some v => Ok v | None => Raise KeyErr end.

(** [set(a) - set(b)]. *)
Definition set_minus (a b : list string) : list string := filter (fun x => negb (str_in x b)) a.

Section Derive.
Context `{Digests, Jwt}.

(** The child mission [derive_child_passport] builds from the parent's claims
    at second [now], and the time to live it asks for. *)
Definition derive_mission (parent : claims) (r : child_request) (now : Z)
    : res passport_exc (MissionPassport * Z) :=
  raise_if negb (truthy (py_get "delegation_allowed" parent)) with PermissionErr ;;
  exhausted ← num_le0 (get_or "max_delegation_depth" (PInt 0) parent);
  raise_if exhausted : bool with PermissionErr ;;
  tools_raw ← subscript "allowed_tools" parent;
  parent_tools ← str_list tools_raw;
  let child_tools := child_allowed_tools r in
  raise_if negb (subset_b child_tools parent_tools) with PermissionErr ;;
  raise_if (length child_tools =? 0)%nat with PermissionErr ;;
  exp_raw ← subscript "exp" parent;
  parent_exp ← int_of exp_raw;
  let max_ttl := parent_exp - now in
  raise_if max_ttl <=? 0 with PermissionErr ;;
  let requested_ttl := Z.min (default 300 (child_ttl_s r)) max_ttl in
  raise_if requested_ttl <=? 0 with PermissionErr ;;
  depth_raw ← subscript "max_delegation_depth" parent;
  parent_depth ← int_of depth_raw;
  let child_depth := parent_depth - 1 in
  ceiling ← int_of (get_or "max_tool_calls" (PInt 50) parent);
  child_budget ← child_budget_of r ceiling;
  parent_scope ← get_str_list "resource_scope" parent;
  final_scope ← child_scope_of r parent_scope;
  parent_cwd_raw ← get_opt_str "cwd" ValueErr parent;
  parent_cwd ← normalize_cwd parent_cwd_raw;
  final_cwd ← child_cwd_of r parent_cwd;
  final_risk ← child_risk_of r (py_get "risk_budget" parent) child_tools;
  parent_forbidden ← get_str_list "forbidden_tools" parent;
  jti ← require_nonempty_str (py_get "jti" parent);
  spend ← match py_get "spend_budget" parent with
          | PNone => Ok None
          | raw => p ← lift SpendErr (normalize_spend_budget raw None true);
                   Ok (Some (spend_policy_dict p))
          end;
  child ← new_mission (child_agent_id r) (child_mission r) (sorted_set child_tools)
    (sorted_set (parent_forbidden ++ set_minus parent_tools child_tools)%list) final_scope
    child_budget requested_ttl (0 <? child_depth) child_depth (Some jti) final_cwd
    [] [] None None None [] spend (RiskPolicy.risk_policy_dict <$> final_risk);
  Ok (child, requested_ttl).

(** [derive_child_passport]: the parent token is decoded at [t0] (ticks), the
    remaining lifetime is computed at second [t1], and the child is issued at
    second [t2] with the identifier [fresh]. *)
Definition derive_child_passport (parent_token : token) (pub : public_key) (key : private_key)
    (r : child_request) (fresh : string) (t0 t1 t2 : Z) : res passport_exc token :=
  parent ← decode_passport parent_token pub DEFAULT_AUDIENCE t0;
  parent_chain ← delegation_chain_entries parent;
  child_ttl ← derive_mission parent r t1;
  l ← parent_link parent parent_token;
  let child_chain := l :: parent_chain in
  raise_if (MAX_DELEGATION_DEPTH <? length child_chain)%nat with PermissionErr ;;
  mic ← inherited_mic_conformance_claims parent;
  let '(child, ttl) := child_ttl : MissionPassport * Z in
  issue_passport child key DEFAULT_ISSUER DEFAULT_AUDIENCE (Some ttl)
    (mic ++ [("parent_token_hash", PStr (token_sha256 parent_token));
             (DELEGATION_CHAIN_CLAIM, PList (link_dict <$> child_chain));
             ("reserved_budget_share", PInt (m_max_tool_calls child))])%list None fresh t2.

(** *** Proof of possession *)

Definition B64URL : string := "ABCDEFGHIJKLMNOPQRSTUVWXYZabcdefghijklmnopqrstuvwxyz0123456789-_".
Definition b64_char (n : Z) : ascii := default "A"%char (String.get (Z.to_nat n) B64URL).
(** [base64.urlsafe_b64encode(...).rstrip(b"=")]. *)
Fixpoint b64url (l : list Z) : string :=
  match l with
  | a :: b :: c :: l =>
      String (b64_char (a / 4)) (String (b64_char (a mod 4 * 16 + b / 16))
        (String (b64_char (b mod 16 * 4 + c / 64)) (String (b64_char (c mod 64)) (b64url l))))
  | [a; b] =>
      String (b64_char (a / 4)) (String (b64_char (a mod 4 * 16 + b / 16))
        (String (b64_char (b mod 16 * 4)) ""))
  | [a] => String (b64_char (a / 4)) (String (b64_char (a mod 4 * 16)) "")
  | [] => ""
  end.
Fixpoint hex_bytes (s : string) : list Z :=
  match s with
  | String a (String b s) => (16 * CanonicalJson.hexval a + CanonicalJson.hexval b) :: hex_bytes s
  | _ => []
  end.
(** [hashlib.sha256(s).digest()]. *)
Definition sha256_digest (s : string) : list Z := hex_bytes (sha256_hex s).
(** [n.to_bytes(32, "big")]. *)
Definition to_bytes32 (n : Z) : list Z :=
  (fun i => (n / 256 ^ i) mod 256) <$> reverse (seqZ 0 32).

Definition quoted (s : string) : string :=
  String CanonicalJson.QUOTE s ++ String CanonicalJson.QUOTE "".
Definition compute_jwk_thumbprint (k : public_key) : string :=
  let x := b64url (to_bytes32 (jwk_x k)) in
  let y := b64url (to_bytes32 (jwk_y k)) in
  b64url (sha256_digest
    ("{" ++ quoted "crv" ++ ":" ++ quoted "P-256" ++ "," ++ quoted "kty" ++ ":" ++ quoted "EC" ++ ","
     ++ quoted "x" ++ ":" ++ quoted x ++ "," ++ quoted "y" ++ ":" ++ quoted y ++ "}")).

Definition sd_hash_of (t : token) : string := b64url (sha256_digest (token_text t)).

(** [create_kb_jwt] at second [now]; [nonce] is the given or a fresh one. *)
Definition create_kb_jwt (holder : private_key) (passport_token : token) (nonce : string) (now : Z)
    : token :=
  jwt_encode [("iat", PInt now); ("nonce", PStr nonce); ("sd_hash", PStr (sd_hash_of passport_token))]
    holder.

(** [verify_pop]: the KB-JWT is decoded at [t] (ticks), its age taken at
    second [now]. *)
Definition verify_pop (passport_claims : claims) (passport_token : token)
    (holder : option public_key) (kb_jwt : option token) (max_age_s t now : Z)
    : res passport_exc bool :=
  match py_get "cnf" passport_claims with
  | PNone => Ok true
  | PDict cnf =>
      jkt ← require_nonempty_str (py_get "jkt" cnf);
      match holder with
      | None => Raise PermissionErr
      | Some holder =>
          raise_if negb (String.eqb (compute_jwk_thumbprint holder) jkt) with PermissionErr ;;
          match kb_jwt with
          | None => Raise PermissionErr
          | Some kb =>
              match jwt_decode kb holder None ["iat"; "nonce"; "sd_hash"] t with
              | None => Raise PermissionErr
              | Some kb_claims =>
                  match py_get "iat" kb_claims with
                  | PInt kb_iat =>
                      _ ← require_nonempty_str (py_get "nonce" kb_claims);
                      sd_hash ← require_nonempty_str (py_get "sd_hash" kb_claims);
                      raise_if now + 30 <? kb_iat with PermissionErr ;;
                      raise_if max_age_s <? now - kb_iat with PermissionErr ;;
                      raise_if negb (String.eqb sd_hash (sd_hash_of passport_token))
                        with PermissionErr ;;
                      Ok true
                  | _ => Raise PermissionErr
                  end
              end
          end
      end
  | _ => Raise PermissionErr
  end.
End Derive.

(** A token that carries its claims, readable while they are valid: an
    instance of [Jwt] for concrete evaluations. *)
Definition demo_decode (c : claims) (_ : unit) (aud : option string) (req : list string) (now : Z) :=
  if jwt_claims_ok c aud req now then Some c else None.
Lemma demo_decode_payload t key aud req now c : demo_decode t key aud req now = Some c -> c = t.
Proof. unfold demo_decode. by destruct (jwt_claims_ok _ _ _ _); intros [= ->]. Qed.
Lemma demo_decode_unexpired t key aud req now c e : demo_decode t key aud req now = Some c ->
  dget "exp" c = Some (PInt e) -> now < e * TICKS.
Proof.
  unfold demo_decode. destruct (jwt_claims_ok t aud req now) eqn:Hok; [|done]. intros [= ->] He.
  unfold jwt_claims_ok in Hok. rewrite He in Hok. lia.
Qed.
Lemma demo_decode_encode c key aud req now :
  jwt_claims_ok c aud req now = true -> demo_decode c key aud req now = Some c.
Proof. unfold demo_decode. by intros ->. Qed.
Definition demo_jwt : Jwt := {|
  token := claims;
  token_text c := match py_get "jti" c with PStr j => "jwt." ++ j | _ => "jwt" end;
  private_key := unit;
  public_key := unit;
  public_of _ := tt;
  jwk_x _ := 5;
  jwk_y _ := 7;
  jwt_encode c _ := c;
  jwt_decode := demo_decode;
  jwt_payload c := c;
  jwt_payload_encode _ _ := eq_refl;
  jwt_decode_payload := demo_decode_payload;
  jwt_decode_unexpired := demo_decode_unexpired;
  jwt_decode_encode c key := demo_decode_encode c tt
|}.

End Passport.
