(* ===== verification/PassportProps.v ===== *)
(** * What delegation guarantees

    Theorems on [Passport]: the working-directory claim, the delegation chain,
    the child a parent token can derive, its verification, and proof of
    possession. *)

From S2P Require Import Prelude CanonicalJson SpendPolicy RiskPolicy Passport.
Open Scope string_scope.
Open Scope Z_scope.
Import Passport.

(** ** Delegation chains *)

(** A chain continues [expected] and ends at a root. *)
Fixpoint linked (expected : option string) (chain : list link) : Prop :=
  match chain with
  | [] => expected = None
  | l :: chain => expected = Some (l_jti l) /\ linked (l_parent_jti l) chain
  end.

Definition some_nonempty (o : option string) : Prop :=
  match o with Some s => non_empty s = true | None => True end.

(** A link as the normaliser writes it. *)
Definition link_ok (l : link) : Prop :=
  non_empty (l_jti l) = true /\ some_nonempty (l_token_hash l) /\
  some_nonempty (l_parent_jti l) /\ some_nonempty (l_parent_token_hash l) /\
  (l_parent_jti l = None -> l_parent_token_hash l = None).

Lemma require_nonempty_ok v s :
  require_nonempty_str v = Ok s <-> v = PStr s /\ non_empty s = true.
Proof.
  destruct v; cbn; try (split; [discriminate|by intros [? _]]).
  rewrite guard_ok, negb_false_iff. naive_solver.
Qed.

Lemma optional_nonempty_ok v o :
  optional_nonempty_str v = Ok o ->
  match o with Some s => v = PStr s /\ non_empty s = true | None => v = PNone end.
Proof.
  destruct v; cbn [optional_nonempty_str]; intros Ho;
    try (bind_inv Ho; injection Ho as <-; by apply require_nonempty_ok in E).
  by injection Ho as <-.
Qed.

Lemma chain_loop_ok raw seen expected chain :
  chain_loop raw seen expected = Ok chain ->
  length chain = length raw /\ linked expected chain /\ Forall link_ok chain /\
  NoDup (l_jti <$> chain) /\ Forall (fun l => l_jti l ∉ seen) chain.
Proof.
  revert seen expected chain. induction raw as [|v raw IH]; intros seen expected chain Ho.
  { cbn in Ho. destruct expected; [done|]. injection Ho as <-. repeat split; by constructor. }
  destruct v; try done. cbn [chain_loop] in Ho. bind_inv Ho. rewrite !guard_ok in Ho.
  destruct Ho as (He & Hs & Ho). do 4 bind_inv Ho. injection Ho as <-.
  apply negb_false_iff, bool_decide_eq_true in He. apply str_in_false in Hs.
  apply require_nonempty_ok in E as [_ Hj]. apply optional_nonempty_ok in E0, E1.
  apply IH in E3 as (Hl & Hk & Hf & Hn & Hd). rename x into j, x0 into th, x1 into pj.
  rewrite fmap_cons. cbn [length l_jti linked l_parent_jti].
  split; [lia|]. split; [by subst|]. split; [|split].
  - constructor; [|done]. unfold link_ok. cbn. split; [done|].
    destruct th as [th|]; [destruct E0|]; (split; [done|]).
    all: destruct pj as [pj|]; [destruct E1|]; (split; [done|]).
    all: try (apply optional_nonempty_ok in E2; destruct x2; [destruct E2|]; done).
    all: by injection E2 as <-.
  - constructor; [|done]. intros (l & E & Hi)%list_elem_of_fmap.
    rewrite Forall_forall in Hd. apply (Hd l Hi). rewrite <- E. set_solver.
  - constructor; [done|]. eapply Forall_impl; [done|]. set_solver.
Qed.

Lemma opt_item_get k k' v : py_get k (opt_item k' v) =
  if String.eqb k k' then match v with Some s => PStr s | None => PNone end else PNone.
Proof. unfold py_get. destruct v; cbn; by destruct (String.eqb k k'). Qed.

Lemma link_dict_get l : exists d, link_dict l = PDict d /\
  py_get "jti" d = PStr (l_jti l) /\
  py_get "token_hash" d = match l_token_hash l with Some s => PStr s | None => PNone end /\
  py_get "parent_jti" d = match l_parent_jti l with Some s => PStr s | None => PNone end /\
  py_get "parent_token_hash" d =
    match l_parent_token_hash l with Some s => PStr s | None => PNone end.
Proof.
  eexists. split; [done|]. destruct l as [j [th|] [pj|] [ph|]]; done.
Qed.

Lemma optional_nonempty_in o : some_nonempty o ->
  optional_nonempty_str match o with Some s => PStr s | None => PNone end = Ok o.
Proof. destruct o as [s|]; [|done]. cbn. by intros ->. Qed.

(** Normalised links, written back as dicts, are read back as they were. *)
Lemma chain_loop_dicts chain seen expected :
  linked expected chain -> Forall link_ok chain -> NoDup (l_jti <$> chain) ->
  Forall (fun l => l_jti l ∉ seen) chain ->
  chain_loop (link_dict <$> chain) seen expected = Ok chain.
Proof.
  revert seen expected. induction chain as [|l chain IH]; intros seen expected Hl Hf Hn Hs.
  { cbn in *. by subst. }
  apply NoDup_cons in Hn as [Hnew Hn]. rewrite fmap_cons.
  apply Forall_cons in Hf as [(Hj & Hth & Hpj & Hph & Hpn) Hf]. apply Forall_cons in Hs as [Hns Hs].
  destruct Hl as [-> Hl]. destruct (link_dict_get l) as (d & -> & E1 & E2 & E3 & E4).
  cbn [chain_loop]. rewrite E1, E2, E3, E4. cbn [require_nonempty_str]. rewrite Hj. cbn [negb]. res_simpl.
  rewrite bool_decide_true by done. rewrite (proj2 (str_in_false _ _) Hns). cbn [negb].
  rewrite !optional_nonempty_in by done. res_simpl.
  replace (match l_parent_jti l with Some _ => _ | None => _ end)
    with (@Ok passport_exc _ (l_parent_token_hash l)).
  2: { destruct (l_parent_jti l); [done|]. by rewrite Hpn. }
  res_simpl. rewrite IH; [by destruct l|done..|].
  apply Forall_forall. intros l' Hl'. rewrite Forall_forall in Hs. specialize (Hs l' Hl').
  rewrite not_elem_of_cons. split; [|done]. intros E. apply Hnew. rewrite <- E.
  apply list_elem_of_fmap. by exists l'.
Qed.

Lemma chain_entries_ok c chain :
  delegation_chain_entries c = Ok chain ->
  exists jti, py_get "jti" c = PStr jti /\ (length chain <= MAX_DELEGATION_DEPTH)%nat /\
    NoDup (jti :: (l_jti <$> chain)) /\
    linked (as_str (py_get "parent_jti" c)) chain /\ Forall link_ok chain.
Proof.
  unfold delegation_chain_entries. intros Ho. bind_inv Ho.
  apply require_nonempty_ok in E as [Hj Hne]. exists x. split; [done|].
  assert (Hroot : Ok (E:=passport_exc) [] = Ok chain -> py_get "parent_jti" c = PNone ->
    (length chain <= MAX_DELEGATION_DEPTH)%nat /\ NoDup (x :: (l_jti <$> chain)) /\
    linked (as_str (py_get "parent_jti" c)) chain /\ Forall link_ok chain).
  { intros [= <-] ->. split; [cbn; lia|]. split; [apply NoDup_singleton|]. by split. }
  destruct (py_get "parent_jti" c) eqn:Ep.
  1: { destruct (py_get DELEGATION_CHAIN_CLAIM c) as [| | | | |[|]|]; try done; by apply Hroot. }
  all: bind_inv Ho; apply require_nonempty_ok in E as [[= ->] Hp].
  destruct (py_get DELEGATION_CHAIN_CLAIM c) as [| | | | |raw|]; try done.
  rewrite !guard_ok in Ho. destruct Ho as (_ & Hlen & Ho). apply Nat.ltb_ge in Hlen.
  apply chain_loop_ok in Ho as (Hl & Hk & Hf & Hn & Hs). split; [lia|]. split; [|done].
  apply NoDup_cons. split; [|done]. intros (l & E & Hi)%list_elem_of_fmap.
  rewrite Forall_forall in Hs. apply (Hs l Hi). rewrite E. set_solver.
Qed.

(** A passport's delegation chain is a bounded acyclic path to a root:
    the normaliser only returns chains of at most 16 ancestors whose first is
    the passport's parent, each ancestor naming the next as its parent, the
    last naming none, and no identifier repeated, the passport's own included. *)
Theorem chain_wellformed c chain :
  delegation_chain_entries c = Ok chain ->
  exists jti, py_get "jti" c = PStr jti /\ (length chain <= MAX_DELEGATION_DEPTH)%nat /\
    NoDup (jti :: (l_jti <$> chain)) /\
    linked (as_str (py_get "parent_jti" c)) chain /\ Forall link_ok chain.
Proof. apply chain_entries_ok. Qed.

(** ** The working directory *)

(** The segments of a path that [normpath] keeps. *)
Definition kept (comp : string) : bool := negb (str_in comp [""; "."]).
Definition segs (path : string) : list string := filter kept (split_on "/" path).

Definition no_slash (w : string) : Prop := str_all (fun a => negb (Ascii.eqb a "/")) w = true.

Lemma segs_app a b : segs (a ++ "/" ++ b) = (segs a ++ segs b)%list.
Proof. unfold segs. change ("/" ++ b) with (String "/" b). by rewrite split_on_app, filter_app. Qed.

Lemma segs_ok path : Forall (fun w => kept w = true /\ no_slash w) (segs path).
Proof.
  unfold segs. apply Forall_forall. intros w [Hk Hw]%RiskPolicy.filter_sub. split; [done|].
  eapply Forall_forall in Hw; [exact Hw|]. apply split_on_parts.
Qed.

Lemma segs_join l : Forall (fun w => kept w = true /\ no_slash w) l -> segs (join "/" l) = l.
Proof.
  intros Hl. induction Hl as [|w l [Hk Hn] Hl IH]; [done|]. destruct l as [|w' l].
  - unfold segs. cbn [join]. rewrite split_on_no by done. by rewrite filter_bool_cons, Hk.
  - cbn [join] in *. rewrite segs_app, IH. unfold segs. rewrite split_on_no by done.
    by rewrite filter_bool_cons, Hk.
Qed.

Lemma segs_slashes n path : segs (slashes n ++ path) = segs path.
Proof.
  induction n as [|n IH]; [done|]. cbn [slashes]. rewrite str_app_assoc.
  change ("/" ++ (slashes n ++ path)) with ("" ++ "/" ++ (slashes n ++ path)).
  by rewrite segs_app, IH.
Qed.

Lemma join_app a b : a <> [] -> b <> [] ->
  join "/" (a ++ b)%list = join "/" a ++ "/" ++ join "/" b.
Proof.
  intros Ha Hb. induction a as [|w a IH]; [done|]. destruct a as [|w' a].
  - by destruct b.
  - change (join "/" ((w :: w' :: a) ++ b)%list) with (w ++ "/" ++ join "/" ((w' :: a) ++ b)%list).
    rewrite IH by done. cbn [join]. by rewrite !str_app_assoc.
Qed.

(** Without [..] segments, [normpath] only drops empty and [.] segments. *)
Lemma norm_steps_filter b comps acc : str_in ".." comps = false ->
  foldl (norm_step b) acc comps = (reverse (filter kept comps) ++ acc)%list.
Proof.
  revert acc. induction comps as [|c comps IH]; intros acc Hd; [done|].
  apply str_in_false, not_elem_of_cons in Hd as [Hc Hd%str_in_false]. cbn [foldl]. rewrite IH by done.
  unfold norm_step. rewrite filter_bool_cons. change (kept c) with (negb (str_in c [""; "."])).
  destruct (str_in c [""; "."]); cbn [negb]; [done|]. rewrite reverse_cons, <- app_assoc. by destruct (String.eqb_spec c "..").
Qed.

Lemma normalize_cwd_form a p : normalize_cwd (Some a) = Ok (Some p) ->
  exists n, (n = 1 \/ n = 2)%nat /\ p = slashes n ++ join "/" (segs (py_strip a)) /\
    segs p = segs (py_strip a).
Proof.
  cbn [normalize_cwd]. destruct (non_empty (py_strip a)) eqn:Ene; [|done]. cbn [negb].
  rewrite !guard_ok, negb_false_iff. intros (Hs & Hd & [= <-]).
  assert (Hn : (initial_slashes (py_strip a) = 1 \/ initial_slashes (py_strip a) = 2)%nat).
  { unfold initial_slashes. rewrite Hs. destruct (_ && _); auto. }
  exists (initial_slashes (py_strip a)). split; [done|].
  assert (E : normpath (py_strip a)
    = slashes (initial_slashes (py_strip a)) ++ join "/" (segs (py_strip a))).
  { unfold normpath. rewrite Ene, norm_steps_filter, app_nil_r, reverse_involutive by done.
    cbn [negb]. by destruct Hn as [-> | ->]. }
  split; [done|]. rewrite E, segs_slashes. apply segs_join, segs_ok.
Qed.

(** Working directories are compared by path segments: a child directory
    is accepted under a parent's only if the parent's segments are a prefix of
    the child's, so [/workspaceabc] never passes under [/workspace]; and any
    normalised directory below a normalised parent is accepted (outside the
    two-slash roots POSIX sets apart). *)
Theorem cwd_subpath_exact a b child parent :
  normalize_cwd (Some a) = Ok (Some child) -> normalize_cwd (Some b) = Ok (Some parent) ->
  (cwd_is_subpath child parent = true -> segs parent `prefix_of` segs child) /\
  (String.prefix "//" child = false -> String.prefix "//" parent = false ->
   segs parent `prefix_of` segs child -> cwd_is_subpath child parent = true).
Proof.
  intros Ha Hb. split.
  - unfold cwd_is_subpath. destruct (String.eqb_spec child parent) as [->|_]; [done|].
    destruct (String.eqb_spec parent "/") as [->|_]; [intros _; apply prefix_nil|].
    intros [rest ->]%prefix_spec. rewrite str_app_assoc, segs_app. by eexists.
  - destruct (normalize_cwd_form _ _ Ha) as (n & Hn & Ec & Esc).
    destruct (normalize_cwd_form _ _ Hb) as (m & Hm & Ep & Esp).
    intros Hc1 Hp1 [ext Hext]. rewrite <- Esc in Ec. rewrite <- Esp in Ep. clear Ha Hb Esc Esp.
    destruct Hn as [-> | ->]; [|rewrite Ec, (prefix_app "//") in Hc1; done].
    destruct Hm as [-> | ->]; [|rewrite Ep, (prefix_app "//") in Hp1; done].
    cbn [slashes] in Ec, Ep. rewrite str_app_nil_r in Ec, Ep. clear Hc1 Hp1.
    unfold cwd_is_subpath. destruct (String.eqb_spec child parent) as [->|Hne]; [done|].
    destruct (String.eqb_spec parent "/") as [_|Hr]; [rewrite Ec; apply prefix_app|].
    assert (ext <> []) as He.
    { intros ->. rewrite app_nil_r in Hext. apply Hne. rewrite Ec, Ep. by rewrite Hext. }
    assert (segs parent <> []) as Hs by (intros E; apply Hr; rewrite Ep, E; done).
    rewrite Ec, Hext, join_app by done. rewrite <- str_app_assoc, <- Ep, <- str_app_assoc.
    apply prefix_app.
Qed.

(** Normalising twice is not normalising once: the second pass strips the
    white space that dropping a trailing [/.] exposed, and the directory it
    returns is above the first. *)
Theorem cwd_renormalised_widens :
  normalize_cwd (Some "/w/ /.") = Ok (Some "/w/ ") /\
  normalize_cwd (Some "/w/ ") = Ok (Some "/w") /\
  cwd_is_subpath "/w" "/w/ " = false /\ cwd_is_subpath "/w/ " "/w" = true.
Proof. by vm_compute. Qed.

Lemma join_no_slash l : Forall (fun w => kept w = true /\ no_slash w) l ->
  String.prefix "/" (join "/" l) = false.
Proof.
  intros Hl. destruct Hl as [|w l [Hk Hs] _]; [done|]. destruct w as [|x w]; [done|].
  apply andb_true_iff in Hs as [Hx _].
  assert (Hj : exists t, join "/" (String x w :: l) = String x t) by (destruct l; by eexists).
  destruct Hj as [t ->]. cbn [String.prefix]. by destruct (ascii_dec "/" x) as [<-|].
Qed.

Lemma prefix_slash a s : String.prefix (String "/" a) (String "/" s) = String.prefix a s.
Proof. cbn [String.prefix]. by destruct (ascii_dec "/" "/"). Qed.

Lemma initial_slashes_join n l : (n = 1 \/ n = 2)%nat ->
  Forall (fun w => kept w = true /\ no_slash w) l -> initial_slashes (slashes n ++ join "/" l) = n.
Proof.
  intros Hn Hl%join_no_slash. unfold initial_slashes.
  destruct Hn as [-> | ->]; cbn [slashes].
  - change (("/" ++ "") ++ join "/" l) with (String "/" (join "/" l)).
    rewrite !prefix_slash, Hl. by destruct (join "/" l).
  - change (("/" ++ "/" ++ "") ++ join "/" l) with (String "/" (String "/" (join "/" l))).
    rewrite !prefix_slash, Hl. by destruct (join "/" l).
Qed.

(** A normalised directory that does not end in white space is stable. *)
Lemma normalize_cwd_stable a p :
  normalize_cwd (Some a) = Ok (Some p) -> py_strip p = p -> normalize_cwd (Some p) = Ok (Some p).
Proof.
  intros Ha Hp. destruct (normalize_cwd_form _ _ Ha) as (n & Hn & E & Es).
  cbn [normalize_cwd] in Ha. destruct (negb (non_empty (py_strip a))); [done|].
  rewrite !guard_ok in Ha. destruct Ha as (_ & Hd & _).
  assert (Hdots : str_in ".." (split_on "/" p) = false).
  { apply str_in_false. intros Hi. apply str_in_false in Hd. apply Hd.
    assert (Hk : ".." ∈ segs p) by (by apply RiskPolicy.filter_sub).
    rewrite Es in Hk. by apply RiskPolicy.filter_sub in Hk as [_ ?]. }
  assert (Hpre : String.prefix "/" p = true).
  { rewrite E. destruct Hn as [-> | ->]; apply (prefix_app "/"). }
  assert (Hne : non_empty p = true) by (rewrite E; by destruct Hn as [-> | ->]).
  assert (Hi : initial_slashes p = n) by (rewrite E; apply initial_slashes_join; [done|apply segs_ok]).
  cbn [normalize_cwd]. rewrite Hp, Hne, Hpre, Hdots. cbn [negb]. do 2 f_equal.
  unfold normpath. rewrite Hne, Hi, norm_steps_filter, app_nil_r, reverse_involutive by done.
  fold (segs p). rewrite Es, <- E, Hne. done.
Qed.

(** ** The claims of a derived child *)

Lemma lift_ok {E A} (f : E -> passport_exc) (m : res E A) a : lift f m = Ok a <-> m = Ok a.
Proof. destruct m; cbn; naive_solver. Qed.

Lemma new_mission_ok ag mi al fo sc ca du de dp pj cwd cl pc th sp id po spend risk m :
  new_mission ag mi al fo sc ca du de dp pj cwd cl pc th sp id po spend risk = Ok m ->
  exists cwd' spend', normalize_cwd cwd = Ok cwd' /\
    match spend with
    | None => spend' = None
    | Some raw => exists p, normalize_spend_budget raw None false = Ok p /\ spend' = Some p
    end /\
    m = MkMission ag mi al fo sc ca du de dp pj cwd' cl pc th sp id po spend' risk.
Proof.
  unfold new_mission. intros Ho. bind_inv Ho. bind_inv Ho. rewrite guard_ok in Ho.
  destruct Ho as [_ [= <-]]. exists x, x0. split; [done|]. split; [|done].
  destruct spend; [|by injection E0 as <-]. bind_inv E0. injection E0 as <-.
  apply lift_ok in E1. by exists x1.
Qed.

Section Delegation.
Context `{Digests, Jwt}.

(** What [derive_mission] read from the parent and checked. *)
#[local] Set Implicit Arguments.
Record derivation (parent : claims) (r : child_request) (now : Z) (child : MissionPassport)
    (ttl : Z) (tools forbidden scope : list string) (pexp depth ceiling : Z) (jti : string) : Prop := {
  dv_delegable : truthy (py_get "delegation_allowed" parent) = true;
  dv_tools : get_str_list "allowed_tools" parent = Ok tools;
  dv_subset : child_allowed_tools r ⊆ tools;
  dv_nonempty : child_allowed_tools r <> [];
  dv_allowed : m_allowed_tools child = sorted_set (child_allowed_tools r);
  dv_forbidden : get_str_list "forbidden_tools" parent = Ok forbidden;
  dv_child_forbidden : m_forbidden_tools child =
    sorted_set (forbidden ++ set_minus tools (child_allowed_tools r))%list;
  dv_exp : int_of (get_or "exp" PNone parent) = Ok pexp;
  dv_ttl : 0 < ttl <= pexp - now;
  dv_depth_pos : num_le0 (get_or "max_delegation_depth" (PInt 0) parent) = Ok false;
  dv_depth : int_of (get_or "max_delegation_depth" PNone parent) = Ok depth;
  dv_child_depth : m_max_delegation_depth child = depth - 1;
  dv_child_delegable : m_delegation_allowed child = (0 <? depth - 1);
  dv_ceiling : int_of (get_or "max_tool_calls" (PInt 50) parent) = Ok ceiling;
  dv_budget : child_budget_of r ceiling = Ok (m_max_tool_calls child);
  dv_scope : get_str_list "resource_scope" parent = Ok scope;
  dv_child_scope : child_scope_of r scope = Ok (m_resource_scope child);
  dv_cwd : exists raw pcwd fcwd, get_opt_str "cwd" ValueErr parent = Ok raw /\
    normalize_cwd raw = Ok pcwd /\ child_cwd_of r pcwd = Ok fcwd /\
    normalize_cwd fcwd = Ok (m_cwd child);
  dv_risk : exists risk, child_risk_of r (py_get "risk_budget" parent) (child_allowed_tools r) = Ok risk /\
    m_risk_budget child = RiskPolicy.risk_policy_dict <$> risk;
  dv_spend : match py_get "spend_budget" parent with
    | PNone => m_spend_budget child = None
    | raw => exists p, normalize_spend_budget raw None true = Ok p /\ m_spend_budget child = Some p
    end;
  dv_jti : py_get "jti" parent = PStr jti /\ non_empty jti = true;
  dv_parent_jti : m_parent_jti child = Some jti;
  dv_rest : m_allowed_side_effect_classes child = [] /\ m_max_tool_calls_per_class child = [] /\
    m_additional_policies child = [] /\ m_holder_key_thumbprint child = None /\
    m_mission_id child = None /\ m_agent_id child = child_agent_id r /\
    m_mission child = child_mission r
}.
#[local] Unset Implicit Arguments.

Lemma require_lineage_some raw p :
  normalize_spend_budget raw None true = Ok p -> sp_lineage_id p <> None.
Proof.
  destruct raw as [| | | | | |raw]; try discriminate. unfold normalize_spend_budget.
  intros Ho. ok_steps Ho. destruct (py_get "metered_tools" raw); try discriminate. ok_steps Ho.
  destruct (py_get "ceilings" raw); try discriminate. ok_steps Ho. subst p. cbn.
  unfold effective_lineage_id in *. ok_steps E6. destruct (py_get "lineage_id" raw); ok_steps E6; congruence.
Qed.

Lemma subscript_ok k (c : claims) v : subscript k c = Ok v -> dget k c = Some v.
Proof. unfold subscript. destruct (dget k c); naive_solver. Qed.

Lemma derive_mission_ok parent r now child ttl :
  derive_mission parent r now = Ok (child, ttl) ->
  exists tools forbidden scope pexp depth ceiling jti,
    derivation parent r now child ttl tools forbidden scope pexp depth ceiling jti.
Proof.
  unfold derive_mission. rewrite guard_ok, negb_false_iff. intros [Hd Ho].
  apply bind_ok in Ho as (ex & Hex & Ho). rewrite guard_ok in Ho. destruct Ho as [-> Ho].
  apply bind_ok in Ho as (traw & Ht%subscript_ok & Ho). apply bind_ok in Ho as (tools & Htools & Ho).
  rewrite !guard_ok in Ho. destruct Ho as (Hsub & Hne & Ho).
  apply bind_ok in Ho as (eraw & He%subscript_ok & Ho). apply bind_ok in Ho as (pexp & Hexp & Ho).
  rewrite !guard_ok in Ho. destruct Ho as (Hmax & Hreq & Ho).
  apply bind_ok in Ho as (draw & Hdr%subscript_ok & Ho). apply bind_ok in Ho as (depth & Hdepth & Ho).
  apply bind_ok in Ho as (ceiling & Hceil & Ho). apply bind_ok in Ho as (budget & Hbud & Ho).
  apply bind_ok in Ho as (scope & Hscope & Ho). apply bind_ok in Ho as (fscope & Hfs & Ho).
  apply bind_ok in Ho as (craw & Hcraw & Ho). apply bind_ok in Ho as (pcwd & Hpcwd & Ho).
  apply bind_ok in Ho as (fcwd & Hfcwd & Ho). apply bind_ok in Ho as (risk & Hrisk & Ho).
  apply bind_ok in Ho as (forb & Hforb & Ho).
  apply bind_ok in Ho as (jti & Hj%require_nonempty_ok & Ho).
  apply bind_ok in Ho as (spend & Hspend & Ho). apply bind_ok in Ho as (m & Hm & [= <- <-]).
  apply new_mission_ok in Hm as (cwd' & spend' & Hc & Hs & ->).
  exists tools, forb, scope, pexp, depth, ceiling, jti. constructor; cbn -[normalize_spend_budget]; try done.
  - unfold get_str_list. by rewrite Ht.
  - by apply negb_false_iff, subset_b_spec in Hsub.
  - by intros E'; rewrite E' in Hne.
  - unfold get_or. by rewrite He.
  - lia.
  - unfold get_or. by rewrite Hdr.
  - by exists craw, pcwd, fcwd.
  - by exists risk.
  - assert (Hsp : forall raw, (p ← lift SpendErr (normalize_spend_budget raw None true);
        Ok (Some (spend_policy_dict p))) = Ok spend ->
        exists p, normalize_spend_budget raw None true = Ok p /\ spend' = Some p).
    { intros raw Hr. apply bind_ok in Hr as (p & Hp%lift_ok & [= <-]). exists p. split; [done|].
      destruct Hs as (q & Hq & ->). rewrite normalize_policy_dict in Hq; [congruence| |done].
      by eapply normalize_wf. }
    destruct (py_get "spend_budget" parent); try (by apply Hsp). injection Hspend as <-. done.
Qed.

(** The spend and risk claims of a child: the parent's ceilings as they were
    normalised, and the attenuated risk policy. *)
Definition spend_items (m : MissionPassport) : claims :=
  match m_spend_budget m with Some p => [("spend_budget", spend_policy_dict p)] | None => [] end.
Definition risk_items (m : MissionPassport) : claims :=
  match m_risk_budget m with Some p => [("risk_budget", PDict p)] | None => [] end.

Definition base_items (m : MissionPassport) (jti : string) (now ttl : Z) : claims :=
  [("iss", PStr DEFAULT_ISSUER); ("sub", PStr (m_agent_id m)); ("aud", PStr DEFAULT_AUDIENCE);
   ("iat", PInt now); ("nbf", PInt now); ("exp", PInt (now + ttl)); ("jti", PStr jti);
   ("mission_id", PStr (derive_mission_id (m_agent_id m) (m_mission m)));
   ("mission", PStr (m_mission m));
   ("allowed_tools", str_pylist (m_allowed_tools m));
   ("forbidden_tools", str_pylist (m_forbidden_tools m));
   ("resource_scope", str_pylist (m_resource_scope m));
   ("max_tool_calls", PInt (m_max_tool_calls m));
   ("max_duration_s", PInt (m_max_duration_s m));
   ("delegation_allowed", PBool (m_delegation_allowed m));
   ("max_delegation_depth", PInt (m_max_delegation_depth m))].

Lemma child_risk_wf r raw tools risk :
  child_risk_of r raw tools = Ok (Some risk) -> RiskPolicy.risk_wf risk.
Proof.
  unfold child_risk_of. destruct raw; try done; [by rewrite guard_ok; intros [_ ?]|].
  intros Ho. apply bind_ok in Ho as (pr & Hp%lift_ok & Ho). destruct pr as [pr|].
  - apply bind_ok in Ho as (f & Hf%lift_ok & Ho). rewrite guard_ok in Ho. destruct Ho as [_ [= ->]].
    destruct (child_risk_budget r) as [cr|].
    + by apply RiskPolicy.attenuate_narrower in Hf as (? & _ & ? & _).
    + cbn -[RiskPolicy.normalize_risk_budget] in Hf. apply bind_ok in Hf as (? & Hn & [= ->]).
      by eapply RiskPolicy.normalize_risk_wf.
  - rewrite guard_ok in Ho. by destruct Ho.
Qed.

Lemma issue_spend_child parent r now m ttl tools forb scope pexp depth ceil jti fresh s :
  derivation parent r now m ttl tools forb scope pexp depth ceil jti ->
  issue_spend m fresh = Ok s -> s = spend_items m.
Proof.
  intros D. unfold issue_spend, spend_items. destruct (m_spend_budget m) as [p|] eqn:Es;
    [|by intros [= <-]].
  assert (Hp : exists raw, normalize_spend_budget raw None true = Ok p).
  { pose proof (dv_spend D) as Hs.
    destruct (py_get "spend_budget" parent); [congruence|..];
      destruct Hs as (q & Hq & Eq); eexists; rewrite Es in Eq; injection Eq as ->; exact Hq. }
  destruct Hp as [raw Hp]. pose proof (require_lineage_some _ _ Hp) as Hl.
  rewrite !guard_ok. intros (_ & _ & Ho). apply bind_ok in Ho as (q & Hq%lift_ok & [= <-]).
  destruct (sp_lineage_id p) as [l|] eqn:El; [|done]. cbn [default] in Hq.
  rewrite normalize_policy_dict_at in Hq; [congruence|by eapply normalize_wf|right; by rewrite El|by rewrite El].
Qed.

Lemma issue_risk_child parent r now m ttl tools forb scope pexp depth ceil jti fresh s :
  derivation parent r now m ttl tools forb scope pexp depth ceil jti ->
  issue_risk m fresh = Ok s -> s = risk_items m.
Proof.
  intros D. destruct (dv_risk D) as (risk & Hr & Em).
  unfold issue_risk, risk_items. rewrite Em. destruct risk as [p|]; [|by intros [= <-]].
  pose proof (child_risk_wf _ _ _ _ Hr) as Hw. cbn [fmap option_fmap option_map].
  change (py_get "lineage_id" (RiskPolicy.risk_policy_dict p))
    with (PStr (RiskPolicy.rp_lineage_id p)). cbn match.
  rewrite RiskPolicy.normalize_risk_dict by done. cbn [lift]. res_simpl. rewrite guard_ok.
  by intros [_ [= <-]].
Qed.

(** The signed claims, item by item. *)
Lemma issue_child parent r now m ttl tools forb scope pexp depth ceil jti extra fresh t2 c :
  derivation parent r now m ttl tools forb scope pexp depth ceil jti ->
  issue_claims m DEFAULT_ISSUER DEFAULT_AUDIENCE (Some ttl) extra None fresh t2 = Ok c ->
  c = (base_items m fresh t2 ttl ++ [("parent_jti", PStr jti)] ++ opt_item "cwd" (m_cwd m)
       ++ spend_items m ++ risk_items m ++ extra)%list.
Proof.
  intros D. unfold issue_claims. rewrite guard_ok. intros [_ Ho].
  apply bind_ok in Ho as (sp & Hs & Ho). apply bind_ok in Ho as (rk & Hr & Ho).
  rewrite guard_ok in Ho. destruct Ho as [_ [= <-]].
  eapply issue_spend_child in Hs as ->; [|done]. eapply issue_risk_child in Hr as ->; [|done].
  destruct (dv_rest D) as (-> & -> & -> & -> & -> & _ & _).
  rewrite (dv_parent_jti D). cbn [nonempty_opt].
  destruct (dv_jti D) as [_ ->].
  cbn [default opt_item length Nat.eqb app]. unfold base_items. rewrite <- !app_assoc. done.
Qed.

(** The extra claims of a derivation. *)
Definition lineage_items (parent_token : token) (chain : list link) (budget : Z) : claims :=
  [("parent_token_hash", PStr (token_sha256 parent_token));
   (DELEGATION_CHAIN_CLAIM, PList (link_dict <$> chain)); ("reserved_budget_share", PInt budget)].

Lemma mic_shape parent mic : inherited_mic_conformance_claims parent = Ok mic ->
  mic = [] /\ has_key "conformance_profile" parent = false \/
  mic = ((fun k => (k, py_get k parent)) <$> DELEGATED_MIC_CLAIMS)%list.
Proof.
  unfold inherited_mic_conformance_claims. destruct (has_key _ parent); cbn [negb];
    [|intros [= <-]; by left].
  rewrite guard_ok. intros [_ Ho]. destruct (py_get "conformance_profile" parent); try done.
  destruct (py_get "receipt_policy" parent); try done. rewrite !guard_ok in Ho.
  destruct Ho as (_ & _ & Ho). destruct (py_get "level" d); try done. rewrite !guard_ok in Ho.
  destruct Ho as (_ & _ & _ & [= <-]). by right.
Qed.

(** Everything a derivation did. *)
Lemma derive_child_ok pt pub key r fresh t0 t1 t2 t :
  derive_child_passport pt pub key r fresh t0 t1 t2 = Ok t ->
  exists parent chain l mic m ttl tools forb scope pexp depth ceil jti,
    decode_passport pt pub DEFAULT_AUDIENCE t0 = Ok parent /\
    delegation_chain_entries parent = Ok chain /\ parent_link parent pt = Ok l /\
    (length (l :: chain) <= MAX_DELEGATION_DEPTH)%nat /\
    inherited_mic_conformance_claims parent = Ok mic /\
    derivation parent r t1 m ttl tools forb scope pexp depth ceil jti /\
    t = jwt_encode (base_items m fresh t2 ttl ++ [("parent_jti", PStr jti)] ++ opt_item "cwd" (m_cwd m)
         ++ spend_items m ++ risk_items m ++ mic
         ++ lineage_items pt (l :: chain) (m_max_tool_calls m))%list key.
Proof.
  unfold derive_child_passport. intros Ho. apply bind_ok in Ho as (parent & Hp & Ho).
  apply bind_ok in Ho as (chain & Hc & Ho). apply bind_ok in Ho as ([m ttl] & Hm & Ho).
  apply bind_ok in Ho as (l & Hl & Ho). rewrite guard_ok in Ho. destruct Ho as [Hlen Ho].
  apply bind_ok in Ho as (mic & Hmic & Ho).
  apply derive_mission_ok in Hm as (tools & forb & scope & pexp & depth & ceil & jti & D).
  apply bind_ok in Ho as (c & Hi & [= <-]). eapply issue_child in Hi; [|done].
  exists parent, chain, l, mic, m, ttl, tools, forb, scope, pexp, depth, ceil, jti.
  apply Nat.ltb_ge in Hlen. do 6 (split; [done|]). by rewrite Hi.
Qed.

End Delegation.

(** Look a claim up in the items of a derived child. *)
Ltac claims_get m :=
  unfold spend_items, risk_items; destruct (m_spend_budget m), (m_risk_budget m); reflexivity.

(** ** Attenuation *)

Lemma str_list_pylist l : str_list (str_pylist l) = Ok l.
Proof.
  unfold str_list, str_pylist. replace (mapM as_str (PStr <$> l)) with (Some l); [done|].
  induction l as [|x l IH]; [done|]. rewrite fmap_cons. cbn. by rewrite <- IH.
Qed.

Lemma foldr_min_le a l x : x ∈ l \/ x = a -> foldr Z.min a l <= x.
Proof.
  induction l as [|y l IH]; cbn; [intros [Hx| ->]; [by apply elem_of_nil in Hx|lia]|].
  rewrite elem_of_cons. intros [[->|Hx]|Hx]; [lia|..]; [specialize (IH (or_introl Hx))|specialize (IH (or_intror Hx))]; lia.
Qed.

Lemma foldr_min_pos a l : 0 < a -> Forall (fun x => 0 < x) l -> 0 < foldr Z.min a l.
Proof. intros Ha Hl. induction Hl; cbn; lia. Qed.

Lemma child_budget_ok r ceiling b : child_budget_of r ceiling = Ok b ->
  0 < b /\ b <= ceiling - parent_reserved_for_descendants r /\ b <= ceiling /\
  (forall n, parent_calls_remaining r = Some n -> b <= n) /\
  (forall n, child_max_tool_calls r = Some n -> b <= n).
Proof.
  unfold child_budget_of. rewrite !guard_ok. intros (Hr & Hc & He & Hp & Hm & Ho).
  set (l := (_ ++ _)%list) in Ho. assert (b = foldr Z.min ceiling l) as -> by congruence. clear Ho. split.
  - apply foldr_min_pos; [lia|]. subst l. repeat apply Forall_app_2.
    + constructor; [lia|done].
    + destruct (parent_calls_remaining r); repeat constructor. lia.
    + destruct (child_max_tool_calls r); repeat constructor. lia.
  - split; [apply foldr_min_le; left; subst l; set_solver|].
    split; [apply foldr_min_le; by right|].
    split; intros n En; apply foldr_min_le; left; subst l; rewrite En; set_solver.
Qed.

Lemma child_scope_ok r scope s : child_scope_of r scope = Ok s ->
  scope = [UNRESTRICTED_RESOURCE_SCOPE_PATTERN] \/ s ⊆ scope.
Proof.
  unfold child_scope_of. destruct (child_resource_scope r) as [req|]; [|intros [= <-]; by right].
  rewrite guard_ok. intros [_ Ho]. destruct (length _ =? 0)%nat; [injection Ho as <-; right; set_solver|].
  destruct (resource_scope_is_explicitly_unrestricted scope) eqn:E.
  { left. by apply bool_decide_eq_true in E. }
  rewrite guard_ok, negb_false_iff, subset_b_spec in Ho. destruct Ho as [Hs [= <-]]. right.
  intros x Hx. apply Hs. by apply elem_of_sorted_set.
Qed.

(** A directory the child may be confined to under the parent's directory. *)
Lemma child_cwd_ok r pcwd fcwd : child_cwd_of r pcwd = Ok fcwd ->
  match pcwd with
  | None => fcwd = None
  | Some p => exists f, fcwd = Some f /\ segs p `prefix_of` segs f /\
      (f = p \/ exists a, normalize_cwd (Some a) = Ok (Some f))
  end.
Proof.
  unfold child_cwd_of. destruct (child_cwd r) as [a|].
  - intros Ho. apply bind_ok in Ho as (f & Hf & Ho). destruct f as [f|], pcwd as [p|]; try done.
    + rewrite guard_ok, negb_false_iff in Ho. destruct Ho as [Hs [= <-]]. exists f.
      split; [done|]. split; [|right; by exists a].
      unfold cwd_is_subpath in Hs. destruct (String.eqb_spec f p) as [->|_]; [done|].
      destruct (String.eqb_spec p "/") as [->|_]; [apply prefix_nil|].
      apply prefix_spec in Hs as [rest ->]. rewrite str_app_assoc, segs_app. by eexists.
    + by injection Ho as <-.
  - intros [= <-]. destruct pcwd as [p|]; [|done]. exists p. split; [done|]. split; [done|by left].
Qed.

Section Attenuation.
Context `{Digests, Jwt}.

(** [c] grants no authority beyond [parent]'s. *)
Record narrower_authority (parent : claims) (r : child_request) (c : claims) : Prop := {
  au_tools : exists pt ct, get_str_list "allowed_tools" parent = Ok pt /\
    get_str_list "allowed_tools" c = Ok ct /\ ct <> [] /\ ct ⊆ pt /\
    (forall x, x ∈ ct <-> x ∈ child_allowed_tools r) /\
    exists pf cf, get_str_list "forbidden_tools" parent = Ok pf /\
      get_str_list "forbidden_tools" c = Ok cf /\
      forall x, x ∈ cf <-> x ∈ pf \/ (x ∈ pt /\ x ∉ ct);
  au_scope : exists ps cs, get_str_list "resource_scope" parent = Ok ps /\
    get_str_list "resource_scope" c = Ok cs /\
    (ps = [UNRESTRICTED_RESOURCE_SCOPE_PATTERN] \/ cs ⊆ ps);
  au_cwd : exists raw pcwd, get_opt_str "cwd" ValueErr parent = Ok raw /\
    normalize_cwd raw = Ok pcwd /\
    match pcwd with
    | None => dget "cwd" c = None
    | Some p => exists f cwd, child_cwd_of r (Some p) = Ok (Some f) /\ segs p `prefix_of` segs f /\
        normalize_cwd (Some f) = Ok cwd /\ dget "cwd" c = PStr <$> cwd /\ (py_strip f = f -> cwd = Some f)
    end
}.

(** C15. A derived child never has more tools or scope than its parent: its
    tools are the requested subset of the parent's, every tool the parent forbade
    or the child gave up is forbidden, and its resource patterns are a subset of
    the parent's (any, under an unrestricted parent).  Without a directory of
    the parent's it has none; otherwise the directory [_cwd_is_subpath] accepted
    is at or below the parent's, and the child is signed with that directory
    normalised once more, which is the same directory when it has no white
    space at its ends. *)
Theorem child_authority_narrows pt pub key r fresh t0 t1 t2 t :
  derive_child_passport pt pub key r fresh t0 t1 t2 = Ok t ->
  exists parent, decode_passport pt pub DEFAULT_AUDIENCE t0 = Ok parent /\
    narrower_authority parent r (jwt_payload t).
Proof.
  intros Ho. apply derive_child_ok in Ho as (parent & chain & l & mic & m & ttl & tools & forb & scope
    & pexp & depth & ceil & jti & Hp & _ & _ & _ & Hmic & D & ->).
  exists parent. split; [done|]. rewrite jwt_payload_encode. set (c := (_ ++ _)%list).
  assert (Hall : get_str_list "allowed_tools" c = Ok (m_allowed_tools m)) by apply str_list_pylist.
  assert (Hforb : get_str_list "forbidden_tools" c = Ok (m_forbidden_tools m)) by apply str_list_pylist.
  assert (Hscope : get_str_list "resource_scope" c = Ok (m_resource_scope m)) by apply str_list_pylist.
  assert (Hcwd : dget "cwd" c = PStr <$> m_cwd m).
  { subst c. apply mic_shape in Hmic as [[-> _]| ->]; destruct (m_cwd m); claims_get m. }
  constructor.
  - exists tools, (m_allowed_tools m). split; [apply D|]. split; [done|].
    rewrite (dv_allowed D). pose proof (dv_subset D) as Hs. pose proof (dv_nonempty D) as Hn.
    split. { intros E. destruct (child_allowed_tools r) as [|x xs] eqn:Er; [done|].
      assert (Hx : x ∈ sorted_set (x :: xs)) by (apply elem_of_sorted_set; set_solver).
      rewrite E in Hx. by apply elem_of_nil in Hx. }
    split; [intros x Hx; apply Hs; by apply elem_of_sorted_set|].
    split; [intros x; apply elem_of_sorted_set|].
    exists forb, (m_forbidden_tools m). split; [apply D|]. split; [done|].
    intros x. rewrite (dv_child_forbidden D), !elem_of_sorted_set, elem_of_app.
    unfold set_minus. rewrite RiskPolicy.filter_sub, negb_true_iff, str_in_false. tauto.
  - exists scope, (m_resource_scope m). split; [apply D|]. split; [done|].
    eapply child_scope_ok, (dv_child_scope D).
  - destruct (dv_cwd D) as (raw & pcwd & fcwd & Hraw & Hn & Hf & Hm). exists raw, pcwd.
    split; [done|]. split; [done|]. pose proof (child_cwd_ok _ _ _ Hf) as Hf'. rewrite Hcwd. destruct pcwd as [p|].
    + destruct Hf' as (f & -> & Hpre & Hnorm). exists f, (m_cwd m). split_and!; [done..|]. intros Hs.
      assert (Hst : normalize_cwd (Some f) = Ok (Some f)).
      { destruct Hnorm as [->|[a Ha]]; [|by eapply normalize_cwd_stable].
        destruct raw as [raw|]; [|done]. by eapply normalize_cwd_stable. }
      rewrite Hst in Hm. by injection Hm as <-.
    + subst fcwd. cbn in Hm. by injection Hm as <-.
Qed.

Lemma child_risk_ok r raw tools risk :
  child_risk_of r raw tools = Ok risk ->
  (raw = PNone /\ risk = None) \/
  exists P, RiskPolicy.normalize_risk_budget raw None = Ok P /\
    (forall tool, tool ∈ dkeys (RiskPolicy.rp_tools P) -> tool ∈ tools ->
       exists p, risk = Some p /\ tool ∈ dkeys (RiskPolicy.rp_tools p)) /\
    forall p, risk = Some p ->
      (forall contract facts n,
         RiskPolicy.validate_action_risk (PDict (RiskPolicy.risk_policy_dict p)) contract facts = Ok n ->
         RiskPolicy.validate_action_risk raw contract facts = Ok n) /\
      (forall f b, dget f (RiskPolicy.rp_ceilings p) = Some b ->
         exists b', dget f (RiskPolicy.rp_ceilings P) = Some b' /\
           forall s, at_scope b s <= at_scope b' s).
Proof.
  unfold child_risk_of. destruct raw as [| | | | | |d]; try done.
  { rewrite guard_ok. intros [_ [= <-]]. by left. }
  intros Ho. right. apply bind_ok in Ho as (pr & Hp%lift_ok & Ho). destruct pr as [q|].
  2: { apply RiskPolicy.project_none in Hp as (P & HP & Hnone). exists P. split; [done|].
       rewrite guard_ok in Ho. destruct Ho as [_ [= <-]]. split; [|done].
       intros tool Hi Ha. by destruct (Hnone tool). }
  apply RiskPolicy.project_ok in Hp as (P & HP & Eq & Hw). exists P. split; [done|].
  apply bind_ok in Ho as (f & Hf%lift_ok & Ho). rewrite guard_ok, negb_false_iff, same_set_spec in Ho.
  destruct Ho as [Hsame [= <-]].
  assert (RiskPolicy.risk_wf f /\ (f = q \/ RiskPolicy.narrower q f)) as [Hwf Hnar].
  { destruct (child_risk_budget r) as [cr|].
    - apply RiskPolicy.attenuate_narrower in Hf as (q' & Hq & Hwf & Hn).
      rewrite RiskPolicy.normalize_risk_dict in Hq by done. injection Hq as <-. split; [done|by right].
    - unfold RiskPolicy.attenuate_risk_budget in Hf. rewrite RiskPolicy.normalize_risk_dict in Hf by done.
      injection Hf as <-. split; [done|by left]. }
  split; [|intros p [= <-]; split].
  - intros tool Hi Ha. exists f. split; [done|]. apply Hsame. subst q. apply dget_is_Some.
    unfold RiskPolicy.projected. cbn [RiskPolicy.rp_tools].
    rewrite (RiskPolicy.dget_filter (fun t => str_in t tools)), (proj2 (str_in_spec _ _) Ha).
    by apply dget_is_Some.
  - intros contract facts n. unfold RiskPolicy.validate_action_risk.
    rewrite HP, RiskPolicy.normalize_risk_dict by done. res_simpl. intros Hc.
    apply (RiskPolicy.projected_check_action P tools). rewrite <- Eq.
    destruct Hnar as [<-|Hn]; [done|by eapply RiskPolicy.narrower_check_action].
  - intros fact b Hb. destruct Hnar as [->|Hn].
    + subst q. apply RiskPolicy.projected_ceiling in Hb. exists b. split; [done|lia].
    + destruct (RiskPolicy.na_ceilings _ _ Hn _ _ Hb) as (b' & Hb' & Hle).
      subst q. apply RiskPolicy.projected_ceiling in Hb'. by exists b'.
Qed.

(** [c], issued at [t2] from a parent read at [t1], has no larger budget. *)
Record narrower_budget (parent : claims) (r : child_request) (t1 t2 : Z) (c : claims) : Prop := {
  bu_depth : exists d,
    num_le0 (get_or "max_delegation_depth" (PInt 0) parent) = Ok false /\
    int_of (get_or "max_delegation_depth" PNone parent) = Ok d /\
    dget "max_delegation_depth" c = Some (PInt (d - 1)) /\
    dget "delegation_allowed" c = Some (PBool (0 <? d - 1));
  bu_calls : exists ceiling b,
    int_of (get_or "max_tool_calls" (PInt 50) parent) = Ok ceiling /\
    dget "max_tool_calls" c = Some (PInt b) /\ dget "reserved_budget_share" c = Some (PInt b) /\
    0 < b /\ b <= ceiling - parent_reserved_for_descendants r /\ b <= ceiling /\
    (forall n, parent_calls_remaining r = Some n -> b <= n) /\
    (forall n, child_max_tool_calls r = Some n -> b <= n);
  bu_exp : exists pexp e, int_of (get_or "exp" PNone parent) = Ok pexp /\
    dget "exp" c = Some (PInt e) /\ t2 < e <= pexp + (t2 - t1);
  bu_spend : match py_get "spend_budget" parent with
    | PNone => dget "spend_budget" c = None
    | raw => exists p, normalize_spend_budget raw None true = Ok p /\
               dget "spend_budget" c = Some (spend_policy_dict p)
    end;
  bu_risk : (py_get "risk_budget" parent = PNone /\ dget "risk_budget" c = None) \/
    exists P, RiskPolicy.normalize_risk_budget (py_get "risk_budget" parent) None = Ok P /\
      (forall tool, tool ∈ dkeys (RiskPolicy.rp_tools P) -> tool ∈ child_allowed_tools r ->
         exists p, dget "risk_budget" c = Some (PDict (RiskPolicy.risk_policy_dict p)) /\
           tool ∈ dkeys (RiskPolicy.rp_tools p)) /\
      forall v contract facts n, dget "risk_budget" c = Some v ->
        RiskPolicy.validate_action_risk v contract facts = Ok n ->
        RiskPolicy.validate_action_risk (py_get "risk_budget" parent) contract facts = Ok n
}.

(** A derived child never has a larger budget: one delegation level less
    and no delegation at the last, tool calls within the parent's ceiling, its
    unreserved escrow, its remaining calls and the request; a lifetime within
    the parent's up to the time between the two clock reads; the parent's
    spend ceilings unchanged; and a risk policy that still governs every
    governed tool it keeps and admits no action the parent's does not. *)
Theorem child_budget_narrows pt pub key r fresh t0 t1 t2 t :
  derive_child_passport pt pub key r fresh t0 t1 t2 = Ok t ->
  exists parent, decode_passport pt pub DEFAULT_AUDIENCE t0 = Ok parent /\
    narrower_budget parent r t1 t2 (jwt_payload t).
Proof.
  intros Ho. apply derive_child_ok in Ho as (parent & chain & l & mic & m & ttl & tools & forb & scope
    & pexp & depth & ceil & jti & Hp & _ & _ & _ & Hmic & D & ->).
  exists parent. split; [done|]. rewrite jwt_payload_encode. set (c := (_ ++ _)%list).
  apply mic_shape in Hmic.
  assert (Hshare : dget "reserved_budget_share" c = Some (PInt (m_max_tool_calls m)))
    by (subst c; destruct Hmic as [[-> _]| ->]; destruct (m_cwd m); claims_get m).
  assert (Hrisk : dget "risk_budget" c = PDict <$> m_risk_budget m)
    by (subst c; destruct Hmic as [[-> _]| ->]; destruct (m_cwd m); claims_get m).
  assert (Hspend : dget "spend_budget" c = spend_policy_dict <$> m_spend_budget m)
    by (subst c; destruct Hmic as [[-> _]| ->]; destruct (m_cwd m); claims_get m).
  constructor.
  - exists depth. split; [apply D|]. split; [apply D|].
    rewrite <- (dv_child_delegable D), <- (dv_child_depth D). done.
  - exists ceil, (m_max_tool_calls m). split; [apply D|]. split; [done|]. split; [done|].
    apply child_budget_ok, D.
  - exists pexp, (t2 + ttl). split; [apply D|]. split; [done|]. pose proof (dv_ttl D). lia.
  - pose proof (dv_spend D) as Hs. rewrite Hspend.
    destruct (py_get "spend_budget" parent);
      [by rewrite Hs|..]; destruct Hs as (p & Hn & ->); by exists p.
  - destruct (dv_risk D) as (risk & Hr & Em). rewrite Hrisk, Em.
    apply child_risk_ok in Hr as [[Hnone ->]|(P & HP & Hkeep & Hval)]; [by left|right].
    exists P. split; [done|]. split.
    + intros tool Hi Ha. destruct (Hkeep tool Hi Ha) as (p & -> & Ht). by exists p.
    + intros v contract facts n Hv Hok. destruct risk as [p|]; [|done]. injection Hv as <-.
      by apply (proj1 (Hval p eq_refl)).
Qed.

(** The lifetime is taken at one clock reading and the child issued at a later
    one, so a child can outlive its parent by the seconds in between. *)
Theorem child_can_outlive_parent parent r child ttl pexp t1 t2 :
  derive_mission parent r t1 = Ok (child, ttl) ->
  int_of (get_or "exp" PNone parent) = Ok pexp ->
  child_ttl_s r = Some (pexp - t1) -> t1 < t2 -> pexp < t2 + ttl.
Proof.
  intros Hd Hexp Hreq Ht. unfold derive_mission in Hd. rewrite guard_ok in Hd. destruct Hd as [_ Hd].
  apply bind_ok in Hd as (ex & _ & Hd). rewrite guard_ok in Hd. destruct Hd as [_ Hd].
  apply bind_ok in Hd as (tr & _ & Hd). apply bind_ok in Hd as (tools & _ & Hd).
  rewrite !guard_ok in Hd. destruct Hd as (_ & _ & Hd).
  apply bind_ok in Hd as (eraw & He%subscript_ok & Hd). apply bind_ok in Hd as (pe & Hpe & Hd).
  unfold get_or in Hexp. rewrite He in Hexp. change (int_of eraw = Ok pexp) in Hexp.
  rewrite Hpe in Hexp. injection Hexp as ->. rewrite Hreq in Hd.
  change (default 300 (Some (pexp - t1))) with (pexp - t1) in Hd. rewrite Z.min_id in Hd. rewrite !guard_ok in Hd. destruct Hd as (_ & _ & Hd).
  repeat match type of Hd with _ ≫= _ = Ok _ => apply bind_ok in Hd as (? & _ & Hd) end.
  injection Hd as _ <-. lia.
Qed.

End Attenuation.

(** ** Verification *)

Lemma digest_non_empty s : digest_match s = true -> non_empty s = true.
Proof. by destruct s. Qed.

Lemma has_key_ext {A} k (c d : list (string * A)) :
  dget k c = dget k d -> has_key k c = has_key k d.
Proof.
  intros E. apply eq_true_iff_eq. by rewrite !has_key_dget, E.
Qed.

Lemma mic_ext c parent :
  (forall k, k ∈ DELEGATED_MIC_CLAIMS -> dget k c = dget k parent) ->
  inherited_mic_conformance_claims c = inherited_mic_conformance_claims parent.
Proof.
  intros Hk. unfold inherited_mic_conformance_claims.
  pose proof (Hk "conformance_profile" ltac:(by apply str_in_spec)) as E1.
  pose proof (Hk "receipt_policy" ltac:(by apply str_in_spec)) as E2.
  pose proof (Hk "tool_manifest_digest" ltac:(by apply str_in_spec)) as E3.
  unfold DELEGATED_MIC_CLAIMS, py_get. cbn [forallb fmap list_fmap].
  by rewrite !(has_key_ext _ _ _ E1), !(has_key_ext _ _ _ E2), !(has_key_ext _ _ _ E3), E1, E2, E3.
Qed.

Lemma same_mic_refl parent mic :
  inherited_mic_conformance_claims parent = Ok mic -> mic <> [] -> same_mic mic mic = true.
Proof.
  unfold inherited_mic_conformance_claims. destruct (has_key _ parent); cbn [negb];
    [|by intros [= <-]].
  rewrite guard_ok. intros [_ Ho] _. destruct (py_get "conformance_profile" parent) as [| | | |prof| |] eqn:E1; try done.
  destruct (py_get "receipt_policy" parent) as [| | | | | |pol] eqn:E2; try done. rewrite !guard_ok in Ho.
  destruct Ho as (_ & _ & Ho). destruct (py_get "level" pol) as [| | | |lev| |] eqn:E4; try done.
  rewrite !guard_ok in Ho. destruct Ho as (_ & _ & Hm & Ho).
  destruct (py_get "tool_manifest_digest" parent) as [| | | |man| |] eqn:E3; try done.
  assert (mic = ((fun k => (k, py_get k parent)) <$> DELEGATED_MIC_CLAIMS)%list) as -> by congruence.
  set (mic' := (_ <$> _)). assert (py_get "conformance_profile" mic' = PStr prof) as H1 by exact E1.
  assert (py_get "receipt_policy" mic' = PDict pol) as H2 by exact E2.
  assert (py_get "tool_manifest_digest" mic' = PStr man) as H3 by exact E3.
  unfold same_mic. rewrite H1, H2, H3, E4. cbn [py_eq_str as_str default from_option id].
  by rewrite !String.eqb_refl.
Qed.

#[global] Instance PStr_inj : Inj (=) (=) PStr.
Proof. by intros ?? [= ->]. Qed.

Section Verify.
Context `{Digests, Jwt}.

(** A token read back, at any time it is readable, has the claims it carries. *)
Lemma decode_payload t key aud now c : decode_passport t key aud now = Ok c -> c = jwt_payload t.
Proof.
  unfold decode_passport. destruct (jwt_decode _ _ _ _ _) as [x|] eqn:E; [|done].
  intros Ho. apply bind_ok in Ho as (? & _ & [= <-]). by eapply jwt_decode_payload.
Qed.

(** A passport signed with the issuer's key is readable while it is valid. *)
Lemma decode_issued c key now iat e :
  forallb (fun k => has_key k c) REQUIRED_CLAIMS = true ->
  dget "aud" c = Some (PStr DEFAULT_AUDIENCE) -> dget "iat" c = Some (PInt iat) ->
  dget "nbf" c = Some (PInt iat) -> dget "exp" c = Some (PInt e) ->
  iat * TICKS <= now < e * TICKS -> now <= (iat + DEFAULT_IAT_PAST_SKEW_S) * TICKS ->
  decode_passport (jwt_encode c key) (public_of key) DEFAULT_AUDIENCE now = Ok c.
Proof.
  intros Hr Ha Hi Hn He Hnow Hpast. unfold decode_passport. rewrite jwt_decode_encode.
  - assert (py_get "iat" c = PInt iat) as -> by (unfold py_get; by rewrite Hi).
    cbn [assert_iat_in_window py_int].
    unfold DEFAULT_IAT_PAST_SKEW_S, DEFAULT_IAT_FUTURE_SKEW_S, TICKS in *.
    destruct (negb (300 =? 0) && _) eqn:E1; [lia|]. destruct (negb (30 * 86400 =? 0) && _) eqn:E2; [lia|].
    done.
  - unfold jwt_claims_ok, py_get. rewrite Hr, Ha, He, Hn. cbn.
    rewrite !andb_true_iff. repeat split; lia.
Qed.

Lemma parent_link_ok parent pt l chain jti :
  parent_link parent pt = Ok l -> delegation_chain_entries parent = Ok chain ->
  py_get "jti" parent = PStr jti ->
  link_ok l /\ l_jti l = jti /\ l_parent_jti l = as_str (py_get "parent_jti" parent) /\
  l_token_hash l = Some (token_sha256 pt).
Proof.
  unfold parent_link. intros Ho _ Hj. apply bind_ok in Ho as (j & [Ej Hne]%require_nonempty_ok & Ho).
  apply bind_ok in Ho as (pj & Hpj%optional_nonempty_ok & [= <-]). cbn.
  rewrite Hj in Ej. injection Ej as <-. split; [|split; [done|split; [|done]]].
  - unfold link_ok. cbn. split; [done|]. split; [apply digest_non_empty, sha256_hex_shape|].
    destruct pj as [pj|]; [destruct Hpj|]; (split; [done|]); [|done].
    destruct (py_get "parent_token_hash" parent) as [| | | |h| |]; try done.
    cbn. by destruct (non_empty h) eqn:E.
  - destruct pj as [pj|]; [by destruct Hpj as [-> _]|by rewrite Hpj].
Qed.

(** The chain of a child is its parent's link and the parent's chain. *)
Lemma child_chain_entries c parent pt l chain jti fresh :
  delegation_chain_entries parent = Ok chain -> parent_link parent pt = Ok l ->
  py_get "jti" parent = PStr jti -> non_empty jti = true ->
  (length (l :: chain) <= MAX_DELEGATION_DEPTH)%nat ->
  dget "jti" c = Some (PStr fresh) -> non_empty fresh = true -> fresh <> jti ->
  fresh ∉ (l_jti <$> chain) ->
  dget "parent_jti" c = Some (PStr jti) ->
  dget DELEGATION_CHAIN_CLAIM c = Some (PList (link_dict <$> (l :: chain))) ->
  delegation_chain_entries c = Ok (l :: chain).
Proof.
  intros Hc Hl Hj Hjne Hlen Ej Hf Hfj Hfc Epj Edc.
  destruct (parent_link_ok _ _ _ _ _ Hl Hc Hj) as (Hok & Hlj & Hlp & _).
  destruct (chain_entries_ok _ _ Hc) as (j' & Hj' & _ & Hnd & Hlk & Hall).
  assert (j' = jti) as -> by congruence.
  apply (f_equal (default PNone)) in Ej, Epj, Edc.
  change (py_get "jti" c = PStr fresh) in Ej. change (py_get "parent_jti" c = PStr jti) in Epj.
  change (py_get DELEGATION_CHAIN_CLAIM c = PList (link_dict <$> (l :: chain))) in Edc.
  unfold delegation_chain_entries. rewrite Ej, Epj, Edc. cbn [require_nonempty_str]. rewrite Hf, Hjne. cbn [negb]. res_simpl. rewrite length_fmap.
  destruct (length (l :: chain) =? 0)%nat eqn:E0; [done|].
  destruct (MAX_DELEGATION_DEPTH <? length (l :: chain))%nat eqn:E1; [lia|].
  apply chain_loop_dicts.
  - cbn. split; [by rewrite Hlj|]. by rewrite Hlp.
  - by constructor.
  - rewrite fmap_cons, Hlj. done.
  - constructor.
    + rewrite Hlj. intros Hx%list_elem_of_singleton. by apply Hfj.
    + apply Forall_forall. intros x Hx Hs%list_elem_of_singleton. apply Hfc.
      apply list_elem_of_fmap. by exists x.
Qed.

(** A derived passport verifies against the token it was derived from:
    while both are valid, and provided its fresh identifier is none of its
    ancestors', verification with the parent token accepts it and returns the
    signed claims. *)
Theorem derived_child_verifies pt key r fresh t0 t1 t2 t now now' pclaims chain e :
  derive_child_passport pt (public_of key) key r fresh t0 t1 t2 = Ok t ->
  decode_passport pt (public_of key) DEFAULT_AUDIENCE now' = Ok pclaims ->
  delegation_chain_entries pclaims = Ok chain ->
  non_empty fresh = true -> PStr fresh <> py_get "jti" pclaims -> fresh ∉ (l_jti <$> chain) ->
  dget "exp" (jwt_payload t) = Some (PInt e) ->
  t2 * TICKS <= now < e * TICKS -> now <= (t2 + DEFAULT_IAT_PAST_SKEW_S) * TICKS ->
  verify_passport t (public_of key) DEFAULT_AUDIENCE (Some pt) None None now now'
  = Ok (jwt_payload t).
Proof.
  intros Ho Hpd Hchain Hfresh Hfj Hfc He Hnow Hpast.
  apply derive_child_ok in Ho as (parent & chain' & l & mic & m & ttl & tools & forb & scope
    & pexp & depth & ceil & jti & Hp & Hc & Hl & Hlen & Hmic & D & ->).
  rewrite jwt_payload_encode in He |- *. set (c := (_ ++ _)%list) in *.
  assert (pclaims = parent) as -> by (apply decode_payload in Hp, Hpd; congruence).
  assert (chain' = chain) as -> by congruence. clear Hc.
  pose proof (mic_shape _ _ Hmic) as Hms. destruct (dv_jti D) as [Hj Hjne].
  assert (Hpj : dget "parent_jti" c = Some (PStr jti)) by done.
  assert (Hhash : dget "parent_token_hash" c = Some (PStr (token_sha256 pt)))
    by (subst c; destruct Hms as [[-> _]| ->]; destruct (m_cwd m); claims_get m).
  assert (Hdc : dget DELEGATION_CHAIN_CLAIM c = Some (PList (link_dict <$> (l :: chain))))
    by (subst c; destruct Hms as [[-> _]| ->]; destruct (m_cwd m); claims_get m).
  assert (Hmk : mic <> [] -> forall k, k ∈ DELEGATED_MIC_CLAIMS -> dget k c = Some (py_get k parent)).
  { intros Hne k Hk%str_in_spec. destruct Hms as [[-> _]| ->]; [done|]. subst c.
    apply str_in_spec in Hk.
    repeat (apply elem_of_cons in Hk as [->|Hk]; [destruct (m_cwd m); claims_get m|]).
    by apply elem_of_nil in Hk. }
  assert (Hdec : decode_passport (jwt_encode c key) (public_of key) DEFAULT_AUDIENCE now = Ok c)
    by (by apply (decode_issued c key now t2 e)).
  assert (Hent : delegation_chain_entries c = Ok (l :: chain)).
  { eapply (child_chain_entries c parent pt l chain jti fresh); try done. congruence. }
  clearbody c. unfold verify_passport. rewrite Hdec. res_simpl. rewrite Hent. res_simpl.
  assert (py_get "parent_jti" c = PStr jti) as -> by (unfold py_get; by rewrite Hpj).
  assert (py_get "parent_token_hash" c = PStr (token_sha256 pt)) as ->
    by (unfold py_get; by rewrite Hhash).
  cbn [require_nonempty_str].
  rewrite (digest_non_empty (token_sha256 pt) (sha256_hex_shape _)). cbn [negb]. res_simpl.
  rewrite Hpd. res_simpl. rewrite Hj, !String.eqb_refl. cbn [negb].
  unfold expected_chain_for_parent. rewrite Hl, Hchain. res_simpl.
  rewrite bool_decide_true by done. cbn [negb]. rewrite Hmic. res_simpl.
  destruct mic as [|kv mic']; [done|]. set (mic := kv :: mic') in *.
  rewrite (mic_ext c parent), Hmic.
  - res_simpl. by rewrite (same_mic_refl _ _ Hmic).
  - intros k Hk. rewrite (Hmk ltac:(done) k Hk). symmetry. unfold py_get.
    destruct (dget k parent) eqn:Ek; [done|]. exfalso.
    clear -Hmic Hk Ek. unfold inherited_mic_conformance_claims in Hmic.
    destruct (has_key "conformance_profile" parent); [|done]. cbn [negb] in Hmic.
    rewrite guard_ok, negb_false_iff, forallb_forall in Hmic. destruct Hmic as [Hall _].
    apply list_elem_of_In in Hk. apply Hall, has_key_dget in Hk. rewrite Ek in Hk. by destruct Hk.
Qed.

(** ** Lineages *)

(** A line of tokens, youngest first, each verified against the next. *)
Inductive verified_line (pub : public_key) (aud : string) : list token -> Prop :=
| line_root t now c :
    verify_passport t pub aud None None None now now = Ok c -> py_get "parent_jti" c = PNone ->
    verified_line pub aud [t]
| line_child t p ts now now' c :
    verify_passport t pub aud (Some p) None None now now' = Ok c -> py_get "parent_jti" c <> PNone ->
    verified_line pub aud (p :: ts) -> verified_line pub aud (t :: p :: ts).

Lemma verify_child_chain t p pub aud now now' c :
  verify_passport t pub aud (Some p) None None now now' = Ok c -> py_get "parent_jti" c <> PNone ->
  c = jwt_payload t /\ py_get "parent_token_hash" c = PStr (token_sha256 p) /\
  exists l chain, parent_link (jwt_payload p) p = Ok l /\
    delegation_chain_entries (jwt_payload p) = Ok chain /\
    delegation_chain_entries c = Ok (l :: chain).
Proof.
  unfold verify_passport. intros Ho Hne. apply bind_ok in Ho as (c' & Hd & Ho).
  apply bind_ok in Ho as (chain & Hc & Ho). pose proof (decode_payload _ _ _ _ _ Hd) as Hpay.
  assert (Hgo : forall v, (parent_token_hash ← require_nonempty_str (py_get "parent_token_hash" c');
      parent ← decode_passport p pub aud now';
      raise_if negb (match py_get "jti" parent, v with PStr a, PStr b => String.eqb a b | _, _ => false end)
        with PermissionErr ;;
      raise_if negb (String.eqb parent_token_hash (token_sha256 p)) with PermissionErr ;;
      expected ← expected_chain_for_parent parent p;
      raise_if negb (bool_decide (chain = expected)) with PermissionErr ;;
      parent_mic ← inherited_mic_conformance_claims parent;
      match parent_mic with
      | [] => Ok c'
      | _ => child_mic ← inherited_mic_conformance_claims c';
             raise_if negb (same_mic child_mic parent_mic) with PermissionErr ;; Ok c'
      end) = Ok c -> c = jwt_payload t /\ py_get "parent_token_hash" c = PStr (token_sha256 p) /\
    exists l chain, parent_link (jwt_payload p) p = Ok l /\
      delegation_chain_entries (jwt_payload p) = Ok chain /\ delegation_chain_entries c = Ok (l :: chain)).
  { intros v Hv. apply bind_ok in Hv as (h & [Eh _]%require_nonempty_ok & Hv).
    apply bind_ok in Hv as (parent & Hp%decode_payload & Hv). subst parent.
    rewrite !guard_ok, !negb_false_iff, String.eqb_eq in Hv. destruct Hv as (_ & -> & Hv).
    apply bind_ok in Hv as (ex & Hex & Hv). rewrite guard_ok, negb_false_iff, bool_decide_eq_true in Hv.
    destruct Hv as [-> Hv]. apply bind_ok in Hv as (mic & _ & Hv).
    assert (c' = c) as ->.
    { destruct mic; [by injection Hv|]. apply bind_ok in Hv as (? & _ & Hv). rewrite guard_ok in Hv.
      by destruct Hv as [_ [= ->]]. }
    split; [done|]. split; [done|]. unfold expected_chain_for_parent in Hex.
    apply bind_ok in Hex as (l & Hl & Hex). apply bind_ok in Hex as (rest & Hr & [= <-]).
    exists l, rest. done. }
  destruct (py_get "parent_jti" c') eqn:Epj;
    [|match type of Epj with _ = ?v => exact (Hgo v Ho) end..].
  injection Ho as <-. done.
Qed.

(** C23. A verified passport commits to its whole ancestry: along any line of
    tokens each verified against the next one down to a root, the youngest
    token's signed chain carries exactly the identifiers and the hashes of all
    its ancestors' tokens, in order; so there are at most 16 of them and no
    identifier repeats. *)
Theorem verified_line_commits pub aud t ts :
  verified_line pub aud (t :: ts) ->
  exists chain, delegation_chain_entries (jwt_payload t) = Ok chain /\
    ((fun l => PStr (l_jti l)) <$> chain) = ((fun p => py_get "jti" (jwt_payload p)) <$> ts) /\
    (l_token_hash <$> chain) = ((fun p => Some (token_sha256 p)) <$> ts) /\
    (length ts <= MAX_DELEGATION_DEPTH)%nat /\
    NoDup ((fun p => py_get "jti" (jwt_payload p)) <$> (t :: ts)).
Proof.
  intros Hv. cut (exists chain, delegation_chain_entries (jwt_payload t) = Ok chain /\
    ((fun l => PStr (l_jti l)) <$> chain) = ((fun p => py_get "jti" (jwt_payload p)) <$> ts) /\
    (l_token_hash <$> chain) = ((fun p => Some (token_sha256 p)) <$> ts)).
  { intros (chain & Hc & Hj & Hh). exists chain. do 3 (split; [done|]).
    destruct (chain_entries_ok _ _ Hc) as (j & Ej & Hlen & Hnd & _). split.
    - apply (f_equal length) in Hj. rewrite !length_fmap in Hj. lia.
    - rewrite fmap_cons, Ej, <- Hj. apply (NoDup_fmap_2 PStr) in Hnd.
      rewrite fmap_cons, <- list_fmap_compose in Hnd. exact Hnd. }
  remember (t :: ts) as line eqn:El. revert t ts El.
  induction Hv as [t now c Hv Hr|t p ts now now' c Hv Hne Hl IH]; intros t' ts' [= <- <-].
  - exists []. split; [|done]. unfold verify_passport in Hv.
    apply bind_ok in Hv as (c' & Hd%decode_payload & Hv). apply bind_ok in Hv as (chain & Hc & Hv).
    assert (c = c') as ->.
    { destruct (py_get "parent_jti" c'); [by injection Hv|..];
        by apply bind_ok in Hv as (? & _ & Hv). }
    subst c'. rewrite Hc. unfold delegation_chain_entries in Hc. apply bind_ok in Hc as (? & _ & Hc).
    rewrite Hr in Hc. by destruct (py_get DELEGATION_CHAIN_CLAIM _) as [| | | | |[|]|].
  - destruct (IH p ts eq_refl) as (chain & Hc & Hj & Hh).
    destruct (verify_child_chain _ _ _ _ _ _ _ Hv Hne) as (-> & _ & l & chain' & Hpl & Hc' & Hcc).
    assert (chain' = chain) as -> by congruence. exists (l :: chain). split; [done|].
    destruct (chain_entries_ok _ _ Hc) as (j & Ej & _).
    destruct (parent_link_ok _ _ _ _ _ Hpl Hc Ej) as (_ & Hlj & _ & Hlh).
    rewrite !fmap_cons, Hlh, Hlj, Ej, Hj, Hh. done.
Qed.

(** [descends root n t]: [t] was derived from [root] through [n] hops. *)
Inductive descends (pub : public_key) (key : private_key) (root : token) : nat -> token -> Prop :=
| descends_self : descends pub key root 0 root
| descends_child n p r fresh t0 t1 t2 c :
    descends pub key root n p ->
    derive_child_passport p pub key r fresh t0 t1 t2 = Ok c ->
    descends pub key root (S n) c.

(** The three claims of one hop that the chain argument needs. *)
Lemma derive_hop pt pub key r fresh t0 t1 t2 t d tools ceil :
  derive_child_passport pt pub key r fresh t0 t1 t2 = Ok t ->
  dget "max_delegation_depth" (jwt_payload pt) = Some (PInt d) ->
  get_str_list "allowed_tools" (jwt_payload pt) = Ok tools ->
  int_of (get_or "max_tool_calls" (PInt 50) (jwt_payload pt)) = Ok ceil ->
  0 < d /\ dget "max_delegation_depth" (jwt_payload t) = Some (PInt (d - 1)) /\
  (exists tools', get_str_list "allowed_tools" (jwt_payload t) = Ok tools' /\ tools' ⊆ tools) /\
  (exists calls, int_of (get_or "max_tool_calls" (PInt 50) (jwt_payload t)) = Ok calls /\ calls <= ceil).
Proof.
  intros Ho Hd Ht Hceil.
  apply derive_child_ok in Ho as (parent & chain & l & mic & m & ttl & tools0 & forb & scope
    & pexp & depth & ceil0 & jti & Hp%decode_payload & _ & _ & _ & _ & D & ->). subst parent.
  rewrite jwt_payload_encode. set (c := (_ ++ _)%list).
  pose proof (dv_depth_pos D) as Hpos. pose proof (dv_depth D) as Hdep. unfold get_or in Hpos, Hdep.
  rewrite Hd in Hpos, Hdep. cbn in Hpos. injection Hpos as Hpos. injection Hdep as <-.
  pose proof (dv_tools D) as Ht'. pose proof (dv_ceiling D) as Hc'.
  assert (tools0 = tools) as -> by congruence. assert (ceil0 = ceil) as -> by congruence.
  split; [lia|]. split; [by rewrite <- (dv_child_depth D)|]. split.
  - exists (m_allowed_tools m). split; [apply str_list_pylist|]. rewrite (dv_allowed D).
    intros x Hx. apply (dv_subset D). by apply elem_of_sorted_set.
  - exists (m_max_tool_calls m). split; [done|]. pose proof (child_budget_ok _ _ _ (dv_budget D)). tauto.
Qed.

(** Delegation terminates and stays inside the root's grant: from a root
    that allows [d] levels there are at most [d] hops, every one of them
    counting down, and whatever is derived at the end has only tools of the
    root and no more tool calls than it. *)
Theorem descendants_bounded pub key root n t d tools ceil :
  descends pub key root n t ->
  dget "max_delegation_depth" (jwt_payload root) = Some (PInt d) -> 0 <= d ->
  get_str_list "allowed_tools" (jwt_payload root) = Ok tools ->
  int_of (get_or "max_tool_calls" (PInt 50) (jwt_payload root)) = Ok ceil ->
  Z.of_nat n <= d /\
  dget "max_delegation_depth" (jwt_payload t) = Some (PInt (d - Z.of_nat n)) /\
  (exists tools', get_str_list "allowed_tools" (jwt_payload t) = Ok tools' /\ tools' ⊆ tools) /\
  (exists calls, int_of (get_or "max_tool_calls" (PInt 50) (jwt_payload t)) = Ok calls /\ calls <= ceil).
Proof.
  intros Hd Hdep Hpos Ht Hc. induction Hd as [|n p r fresh t0 t1 t2 c Hp IH Hstep].
  - split; [lia|]. split; [by rewrite Z.sub_0_r|]. split; [by exists tools|]. exists ceil. split; [done|lia].
  - destruct IH as (Hn & Hdp & (tools' & Ht' & Hsub) & (calls & Hc' & Hle)).
    destruct (derive_hop _ _ _ _ _ _ _ _ _ _ _ _ Hstep Hdp Ht' Hc')
      as (Hpos' & Hdc & (tools2 & Ht2 & Hsub2) & (calls2 & Hc2 & Hle2)).
    split; [lia|]. split; [rewrite Hdc; do 2 f_equal; lia|].
    split; [exists tools2; split; [done|set_solver]|]. exists calls2. split; [done|lia].
Qed.

(** What a derivation does not carry over: restrictions of the parent that the
    child's claims never have. *)
Theorem child_drops_restrictions pt pub key r fresh t0 t1 t2 t :
  derive_child_passport pt pub key r fresh t0 t1 t2 = Ok t ->
  Forall (fun k => dget k (jwt_payload t) = None)
    ["allowed_side_effect_classes"; "max_tool_calls_per_class"; "additional_policies"; "cnf"].
Proof.
  intros Ho. apply derive_child_ok in Ho as (parent & chain & l & mic & m & ttl & tools & forb & scope
    & pexp & depth & ceil & jti & _ & _ & _ & _ & Hmic & D & ->).
  rewrite jwt_payload_encode. apply mic_shape in Hmic.
  repeat constructor; destruct Hmic as [[-> _]| ->]; destruct (m_cwd m); claims_get m.
Qed.
End Verify.

(** ** Concrete instances *)

Module Demo.
#[local] Existing Instance demo_digests.

#[local] Existing Instance demo_jwt.

Definition mission : MissionPassport :=
  MkMission "alice" "triage" ["read"; "rm"; "web"] ["sudo"] ["/data/**"; "/tmp/**"] 40 600 true 3 None
    (Some "/work") ["none"] [] None None None [] None None.
Definition root : token :=
  match issue_passport mission tt DEFAULT_ISSUER DEFAULT_AUDIENCE None [] None "root-jti" 1000
  with Ok t => t | Raise _ => [] end.
Definition request : child_request :=
  MkChild "bob" ["web"; "read"] "sub-task" (Some 600) (Some 5) (Some 30) 10 (Some ["/tmp/**"])
    (Some "/work/a/") None.
Definition child : token :=
  match derive_child_passport root tt tt request "child-jti" (1001 * TICKS) 1001 1002
  with Ok t => t | Raise _ => [] end.

Lemma child_derived :
  derive_child_passport root tt tt request "child-jti" (1001 * TICKS) 1001 1002 = Ok child.
Proof. vm_compute. reflexivity. Qed.

Lemma chain_wellformed_witness :
  exists jti, py_get "jti" child = PStr jti /\ NoDup [jti; "root-jti"].
Proof.
  destruct (chain_wellformed child [Link "root-jti" (Some (token_sha256 root)) None None])
    as (jti & Hj & _ & Hn & _).
  - vm_compute. reflexivity.
  - exists jti. exact (conj Hj Hn).
Defined.

Lemma cwd_subpath_exact_witness : cwd_is_subpath "/work/a" "/work" = true.
Proof.
  apply (cwd_subpath_exact "/work/./a/" "/work" "/work/a" "/work"); try reflexivity.
  exists ["a"]. reflexivity.
Defined.

Lemma child_authority_narrows_witness :
  exists parent, decode_passport root tt DEFAULT_AUDIENCE (1001 * TICKS) = Ok parent /\
    narrower_authority parent request child.
Proof.
  exact (child_authority_narrows root tt tt request "child-jti" (1001 * TICKS) 1001 1002 child
           child_derived).
Defined.

Lemma child_budget_narrows_witness :
  exists parent, decode_passport root tt DEFAULT_AUDIENCE (1001 * TICKS) = Ok parent /\
    narrower_budget parent request 1001 1002 child.
Proof.
  exact (child_budget_narrows root tt tt request "child-jti" (1001 * TICKS) 1001 1002 child
           child_derived).
Defined.

(** The child outlives the root by the second between the two clock reads. *)
Example child_outlives_root :
  dget "exp" root = Some (PInt 1600) /\ dget "exp" child = Some (PInt 1601).
Proof. vm_compute. done. Qed.

Lemma derived_child_verifies_witness :
  verify_passport child tt DEFAULT_AUDIENCE (Some root) None None (1100 * TICKS) (1100 * TICKS) = Ok child.
Proof.
  apply (derived_child_verifies root tt request "child-jti" (1001 * TICKS) 1001 1002 child
           (1100 * TICKS) (1100 * TICKS) root [] 1601).
  - exact child_derived.
  - vm_compute. reflexivity.
  - vm_compute. reflexivity.
  - reflexivity.
  - vm_compute. discriminate.
  - apply not_elem_of_nil.
  - vm_compute. reflexivity.
  - unfold TICKS. lia.
  - unfold TICKS, DEFAULT_IAT_PAST_SKEW_S. lia.
Defined.

Lemma root_verifies :
  verify_passport root tt DEFAULT_AUDIENCE None None None (1001 * TICKS) (1001 * TICKS) = Ok root.
Proof. vm_compute. reflexivity. Qed.
Lemma child_verifies :
  verify_passport child tt DEFAULT_AUDIENCE (Some root) None None (1100 * TICKS) (1100 * TICKS) = Ok child.
Proof. vm_compute. reflexivity. Qed.

Lemma verified_line_commits_witness :
  exists chain, delegation_chain_entries child = Ok chain /\
    (l_token_hash <$> chain) = [Some (token_sha256 root)].
Proof.
  destruct (@verified_line_commits demo_digests demo_jwt tt DEFAULT_AUDIENCE child [root]) as (chain & Hc & _ & Hh & _).
  - eapply line_child; [exact child_verifies|vm_compute; discriminate|].
    eapply line_root; [exact root_verifies|reflexivity].
  - exists chain. exact (conj Hc Hh).
Defined.

Lemma descendants_bounded_witness :
  dget "max_delegation_depth" child = Some (PInt (3 - Z.of_nat 1)).
Proof.
  apply (@descendants_bounded demo_digests demo_jwt tt tt root 1 child 3 ["read"; "rm"; "web"] 40).
  - eapply descends_child; [apply descends_self|exact child_derived].
  - reflexivity.
  - lia.
  - reflexivity.
  - reflexivity.
Defined.
End Demo.
