(* ===== verification/PassportPop.v ===== *)
(** * Proof of possession

    [compute_jwk_thumbprint], [create_kb_jwt] and [verify_pop] of
    [src/python/vibap/passport.py]: what a key-binding token proves, and that
    it cannot be used with another passport. *)

From S2P Require Import Prelude CanonicalJson Passport.
Open Scope string_scope.
Open Scope Z_scope.
Import Passport.

(** ** base64url *)

Definition is_byte (b : Z) : Prop := 0 <= b < 256.

Lemma b64_char_inj n m : 0 <= n < 64 -> 0 <= m < 64 -> b64_char n = b64_char m -> n = m.
Proof.
  intros Hn Hm E.
  assert (Ha : forallb (fun n => forallb (fun m =>
      negb (Ascii.eqb (b64_char n) (b64_char m)) || (n =? m)) (seqZ 0 64)) (seqZ 0 64) = true)
    by (vm_compute; reflexivity).
  rewrite forallb_forall in Ha. specialize (Ha n). rewrite forallb_forall in Ha.
  assert (In n (seqZ 0 64) /\ In m (seqZ 0 64)) as [Hin Him]
    by (rewrite <- !list_elem_of_In, !elem_of_seqZ; lia).
  specialize (Ha Hin m Him). rewrite E, Ascii.eqb_refl in Ha. cbn in Ha. lia.
Qed.

(** Induction three bytes at a time. *)
Lemma list_ind3 {A} (P : list A -> Prop) :
  P [] -> (forall a, P [a]) -> (forall a b, P [a; b]) ->
  (forall a b c l, P l -> P (a :: b :: c :: l)) -> forall l, P l.
Proof.
  intros H0 H1 H2 H3 l. enough (P l /\ (forall a, P (a :: l)) /\ (forall a b, P (a :: b :: l))) by tauto.
  induction l as [|x l IH]; [done|]. destruct IH as (I0 & I1 & I2). split; [done|]. split; [done|].
  intros a b. by apply H3.
Qed.

Lemma b64url_inj l l' :
  length l = length l' -> Forall is_byte l -> Forall is_byte l' -> b64url l = b64url l' -> l = l'.
Proof.
  revert l'. induction l as [|a|a b|a b c l IH] using list_ind3; intros l' Hlen Hl Hl' E.
  - by destruct l'.
  - destruct l' as [|a' [|]]; try done. apply Forall_cons in Hl as [Ha _], Hl' as [Ha' _].
    unfold is_byte in *. cbn [b64url] in E. injection E as E1 E2.
    apply b64_char_inj in E1, E2; try (Z.div_mod_to_equations; lia). f_equal. Z.div_mod_to_equations; lia.
  - destruct l' as [|a' [|b' [|]]]; try done.
    apply Forall_cons in Hl as [Ha [Hb _]%Forall_cons], Hl' as [Ha' [Hb' _]%Forall_cons].
    unfold is_byte in *. cbn [b64url] in E. injection E as E1 E2 E3.
    apply b64_char_inj in E1, E2, E3; try (Z.div_mod_to_equations; lia).
    assert (a = a') as -> by (Z.div_mod_to_equations; lia). do 2 f_equal. Z.div_mod_to_equations; lia.
  - destruct l' as [|a' [|b' [|c' l']]]; try done.
    apply Forall_cons in Hl as [Ha [Hb [Hc Hl]%Forall_cons]%Forall_cons],
      Hl' as [Ha' [Hb' [Hc' Hl']%Forall_cons]%Forall_cons].
    unfold is_byte in *. cbn [b64url] in E. injection E as E1 E2 E3 E4 E5.
    apply b64_char_inj in E1, E2, E3, E4; try (Z.div_mod_to_equations; lia).
    assert (a = a') as -> by (Z.div_mod_to_equations; lia).
    assert (b = b') as -> by (Z.div_mod_to_equations; lia).
    assert (c = c') as -> by (Z.div_mod_to_equations; lia).
    do 3 f_equal. apply IH; [cbn in Hlen; lia|done..].
Qed.

(** ** Digests as bytes *)

Lemma hexval_range a : is_lower_hex a = true -> 0 <= CanonicalJson.hexval a < 16.
Proof. destruct a as [[] [] [] [] [] [] [] []]; intros Ha; vm_compute in Ha; try discriminate; vm_compute; split; congruence. Qed.

Lemma hexval_inj a b : is_lower_hex a = true -> is_lower_hex b = true ->
  CanonicalJson.hexval a = CanonicalJson.hexval b -> a = b.
Proof.
  unfold is_lower_hex, byte_in, CanonicalJson.hexval, CanonicalJson.code. intros Ha Hb E.
  assert (N_of_ascii a = N_of_ascii b) as En
    by (destruct (Z.ltb_spec (Z.of_N (N_of_ascii a)) 58), (Z.ltb_spec (Z.of_N (N_of_ascii b)) 58); lia).
  by rewrite <- (ascii_N_embedding a), En, ascii_N_embedding.
Qed.

(** Two characters at a time. *)
Lemma hex_bytes_spec n s : String.length s = (2 * n)%nat -> str_all is_lower_hex s = true ->
  length (hex_bytes s) = n /\ Forall is_byte (hex_bytes s).
Proof.
  revert s. induction n as [|n IH]; intros s Hl Hs; [by destruct s|].
  destruct s as [|a [|b s]]; try (cbn in Hl; lia). cbn [str_all] in Hs.
  apply andb_true_iff in Hs as [Ha [Hb Hs]%andb_true_iff].
  destruct (IH s) as [Hn Hf]; [cbn in Hl; lia|done|]. cbn [hex_bytes length]. split; [by rewrite Hn|].
  constructor; [|done]. pose proof (hexval_range a Ha). pose proof (hexval_range b Hb).
  unfold is_byte. lia.
Qed.

Lemma hex_bytes_inj n s s' : String.length s = (2 * n)%nat -> String.length s' = (2 * n)%nat ->
  str_all is_lower_hex s = true -> str_all is_lower_hex s' = true ->
  hex_bytes s = hex_bytes s' -> s = s'.
Proof.
  revert s s'. induction n as [|n IH]; intros s s' Hl Hl' Hs Hs' E; [by destruct s, s'|].
  destruct s as [|a [|b s]]; try (cbn in Hl; lia). destruct s' as [|a' [|b' s']]; try (cbn in Hl'; lia).
  cbn [str_all] in Hs, Hs'. apply andb_true_iff in Hs as [Ha [Hb Hs]%andb_true_iff].
  apply andb_true_iff in Hs' as [Ha' [Hb' Hs']%andb_true_iff].
  cbn [hex_bytes] in E. injection E as E1 E2.
  pose proof (hexval_range a Ha). pose proof (hexval_range b Hb).
  pose proof (hexval_range a' Ha'). pose proof (hexval_range b' Hb').
  rewrite (hexval_inj a a'), (hexval_inj b b'), (IH s s'); try done; cbn in *; lia.
Qed.

Section Pop.
Context `{Digests, Jwt}.

Lemma sha_shape s :
  String.length (sha256_hex s) = (2 * 32)%nat /\ str_all is_lower_hex (sha256_hex s) = true.
Proof.
  pose proof (sha256_hex_shape s) as Hs. unfold digest_match in Hs.
  apply andb_true_iff in Hs as [Hl%Nat.eqb_eq ?]. done.
Qed.

(** The base64url text of a digest identifies it. *)
Lemma digest_text_inj s s' : b64url (sha256_digest s) = b64url (sha256_digest s') ->
  sha256_hex s = sha256_hex s'.
Proof.
  unfold sha256_digest. destruct (sha_shape s) as [Hl Hs], (sha_shape s') as [Hl' Hs'].
  destruct (hex_bytes_spec 32 _ Hl Hs), (hex_bytes_spec 32 _ Hl' Hs').
  intros E. apply (hex_bytes_inj 32); try done. apply b64url_inj; try done. congruence.
Qed.

Lemma digest_text_nonempty s : non_empty (b64url (sha256_digest s)) = true.
Proof.
  unfold sha256_digest. destruct (sha_shape s) as [Hl Hs], (hex_bytes_spec 32 _ Hl Hs) as [Hn _].
  destruct (hex_bytes (sha256_hex s)) as [|a [|b [|c l]]]; done.
Qed.

(** What [verify_pop] establishes for a passport bound to a key. *)
Lemma verify_pop_ok c pt holder kb age t now cnf :
  py_get "cnf" c = PDict cnf ->
  verify_pop c pt (Some holder) (Some kb) age t now = Ok true <->
  py_get "jkt" cnf = PStr (compute_jwk_thumbprint holder) /\
  exists k iat nonce, jwt_decode kb holder None ["iat"; "nonce"; "sd_hash"] t = Some k /\
    py_get "iat" k = PInt iat /\ iat <= now + 30 /\ now - iat <= age /\
    py_get "nonce" k = PStr nonce /\ non_empty nonce = true /\
    py_get "sd_hash" k = PStr (sd_hash_of pt).
Proof.
  intros Hc. unfold verify_pop. rewrite Hc. split.
  - intros Ho. apply bind_ok in Ho as (jkt & Hj & Ho).
    assert (py_get "jkt" cnf = PStr jkt) as -> by (destruct (py_get "jkt" cnf); try done;
      cbn in Hj; rewrite guard_ok in Hj; naive_solver).
    rewrite guard_ok, negb_false_iff, String.eqb_eq in Ho. destruct Ho as [-> Ho]. split; [done|].
    destruct (jwt_decode _ _ _ _ _) as [k|]; [|done].
    destruct (py_get "iat" k) as [| |iat| | | |] eqn:Ei; try done.
    apply bind_ok in Ho as (nonce & Hn & Ho). apply bind_ok in Ho as (sd & Hsd & Ho).
    rewrite !guard_ok, negb_false_iff, String.eqb_eq in Ho. destruct Ho as (H1 & H2 & -> & _).
    exists k, iat, nonce. split; [done|]. split; [done|]. split; [lia|]. split; [lia|].
    destruct (py_get "nonce" k); try done. destruct (py_get "sd_hash" k); try done.
    cbn in Hn, Hsd. rewrite guard_ok, negb_false_iff in Hn, Hsd. naive_solver.
  - intros (Hj & k & iat & nonce & Hd & Hi & H1 & H2 & Hn & Hne & Hs). rewrite Hj.
    assert (non_empty (compute_jwk_thumbprint holder) = true) as Ht by apply digest_text_nonempty.
    assert (non_empty (sd_hash_of pt) = true) as Hsd by apply digest_text_nonempty.
    cbn [require_nonempty_str]. rewrite Ht. cbn [negb]. res_simpl. rewrite String.eqb_refl. cbn [negb]. rewrite Hd, Hi, Hn, Hs.
    cbn [require_nonempty_str]. rewrite Hne, Hsd. cbn [negb]. res_simpl. destruct (Z.ltb_spec (now + 30) iat); [lia|].
    destruct (Z.ltb_spec age (now - iat)); [lia|]. by rewrite String.eqb_refl.
Qed.

(** A holder can always prove possession: the key-binding token made with
    the holder's private key for a passport bound to that key is accepted until
    it is [max_age_s] old, and from 30 s before its time of issue. *)
Theorem pop_accepts_holder c pt holder nonce age t made now cnf :
  py_get "cnf" c = PDict cnf -> py_get "jkt" cnf = PStr (compute_jwk_thumbprint (public_of holder)) ->
  non_empty nonce = true -> made - 30 <= now <= made + age ->
  verify_pop c pt (Some (public_of holder)) (Some (create_kb_jwt holder pt nonce made)) age t now = Ok true.
Proof.
  intros Hc Hj Hn Hw. apply (verify_pop_ok _ _ _ _ _ _ _ _ Hc). split; [done|].
  eexists _, made, nonce. split; [by apply jwt_decode_encode|]. repeat split; [lia|lia|done].
Qed.

(** C35. A key-binding token is bound to one passport and one key: where it is
    accepted for a passport with a [cnf] claim, that claim names the presented
    key, the token is readable with that key and fresh; and if it is accepted
    with another passport too, the two passports' texts have the same SHA-256
    digest. *)
Theorem pop_binds_passport c c' pt pt' holder holder' kb age t now age' t' now' cnf cnf' :
  py_get "cnf" c = PDict cnf -> py_get "cnf" c' = PDict cnf' ->
  verify_pop c pt (Some holder) (Some kb) age t now = Ok true ->
  verify_pop c' pt' (Some holder') (Some kb) age' t' now' = Ok true ->
  py_get "jkt" cnf = PStr (compute_jwk_thumbprint holder) /\
  (exists k iat, jwt_decode kb holder None ["iat"; "nonce"; "sd_hash"] t = Some k /\
     py_get "iat" k = PInt iat /\ now - age <= iat <= now + 30) /\
  token_sha256 pt = token_sha256 pt'.
Proof.
  intros Hc Hc' Hv Hv'.
  apply (verify_pop_ok _ _ _ _ _ _ _ _ Hc) in Hv as (Hj & k & iat & nonce & Hd & Hi & H1 & H2 & _ & _ & Hs).
  apply (verify_pop_ok _ _ _ _ _ _ _ _ Hc') in Hv' as (_ & k' & _ & _ & Hd' & _ & _ & _ & _ & _ & Hs').
  split; [done|]. split; [exists k, iat; repeat split; [done|done|lia|lia]|].
  apply jwt_decode_payload in Hd, Hd'. apply digest_text_inj.
  unfold sd_hash_of in *. congruence.
Qed.

(** A passport bound to a key is never accepted without both the key and the
    key-binding token. *)
Lemma pop_required c pt holder kb age t now :
  py_get "cnf" c <> PNone -> holder = None \/ kb = None ->
  verify_pop c pt holder kb age t now <> Ok true.
Proof.
  intros Hc Hn. unfold verify_pop. destruct (py_get "cnf" c); try done.
  intros Ho. apply bind_ok in Ho as (jkt & _ & Ho). destruct holder as [h|]; [|done].
  rewrite guard_ok in Ho. destruct Ho as [_ Ho]. destruct kb as [k|]; [|done]. by destruct Hn.
Qed.
End Pop.

Module Demo.
#[local] Existing Instance demo_digests.

#[local] Existing Instance demo_jwt.

Definition holder : private_key := tt.
Definition cnf : claims := [("jkt", PStr (compute_jwk_thumbprint (public_of holder)))].
Definition passport : token := [("jti", PStr "p1"); ("cnf", PDict cnf)].

Lemma pop_accepts_holder_witness :
  verify_pop passport passport (Some (public_of holder)) (Some (create_kb_jwt holder passport "n" 100)) 300 0 200 = Ok true.
Proof. apply (@pop_accepts_holder demo_digests demo_jwt passport passport holder "n" 300 0 100 200 cnf); [done|done|done|lia]. Defined.

Lemma demo_pop :
  verify_pop passport passport (Some (public_of holder)) (Some (create_kb_jwt holder passport "n" 100)) 300 0 200 = Ok true.
Proof. vm_compute. reflexivity. Qed.

Lemma pop_binds_passport_witness : py_get "jkt" cnf = PStr (compute_jwk_thumbprint (public_of holder)).
Proof.
  apply (@pop_binds_passport demo_digests demo_jwt passport passport passport passport (public_of holder) (public_of holder)
           (create_kb_jwt holder passport "n" 100) 300 0 200 300 0 200 cnf cnf);
    [reflexivity|reflexivity|exact demo_pop|exact demo_pop].
Defined.
End Demo.
