(* ===== verification/ResourceScope.v ===== *)
(** * Resource scope: which paths and URLs a tool call may name

    [src/python/vibap/proxy.py], [_sanitize_value] to [_check_resource_scope]:
    the scanner that collects every resource-like string of a call's arguments,
    the tokenizer that reads paths out of values, the sanitiser that brings a
    token to one canonical form, and the match against the scope's glob
    patterns with its symlink check.

    Text is a list of code points here ([ustr]), because the code counts,
    folds and matches characters.  The Unicode tables of [unicodedata] and
    [str] are the class [UnicodeData]; of them only their action on ASCII text
    is assumed.  The file system is the class [Filesystem]: what
    [os.path.realpath] answers during one check. *)

From S2P Require Import Prelude CanonicalJson.
Open Scope string_scope.
Open Scope Z_scope.

Module ResourceScope.

(** ** Code points *)

Definition ustr := list Z.
Definition REPLACEMENT : Z := 65533.

Definition cont (b : Z) : bool := (128 <=? b) && (b <=? 191).
(** The second byte of a three- or four-byte sequence; surrogates (the second
    bytes after ED from A0 on) only where [surrogates] is set. *)
Definition second_ok (surrogates : bool) (c b : Z) : bool :=
  cont b && (if c =? 224 then 160 <=? b
             else if c =? 237 then surrogates || (b <? 160)
             else if c =? 240 then 144 <=? b
             else if c =? 244 then b <? 144 else true).

(** [bytes.decode("utf-8", "replace")]: every maximal ill-formed part becomes
    one U+FFFD. *)
Fixpoint decode (surrogates : bool) (l : list Z) : ustr :=
  match l with
  | [] => []
  | c :: l1 =>
      if c <? 128 then c :: decode surrogates l1
      else if (c <? 194) || (244 <? c) then REPLACEMENT :: decode surrogates l1
      else match l1 with
      | [] => [REPLACEMENT]
      | b :: l2 =>
          if c <? 224 then
            if cont b then ((c - 192) * 64 + (b - 128)) :: decode surrogates l2
            else REPLACEMENT :: decode surrogates l1
          else if negb (second_ok surrogates c b) then REPLACEMENT :: decode surrogates l1
          else match l2 with
          | [] => [REPLACEMENT]
          | d :: l3 =>
              if negb (cont d) then REPLACEMENT :: decode surrogates l2
              else if c <? 240 then
                ((c - 224) * 4096 + (b - 128) * 64 + (d - 128)) :: decode surrogates l3
              else match l3 with
              | [] => [REPLACEMENT]
              | e :: l4 =>
                  if negb (cont e) then REPLACEMENT :: decode surrogates l3
                  else ((c - 240) * 262144 + (b - 128) * 4096 + (d - 128) * 64 + (e - 128))
                       :: decode surrogates l4
              end
          end
      end
  end.

Fixpoint bytes_of (s : string) : list Z :=
  match s with
  | EmptyString => []
  | String a s => CanonicalJson.code a :: bytes_of s
  end.
(** The characters of a [str]. *)
Definition chars (s : string) : ustr := decode true (bytes_of s).

Definition SLASH : Z := 47.
Definition BACKSLASH : Z := 92.
Definition DOT : Z := 46.
Definition PERCENT : Z := 37.
Definition COLON : Z := 58.
Definition NEWLINE : Z := 10.

Definition ueqb (a b : ustr) : bool := bool_decide (a = b).
Definition u_in (a : ustr) (l : list ustr) : bool := existsb (ueqb a) l.
Definition has_char (c : Z) (s : ustr) : bool := existsb (Z.eqb c) s.
Fixpoint starts_with (p s : ustr) : bool :=
  match p, s with
  | [], _ => true
  | a :: p, b :: s => (a =? b) && starts_with p s
  | _ :: _, [] => false
  end.
Definition ends_with (p s : ustr) : bool := starts_with (reverse p) (reverse s).
Fixpoint contains (p s : ustr) : bool :=
  starts_with p s || match s with [] => false | _ :: s => contains p s end.
(** [s.lstrip(c)] and [s.rstrip(c)]. *)
Fixpoint lstrip (c : Z) (s : ustr) : ustr :=
  match s with
  | a :: t => if a =? c then lstrip c t else s
  | [] => []
  end.
Definition rstrip (c : Z) (s : ustr) : ustr := reverse (lstrip c (reverse s)).

(** Split at every character satisfying [p]. *)
Fixpoint split_at (p : Z -> bool) (s : ustr) : list ustr :=
  match s with
  | [] => [[]]
  | c :: t =>
      if p c then [] :: split_at p t
      else match split_at p t with
           | [] => [[c]]
           | w :: ws => (c :: w) :: ws
           end
  end.
Fixpoint ujoin (sep : Z) (l : list ustr) : ustr :=
  match l with
  | [] => []
  | [w] => w
  | w :: l => (w ++ sep :: ujoin sep l)%list
  end.

(** [str.isspace] of one character. *)
Definition is_space (c : Z) : bool :=
  ((9 <=? c) && (c <=? 13)) || ((28 <=? c) && (c <=? 32)) || (c =? 133) || (c =? 160)
  || (c =? 5760) || ((8192 <=? c) && (c <=? 8202)) || (c =? 8232) || (c =? 8233)
  || (c =? 8239) || (c =? 8287) || (c =? 12288).
(** [s.split()], which is also the matches of the pattern [\S+]. *)
Definition words (s : ustr) : list ustr :=
  filter (fun w => w <> []) (split_at is_space s).
(** [s.strip()]. *)
Fixpoint drop_space (s : ustr) : ustr :=
  match s with
  | c :: t => if is_space c then drop_space t else s
  | [] => []
  end.
Definition ustrip (s : ustr) : ustr := reverse (drop_space (reverse (drop_space s))).

Definition ascii_letter (c : Z) : bool :=
  ((65 <=? c) && (c <=? 90)) || ((97 <=? c) && (c <=? 122)).
Definition ascii_digit (c : Z) : bool := (48 <=? c) && (c <=? 57).
Definition lower_letter (c : Z) : Z := if (65 <=? c) && (c <=? 90) then c + 32 else c.
Definition is_ascii (s : ustr) : bool := forallb (fun c => (0 <=? c) && (c <? 128)) s.

(** The interpreter's Unicode tables: [unicodedata.normalize] with the forms
    NFC and NFKC, [str.lower], [str.casefold] and [str.isalpha] of a
    character.  ASCII text is its own normal form. *)
Class UnicodeData := {
  nfc : ustr -> ustr;
  nfkc : ustr -> ustr;
  lower : ustr -> ustr;
  casefold : ustr -> ustr;
  is_alpha : Z -> bool;
  nfc_ascii : forall s, is_ascii s = true -> nfc s = s;
  nfkc_ascii : forall s, is_ascii s = true -> nfkc s = s;
  lower_ascii : forall s, is_ascii s = true -> lower s = lower_letter <$> s;
  casefold_ascii : forall s, is_ascii s = true -> casefold s = lower_letter <$> s;
  is_alpha_ascii : forall c, 0 <= c < 128 -> is_alpha c = ascii_letter c
}.

(** What [os.path.realpath] answers for a path: with [strict=True] a path, a
    [FileNotFoundError] or another [OSError] or [ValueError]; without it a
    path or a [ValueError]. *)
Inductive strict_path := Resolved (p : ustr) | NotFound | Unresolvable.
Class Filesystem := {
  realpath_strict : ustr -> strict_path;
  realpath : ustr -> option ustr
}.

(** ** Shapes of resources *)

(** [_SLASH_LIKE_CODEPOINTS] and [_DOT_LIKE_CODEPOINTS]. *)
Definition SLASH_LIKE_CODEPOINTS : list Z := [47; 65295; 8260; 10744; 8725].
Definition DOT_LIKE_CODEPOINTS : list Z := [8228; 65106; 65294].
Definition slash_like (c : Z) : bool := existsb (Z.eqb c) SLASH_LIKE_CODEPOINTS.
Definition dot_like (c : Z) : bool := existsb (Z.eqb c) DOT_LIKE_CODEPOINTS.
Definition contains_slash_like (s : ustr) : bool := existsb slash_like s.

(** [_URL_SCHEME_RE]: with [re.IGNORECASE] the class [a-z] also takes U+0130,
    U+0131, U+017F and U+212A. *)
Definition scheme_letter (c : Z) : bool :=
  ascii_letter c || (c =? 304) || (c =? 305) || (c =? 383) || (c =? 8490).
Definition scheme_char (c : Z) : bool :=
  scheme_letter c || ascii_digit c || (c =? 43) || (c =? 46) || (c =? 45).
Fixpoint scheme_rest (s : ustr) : bool :=
  starts_with [COLON; SLASH; SLASH] s ||
  match s with c :: t => scheme_char c && scheme_rest t | [] => false end.
Definition url_scheme (s : ustr) : bool :=
  match s with c :: t => scheme_letter c && scheme_rest t | [] => false end.

(** [.*$]: no line break but possibly one at the very end. *)
Fixpoint one_line (s : ustr) : bool :=
  match s with
  | [] => true
  | c :: t => if c =? NEWLINE then bool_decide (t = []) else one_line t
  end.
(** [_WINDOWS_DRIVE_RE] and [_WINDOWS_UNC_RE]. *)
Definition windows_drive (s : ustr) : bool :=
  match s with
  | c :: d :: t =>
      ascii_letter c && (d =? COLON) &&
      match t with
      | [] => true
      | e :: t' => if (e =? BACKSLASH) || (e =? SLASH) then one_line t'
                   else (e =? NEWLINE) && bool_decide (t' = [])
      end
  | _ => false
  end.
Definition windows_unc (s : ustr) : bool :=
  match s with
  | a :: b :: c :: t =>
      (a =? BACKSLASH) && (b =? BACKSLASH) && negb (c =? BACKSLASH) && has_char BACKSLASH t
  | _ => false
  end.

(** [_looks_like_resource]. *)
Definition looks_like_resource (s : ustr) : bool :=
  bool_decide (s <> []) &&
  (contains_slash_like s || url_scheme s || windows_drive s || windows_unc s
   || has_char BACKSLASH s).

Section Tokenizer.
Context `{!UnicodeData}.

(** [segment.isalpha()]. *)
Definition all_alpha (s : ustr) : bool := bool_decide (s <> []) && forallb is_alpha s.

(** [_is_path_shaped_token]. *)
Definition is_path_shaped_token (s : ustr) : bool :=
  if (length s <=? 1)%nat then false
  else if url_scheme s then true
  else if windows_drive s || windows_unc s then true
  else if has_char BACKSLASH s then true
  else if negb (contains_slash_like s) then false
  else existsb (fun segment => bool_decide (segment = []) || negb (all_alpha segment))
         (split_at slash_like s).

(** [_is_path_like_under_hint]. *)
Definition is_path_like_under_hint (s : ustr) : bool :=
  if (length s <=? 1)%nat then false
  else if contains_slash_like s || has_char BACKSLASH s then true
  else if url_scheme s then true
  else windows_drive s || windows_unc s.

(** [_is_short_pure_alpha_slash_compound]. *)
Definition is_short_pure_alpha_slash_compound (s : ustr) : bool :=
  if has_char BACKSLASH s || negb (contains_slash_like s) then false
  else
    let segments := split_at slash_like s in
    if negb (length segments =? 2)%nat then false
    else forallb (fun segment => bool_decide (segment <> []) && all_alpha segment
                                 && (length segment <=? 4)%nat) segments.

Definition GRAMMATICAL_PROSE_SLASH_TOKENS : list ustr :=
  chars <$> ["and/or"; "either/or"; "he/she"; "her/him"; "her/his"; "him/her"; "his/her";
             "s/he"; "she/he"].

(** [_is_embedded_resource_token]. *)
Definition is_embedded_resource_token (s : ustr) : bool :=
  if (length s <=? 1)%nat then false
  else if is_path_shaped_token s then true
  else if negb (looks_like_resource s) then false
  else if is_short_pure_alpha_slash_compound s then false
  else negb (u_in (casefold s) GRAMMATICAL_PROSE_SLASH_TOKENS).

(** ** Hints *)

Definition DEFAULT_PATH_HINTS : list ustr :=
  chars <$> ["path"; "file"; "filepath"; "filename"; "url"; "uri"; "src"; "source"; "dst"; "dest";
             "destination"; "location"; "object_key"; "cwd"; "directory"; "dir"; "target";
             "resource"; "command"; "script"; "cmd"; "file_path"].
Definition DEFAULT_PROSE_HINTS : list ustr :=
  chars <$> ["content"; "body"; "text"; "message"; "note"; "summary"; "description";
             "old_string"; "new_string"; "prompt"; "markdown"; "response"; "stdout"; "stderr";
             "log"; "comment"; "memo"; "answer"; "output"; "instruction"; "query"; "sql"; "html"].

(** The environment variables [VIBAP_SCOPE_PATH_HINTS] and
    [VIBAP_SCOPE_PROSE_HINTS]. *)
Record scope_env := ScopeEnv {
  env_path_hints : option ustr;
  env_prose_hints : option ustr
}.

(** [_parse] of [_resolve_hint_sets]. *)
Definition parse_hints (raw : option ustr) : list ustr :=
  match raw with
  | None => []
  | Some raw => (fun piece => lower (ustrip piece)) <$>
                  filter (fun piece => ustrip piece <> []) (split_at (Z.eqb 44) raw)
  end.
(** [_resolve_hint_sets]; the sets as membership tests. *)
Definition path_hint (env : scope_env) (key : ustr) : bool :=
  u_in key (DEFAULT_PATH_HINTS ++ parse_hints (env_path_hints env)).
Definition prose_hint (env : scope_env) (key : ustr) : bool :=
  u_in key (DEFAULT_PROSE_HINTS ++ parse_hints (env_prose_hints env)) && negb (path_hint env key).

Definition RESOURCE_TOKEN_MAX_LEN : nat := 4096.
Definition RESOURCE_SCAN_MAX_VALUES : Z := 1024.
Definition RESOURCE_SCAN_MAX_DEPTH : Z := 16.
Definition RESOURCE_PERCENT_DECODE_MAX_ITERATIONS : nat := 8.

(** How the tokenizer reads a value under a key. *)
Inductive hint := PathHint | ProseHint | NoHint.
Definition hint_of (env : scope_env) (key : option ustr) : hint :=
  match key with
  | None => NoHint
  | Some key =>
      if path_hint env (lower key) then PathHint
      else if prose_hint env (lower key) then ProseHint else NoHint
  end.

(** An oversize value that still looks like a resource. *)
Definition oversize_resource (h : hint) (value : ustr) : bool :=
  match h with
  | PathHint => if existsb is_space value then existsb is_path_like_under_hint (words value)
                else true
  | ProseHint => existsb is_embedded_resource_token (words value)
  | NoHint => looks_like_resource value
  end.

(** The tokens of a value of ordinary length. *)
Definition tokens_of (h : hint) (value : ustr) : list ustr :=
  match h with
  | PathHint => if existsb is_space value
                then filter (fun w => is_path_like_under_hint w = true) (words value)
                else [value]
  | ProseHint => filter (fun w => is_embedded_resource_token w = true) (words value)
  | NoHint => if looks_like_resource value then [value] else []
  end.

(** [_extract_path_tokens]: the tokens, and whether [exhausted] is set. *)
Definition extract_path_tokens (env : scope_env) (value : ustr) (key : option ustr)
    : list ustr * bool :=
  if bool_decide (value = []) then ([], false)
  else
    let h := hint_of env key in
    if (RESOURCE_TOKEN_MAX_LEN <? length value)%nat then ([], oversize_resource h value)
    else (tokens_of h value, false).

(** ** The scan *)

(** [budget[0]] and [exhausted["v"]]. *)
Record scan_state := ScanState { budget : Z; exhausted : bool }.
Definition exhaust (st : scan_state) : scan_state := ScanState (budget st) true.
Definition spend (st : scan_state) : scan_state := ScanState (budget st - 1) (exhausted st).

(** A string the scan yields under its key. *)
Definition yields (env : scope_env) (key : option ustr) (s : ustr) : bool :=
  looks_like_resource s ||
  match key with
  | Some key => bool_decide (s <> []) && path_hint env (lower key)
  | None => false
  end.

(** The loop over the items of a container: it stops, exhausted, at an item
    reached without budget. *)
Fixpoint scan_items {A} (f : A -> scan_state -> list (option ustr * ustr) * scan_state)
    (l : list A) (st : scan_state) : list (option ustr * ustr) * scan_state :=
  match l with
  | [] => ([], st)
  | x :: l =>
      if budget st <=? 0 then ([], exhaust st)
      else
        let '(ys, st) := f x st in
        let '(zs, st) := scan_items f l st in
        ((ys ++ zs)%list, st)
  end.

(** [_iter_resource_values]. *)
Fixpoint iter_resource_values (env : scope_env) (arguments : pyval) (key : option ustr)
    (depth : Z) (st : scan_state) : list (option ustr * ustr) * scan_state :=
  if (RESOURCE_SCAN_MAX_DEPTH <? depth) || (budget st <=? 0) then ([], exhaust st)
  else match arguments with
  | PStr s => if yields env key (chars s) then ([(key, chars s)], spend st) else ([], st)
  | PDict d =>
      scan_items (fun kv => iter_resource_values env kv.2 (Some (chars kv.1)) (depth + 1)) d st
  | PList l => scan_items (fun v => iter_resource_values env v key (depth + 1)) l st
  | _ => ([], st)
  end.

End Tokenizer.

(** ** Shell globs: [fnmatch.fnmatchcase] *)

(** The parts of a translated pattern; a set holds single characters and
    ranges. *)
Inductive glob :=
| Star
| AnyChar
| Lit (c : Z)
| CharSet (negated : bool) (singles : list Z) (ranges : list (Z * Z))
| NoChar.

(** The position of the closing bracket: a leading [!] and a bracket right
    after it belong to the set. *)
Fixpoint upto_bracket (s : ustr) : option (ustr * ustr) :=
  match s with
  | [] => None
  | c :: t => if c =? 93 then Some ([], t)
              else '(a, b) ← upto_bracket t; Some (c :: a, b)
  end.
Definition eat (c : Z) (s : ustr) : ustr * ustr :=
  match s with
  | a :: t => if a =? c then ([c], t) else ([], s)
  | [] => ([], s)
  end.
Definition bracket (s : ustr) : option (ustr * ustr) :=
  let '(bang, s1) := eat 33 s in
  let '(first, s2) := eat 93 s1 in
  '(a, b) ← upto_bracket s2; Some ((bang ++ first ++ a)%list, b).

(** The chunks between the hyphens that make ranges: a hyphen counts from
    position [skip] on, and two characters after a counted hyphen never do. *)
Fixpoint chunks (skip : nat) (chunk : ustr) (s : ustr) : list ustr :=
  match s with
  | [] => [reverse chunk]
  | c :: t =>
      match skip with
      | O => if c =? 45 then reverse chunk :: chunks 2 [] t else chunks 0 (c :: chunk) t
      | S k => chunks k (c :: chunk) t
      end
  end.
(** An empty last chunk puts the final hyphen back as a character. *)
Fixpoint hyphen_back (l : list ustr) : list ustr :=
  match l with
  | [a; []] => [(a ++ [45])%list]
  | a :: l => a :: hyphen_back l
  | [] => []
  end.
(** Empty ranges are removed from the right. *)
Fixpoint drop_empty_ranges (l : list ustr) : list ustr :=
  match l with
  | a :: l' =>
      match drop_empty_ranges l' with
      | b :: l'' =>
          match last a, b with
          | Some x, y :: b' => if y <? x then ((removelast a ++ b')%list :: l'') else a :: b :: l''
          | _, _ => a :: b :: l''
          end
      | [] => [a]
      end
  | [] => []
  end.
Fixpoint ranges_of (l : list ustr) : list (Z * Z) :=
  match l with
  | a :: (b :: _) as l' =>
      match last a, b with
      | Some x, y :: _ => (x, y) :: ranges_of l'
      | _, _ => ranges_of l'
      end
  | _ => []
  end.
(** The set between the brackets. *)
Definition char_set (stuff : ustr) : glob :=
  let cs := if has_char 45 stuff
            then drop_empty_ranges
                   (hyphen_back (chunks (if starts_with [33] stuff then 2%nat else 1%nat) [] stuff))
            else [stuff] in
  match cs with
  | [[]] => NoChar
  | (b :: a) :: l =>
      if b =? 33 then if bool_decide (a = [] /\ l = []) then AnyChar
                      else CharSet true (a ++ concat l) (ranges_of (a :: l))
      else CharSet false (concat cs) (ranges_of cs)
  | _ => CharSet false (concat cs) (ranges_of cs)
  end.

(** [fnmatch.translate]; the fuel is the length of the pattern. *)
Fixpoint translate_fuel (fuel : nat) (pat : ustr) : list glob :=
  match fuel, pat with
  | S n, c :: t =>
      if c =? 42 then Star :: translate_fuel n t
      else if c =? 63 then AnyChar :: translate_fuel n t
      else if c =? 91 then
        match bracket t with
        | Some (stuff, rest) => char_set stuff :: translate_fuel n rest
        | None => Lit 91 :: translate_fuel n t
        end
      else Lit c :: translate_fuel n t
  | _, _ => []
  end.
Definition translate (pat : ustr) : list glob := translate_fuel (length pat) pat.

Definition glob_char (g : glob) (c : Z) : bool :=
  match g with
  | Star | NoChar => false
  | AnyChar => true
  | Lit d => c =? d
  | CharSet negated singles ranges =>
      xorb negated (existsb (Z.eqb c) singles
                    || existsb (fun r => (r.1 <=? c) && (c <=? r.2)) ranges)
  end.
(** The match of a translated pattern against a whole text. *)
Fixpoint glob_match (p : list glob) (s : ustr) : bool :=
  match p with
  | [] => bool_decide (s = [])
  | Star :: p =>
      (fix tails s := glob_match p s || match s with [] => false | _ :: s => tails s end) s
  | g :: p => match s with c :: s => glob_char g c && glob_match p s | [] => false end
  end.
Definition fnmatchcase (name pat : ustr) : bool := glob_match (translate pat) name.

(** ** The sanitiser *)

(** [urllib.parse.unquote_to_bytes] of an ASCII text. *)
Definition hex_value (c : Z) : option Z :=
  if (48 <=? c) && (c <=? 57) then Some (c - 48)
  else if (65 <=? c) && (c <=? 70) then Some (c - 55)
  else if (97 <=? c) && (c <=? 102) then Some (c - 87) else None.
Fixpoint unquote_to_bytes (s : ustr) : list Z :=
  match s with
  | [] => []
  | c :: t =>
      if c =? PERCENT then
        match t with
        | a :: b :: t' =>
            match hex_value a, hex_value b with
            | Some x, Some y => (16 * x + y) :: unquote_to_bytes t'
            | _, _ => c :: unquote_to_bytes t
            end
        | _ => c :: unquote_to_bytes t
        end
      else c :: unquote_to_bytes t
  end.
(** [urllib.parse.unquote]: every ASCII run is unquoted and read as UTF-8;
    [run] is the current one, reversed. *)
Definition flush (run : ustr) : ustr := decode false (unquote_to_bytes (reverse run)).
Fixpoint unquote_from (run : ustr) (s : ustr) : ustr :=
  match s with
  | [] => flush run
  | c :: t => if c <? 128 then unquote_from (c :: run) t
              else (flush run ++ c :: unquote_from [] t)%list
  end.
Definition unquote (s : ustr) : ustr := unquote_from [] s.

(** [posixpath.normpath]. *)
Definition norm_step (absolute : bool) (acc : list ustr) (comp : ustr) : list ustr :=
  if u_in comp [[]; [DOT]] then acc
  else if negb (ueqb comp [DOT; DOT]) || (negb absolute && bool_decide (acc = []))
          || (match acc with c :: _ => ueqb c [DOT; DOT] | [] => false end)
  then comp :: acc
  else match acc with _ :: acc => acc | [] => [] end.
Definition initial_slashes (path : ustr) : nat :=
  if starts_with [SLASH; SLASH] path && negb (starts_with [SLASH; SLASH; SLASH] path) then 2%nat
  else if starts_with [SLASH] path then 1%nat else 0%nat.
Definition normpath (path : ustr) : ustr :=
  let n := initial_slashes path in
  let comps := reverse (foldl (norm_step (0 <? n)%nat) [] (split_at (Z.eqb SLASH) path)) in
  let normed := (replicate n SLASH ++ ujoin SLASH comps)%list in
  if bool_decide (normed = []) then [DOT] else normed.

(** [posixpath.join(a, b)] of a non-empty [a] and a relative [b]. *)
Definition path_join (a b : ustr) : ustr :=
  if ends_with [SLASH] a then (a ++ b)%list else (a ++ SLASH :: b)%list.

Inductive sanitize_exc :=
| PercentNesting | NullByte | ConfusableDotDot | DotDotSegment | EscapesRoot.

(** The percent-decoding loop: at most eight decodings, then one more must
    change nothing. *)
Fixpoint percent_decode (n : nat) (value : ustr) : res sanitize_exc ustr :=
  let decoded := unquote value in
  if ueqb decoded value then Ok value
  else match n with
       | O => Raise PercentNesting
       | S n => percent_decode n decoded
       end.

Definition fold_char (c : Z) : Z :=
  if slash_like c then SLASH else if dot_like c then DOT else c.
Definition separator (c : Z) : bool := (c =? BACKSLASH) || (c =? SLASH).
(** [".." in re.split(r"[\\/]", s)]. *)
Definition has_dotdot (s : ustr) : bool := u_in [DOT; DOT] (split_at separator s).
Definition to_slashes (s : ustr) : ustr := (fun c => if c =? BACKSLASH then SLASH else c) <$> s.

Definition windows_form (value : ustr) : ustr :=
  if windows_drive value then
    match value with
    | drive :: colon :: remainder => lower_letter drive :: colon :: to_slashes remainder
    | _ => value
    end
  else if windows_unc value then to_slashes value
  else value.

Definition escapes_root (normalized : ustr) : bool :=
  ueqb normalized [DOT; DOT] || starts_with [DOT; DOT; SLASH] normalized
  || contains [SLASH; DOT; DOT; SLASH] normalized || ends_with [SLASH; DOT; DOT] normalized.

Section Scope.
Context `{!UnicodeData, !Filesystem}.

(** [_sanitize_value]. *)
Definition sanitize_value (raw : ustr) : res sanitize_exc ustr :=
  value ← percent_decode RESOURCE_PERCENT_DECODE_MAX_ITERATIONS raw;
  raise_if has_char 0 value with NullByte ;;
  let value := fold_char <$> nfc value in
  let nfkc_form := nfkc value in
  raise_if negb (ueqb nfkc_form value) && has_dotdot nfkc_form with ConfusableDotDot ;;
  raise_if has_dotdot value with DotDotSegment ;;
  let value := windows_form value in
  if url_scheme value then Ok value
  else
    let normalized := normpath value in
    raise_if escapes_root normalized with EscapesRoot ;;
    Ok normalized.

(** ** The scope check *)

Inductive scope_denial :=
| NoValidPatterns
| UnrestrictedNotAlone
| ScopeMissing
| TokenRejected (token : ustr) (e : sanitize_exc)
| OutsideScope (token : ustr)
| ResolutionFailed (token : ustr)
| ResolvesOutside (token : ustr)
| ScanExhausted.

(** [_is_absolute_pattern], and the test of a normalised token. *)
Definition is_absolute (p : ustr) : bool :=
  starts_with [SLASH] p || url_scheme p || windows_drive p.

Definition matches_any (patterns : list ustr) (candidate : ustr) : bool :=
  existsb (fnmatchcase candidate) patterns.

(** [_simple_local_scope_pattern]. *)
Definition simple_local_scope_pattern (pattern : ustr) : option (ustr * bool) :=
  if negb (starts_with [SLASH] pattern) || url_scheme pattern then None
  else
    let includes_descendants := ends_with [SLASH; 42] pattern in
    let root := if includes_descendants then take (length pattern - 2) pattern else pattern in
    let root := if bool_decide (root = []) then [SLASH] else root in
    if has_char 42 root || has_char 63 root || has_char 91 root then None
    else Some (root, includes_descendants).

(** [_canonical_local_path]; [None] where it raises. *)
Definition canonical_local_path (path : ustr) : option ustr :=
  match realpath_strict path with
  | Resolved p => Some p
  | NotFound => realpath path
  | Unresolvable => None
  end.

(** The loop over the matched local patterns of [_resolved_local_match]. *)
Fixpoint under_some_root (token resolved : ustr) (roots : list (ustr * bool))
    : res scope_denial unit :=
  match roots with
  | [] => Raise (ResolvesOutside token)
  | (root, includes_descendants) :: roots =>
      match canonical_local_path root with
      | None => Raise (ResolutionFailed token)
      | Some resolved_root =>
          if ueqb resolved resolved_root then Ok tt
          else if includes_descendants
                  && starts_with (rstrip SLASH resolved_root ++ [SLASH])%list resolved then Ok tt
          else under_some_root token resolved roots
      end
  end.
(** [_resolved_local_match] of the candidate matched for [token]. *)
Definition resolved_local_match (patterns : list ustr) (token candidate : ustr)
    : res scope_denial unit :=
  if negb (starts_with [SLASH] candidate) || url_scheme candidate then Ok tt
  else
    let matched := omap simple_local_scope_pattern
                     (filter (fun p => fnmatchcase candidate p = true) patterns) in
    if bool_decide (matched = []) then Ok tt
    else match canonical_local_path candidate with
         | None => Raise (ResolutionFailed token)
         | Some resolved => under_some_root token resolved matched
         end.

(** A candidate accepted if it sanitises, passes [guard] and matches. *)
Definition try_candidate (patterns : list ustr) (guard : ustr -> bool) (raw : ustr) : option ustr :=
  match sanitize_value raw with
  | Ok c => if guard c && matches_any patterns c then Some c else None
  | Raise _ => None
  end.
Definition under_anchor (anchor c : ustr) : bool :=
  ueqb c anchor || starts_with (rstrip SLASH anchor ++ [SLASH])%list c.

(** The fallbacks for a token that matches no pattern as it is: below the
    working directory, with a leading slash, and without it. *)
Definition below_cwd (patterns : list ustr) (cwd_anchor : option ustr) (normalized : ustr)
    : option ustr :=
  match cwd_anchor with
  | Some anchor =>
      if is_absolute normalized then None
      else try_candidate patterns (under_anchor anchor) (path_join anchor normalized)
  | None => None
  end.
Definition rooted (patterns : list ustr) (normalized : ustr) : option ustr :=
  if negb (is_absolute normalized) && existsb is_absolute patterns
  then try_candidate patterns (fun _ => true) (SLASH :: normalized) else None.
Definition unrooted (patterns : list ustr) (normalized : ustr) : option ustr :=
  let bare := lstrip SLASH normalized in
  if is_absolute normalized && existsb (fun p => negb (is_absolute p)) patterns
     && starts_with [SLASH] normalized && bool_decide (bare <> [])
  then try_candidate patterns (fun _ => true) bare else None.

(** The candidate a normalised token is matched as. *)
Definition matched_candidate (patterns : list ustr) (cwd_anchor : option ustr) (normalized : ustr)
    : option ustr :=
  if matches_any patterns normalized then Some normalized
  else match below_cwd patterns cwd_anchor normalized with
       | Some c => Some c
       | None => match rooted patterns normalized with
                 | Some c => Some c
                 | None => unrooted patterns normalized
                 end
       end.

(** The body of the token loop. *)
Definition check_token (patterns : list ustr) (cwd_anchor : option ustr) (token : ustr)
    : res scope_denial unit :=
  match sanitize_value token with
  | Raise e => Raise (TokenRejected token e)
  | Ok normalized =>
      match matched_candidate patterns cwd_anchor normalized with
      | None => Raise (OutsideScope token)
      | Some c => resolved_local_match patterns token c
      end
  end.

Definition anchor_of (cwd : pyval) : option ustr :=
  match cwd with
  | PStr s =>
      if starts_with [SLASH] (chars s) then
        match sanitize_value (chars s) with
        | Ok c => if starts_with [SLASH] c then Some c else None
        | Raise _ => None
        end
      else None
  | _ => None
  end.

(** The string entries of the scope that are not empty. *)
Definition pattern_of (p : pyval) : option ustr :=
  match p with
  | PStr s => if bool_decide (chars s = []) then None else Some (chars s)
  | _ => None
  end.

(** The two loops over values and tokens. *)
Definition check_values (env : scope_env) (scope_missing : bool) (patterns : list ustr)
    (cwd_anchor : option ustr) (values : list (option ustr * ustr)) : res scope_denial unit :=
  iterR (fun kv : option ustr * ustr =>
    iterR (fun token =>
      raise_if scope_missing with ScopeMissing ;;
      check_token patterns cwd_anchor token) (extract_path_tokens env kv.2 kv.1).1) values.

(** [_check_resource_scope]: [Ok] for [(True, "")], [Raise] for a reason. *)
Definition check_resource_scope (env : scope_env) (arguments : pyval) (resource_scope : list pyval)
    (cwd : pyval) : res scope_denial unit :=
  let scope_missing := bool_decide (resource_scope = []) in
  let patterns := omap pattern_of resource_scope in
  raise_if bool_decide (patterns = []) && negb scope_missing with NoValidPatterns ;;
  raise_if u_in (chars "**") patterns
           && (negb (bool_decide (patterns = [chars "**"])) || negb (length resource_scope =? 1)%nat)
    with UnrestrictedNotAlone ;;
  let nfc_patterns := nfc <$> patterns in
  let cwd_anchor := anchor_of cwd in
  let '(values, st) := iter_resource_values env arguments None 0
                         (ScanState RESOURCE_SCAN_MAX_VALUES false) in
  _ ← check_values env scope_missing nfc_patterns cwd_anchor values;
  raise_if exhausted st || existsb (fun kv => (extract_path_tokens env kv.2 kv.1).2) values
    with ScanExhausted ;;
  Ok tt.

End Scope.

(** ** Segments *)

Lemma split_at_cons p c s : p c = false ->
  exists w ws, split_at p s = w :: ws /\ split_at p (c :: s) = (c :: w) :: ws.
Proof.
  intros Hc. cbn. rewrite Hc. destruct (split_at p s) as [|w ws] eqn:E; [|by eexists _, _].
  exfalso. revert E. clear. destruct s as [|a s]; cbn; [done|].
  destruct (p a); [done|]. by destruct (split_at p s).
Qed.

Lemma split_at_nonnil p s : split_at p s <> [].
Proof.
  destruct s as [|c s]; [done|]. destruct (p c) eqn:E; [by cbn; rewrite E|].
  destruct (split_at_cons p c s E) as (w & ws & _ & ->). done.
Qed.

Lemma split_at_sep p (a b : ustr) c : p c = true ->
  split_at p (a ++ c :: b)%list = (split_at p a ++ split_at p b)%list.
Proof.
  intros Hc. induction a as [|d a IH]; cbn; [by rewrite Hc|]. rewrite IH.
  destruct (p d); [done|]. destruct (split_at p a) eqn:E; [by apply split_at_nonnil in E|done].
Qed.

Lemma split_at_replicate p n c (s : ustr) : p c = true ->
  split_at p (replicate n c ++ s)%list = (replicate n [] ++ split_at p s)%list.
Proof. intros Hc. induction n as [|n IH]; cbn; [done|]. by rewrite Hc, IH. Qed.

(** A finer split splits the parts of a coarser one. *)
Lemma split_at_finer p q s : (forall c, q c = true -> p c = true) ->
  split_at p s = concat (split_at p <$> split_at q s).
Proof.
  intros Hq. induction s as [|c s IH]; cbn; [done|]. destruct (q c) eqn:Ec.
  - rewrite (Hq c Ec). cbn. by rewrite IH.
  - destruct (split_at q s) as [|w ws] eqn:E; [by apply split_at_nonnil in E|]. cbn in IH |- *.
    rewrite IH. destruct (p c); [done|].
    destruct (split_at p w) eqn:E'; [by apply split_at_nonnil in E'|done].
Qed.

Lemma split_at_ujoin p c l : p c = true -> l <> [] ->
  split_at p (ujoin c l) = concat (split_at p <$> l).
Proof.
  intros Hc Hl. induction l as [|w l IH]; [done|]. destruct l as [|v l].
  - cbn. by rewrite app_nil_r.
  - change (ujoin c (w :: v :: l)) with (w ++ c :: ujoin c (v :: l))%list.
    by rewrite split_at_sep, IH.
Qed.

Lemma split_at_map p (f : Z -> Z) (s : ustr) : (forall c, p (f c) = p c) ->
  split_at p (map f s) = map (map f) (split_at p s).
Proof.
  intros Hf. induction s as [|c s IH]; cbn; [done|]. rewrite Hf, IH.
  destruct (p c); [done|]. by destruct (split_at p s).
Qed.

Lemma ueqb_spec a b : ueqb a b = true <-> a = b.
Proof. apply bool_decide_eq_true. Qed.
Lemma u_in_spec a l : u_in a l = true <-> a ∈ l.
Proof.
  unfold u_in. rewrite existsb_exists. split.
  - intros (b & Hb & E). apply ueqb_spec in E as ->. by apply list_elem_of_In.
  - intros Ha. exists a. split; [by apply list_elem_of_In|by apply ueqb_spec].
Qed.
Lemma u_in_false a l : u_in a l = false <-> a ∉ l.
Proof. rewrite <- u_in_spec. destruct (u_in a l); split; congruence. Qed.

(** No path segment of [s] is [..], at either kind of separator. *)
Definition no_dotdot (s : ustr) : Prop := [DOT; DOT] ∉ split_at separator s.

Lemma no_dotdot_spec s : has_dotdot s = false <-> no_dotdot s.
Proof. apply u_in_false. Qed.

Lemma to_slashes_dotdot s : no_dotdot s -> no_dotdot (to_slashes s).
Proof.
  unfold no_dotdot, to_slashes. intros H.
  change (?f <$> s) with (map f s). rewrite split_at_map.
  - intros Hin. apply (list_elem_of_fmap_1 (map _)) in Hin as (w & Ew & Hw). apply H.
    replace [DOT; DOT] with w; [done|].
    destruct w as [|a [|b [|? ?]]]; try discriminate. cbn in Ew. injection Ew as Ea Eb.
    destruct (Z.eqb_spec a BACKSLASH), (Z.eqb_spec b BACKSLASH); unfold DOT, SLASH in *; congruence.
  - intros c. unfold separator. destruct (Z.eqb_spec c BACKSLASH) as [->|Hc]; [done|].
    by rewrite (proj2 (Z.eqb_neq _ _) Hc).
Qed.

Lemma windows_form_dotdot s : no_dotdot s -> no_dotdot (windows_form s).
Proof.
  intros H. unfold windows_form. destruct (windows_drive s) eqn:Ed.
  - destruct s as [|d [|e s]]; try discriminate. cbn in Ed.
    apply andb_prop in Ed as [[Hd He]%andb_prop _]. apply Z.eqb_eq in He as ->.
    pose proof (to_slashes_dotdot _ H) as Hs. unfold no_dotdot in *.
    assert (Hsep : forall c, ascii_letter c = true -> separator c = false)
      by (unfold ascii_letter, separator, BACKSLASH, SLASH; lia).
    assert (Hlow : ascii_letter (lower_letter d) = true)
      by (unfold ascii_letter, lower_letter in *; destruct ((65 <=? d) && (d <=? 90)) eqn:?; lia).
    cbn in Hs |- *. assert (Hb : (d =? BACKSLASH) = false)
      by (unfold ascii_letter, BACKSLASH in *; lia).
    rewrite Hb in Hs. rewrite (Hsep _ Hd) in Hs. rewrite (Hsep _ Hlow).
    change ((58 =? 92)) with false in Hs. cbn in Hs |- *.
    fold (to_slashes s) in Hs. destruct (split_at separator (to_slashes s)) as [|w ws];
      intros [E|E]%elem_of_cons; [discriminate E|by apply elem_of_nil in E|injection E; done|].
    apply Hs. by right.
  - destruct (windows_unc s); [by apply to_slashes_dotdot|done].
Qed.

Lemma elem_of_concat {A} (x : A) l : x ∈ concat l <-> exists w, x ∈ w /\ w ∈ l.
Proof.
  rewrite list_elem_of_In, in_concat. split; intros (w & H1 & H2); exists w;
    rewrite !list_elem_of_In in *; done.
Qed.

Lemma norm_steps absolute l acc : [DOT; DOT] ∉ l ->
  foldl (norm_step absolute) acc l
  = (reverse (filter (fun w => w ∉ [[]; [DOT]]) l) ++ acc)%list.
Proof.
  revert acc. induction l as [|w l IH]; intros acc Hl; [done|]. cbn [foldl].
  rewrite IH by (intros ?; apply Hl; by right). unfold norm_step at 1.
  destruct (u_in w [[]; [DOT]]) eqn:Ew.
  - apply u_in_spec in Ew. by rewrite filter_cons_False by (intros Hn; by apply Hn).
  - apply u_in_false in Ew. rewrite filter_cons_True by done.
    replace (ueqb w [DOT; DOT]) with false; [cbn [negb orb]; by rewrite reverse_cons, <- app_assoc|].
    symmetry. apply bool_decide_eq_false. intros ->. apply Hl. by left.
Qed.

(** The components of a normalised path come from the path. *)
Lemma normpath_dotdot s : no_dotdot s -> no_dotdot (normpath s).
Proof.
  intros H. unfold no_dotdot, normpath in *.
  assert (Hq : forall c, Z.eqb SLASH c = true -> separator c = true)
    by (unfold separator; lia).
  rewrite (split_at_finer _ (Z.eqb SLASH) s Hq) in H.
  rewrite norm_steps, app_nil_r, reverse_involutive.
  2: { intros Hin. apply H. rewrite elem_of_concat. exists [[DOT; DOT]].
       split; [by left|]. rewrite list_elem_of_fmap. by exists [DOT; DOT]. }
  set (comps := filter _ _). case_bool_decide as En; [cbn; set_solver|].
  rewrite split_at_replicate by done. intros [Hr|Hc]%elem_of_app.
  { apply elem_of_replicate in Hr as [? _]. discriminate. }
  destruct (decide (comps = [])) as [E|Hne]; [rewrite E in Hc; cbn in Hc; set_solver|].
  rewrite split_at_ujoin in Hc by done. apply H.
  apply elem_of_concat in Hc as (ws & Hw & Hws). apply elem_of_concat. exists ws.
  split; [done|]. apply list_elem_of_fmap in Hws as (c & -> & Hc').
  apply list_elem_of_fmap. exists c. split; [done|]. by apply list_elem_of_filter in Hc' as [_ ?].
Qed.

(** ** The scan against its specification *)

Section Scan.
Context `{!UnicodeData}.

(** Every resource-like string of a value under its nearest key, without
    bounds. *)
Fixpoint resources (env : scope_env) (key : option ustr) (v : pyval) : list (option ustr * ustr) :=
  match v with
  | PStr s => if yields env key (chars s) then [(key, chars s)] else []
  | PDict d => concat (map (fun kv => resources env (Some (chars kv.1)) kv.2) d)
  | PList l => concat (map (resources env key) l)
  | _ => []
  end.

Fixpoint nesting (v : pyval) : Z :=
  match v with
  | PDict d => 1 + foldr (fun kv n => Z.max (nesting kv.2) n) 0 d
  | PList l => 1 + foldr (fun x n => Z.max (nesting x) n) 0 l
  | _ => 0
  end.

Definition scanned (f : scan_state -> list (option ustr * ustr) * scan_state)
    (ys : list (option ustr * ustr)) : Prop :=
  forall st, exhausted (f st).2 = false ->
    exhausted st = false /\ f st = (ys, ScanState (budget st - Z.of_nat (length ys)) false).

Lemma scan_items_sound {A} (f : A -> scan_state -> _) g (l : list A) :
  Forall (fun x => scanned (f x) (g x)) l -> scanned (scan_items f l) (concat (map g l)).
Proof.
  induction 1 as [|x l Hx Hl IH]; intros st.
  - cbn. intros He. split; [done|]. destruct st; cbn in *. f_equal. f_equal; [lia|done].
  - cbn [scan_items]. destruct (budget st <=? 0); [done|].
    destruct (f x st) as [ys st1] eqn:Ef. destruct (scan_items f l st1) as [zs st2] eqn:El.
    cbn [snd]. intros He. destruct (IH st1) as [He1 E1]; [by rewrite El|].
    destruct (Hx st) as [He0 E0]; [by rewrite Ef|]. split; [done|].
    rewrite Ef in E0. rewrite El in E1. injection E0 as -> ->. injection E1 as -> ->. cbn.
    rewrite length_app. f_equal. f_equal. lia.
Qed.

(** A scan that does not report exhaustion has seen every resource. *)
Lemma scan_sound env v key depth :
  scanned (iter_resource_values env v key depth) (resources env key v).
Proof.
  revert key depth. induction v using pyval_ind; intros key depth st; cbn [iter_resource_values];
    (destruct ((RESOURCE_SCAN_MAX_DEPTH <? depth) || (budget st <=? 0)); [done|]);
    try (cbn; intros He; split; [done|]; destruct st; cbn in *; f_equal; f_equal; [lia|done]).
  - cbn [resources]. destruct (yields env key (chars s)); cbn; intros He; (split; [done|]);
      destruct st; cbn in *; [unfold spend; cbn; by rewrite He|]. f_equal. f_equal; [lia|done].
  - apply (scan_items_sound _ (resources env key)). eapply Forall_impl; [eassumption|]. auto.
  - apply (scan_items_sound _ (fun kv => resources env (Some (chars kv.1)) kv.2)).
    eapply Forall_impl; [eassumption|]. auto.
Qed.

Definition scans (n : Z) (f : scan_state -> list (option ustr * ustr) * scan_state)
    (ys : list (option ustr * ustr)) : Prop :=
  n <= RESOURCE_SCAN_MAX_DEPTH -> forall st, Z.of_nat (length ys) < budget st ->
    f st = (ys, ScanState (budget st - Z.of_nat (length ys)) (exhausted st)).

Lemma scan_items_complete {A} n (f : A -> scan_state -> _) g (l : list A) :
  Forall (fun x => scans n (f x) (g x)) l -> scans n (scan_items f l) (concat (map g l)).
Proof.
  induction 1 as [|x l Hx Hl IH]; intros Hn st Hb.
  - cbn. destruct st; cbn. f_equal. f_equal. lia.
  - cbn [map concat scan_items] in *. rewrite length_app in Hb |- *.
    rewrite (proj2 (Z.leb_gt _ _)) by lia. rewrite Hx by (done || lia).
    rewrite IH by (done || cbn; lia). cbn. f_equal. f_equal. lia.
Qed.

Lemma nesting_nonneg v : 0 <= nesting v.
Proof.
  destruct v; cbn; try lia.
  - assert (0 <= foldr (fun x n => Z.max (nesting x) n) 0 l) by (induction l; cbn; lia). lia.
  - assert (0 <= foldr (fun kv n => Z.max (nesting kv.2) n) 0 d) by (induction d; cbn; lia). lia.
Qed.

Lemma foldr_max_in {A} (h : A -> Z) (l : list A) x : x ∈ l -> h x <= foldr (fun y n => Z.max (h y) n) 0 l.
Proof. induction 1; cbn; lia. Qed.

Lemma scans_weaken n m f ys : n <= m -> scans n f ys -> scans m f ys.
Proof. intros Hn Hf Hm. apply Hf. lia. Qed.

(** Within the depth bound and with more budget than resources, the scan sees
    everything and reports nothing. *)
Lemma scan_complete env v key depth :
  scans (depth + nesting v) (iter_resource_values env v key depth) (resources env key v).
Proof.
  revert key depth. induction v using pyval_ind; intros key depth Hd st Hb;
    match goal with |- iter_resource_values _ ?v _ _ _ = _ => pose proof (nesting_nonneg v) end;
    cbn [iter_resource_values]; rewrite (proj2 (orb_false_iff _ _)) by lia.
  1-4: destruct st; cbn; f_equal; f_equal; lia.
  all: cbn [resources] in *.
  - destruct (yields env key (chars s)); destruct st; cbn in *; f_equal; f_equal; lia.
  - eapply (scan_items_complete _ _ (resources env key)); [|exact Hd|done].
    rewrite Forall_forall in *. intros x Hx. eapply scans_weaken; [|by apply H0].
    pose proof (foldr_max_in nesting l x Hx). cbn. lia.
  - eapply (scan_items_complete _ _ (fun kv => resources env (Some (chars kv.1)) kv.2)); [|exact Hd|done].
    rewrite Forall_forall in *. intros x Hx. eapply scans_weaken; [|by apply H0].
    pose proof (foldr_max_in (fun kv => nesting kv.2) d x Hx) as Hm. cbv beta in Hm. cbn. lia.
Qed.

End Scan.

(** ** What a permitted call may name *)

Section Permitted.
Context `{!UnicodeData, !Filesystem}.

Lemma sanitize_safe raw n : sanitize_value raw = Ok n -> no_dotdot n.
Proof.
  unfold sanitize_value. intros (value & _ & Hv)%bind_ok. rewrite !guard_ok in Hv.
  destruct Hv as (_ & _ & Hd & Hv). apply no_dotdot_spec, windows_form_dotdot in Hd.
  destruct (url_scheme _); [by injection Hv as <-|]. rewrite guard_ok in Hv.
  destruct Hv as (_ & [= <-]). by apply normpath_dotdot.
Qed.

(** The forms a normalised token is compared in: its own, below the declared
    working directory, or with its leading slash added or removed. *)
Inductive stands_for (anchor : option ustr) (n : ustr) : ustr -> Prop :=
| AsIs : stands_for anchor n n
| BelowCwd a c : anchor = Some a -> is_absolute n = false ->
    sanitize_value (path_join a n) = Ok c -> under_anchor a c = true -> stands_for anchor n c
| Rooted c : is_absolute n = false -> sanitize_value (SLASH :: n) = Ok c -> stands_for anchor n c
| Unrooted c : starts_with [SLASH] n = true -> sanitize_value (lstrip SLASH n) = Ok c ->
    stands_for anchor n c.

(** An absolute local path that a local pattern matches resolves to the root
    of such a pattern or, for [ROOT/*], to something below it. *)
Definition confined (patterns : list ustr) (c : ustr) : Prop :=
  starts_with [SLASH] c = true -> url_scheme c = false ->
  (exists p, p ∈ patterns /\ fnmatchcase c p = true /\ is_Some (simple_local_scope_pattern p)) ->
  exists p root descendants resolved_root resolved,
    p ∈ patterns /\ fnmatchcase c p = true /\
    simple_local_scope_pattern p = Some (root, descendants) /\
    canonical_local_path c = Some resolved /\ canonical_local_path root = Some resolved_root /\
    (resolved = resolved_root \/
     descendants = true /\ starts_with (rstrip SLASH resolved_root ++ [SLASH])%list resolved = true).

Definition resource_permitted (patterns : list ustr) (anchor : option ustr) (token : ustr) : Prop :=
  exists n c p, sanitize_value token = Ok n /\ no_dotdot n /\ stands_for anchor n c /\
    no_dotdot c /\ p ∈ patterns /\ fnmatchcase c p = true /\ confined patterns c.

Lemma matches_any_spec patterns c :
  matches_any patterns c = true <-> exists p, p ∈ patterns /\ fnmatchcase c p = true.
Proof.
  unfold matches_any. rewrite existsb_exists. by setoid_rewrite list_elem_of_In.
Qed.

Lemma try_candidate_ok patterns guard raw c : try_candidate patterns guard raw = Some c ->
  sanitize_value raw = Ok c /\ guard c = true /\ matches_any patterns c = true.
Proof.
  unfold try_candidate. destruct (sanitize_value raw) as [d|]; [|done].
  destruct (guard d && matches_any patterns d) eqn:E; [|done]. intros [= ->].
  by apply andb_prop in E.
Qed.

Lemma matched_candidate_ok patterns anchor n c : no_dotdot n ->
  matched_candidate patterns anchor n = Some c ->
  stands_for anchor n c /\ no_dotdot c /\ matches_any patterns c = true.
Proof.
  intros Hn. unfold matched_candidate. destruct (matches_any patterns n) eqn:Em.
  { intros [= <-]. auto using AsIs. }
  destruct (below_cwd _ _ _) as [d|] eqn:Ea.
  { intros [= ->]. unfold below_cwd in Ea. destruct anchor as [a|]; [|done].
    destruct (is_absolute n) eqn:Eabs; [done|].
    apply try_candidate_ok in Ea as (Hs & Hu & Hm). eauto using BelowCwd, sanitize_safe. }
  destruct (rooted _ _) as [d|] eqn:Er.
  { intros [= ->]. unfold rooted in Er. destruct (negb (is_absolute n) && _) eqn:E; [|done].
    apply andb_prop in E as [Habs%negb_true_iff _]. apply try_candidate_ok in Er as (Hs & _ & Hm).
    eauto using Rooted, sanitize_safe. }
  unfold unrooted. destruct (_ && bool_decide _) eqn:E; [|done].
  apply andb_prop in E as [[_ E]%andb_prop _]. intros (Hs & _ & Hm)%try_candidate_ok.
  eauto using Unrooted, sanitize_safe.
Qed.

Lemma under_some_root_ok token resolved roots : under_some_root token resolved roots = Ok tt ->
  exists root descendants resolved_root, (root, descendants) ∈ roots /\
    canonical_local_path root = Some resolved_root /\
    (resolved = resolved_root \/
     descendants = true /\ starts_with (rstrip SLASH resolved_root ++ [SLASH])%list resolved = true).
Proof.
  induction roots as [|[root desc] roots IH]; cbn [under_some_root]; [done|].
  destruct (canonical_local_path root) as [r|] eqn:Er; [|done].
  destruct (ueqb resolved r) eqn:Eq.
  { intros _. apply ueqb_spec in Eq as ->. exists root, desc, r. split; [by left|]. auto. }
  destruct (desc && _) eqn:Ed.
  { intros _. apply andb_prop in Ed. exists root, desc, r. split; [by left|]. auto. }
  intros (root' & desc' & r' & Hin & Hc)%IH. exists root', desc', r'. split; [by right|done].
Qed.

Lemma resolved_local_match_ok patterns token c :
  resolved_local_match patterns token c = Ok tt -> confined patterns c.
Proof.
  unfold resolved_local_match, confined. intros Hr Hs Hu (p & Hp & Hm & [x Hx]).
  rewrite Hs, Hu in Hr. cbn [negb orb] in Hr. case_bool_decide as En.
  - exfalso. apply (elem_of_nil x). rewrite <- En. apply list_elem_of_omap. exists p.
    split; [|done]. by apply list_elem_of_filter.
  - destruct (canonical_local_path c) as [resolved|] eqn:Ec; [|done].
    apply under_some_root_ok in Hr as (root & desc & r & Hin & Hr & Hc).
    apply list_elem_of_omap in Hin as (q & Hq & Eq). apply list_elem_of_filter in Hq as [Hq Hq'].
    exists q, root, desc, r, resolved. auto 10.
Qed.

Lemma check_token_ok patterns anchor token :
  check_token patterns anchor token = Ok tt -> resource_permitted patterns anchor token.
Proof.
  unfold check_token. destruct (sanitize_value token) as [n|] eqn:En; [|done].
  pose proof (sanitize_safe _ _ En) as Hn.
  destruct (matched_candidate patterns anchor n) as [c|] eqn:Ec; [|done]. intros Hr.
  apply matched_candidate_ok in Ec as (Hs & Hc & (p & Hp & Hm)%matches_any_spec); [|done].
  exists n, c, p. eauto 10 using resolved_local_match_ok.
Qed.

(** An oversize value with a token is an oversize resource. *)
Lemma oversize_tokens h s token : token ∈ tokens_of h s -> oversize_resource h s = true.
Proof.
  destruct h; cbn.
  - destruct (existsb is_space s); [|done]. intros [Ht Hin]%list_elem_of_filter.
    apply existsb_exists. exists token. split; [by apply list_elem_of_In|done].
  - intros [Ht Hin]%list_elem_of_filter. apply existsb_exists. exists token.
    split; [by apply list_elem_of_In|done].
  - by destruct (looks_like_resource s); [|intros ?%elem_of_nil].
Qed.

Lemma yields_nonempty env key s : yields env key s = true -> s <> [].
Proof. destruct s; [|done]. by destruct key. Qed.

Lemma resources_nonempty env key v k s : (k, s) ∈ resources env key v -> s <> [].
Proof.
  revert key. induction v using pyval_ind; intros key; cbn [resources];
    try (by intros ?%elem_of_nil).
  - destruct (yields env key (chars s0)) eqn:E; [|by intros ?%elem_of_nil].
    intros [= _ ->]%list_elem_of_singleton. by eapply yields_nonempty.
  - intros (w & Hw & Hin)%elem_of_concat. apply list_elem_of_fmap in Hin as (x & -> & Hx).
    rewrite Forall_forall in *. eauto.
  - intros (w & Hw & Hin)%elem_of_concat. apply list_elem_of_fmap in Hin as (x & -> & Hx).
    rewrite Forall_forall in *. by eapply H1.
Qed.

Lemma check_ok_token env args scope cwd :
  check_resource_scope env args scope cwd = Ok tt ->
  forall key s token, (key, s) ∈ resources env None args -> token ∈ tokens_of (hint_of env key) s ->
    scope <> [] /\
    check_token (nfc <$> omap pattern_of scope) (anchor_of cwd) token = Ok tt.
Proof.
  unfold check_resource_scope. intros Hc key s token Hs Ht. rewrite !guard_ok in Hc.
  destruct Hc as (_ & _ & Hc). destruct (iter_resource_values _ _ _ _ _) as [values st] eqn:Ei.
  apply bind_unit_ok in Hc as [Hv Hc]. rewrite guard_ok, orb_false_iff in Hc.
  destruct Hc as ([Hex Hlong] & _).
  destruct (scan_sound env args None 0 (ScanState RESOURCE_SCAN_MAX_VALUES false)) as [_ Es].
  { by rewrite Ei. }
  rewrite Ei in Es. injection Es as -> ->. unfold check_values in Hv. rewrite iterR_ok in Hv.
  specialize (Hv _ Hs). rewrite iterR_ok in Hv.
  assert (Hx : extract_path_tokens env s key = (tokens_of (hint_of env key) s, false)).
  { unfold extract_path_tokens. rewrite bool_decide_false by (by eapply resources_nonempty).
    destruct (_ <? length s)%nat eqn:El; [exfalso|done].
    assert (Hl : (extract_path_tokens env s key).2 = true).
    { unfold extract_path_tokens. rewrite bool_decide_false by (by eapply resources_nonempty).
      rewrite El. by eapply oversize_tokens. }
    rewrite <- not_true_iff_false, existsb_exists in Hlong. apply Hlong. exists (key, s).
    split; [by apply list_elem_of_In|done]. }
  cbn [fst snd] in Hv. rewrite Hx in Hv. specialize (Hv _ Ht). rewrite guard_ok in Hv.
  destruct Hv as [Hne Hv]. split; [by apply bool_decide_eq_false in Hne|done].
Qed.

(** C7. No resource slips past a permitted call: whatever the depth, number
    or length of the argument values, every token of every resource-like string
    in them sanitises to a form without a [..] segment and is matched, as it
    is, below the working directory or with its leading slash added or removed,
    by a pattern of a scope that is not empty; and where a local pattern
    matches a local path, its real path lies in the real root of one. *)
Theorem scope_check_sound env args scope cwd :
  check_resource_scope env args scope cwd = Ok tt ->
  forall key s token, (key, s) ∈ resources env None args -> token ∈ tokens_of (hint_of env key) s ->
    scope <> [] /\ resource_permitted (nfc <$> omap pattern_of scope) (anchor_of cwd) token.
Proof.
  intros Hc key s token Hs Ht. destruct (check_ok_token _ _ _ _ Hc _ _ _ Hs Ht) as [Hn Hk].
  split; [done|]. by apply check_token_ok.
Qed.

(** The check has no false alarms within its bounds: a call nested at most
    16 deep, with fewer than 1024 resource strings of at most 4096 characters,
    is permitted if each of their tokens sanitises, matches a pattern, and
    passes the symlink check. *)
Theorem scope_check_complete env args scope cwd :
  omap pattern_of scope <> [] -> (chars "**" ∈ omap pattern_of scope -> length scope = 1%nat) ->
  nesting args <= RESOURCE_SCAN_MAX_DEPTH ->
  Z.of_nat (length (resources env None args)) < RESOURCE_SCAN_MAX_VALUES ->
  (forall key s, (key, s) ∈ resources env None args ->
     (length s <= RESOURCE_TOKEN_MAX_LEN)%nat /\
     forall token, token ∈ tokens_of (hint_of env key) s ->
       exists n, sanitize_value token = Ok n /\
         matches_any (nfc <$> omap pattern_of scope) n = true /\
         resolved_local_match (nfc <$> omap pattern_of scope) token n = Ok tt) ->
  check_resource_scope env args scope cwd = Ok tt.
Proof.
  intros Hp Hu Hn Hb Hall. unfold check_resource_scope.
  rewrite (bool_decide_false (omap pattern_of scope = [])) by done.
  assert (Hs : bool_decide (scope = []) = false) by (apply bool_decide_false; by intros ->).
  assert (Hg : u_in (chars "**") (omap pattern_of scope)
      && (negb (bool_decide (omap pattern_of scope = [chars "**"])) || negb (length scope =? 1)%nat)
      = false).
  { destruct (u_in _ _) eqn:E; [|done]. apply u_in_spec in E. pose proof (Hu E) as Hl.
    rewrite Hl. destruct scope as [|v [|? ?]]; try discriminate Hl. cbn [omap list_omap] in *.
    destruct (pattern_of v); [|done]. apply list_elem_of_singleton in E as <-.
    by rewrite bool_decide_true. }
  rewrite Hg, (scan_complete env args None 0) by (cbn; lia). rewrite Hs. cbn [andb exhausted orb].
  assert (Hx : forall kv, kv ∈ resources env None args ->
    extract_path_tokens env kv.2 kv.1 = (tokens_of (hint_of env kv.1) kv.2, false)).
  { intros [key s] Hin. destruct (Hall _ _ Hin) as [Hl _]. unfold extract_path_tokens. cbn [fst snd].
    rewrite bool_decide_false by (by eapply resources_nonempty).
    by rewrite (proj2 (Nat.ltb_ge _ _) Hl). }
  replace (existsb _ (resources env None args)) with false.
  - apply bind_unit_ok. split; [|done]. unfold check_values.
    apply iterR_ok. intros [key s] Hin. apply iterR_ok. intros token Ht. rewrite Hx in Ht by done.
    destruct (Hall _ _ Hin) as [_ Hok]. destruct (Hok _ Ht) as (n & En & Hm & Hr).
    unfold check_token, matched_candidate. by rewrite En, Hm, Hr.
  - symmetry. apply not_true_iff_false. rewrite existsb_exists. intros (kv & Hin & Hf).
    apply list_elem_of_In in Hin. by rewrite Hx in Hf.
Qed.

(** ** Globs of the form [ROOT/*] *)

Definition plain (s : ustr) : Prop := Forall (fun c => c <> 42 /\ c <> 63 /\ c <> 91) s.

Lemma translate_plain n root rest : plain root ->
  translate_fuel (length root + n) (root ++ rest)%list = (map Lit root ++ translate_fuel n rest)%list.
Proof.
  induction 1 as [|c root (H1 & H2 & H3) _ IH]; cbn; [done|].
  rewrite (proj2 (Z.eqb_neq _ _) H1), (proj2 (Z.eqb_neq _ _) H2), (proj2 (Z.eqb_neq _ _) H3).
  by rewrite IH.
Qed.

Lemma glob_match_plain root q s : glob_match (map Lit root ++ q) s = true <->
  exists rest, s = (root ++ rest)%list /\ glob_match q rest = true.
Proof.
  revert s. induction root as [|c root IH]; intros s; cbn [map app].
  - split; [by exists s|by intros (rest & -> & ?)].
  - destruct s as [|d s]; cbn; [split; [done|by intros (rest & ? & _)]|].
    rewrite andb_true_iff, IH, Z.eqb_eq. split.
    + intros (-> & rest & -> & ?). by exists rest.
    + intros (rest & [= -> ->] & ?). split; [done|]. by exists rest.
Qed.

Lemma glob_match_star s : glob_match [Star] s = true.
Proof. induction s; [done|]. cbn in *. done. Qed.

Lemma fnmatch_below root c : plain root ->
  fnmatchcase c (root ++ [SLASH; 42])%list = true <-> exists rest, c = (root ++ SLASH :: rest)%list.
Proof.
  intros Hr. unfold fnmatchcase, translate. rewrite length_app, translate_plain by done. cbn.
  rewrite glob_match_plain. split.
  - intros ([|d rest] & -> & Hm); [done|]. cbn in Hm. apply andb_prop in Hm as [Hd _].
    apply Z.eqb_eq in Hd as ->. by exists rest.
  - intros (rest & ->). exists (SLASH :: rest). split; [done|]. apply (glob_match_star rest).
Qed.

Lemma starts_with_spec p s : starts_with p s = true <-> exists t, s = (p ++ t)%list.
Proof.
  revert s. induction p as [|a p IH]; intros s; cbn.
  - split; [by exists s|done].
  - destruct s as [|b s]; [split; [done|by intros [t ?]]|]. rewrite andb_true_iff, IH, Z.eqb_eq.
    split; [intros [-> [t ->]]; by exists t|intros [t [= -> ->]]; split; [done|by exists t]].
Qed.

Lemma slash_no_scheme s : starts_with [SLASH] s = true -> url_scheme s = false.
Proof. intros [t ->]%starts_with_spec. done. Qed.

Lemma local_pattern_below root : starts_with [SLASH] root = true -> plain root ->
  simple_local_scope_pattern (root ++ [SLASH; 42])%list = Some (root, true).
Proof.
  intros Hs Hp. unfold simple_local_scope_pattern.
  assert (Hs' : starts_with [SLASH] (root ++ [SLASH; 42])%list = true).
  { apply starts_with_spec in Hs as [t ->]. apply starts_with_spec. by eexists. }
  rewrite Hs', (slash_no_scheme _ Hs'). cbn [negb orb].
  assert (He : ends_with [SLASH; 42] (root ++ [SLASH; 42])%list = true).
  { unfold ends_with. rewrite reverse_app. apply starts_with_spec. by eexists. }
  rewrite He, length_app. cbn [length].
  replace (length root + 2 - 2)%nat with (length root) by lia. rewrite take_app_length.
  rewrite bool_decide_false by (by intros ->).
  assert (Hc : forall c, c = 42 \/ c = 63 \/ c = 91 -> has_char c root = false).
  { intros c Hc. apply not_true_iff_false. unfold has_char. rewrite existsb_exists.
    intros (d & Hd%list_elem_of_In & <-%Z.eqb_eq). unfold plain in Hp. rewrite Forall_forall in Hp.
    destruct (Hp _ Hd) as (? & ? & ?). naive_solver. }
  by rewrite !Hc by auto.
Qed.

(** C30. A scope of one directory confines: under the single pattern
    [ROOT/*], every token of a permitted call is matched as a path that is
    textually [ROOT/] and something, without [..] segments, and whose real path
    is the real path of [ROOT] or below it. *)
Theorem scope_confines_to_root env args p root cwd :
  nfc (chars p) = (root ++ [SLASH; 42])%list -> starts_with [SLASH] root = true -> plain root ->
  check_resource_scope env args [PStr p] cwd = Ok tt ->
  forall key s token, (key, s) ∈ resources env None args -> token ∈ tokens_of (hint_of env key) s ->
    exists n c rest resolved resolved_root,
      sanitize_value token = Ok n /\ stands_for (anchor_of cwd) n c /\
      c = (root ++ SLASH :: rest)%list /\ no_dotdot c /\
      canonical_local_path c = Some resolved /\ canonical_local_path root = Some resolved_root /\
      (resolved = resolved_root \/
       starts_with (rstrip SLASH resolved_root ++ [SLASH])%list resolved = true).
Proof.
  intros Hp Hr Hpl Hc key s token Hs Ht.
  destruct (check_ok_token _ _ _ _ Hc _ _ _ Hs Ht) as [_ Hk].
  apply check_token_ok in Hk as (n & c & q & En & _ & Hst & Hd & Hq & Hm & Hconf).
  assert (Hpat : nfc <$> omap pattern_of [PStr p] = [(root ++ [SLASH; 42])%list] \/
                 nfc <$> omap pattern_of [PStr p] = []).
  { cbn. case_bool_decide; [by right|left]. cbn. by rewrite Hp. }
  destruct Hpat as [Hpat|Hpat]; rewrite Hpat in Hq, Hconf; [|by apply elem_of_nil in Hq].
  apply list_elem_of_singleton in Hq as ->. pose proof (local_pattern_below _ Hr Hpl) as Hloc.
  pose proof Hm as (rest & Ec)%fnmatch_below; [|done].
  assert (Hsl : starts_with [SLASH] c = true).
  { apply starts_with_spec in Hr as [t ->]. apply starts_with_spec. rewrite Ec. by eexists. }
  destruct Hconf as (p' & root' & desc & rr & r & Hp' & _ & Hl & Hcr & Hrr & Hor);
    [done|by apply slash_no_scheme| |].
  { exists (root ++ [SLASH; 42])%list. rewrite Hloc. split; [by left|done]. }
  apply list_elem_of_singleton in Hp' as ->. rewrite Hloc in Hl. injection Hl as <- <-.
  exists n, c, rest, r, rr. naive_solver.
Qed.

Lemma percent_decode_more n m s v : (n <= m)%nat -> percent_decode n s = Ok v ->
  percent_decode m s = Ok v.
Proof.
  revert m s. induction n as [|n IH]; intros m s Hm; destruct m as [|m]; try lia; cbn;
    destruct (ueqb (unquote s) s); try done. intros Hv. apply IH; [lia|done].
Qed.

(** Encoding hides nothing: what a value sanitises to has no [..]
    segment, neither as it is nor in any form a further percent-decoding, a
    change of Unicode slashes and dots or a compatibility normalisation of the
    decoded value reveals; and a value sanitises to the same as its
    percent-decoded form. *)
Theorem sanitize_canonical raw n :
  sanitize_value raw = Ok n ->
  no_dotdot n /\ sanitize_value (unquote raw) = Ok n /\
  exists value, percent_decode RESOURCE_PERCENT_DECODE_MAX_ITERATIONS raw = Ok value /\
    unquote value = value /\ no_dotdot (fold_char <$> nfc value) /\
    no_dotdot (nfkc (fold_char <$> nfc value)).
Proof.
  intros Hs. split; [by eapply sanitize_safe|]. unfold sanitize_value in Hs |- *.
  apply bind_ok in Hs as (value & Ev & Hs). split.
  - enough (Eu : percent_decode RESOURCE_PERCENT_DECODE_MAX_ITERATIONS (unquote raw) = Ok value)
      by (by rewrite Eu).
    unfold RESOURCE_PERCENT_DECODE_MAX_ITERATIONS in Ev. cbn [percent_decode] in Ev.
    destruct (ueqb (unquote raw) raw) eqn:E.
    + apply ueqb_spec in E. injection Ev as <-. rewrite E. cbn. rewrite E.
      by rewrite (proj2 (ueqb_spec _ _)).
    + eapply (percent_decode_more 7); [unfold RESOURCE_PERCENT_DECODE_MAX_ITERATIONS; lia|done].
  - exists value. split; [done|]. rewrite !guard_ok in Hs. destruct Hs as (_ & Hk & Hd & _). split.
    + clear Hk Hd. revert raw Ev. generalize RESOURCE_PERCENT_DECODE_MAX_ITERATIONS.
      induction n0 as [|k IH]; intros raw; cbn; destruct (ueqb _ _) eqn:E; try done;
        try (intros [= <-]; by apply ueqb_spec). apply IH.
    + apply no_dotdot_spec in Hd. split; [done|].
      destruct (ueqb (nfkc _) _) eqn:E; [apply ueqb_spec in E; by rewrite E|].
      by apply no_dotdot_spec.
Qed.

End Permitted.

(** ** A call under a small scope *)
Module Demo.

#[local] Instance demo_unicode : UnicodeData.
Proof.
  refine {| nfc := id; nfkc := id; lower := map lower_letter; casefold := map lower_letter;
            is_alpha := ascii_letter |}; done.
Defined.
#[local] Instance demo_files : Filesystem :=
  {| realpath_strict := fun p => if has_char 126 p then NotFound else Resolved p;
     realpath := Some |}.

Definition env : scope_env := ScopeEnv None (Some (chars " Caption,, note ")).
Definition args : pyval :=
  PDict [("path", PStr "/w/%2E/a.txt"); ("mode", PStr "r");
         ("content", PStr "see /w//b.md and/or w/c.md"); ("files", PList [PStr "/w/~d"; PInt 3])].
Definition scope : list pyval := [PStr "/w/*"].

Lemma scanned_values : resources env None args =
  [(Some (chars "path"), chars "/w/%2E/a.txt");
   (Some (chars "content"), chars "see /w//b.md and/or w/c.md");
   (Some (chars "files"), chars "/w/~d")].
Proof. vm_compute. reflexivity. Qed.

Lemma scope_check_sound_witness :
  check_resource_scope env args scope PNone = Ok tt /\
  resource_permitted (nfc <$> omap pattern_of scope) (anchor_of PNone) (chars "w/c.md").
Proof.
  assert (Hc : check_resource_scope env args scope PNone = Ok tt) by (vm_compute; reflexivity).
  split; [exact Hc|]. destruct (scope_check_sound env args scope PNone Hc
    (Some (chars "content")) (chars "see /w//b.md and/or w/c.md") (chars "w/c.md")) as [_ H].
  - rewrite scanned_values. right. left.
  - assert (E : tokens_of (hint_of env (Some (chars "content"))) (chars "see /w//b.md and/or w/c.md")
              = [chars "/w//b.md"; chars "w/c.md"]) by (vm_compute; reflexivity).
    rewrite E. right. left.
  - exact H.
Defined.

Definition one_path : pyval := PDict [("mode", PStr "r"); ("path", PStr "/w/%2E/a.txt")].

Lemma scope_check_complete_witness : check_resource_scope env one_path scope (PStr "/w") = Ok tt.
Proof.
  apply scope_check_complete; [discriminate|done|vm_compute; discriminate|vm_compute; reflexivity|].
  assert (E : resources env None one_path = [(Some (chars "path"), chars "/w/%2E/a.txt")])
    by (vm_compute; reflexivity).
  intros key s [= -> ->]%(eq_ind_r (fun l => (key, s) ∈ l -> _) (proj1 (list_elem_of_singleton _ _)) E).
  split; [apply Nat.leb_le; vm_compute; reflexivity|].
  assert (Et : tokens_of (hint_of env (Some (chars "path"))) (chars "/w/%2E/a.txt")
               = [chars "/w/%2E/a.txt"]) by (vm_compute; reflexivity).
  rewrite Et. intros token ->%list_elem_of_singleton. exists (chars "/w/a.txt").
  split; [|split]; vm_compute; reflexivity.
Defined.

Lemma scope_confines_to_root_witness : exists c rest,
  c = (chars "/w" ++ SLASH :: rest)%list /\ no_dotdot c.
Proof.
  assert (Hc : check_resource_scope env args [PStr "/w/*"] PNone = Ok tt) by (vm_compute; reflexivity).
  assert (Hn : nfc (chars "/w/*") = (chars "/w" ++ [SLASH; 42])%list) by reflexivity.
  assert (Hs : starts_with [SLASH] (chars "/w") = true) by reflexivity.
  assert (Hp : plain (chars "/w")) by (repeat constructor; discriminate).
  destruct (scope_confines_to_root env args "/w/*" (chars "/w") PNone Hn Hs Hp Hc
    (Some (chars "files")) (chars "/w/~d") (chars "/w/~d"))
    as (n & c & rest & r & rr & _ & _ & Ec & Hd & _).
  - rewrite scanned_values. right. right. left.
  - assert (E : tokens_of (hint_of env (Some (chars "files"))) (chars "/w/~d") = [chars "/w/~d"])
      by (vm_compute; reflexivity).
    rewrite E. left.
  - exists c, rest. exact (conj Ec Hd).
Defined.

Lemma sanitize_canonical_witness : no_dotdot (chars "/w/a.txt") /\
  sanitize_value (unquote (chars "/w/%252E/a.txt")) = Ok (chars "/w/a.txt").
Proof.
  assert (E : sanitize_value (chars "/w/%252E/a.txt") = Ok (chars "/w/a.txt"))
    by (vm_compute; reflexivity).
  destruct (sanitize_canonical _ _ E) as (Hd & Hs & _). exact (conj Hd Hs).
Defined.

End Demo.

End ResourceScope.
