(* ===== verification/PyJson.v ===== *)
(** * Python text of values: [str(v)] and [json.dumps(v)]

    What the components that print values share: [str] of a scalar,
    [json.dumps] with its default escaping of everything outside printable
    ASCII, with members in the order of the keys' code points or of the dict,
    and HMAC-SHA256 over such text.  [str] of a list or a dict quotes its
    strings by the interpreter's tables of printable characters; that text is
    the class [PyRepr]. *)

From Stdlib Require Import SpecFloat.
From S2P Require Import Prelude Sha256 CanonicalJson ResourceScope.
Open Scope string_scope.
Open Scope Z_scope.

Module PyJson.

Class PyRepr := { repr_container : pyval -> string }.

(** [str(f)]. *)
Definition float_str (f : spec_float) : string :=
  match f with
  | S754_nan => "nan"
  | S754_infinity s => if s then "-inf" else "inf"
  | S754_zero s => if s then "-0.0" else "0.0"
  | S754_finite s m e => (if s then "-" else "") ++ CanonicalJson.str_float (Z.pos m) e
  end.

(** [str(v)]. *)
Definition py_str `{PyRepr} (v : pyval) : string :=
  match v with
  | PNone => "None"
  | PBool b => if b then "True" else "False"
  | PInt n => CanonicalJson.str_int n
  | PFloat f => float_str f
  | PStr s => s
  | PList _ | PDict _ => repr_container v
  end.

(** ** [json.dumps] *)

Definition hex_char (n : Z) : string :=
  CanonicalJson.one (CanonicalJson.chr (if n <? 10 then 48 + n else 87 + n)).
Definition u_escape (c : Z) : string :=
  "\u" ++ hex_char (c / 4096) ++ hex_char (c / 256 mod 16) ++ hex_char (c / 16 mod 16)
       ++ hex_char (c mod 16).
Definition char_text (c : Z) : string :=
  if c =? 34 then String "092"%char (CanonicalJson.one CanonicalJson.QUOTE)
  else if c =? 92 then "\\"
  else if c =? 10 then "\n" else if c =? 13 then "\r" else if c =? 9 then "\t"
  else if c =? 12 then "\f" else if c =? 8 then "\b"
  else if (32 <=? c) && (c <=? 126) then CanonicalJson.one (CanonicalJson.chr c)
  else if c <? 65536 then u_escape c
  else u_escape (55296 + (c - 65536) / 1024) ++ u_escape (56320 + (c - 65536) mod 1024).
Definition quoted (s : string) : string :=
  String CanonicalJson.QUOTE
    (foldr (fun c t => char_text c ++ t) (CanonicalJson.one CanonicalJson.QUOTE)
       (ResourceScope.chars s)).

Definition json_float (f : spec_float) : string :=
  match f with
  | S754_nan => "NaN"
  | S754_infinity s => if s then "-Infinity" else "Infinity"
  | _ => float_str f
  end.

(** Keys in code point order, which is the order of their UTF-8 bytes. *)
Definition member_le {A} (x y : string * A) : Prop := String.leb x.1 y.1 = true.
#[global] Instance member_le_dec {A} (x y : string * A) : Decision (member_le x y).
Proof. unfold member_le. apply _. Defined.

(** The separators and whether the members are sorted. *)
Record style := Style { sort_keys : bool; item_sep : string; key_sep : string }.
Definition default_style : style := Style false ", " ": ".
Definition sorted_style : style := Style true ", " ": ".
Definition compact_style : style := Style true "," ":".

Fixpoint separated (sep : string) (l : list string) : string :=
  match l with
  | [] => ""
  | [t] => t
  | t :: l => t ++ sep ++ separated sep l
  end.

(** [json.dumps(v, sort_keys=..., separators=...)]. *)
Fixpoint dumps (y : style) (v : pyval) : string :=
  match v with
  | PNone => "null"
  | PBool b => if b then "true" else "false"
  | PInt n => CanonicalJson.str_int n
  | PFloat f => json_float f
  | PStr s => quoted s
  | PList l => "[" ++ separated (item_sep y) (List.map (dumps y) l) ++ "]"
  | PDict d =>
      let items := List.map (fun kv => (kv.1, quoted kv.1 ++ key_sep y ++ dumps y kv.2)) d in
      let items := if sort_keys y then merge_sort member_le items else items in
      "{" ++ separated (item_sep y) items.*2 ++ "}"
  end.

(** ** HMAC-SHA256 *)

Section Hmac.
Context `{Digests}.

Fixpoint bytes_of_hex (s : string) : string :=
  match s with
  | String a (String b t) =>
      let v c := default 0 (ResourceScope.hex_value (CanonicalJson.code c)) in
      String (CanonicalJson.chr (16 * v a + v b)) (bytes_of_hex t)
  | _ => ""
  end.
Definition xor_pad (c : Z) (key : string) : string :=
  let byte i := match String.get i key with Some a => CanonicalJson.code a | None => 0 end in
  foldr (fun i t => String (CanonicalJson.chr (Z.lxor c (byte i))) t) "" (seq 0 64).
(** [hmac.new(key, msg, "sha256").hexdigest()] for a key of at most 64 bytes. *)
Definition hmac_sha256 (key msg : string) : string :=
  sha256_hex (xor_pad 92 key ++ bytes_of_hex (sha256_hex (xor_pad 54 key ++ msg))).

End Hmac.

End PyJson.
