(* ===== verification/Policy.v ===== *)
(** * Policy: classes of actions, the native checks, policy backends

    [src/python/vibap/native_checks.py], [policy_backend.py],
    [backends/native.py], [backends/forbid_rules.py] and the classifiers of
    [proxy.py] they share.  A backend is a value of [backend], whatever engine
    stands behind it; the registry maps names to backends.  The regular
    expression engine is the class [Regex].  Evaluation times ([eval_ms]) are
    not kept.

    A message is a value of [reason]: the format string of the code as a
    constructor, with the values it interpolates. *)

From S2P Require Import Prelude CanonicalJson Passport ResourceScope PyJson.
Import Passport ResourceScope PyJson.
Open Scope string_scope.
Open Scope Z_scope.

Module Policy.

(** A [TypeError], [ValueError] or [AttributeError] of the dynamic operations;
    nothing here handles one. *)
Inductive policy_exc := EvaluationError.

Definition PolicyRes := res policy_exc.

(** ** Dynamic operations on claims *)

(** [v or d]. *)
Definition or_else (v d : pyval) : pyval := if truthy v then v else d.

(** The items [list(v)] has. *)
Definition py_iter (v : pyval) : PolicyRes (list pyval) :=
  match v with
  | PList l => Ok l
  | PDict d => Ok (PStr <$> dkeys d)
  | PStr s => Ok ((fun c => PStr (CanonicalJson.utf8_encode1 c)) <$> chars s)
  | _ => Raise EvaluationError
  end.

(** [x in v]. *)
Definition py_in (x : string) (v : pyval) : PolicyRes bool :=
  match v with
  | PList l => Ok (existsb (fun y => match y with PStr s => String.eqb x s | _ => false end) l)
  | PDict d => Ok (str_in x (dkeys d))
  | PStr s => Ok (str_contains x s)
  | _ => Raise EvaluationError
  end.

Definition hashable (v : pyval) : bool :=
  match v with PList _ | PDict _ => false | _ => true end.

(** The string-keyed part of [dict(v)], the binding in force first. *)
Definition py_dict (v : pyval) : PolicyRes claims :=
  match v with
  | PDict d => Ok d
  | _ =>
      pairs ← py_iter v;
      kvs ← mapR (fun e =>
        kv ← py_iter e;
        match kv with
        | [k; x] => raise_if negb (hashable k) with EvaluationError ;;
                    Ok (match k with PStr s => [(s, x)] | _ => [] end)
        | _ => Raise EvaluationError
        end) pairs;
      Ok (reverse (concat kvs))
  end.

(** [int(v)]. *)
Definition to_int (v : pyval) : PolicyRes Z :=
  match py_int v with Some z => Ok z | None => Raise EvaluationError end.

(** ** Classes of actions *)

Definition MEMORY_STORE_WRITE_TOOL : string := "memory_store_write".
Definition MEMORY_STORE_READ_TOOL : string := "memory_store_read".
Definition is_memory_store_tool (name : string) : bool :=
  str_in name [MEMORY_STORE_WRITE_TOOL; MEMORY_STORE_READ_TOOL].

Definition any_in (tokens : list string) (s : string) : bool :=
  existsb (fun t => str_contains t s) tokens.
Definition any_key (keys : list string) (arguments : claims) : bool :=
  existsb (fun k => str_in k (dkeys arguments)) keys.

Definition TARGET_KEYS : list string :=
  ["path"; "file_path"; "filename"; "url"; "uri"; "target"; "resource"; "destination"; "dest";
   "to"; "store_id"; "record_id"; "query"; "expression"].

(** [_policy_event_target]. *)
Definition policy_event_target `{PyRepr} (tool_name : string) (arguments : claims) : string :=
  let named := omap (fun key => match py_get key arguments with
                                | PStr s => if non_empty (py_strip s) then Some (py_strip s) else None
                                | _ => None
                                end) TARGET_KEYS in
  match named, arguments with
  | t :: _, _ => t
  | [], [(_, only)] =>
      match only with
      | PStr _ | PInt _ | PFloat _ | PBool _ => py_str only
      | _ => tool_name
      end
  | [], _ => tool_name
  end.

(** [_policy_action_class]. *)
Definition policy_action_class (tool_name : string) : string :=
  let lowered := py_lower tool_name in
  if str_contains "delegat" lowered then "delegate"
  else if any_in ["send"; "email"; "mail"; "post"; "notify"; "message"; "share"] lowered then "send"
  else if any_in ["search"; "find"; "lookup"; "grep"] lowered then "search"
  else if any_in ["query"; "sql"; "select"; "calc"; "compute"] lowered then "query"
  else if any_in ["write"; "create"; "append"; "save"; "upload"] lowered then "write"
  else if any_in ["summar"; "analy"; "report"] lowered then "summarize"
  else if any_in ["read"; "get"; "fetch"; "view"; "list"; "download"; "open"] lowered then "read"
  else if any_in ["update"; "edit"; "modify"; "delete"; "remove"] lowered then "write"
  else "observe".

(** [_policy_resource_family]. *)
Definition policy_resource_family (tool_name : string) (arguments : claims) (target action_class : string)
    : string :=
  let lowered_tool := py_lower tool_name in
  let lowered_target := py_lower target in
  if is_memory_store_tool tool_name || any_key ["store_id"; "record_id"] arguments then "memory_store"
  else if any_key ["path"; "file_path"; "filename"; "directory"; "cwd"] arguments then "filesystem"
  else if any_key ["url"; "uri"] arguments then "network_resource"
  else if any_key ["to"; "recipient"] arguments then "external_comms"
  else if String.eqb action_class "delegate" then "delegation"
  else if str_in action_class ["query"; "summarize"; "observe"] then "computation"
  else if any_in ["memory"; "store"] lowered_tool then "memory_store"
  else if any_in ["/"; ".txt"; ".md"; ".json"; ".csv"; ".pdf"] lowered_target then "filesystem"
  else "general".

(** [_policy_side_effect_class]. *)
Definition policy_side_effect_class (tool_name action_class resource_family : string) : string :=
  let lowered := py_lower tool_name in
  if str_in action_class ["search"; "read"; "query"; "summarize"; "observe"] then "none"
  else if String.eqb action_class "send" then "external_send"
  else if is_memory_store_tool tool_name
          || (String.eqb action_class "write" && str_in resource_family ["filesystem"; "memory_store"])
  then "internal_write"
  else if str_in action_class ["delegate"; "write"]
          || any_in ["delete"; "remove"; "update"; "grant"; "approve"; "execute"; "run"; "lock";
                     "unlock"; "cancel"; "transfer"; "pay"] lowered
  then "state_change"
  else "none".

(** ** Decisions *)

Inductive DecisionType := Allow | Deny | Abstain.
#[global] Instance DecisionType_eq_dec : EqDecision DecisionType.
Proof. solve_decision. Defined.

Inductive snippet :=
| Matched (text : string)
| InvalidRegex (regex : string).

Inductive reason :=
| WithinScope
| DelegationDepthExceeded
| ToolForbidden (tool : string)
| ToolNotAllowed (tool : string)
| BudgetExceeded (used effective reserved ceiling : Z)
| DurationExceeded (elapsed max_duration : Z)
| ResourceDenied (d : scope_denial)
| SideEffectNotAllowed (side_effect_class tool : string)
| ClassBudgetExhausted (side_effect_class : string) (current cap : Z) (tool : string)
| NativeNotRegistered
| UnknownBackend (name : string)
| RulesNotAList
| HashMissing
| HashMismatch (declared : string)
| RuleMatched (rule_id : string) (why : snippet)
| EngineReason (text : string).

Record PolicyDecision := Decided {
  pd_backend : string;
  pd_label : string;
  pd_decision : DecisionType;
  pd_reasons : list reason
}.

Definition denies (pd : PolicyDecision) : bool := bool_decide (pd_decision pd = Deny).
Definition allows (pd : PolicyDecision) : bool := bool_decide (pd_decision pd = Allow).

(** [compose_decisions]. *)
Definition compose_decisions (decisions : list PolicyDecision)
    : DecisionType * option PolicyDecision :=
  match List.find denies decisions with
  | Some pd => (Deny, Some pd)
  | None => match List.find allows decisions with
            | Some _ => (Allow, None)
            | None => (Deny, None)
            end
  end.

(** ** The request a backend sees *)

(** The ["session"] member of the shared context. *)
Record session_state := SessionState {
  ss_tool_call_count : Z;
  ss_tool_call_count_by_class : list (string * Z);
  ss_delegated_budget_reserved : Z;
  ss_elapsed : Z
}.

Record context := Context {
  ctx_passport : claims;
  ctx_session : session_state;
  ctx_elapsed : Z;
  ctx_tool_call_count : Z;
  ctx_action_class : string;
  ctx_side_effect_class : string
}.

Record request := Request {
  rq_tool_name : string;
  rq_arguments : claims;
  rq_principal : string;
  rq_target : string;
  rq_context : context
}.

(** ** The native checks *)

Section Native.
Context `{!PyRepr, !UnicodeData, !Filesystem}.
Variable env : scope_env.

(** [_policy_metadata]. *)
Definition policy_metadata (tool_name : string) (arguments : claims) (target : string)
    (metadata : option claims) : string * string * string :=
  let derived :=
    let action_class := policy_action_class tool_name in
    let resource_family := policy_resource_family tool_name arguments target action_class in
    (action_class, resource_family,
     policy_side_effect_class tool_name action_class resource_family) in
  match metadata with
  | Some m =>
      match py_get "action_class" m, py_get "resource_family" m, py_get "side_effect_class" m with
      | PStr a, PStr r, PStr s =>
          if non_empty a && non_empty r && non_empty s then (a, r, s) else derived
      | _, _, _ => derived
      end
  | None => derived
  end.

(** [_check_delegation_depth]. *)
Definition check_delegation_depth (passport : claims) : PolicyRes (list reason) :=
  Ok (match or_else (py_get "delegation_chain" passport) (PList []) with
      | PList chain => if (MAX_DELEGATION_DEPTH <? length chain)%nat then [DelegationDepthExceeded]
                       else []
      | _ => []
      end).

(** [_check_forbidden_tools]. *)
Definition check_forbidden_tools (passport : claims) (tool_name : string) : PolicyRes (list reason) :=
  forbidden ← py_in tool_name (get_or "forbidden_tools" (PList []) passport);
  Ok (if forbidden : bool then [ToolForbidden tool_name] else []).

(** [_check_tool_scope]. *)
Definition check_tool_scope (passport : claims) (tool_name : string) : PolicyRes (list reason) :=
  let allowed := get_or "allowed_tools" (PList []) passport in
  wildcard ← py_in "*" allowed;
  if wildcard : bool then Ok []
  else named ← py_in tool_name allowed;
       Ok (if named : bool then [] else [ToolNotAllowed tool_name]).

(** [_check_session_budget]; the elapsed time is in ticks. *)
Definition check_session_budget (passport : claims) (st : session_state) : PolicyRes (list reason) :=
  max_calls ← to_int (get_or "max_tool_calls" (PInt 50) passport);
  let reserved := ss_delegated_budget_reserved st in
  let effective := Z.max 0 (max_calls - reserved) in
  if effective <=? ss_tool_call_count st
  then Ok [BudgetExceeded (ss_tool_call_count st) effective reserved max_calls]
  else max_duration ← to_int (get_or "max_duration_s" (PInt 600) passport);
       Ok (if max_duration * TICKS <=? ss_elapsed st
           then [DurationExceeded (ss_elapsed st) max_duration] else []).

(** [_check_resource_scope] of [native_checks]. *)
Definition check_resource_scope_claim (passport arguments : claims) : PolicyRes (list reason) :=
  scope ← py_iter (or_else (get_or "resource_scope" (PList []) passport) (PList []));
  Ok (match check_resource_scope env (PDict arguments) scope (py_get "cwd" passport) with
      | Ok _ => []
      | Raise d => [ResourceDenied d]
      end).

(** [_check_side_effect_class]. *)
Definition check_side_effect_class (passport : claims) (tool_name side_effect_class : string)
    : PolicyRes (list reason) :=
  allowed ← py_iter (or_else (get_or "allowed_side_effect_classes" (PList []) passport) (PList []));
  named ← py_in side_effect_class (PList allowed);
  Ok (if bool_decide (allowed <> []) && negb named
      then [SideEffectNotAllowed side_effect_class tool_name] else []).

(** [_check_per_class_budget]. *)
Definition check_per_class_budget (passport : claims) (tool_name side_effect_class : string)
    (st : session_state) : PolicyRes (list reason) :=
  caps ← py_dict (or_else (get_or "max_tool_calls_per_class" (PDict []) passport) (PDict []));
  match dget side_effect_class caps with
  | None => Ok []
  | Some v =>
      let current := default 0 (dget side_effect_class (ss_tool_call_count_by_class st)) in
      cap ← to_int v;
      Ok (if cap <=? current then [ClassBudgetExhausted side_effect_class current cap tool_name]
          else [])
  end.

(** The first check with a reason. *)
Fixpoint first_reasons (checks : list (PolicyRes (list reason))) : PolicyRes (list reason) :=
  match checks with
  | [] => Ok []
  | c :: checks =>
      reasons ← c;
      match reasons with [] => first_reasons checks | _ => Ok reasons end
  end.

(** [evaluate_native_denials]; [_check_cwd_confinement] never has a reason. *)
Definition evaluate_native_denials (passport : claims) (tool_name : string) (arguments : claims)
    (target : string) (st : session_state) (metadata : option claims) : PolicyRes (list reason) :=
  let sec := (policy_metadata tool_name arguments target metadata).2 in
  first_reasons
    [check_delegation_depth passport;
     check_forbidden_tools passport tool_name;
     check_tool_scope passport tool_name;
     check_session_budget passport st;
     check_resource_scope_claim passport arguments;
     check_side_effect_class passport tool_name sec;
     check_per_class_budget passport tool_name sec st].

(** ** Backends and the registry *)

(** The [PolicyBackend] protocol. *)
Record backend := Backend {
  b_name : string;
  b_evaluate : request -> claims -> PolicyRes PolicyDecision
}.

(** [NativeBackend.evaluate]. *)
Definition native_evaluate (r : request) (policy_spec : claims) : PolicyRes PolicyDecision :=
  let c := rq_context r in
  reasons ← evaluate_native_denials (ctx_passport c) (rq_tool_name r) (rq_arguments r)
              (rq_target r) (ctx_session c) None;
  Ok (match reasons with
      | [] => Decided "native" "ardur_builtin" Allow [WithinScope]
      | _ => Decided "native" "ardur_builtin" Deny reasons
      end).
Definition NativeBackend : backend := Backend "native" native_evaluate.

End Native.

(** ** Forbid rules *)

(** [re.search(pattern, text)]: whether it finds a match, [None] for
    [re.error]. *)
Class Regex := { re_search : string -> string -> option bool }.

Section ForbidRules.
Context `{!PyRepr, !Digests, !Regex}.

(** [_canonical_source]. *)
Definition canonical_source (rules : list pyval) : string := dumps compact_style (PList rules).

(** [_verify_sha256]. *)
Definition verify_sha256 (rules : list pyval) (declared : string) : option reason :=
  if negb (non_empty declared) then Some HashMissing
  else if negb (String.eqb (py_lower (sha256_hex (canonical_source rules))) (py_lower declared))
  then Some (HashMismatch declared) else None.

(** [_arg_haystack]. *)
Definition arg_haystack (arguments : claims) : string :=
  py_lower (dumps sorted_style (PDict arguments)).

Definition is_none (v : pyval) : bool := match v with PNone => true | _ => false end.
(** [expected is not None and actual != expected]. *)
Definition differs (expected : pyval) (actual : string) : bool :=
  match expected with
  | PNone => false
  | PStr s => negb (String.eqb actual s)
  | _ => true
  end.

Definition rule_id_of (rule : claims) : string := py_str (or_else (py_get "id" rule) (PStr "unnamed_rule")).

(** The [arg_contains] predicate: the first pattern found in the arguments;
    a pattern [None] that is found counts as none. *)
Definition contained_pattern (patterns : list pyval) (hay : string) : option pyval :=
  match List.find (fun p => str_contains (py_lower (py_str p)) hay) patterns with
  | Some PNone | None => None
  | Some p => Some p
  end.

(** The predicates on principal and action class, and those from the target on. *)
Definition actor_predicates (w rule : claims) (r : request) (match_reason : string)
    : PolicyRes (option snippet) :=
  if differs (py_get "principal" w) (rq_principal r) then Ok None
  else if differs (py_get "action_class" w) (ctx_action_class (rq_context r)) then Ok None
  else Ok (Some (Matched (if non_empty match_reason then match_reason else rule_id_of rule))).
Definition tail_predicates (w rule : claims) (r : request) (match_reason : string)
    : PolicyRes (option snippet) :=
  match py_get "target_matches" w with
  | PNone => actor_predicates w rule r match_reason
  | PStr target_regex =>
      match re_search target_regex (rq_target r) with
      | None => Ok (Some (InvalidRegex target_regex))
      | Some false => Ok None
      | Some true => actor_predicates w rule r
                       (if non_empty match_reason then match_reason
                        else "target_matches:" ++ target_regex)
      end
  | _ => Raise EvaluationError
  end.
(** The [arg_contains] predicate: the match reason if it holds. *)
Definition args_predicate (w : claims) (r : request) : PolicyRes (option string) :=
  let arg_patterns := py_get "arg_contains" w in
  if is_none arg_patterns then Ok (Some "")
  else patterns ← py_iter arg_patterns;
       Ok ((fun p => "arg_contains:" ++ py_str p)
             <$> contained_pattern patterns (arg_haystack (rq_arguments r))).

(** [_rule_matches]: the reason snippet of a rule that matches. *)
Definition rule_matches (rule : claims) (r : request) : PolicyRes (option snippet) :=
  match or_else (py_get "forbid_when" rule) (PDict []) with
  | PDict w =>
      if bool_decide (w = []) then Ok None
      else if differs (py_get "tool_name" w) (rq_tool_name r) then Ok None
      else
        let expected_tools := py_get "tool_name_in" w in
        listed ← (if is_none expected_tools then Ok true else py_in (rq_tool_name r) expected_tools);
        if negb listed then Ok None
        else found ← args_predicate w r;
             match found with
             | None => Ok None
             | Some match_reason => tail_predicates w rule r match_reason
             end
  | _ => Raise EvaluationError
  end.

(** The loop over the rules. *)
Fixpoint first_match (rules : list pyval) (r : request) : PolicyRes (list reason) :=
  match rules with
  | [] => Ok []
  | PDict rule :: rules =>
      m ← rule_matches rule r;
      match m with
      | Some why => Ok [RuleMatched (rule_id_of rule) why]
      | None => first_match rules r
      end
  | _ :: rules => first_match rules r
  end.

(** [ForbidRulesBackend.evaluate]. *)
Definition forbid_evaluate (r : request) (policy_spec : claims) : PolicyRes PolicyDecision :=
  let label := py_str (get_or "label" (PStr "") policy_spec) in
  let declared_sha := py_str (get_or "policy_sha256" (PStr "") policy_spec) in
  let decide d reasons := Decided "forbid_rules" label d reasons in
  match or_else (py_get "data_inline" policy_spec) (PList []) with
  | PList rules =>
      match verify_sha256 rules declared_sha with
      | Some why => Ok (decide Deny [why])
      | None =>
          matched ← first_match rules r;
          Ok (match matched with [] => decide Abstain [] | _ => decide Deny matched end)
      end
  | _ => Ok (decide Deny [RulesNotAList])
  end.
Definition ForbidRulesBackend : backend := Backend "forbid_rules" forbid_evaluate.

End ForbidRules.

(** ** The registry *)

Notation registry := (gmap string backend).

Definition register_backend (b : backend) (r : registry) : registry := <[b_name b := b]> r.
Definition clear_registry (r : registry) : registry := ∅.

Section Registry.
Context `{!PyRepr, !UnicodeData, !Filesystem, !Digests, !Regex}.
Variable env : scope_env.
(** What importing [vibap.backends.cedar] and registering it gives: its
    backend, or nothing where the optional engine is not installed. *)
Variable cedar : option backend.

(** [_bootstrap_builtin_backend]. *)
Definition bootstrap_builtin_backend (name : string) (r : registry) : registry :=
  if String.eqb name "native" then register_backend (NativeBackend env) r
  else if String.eqb name "forbid_rules" then register_backend ForbidRulesBackend r
  else if String.eqb name "cedar" then
    match cedar with Some b => register_backend b r | None => r end
  else r.

(** [get_backend]: the registry afterwards, and the backend or [KeyError]. *)
Definition get_backend (name : string) (r : registry) : registry * option backend :=
  let r := match r !! name with Some _ => r | None => bootstrap_builtin_backend name r end in
  (r, r !! name).

End Registry.

(** ** What the native checks permit *)

Section NativePermits.
Context `{!PyRepr, !UnicodeData, !Filesystem}.
Variable env : scope_env.

(** The conditions under which the native policy has nothing against a call
    of side effect class [sec]. *)
Record native_permits (passport : claims) (tool_name : string) (arguments : claims)
    (st : session_state) (sec : string) : Prop := NativePermits {
  np_depth : forall chain, or_else (py_get "delegation_chain" passport) (PList []) = PList chain ->
    (length chain <= MAX_DELEGATION_DEPTH)%nat;
  np_not_forbidden : py_in tool_name (get_or "forbidden_tools" (PList []) passport) = Ok false;
  np_allowed : py_in "*" (get_or "allowed_tools" (PList []) passport) = Ok true \/
    py_in "*" (get_or "allowed_tools" (PList []) passport) = Ok false /\
    py_in tool_name (get_or "allowed_tools" (PList []) passport) = Ok true;
  np_calls : exists max_calls, to_int (get_or "max_tool_calls" (PInt 50) passport) = Ok max_calls /\
    ss_tool_call_count st < Z.max 0 (max_calls - ss_delegated_budget_reserved st);
  np_duration : exists max_duration,
    to_int (get_or "max_duration_s" (PInt 600) passport) = Ok max_duration /\
    ss_elapsed st < max_duration * TICKS;
  np_resources : exists scope,
    py_iter (or_else (get_or "resource_scope" (PList []) passport) (PList [])) = Ok scope /\
    check_resource_scope env (PDict arguments) scope (py_get "cwd" passport) = Ok tt;
  np_effect : exists allowed,
    py_iter (or_else (get_or "allowed_side_effect_classes" (PList []) passport) (PList []))
      = Ok allowed /\ (allowed = [] \/ PStr sec ∈ allowed);
  np_class : exists caps,
    py_dict (or_else (get_or "max_tool_calls_per_class" (PDict []) passport) (PDict [])) = Ok caps /\
    forall v, dget sec caps = Some v ->
      exists cap, to_int v = Ok cap /\
        default 0 (dget sec (ss_tool_call_count_by_class st)) < cap
}.

Lemma first_reasons_nil checks :
  first_reasons checks = Ok [] <-> Forall (fun c => c = Ok []) checks.
Proof.
  induction checks as [|c checks IH]; cbn; [split; [constructor|done]|].
  rewrite Forall_cons, <- IH. destruct c as [[|r rs]|]; cbn; naive_solver.
Qed.

Lemma ok_if_nil {A} (b : bool) (r : A) :
  (Ok (if b then [r] else []) : PolicyRes (list A)) = Ok [] <-> b = false.
Proof. by destruct b. Qed.

Lemma depth_nil passport : check_delegation_depth passport = Ok [] <->
  forall chain, or_else (py_get "delegation_chain" passport) (PList []) = PList chain ->
    (length chain <= MAX_DELEGATION_DEPTH)%nat.
Proof.
  unfold check_delegation_depth. destruct (or_else _ _) as [| | | | |l|]; try naive_solver.
  destruct (Nat.ltb_spec MAX_DELEGATION_DEPTH (length l)) as [Hl|Hl].
  - split; [discriminate|]. intros Hc. specialize (Hc _ eq_refl). lia.
  - split; [|done]. intros _ chain [= <-]. lia.
Qed.

Lemma forbidden_nil passport tool : check_forbidden_tools passport tool = Ok [] <->
  py_in tool (get_or "forbidden_tools" (PList []) passport) = Ok false.
Proof. unfold check_forbidden_tools. destruct (py_in _ _) as [[]|]; cbn; naive_solver. Qed.

Lemma tool_scope_nil passport tool : check_tool_scope passport tool = Ok [] <->
  py_in "*" (get_or "allowed_tools" (PList []) passport) = Ok true \/
  py_in "*" (get_or "allowed_tools" (PList []) passport) = Ok false /\
  py_in tool (get_or "allowed_tools" (PList []) passport) = Ok true.
Proof.
  unfold check_tool_scope. destruct (py_in "*" _) as [[]|]; cbn; [naive_solver| |naive_solver].
  destruct (py_in tool _) as [[]|]; cbn; naive_solver.
Qed.

Lemma session_budget_nil passport st : check_session_budget passport st = Ok [] <->
  (exists m, to_int (get_or "max_tool_calls" (PInt 50) passport) = Ok m /\
     ss_tool_call_count st < Z.max 0 (m - ss_delegated_budget_reserved st)) /\
  (exists d, to_int (get_or "max_duration_s" (PInt 600) passport) = Ok d /\
     ss_elapsed st < d * TICKS).
Proof.
  unfold check_session_budget.
  destruct (to_int (get_or "max_tool_calls" _ _)) as [m|]; cbn [mbind res_bind]; [|naive_solver].
  destruct (Z.leb_spec (Z.max 0 (m - ss_delegated_budget_reserved st)) (ss_tool_call_count st)).
  { split; [done|]. intros [(? & [= <-] & ?) _]. lia. }
  destruct (to_int (get_or "max_duration_s" _ _)) as [d|]; cbn [mbind res_bind]; [|naive_solver].
  rewrite ok_if_nil, Z.leb_gt. naive_solver.
Qed.

Lemma resource_claim_nil passport arguments : check_resource_scope_claim env passport arguments = Ok [] <->
  exists scope, py_iter (or_else (get_or "resource_scope" (PList []) passport) (PList [])) = Ok scope /\
    check_resource_scope env (PDict arguments) scope (py_get "cwd" passport) = Ok tt.
Proof.
  unfold check_resource_scope_claim.
  destruct (py_iter _) as [scope|]; cbn [mbind res_bind]; [|naive_solver].
  destruct (check_resource_scope _ _ scope _) as [[]|d] eqn:E.
  - split; [|done]. intros _. by exists scope.
  - split; [discriminate|]. intros (s & [= <-] & Hs). congruence.
Qed.

Lemma py_in_list x l : exists b, py_in x (PList l) = Ok b /\ (b = true <-> PStr x ∈ l).
Proof.
  cbn. eexists. split; [done|]. rewrite existsb_exists. split.
  - intros (y & Hy & Hx). destruct y; try done. apply String.eqb_eq in Hx as ->.
    by apply list_elem_of_In.
  - intros Hx. exists (PStr x). split; [by apply list_elem_of_In|apply String.eqb_refl].
Qed.

Lemma effect_nil passport tool sec : check_side_effect_class passport tool sec = Ok [] <->
  exists allowed,
    py_iter (or_else (get_or "allowed_side_effect_classes" (PList []) passport) (PList []))
      = Ok allowed /\ (allowed = [] \/ PStr sec ∈ allowed).
Proof.
  unfold check_side_effect_class.
  destruct (py_iter _) as [l|]; cbn [mbind res_bind]; [|naive_solver].
  destruct (py_in_list sec l) as (b & -> & Hb). cbn [mbind res_bind].
  rewrite ok_if_nil, andb_false_iff, negb_false_iff, bool_decide_eq_false, Hb.
  split; [intros Hor; exists l; split; [done|]; destruct l; naive_solver|].
  intros (? & [= <-] & Hor). destruct l; naive_solver.
Qed.

Lemma class_nil passport tool sec st : check_per_class_budget passport tool sec st = Ok [] <->
  exists caps,
    py_dict (or_else (get_or "max_tool_calls_per_class" (PDict []) passport) (PDict [])) = Ok caps /\
    forall v, dget sec caps = Some v ->
      exists cap, to_int v = Ok cap /\ default 0 (dget sec (ss_tool_call_count_by_class st)) < cap.
Proof.
  unfold check_per_class_budget.
  destruct (py_dict _) as [caps|]; cbn [mbind res_bind]; [|naive_solver].
  destruct (dget sec caps) as [v|] eqn:Ev; [|naive_solver].
  destruct (to_int v) as [cap|e] eqn:Ec; cbn [mbind res_bind].
  - rewrite ok_if_nil, Z.leb_gt. split.
    + intros Hlt. exists caps. split; [done|]. intros w Hw. exists cap. rewrite Ev in Hw. by injection Hw as <-.
    + intros (? & [= <-] & Hc). destruct (Hc _ Ev) as (cap' & E & Hlt).
      rewrite Ec in E. by injection E as <-.
  - split; [discriminate|]. intros (? & [= <-] & Hc). destruct (Hc _ Ev) as (cap & E & _).
    congruence.
Qed.

(** The native policy denies nothing exactly when all its conditions hold. *)
Lemma native_denials_nil passport tool arguments target st :
  evaluate_native_denials env passport tool arguments target st None = Ok [] <->
  native_permits passport tool arguments st (policy_metadata tool arguments target None).2.
Proof.
  unfold evaluate_native_denials. rewrite first_reasons_nil, !Forall_cons, Forall_nil.
  rewrite depth_nil, forbidden_nil, tool_scope_nil, session_budget_nil, resource_claim_nil,
    effect_nil, class_nil.
  split; [intros (? & ? & ? & [? ?] & ? & ? & ? & _); by constructor|by intros []].
Qed.

End NativePermits.

(** ** Composition and the registry *)

Lemma compose_allow decisions :
  (compose_decisions decisions).1 = Allow <->
  Forall (fun pd => pd_decision pd <> Deny) decisions /\ Exists (fun pd => pd_decision pd = Allow) decisions.
Proof.
  unfold compose_decisions. rewrite Forall_forall, Exists_exists. setoid_rewrite list_elem_of_In.
  destruct (List.find denies decisions) as [d|] eqn:Ed.
  - apply List.find_some in Ed as [Hd Hx]. apply bool_decide_eq_true in Hx.
    split; [done|]. intros [Hn _]. by destruct (Hn _ Hd).
  - pose proof (List.find_none _ _ Ed) as Hn.
    assert (Hno : forall pd, In pd decisions -> pd_decision pd <> Deny).
    { intros pd Hp. specialize (Hn _ Hp). by apply bool_decide_eq_false in Hn. }
    destruct (List.find allows decisions) as [a|] eqn:Ea.
    + apply List.find_some in Ea as [Ha Hx]. apply bool_decide_eq_true in Hx.
      split; [|done]. intros _. split; [done|]. by exists a.
    + pose proof (List.find_none _ _ Ea) as Hna. split; [done|]. intros [_ (a & Ha & Hx)].
      apply Hna in Ha. by apply bool_decide_eq_false in Ha.
Qed.

Lemma compose_denier decisions pd : compose_decisions decisions = (Deny, Some pd) ->
  exists before after, decisions = (before ++ pd :: after)%list /\ pd_decision pd = Deny /\
    Forall (fun pd => pd_decision pd <> Deny) before.
Proof.
  unfold compose_decisions. destruct (List.find denies decisions) as [d|] eqn:Ed;
    [|by destruct (List.find allows decisions)].
  intros [= ->]. revert Ed. induction decisions as [|x l IH]; cbn; [done|].
  destruct (denies x) eqn:Ex.
  - intros [= ->]. exists [], l. apply bool_decide_eq_true in Ex. done.
  - intros (before & after & -> & Hd & Hb)%IH. exists (x :: before), after.
    apply bool_decide_eq_false in Ex. auto using Forall_cons_2.
Qed.

(** ** What a forbid rule forbids *)

Section Forbids.
Context `{!PyRepr, !Digests, !Regex}.

(** The predicate of a rule on one key of [forbid_when]: absent, or satisfied. *)
Definition clause (w : claims) (key : string) (P : pyval -> Prop) : Prop :=
  py_get key w = PNone \/ P (py_get key w).
Definition bad_regex (w : claims) (r : request) : Prop :=
  exists re, py_get "target_matches" w = PStr re /\ re_search re (rq_target r) = None.

(** All the predicates that are present hold; a broken pattern counts as
    holding, and the two after it are then not looked at. *)
Record forbids (w : claims) (r : request) : Prop := Forbids {
  fb_tool : clause w "tool_name" (fun v => v = PStr (rq_tool_name r));
  fb_tools : clause w "tool_name_in" (fun v => py_in (rq_tool_name r) v = Ok true);
  fb_args : clause w "arg_contains" (fun v => exists patterns p, py_iter v = Ok patterns /\
    contained_pattern patterns (arg_haystack (rq_arguments r)) = Some p);
  fb_target : bad_regex w r \/
    clause w "target_matches" (fun v => exists re, v = PStr re /\
      re_search re (rq_target r) = Some true) /\
    clause w "principal" (fun v => v = PStr (rq_principal r)) /\
    clause w "action_class" (fun v => v = PStr (ctx_action_class (rq_context r)))
}.

Lemma differs_spec v s : differs v s = false <-> v = PNone \/ v = PStr s.
Proof.
  destruct v as [| | | |s'| |]; cbn;
    try (split; [discriminate|intros [H'|H']; discriminate H']); [by split; [left|]|].
  rewrite negb_false_iff, String.eqb_eq. split; [intros ->; by right|].
  intros [H'|H']; [discriminate H'|by injection H' as ->].
Qed.

Lemma actor_spec w rule r m :
  (exists why, actor_predicates w rule r m = Ok (Some why)) <->
  differs (py_get "principal" w) (rq_principal r) = false /\
  differs (py_get "action_class" w) (ctx_action_class (rq_context r)) = false.
Proof.
  unfold actor_predicates. destruct (differs _ (rq_principal r)); [split; [by intros (? & ?)|by intros [? _]]|].
  destruct (differs _ _); [split; [by intros (? & ?)|by intros [_ ?]]|].
  split; [done|by eexists].
Qed.

Lemma tail_spec w rule r reason :
  (exists why, tail_predicates w rule r reason = Ok (Some why)) <->
  (bad_regex w r \/
   clause w "target_matches" (fun v => exists re, v = PStr re /\
     re_search re (rq_target r) = Some true) /\
   clause w "principal" (fun v => v = PStr (rq_principal r)) /\
   clause w "action_class" (fun v => v = PStr (ctx_action_class (rq_context r)))).
Proof.
  unfold tail_predicates, clause, bad_regex. rewrite <- !differs_spec.
  destruct (py_get "target_matches" w) as [| | | |re| |] eqn:Et;
    try (split; [by intros (? & ?)|intros [(? & ? & _)|[[?|(? & ? & _)] _]]; congruence]).
  - rewrite actor_spec. split; [auto|]. intros [(? & ? & _)|[_ ?]]; [congruence|done].
  - destruct (re_search re (rq_target r)) as [[]|] eqn:Er.
    + rewrite actor_spec. split; [intros Ha; right; split; [right; by exists re|done]|].
      intros [(re' & E & ?)|[_ Ha]]; [congruence|done].
    + split; [by intros (? & ?)|]. intros [(re' & E & ?)|[[?|(re' & E & ?)] _]]; congruence.
    + split; [|by eexists]. intros _. left. by exists re.
Qed.

Lemma args_spec w r :
  (exists m, args_predicate w r = Ok (Some m)) <->
  clause w "arg_contains" (fun v => exists patterns p, py_iter v = Ok patterns /\
    contained_pattern patterns (arg_haystack (rq_arguments r)) = Some p).
Proof.
  unfold args_predicate, clause. generalize (py_get "arg_contains" w). intros v.
  destruct (is_none v) eqn:En.
  { destruct v; try done. split; [by left|by eexists]. }
  assert (Hv : v <> PNone) by (by intros ->).
  destruct (py_iter v) as [patterns|] eqn:Ei; cbn [mbind res_bind].
  - destruct (contained_pattern patterns _) as [p|] eqn:Ep; cbn [fmap option_fmap option_map].
    + split; [|by eexists]. intros _. right. by exists patterns, p.
    + split; [by intros (? & ?)|]. intros [?|(ps & p & E1 & E2)]; [done|].
      injection E1 as <-. rewrite Ep in E2. discriminate.
  - split; [by intros (? & ?)|]. intros [?|(? & ? & ? & _)]; congruence.
Qed.

Lemma tools_spec w tool :
  (if is_none (py_get "tool_name_in" w) then Ok true else py_in tool (py_get "tool_name_in" w)) = Ok true
  <-> clause w "tool_name_in" (fun v => py_in tool v = Ok true).
Proof.
  unfold clause. generalize (py_get "tool_name_in" w). intros v.
  destruct v; cbn [is_none]; (split; [auto|]); (intros [?|?]; congruence || done).
Qed.

Lemma rule_matches_spec rule r w : or_else (py_get "forbid_when" rule) (PDict []) = PDict w ->
  (exists why, rule_matches rule r = Ok (Some why)) <-> w <> [] /\ forbids w r.
Proof.
  intros Hw. unfold rule_matches. rewrite Hw. case_bool_decide as He.
  { split; [by intros (? & ?)|by intros [? _]]. }
  destruct (differs (py_get "tool_name" w) _) eqn:Ed.
  { split; [by intros (? & ?)|]. intros [_ [Ht _ _ _]]. apply differs_spec in Ht. congruence. }
  apply differs_spec in Ed. cbv zeta. pose proof (tools_spec w (rq_tool_name r)) as Hts.
  destruct (if is_none _ then _ else _) as [[]|]; cbn [mbind res_bind negb].
  2,3: split; [by intros (? & ?)|intros [_ [_ Hl _ _]]; apply Hts in Hl; congruence].
  pose proof (args_spec w r) as Has.
  destruct (args_predicate w r) as [[m|]|]; cbn [mbind res_bind].
  2,3: split; [by intros (? & ?)|intros [_ [_ _ Ha _]]; apply Has in Ha as (? & ?); congruence].
  rewrite tail_spec. split; [|by intros [_ []]]. intros Ht. split; [done|].
  constructor; [done|by apply Hts|apply Has; by eexists|done].
Qed.

Lemma first_match_spec rules r matched : first_match rules r = Ok matched ->
  matched <> [] <-> exists rule w, PDict rule ∈ rules /\
    or_else (py_get "forbid_when" rule) (PDict []) = PDict w /\ w <> [] /\ forbids w r.
Proof.
  induction rules as [|v rules IH]; cbn [first_match].
  { intros [= <-]. split; [done|]. by intros (? & ? & ?%elem_of_nil & _). }
  assert (Hcons : first_match rules r = Ok matched ->
    (forall rule w, v = PDict rule -> or_else (py_get "forbid_when" rule) (PDict []) = PDict w ->
       w <> [] -> forbids w r -> False) ->
    matched <> [] <-> exists rule w, PDict rule ∈ v :: rules /\
      or_else (py_get "forbid_when" rule) (PDict []) = PDict w /\ w <> [] /\ forbids w r).
  { intros Hm Hno. rewrite (IH Hm). split; intros (rule & w & Hin & Hw & Hne & Hf).
    - exists rule, w. split; [by right|done].
    - apply elem_of_cons in Hin as [E|Hin]; [by destruct (Hno rule w)|by exists rule, w]. }
  destruct v as [| | | | | |rule]; try (intros Hm; by apply Hcons).
  intros ([why|] & Em & Hm)%bind_ok.
  - injection Hm as <-. split; [|done]. intros _.
    destruct (or_else (py_get "forbid_when" rule) (PDict [])) as [| | | | | |w] eqn:Ew;
      try (unfold rule_matches in Em; rewrite Ew in Em; discriminate).
    exists rule, w. split; [by left|]. split; [done|]. by eapply rule_matches_spec; [|eexists].
  - apply Hcons; [done|]. intros rule' w [= <-] Hw Hne Hf.
    destruct (proj2 (rule_matches_spec rule r w Hw)) as (why & E); [done|congruence].
Qed.

(** A forbid-rules policy only ever vetoes: it never allows; it denies
    when its rules are not a list or do not hash to the declared digest, and
    otherwise exactly when some rule with a predicate has all its predicates
    satisfied. *)
Theorem forbid_rules_exact r spec pd :
  forbid_evaluate r spec = Ok pd ->
  pd_decision pd <> Allow /\
  (pd_decision pd = Deny <->
   forall rules, or_else (py_get "data_inline" spec) (PList []) = PList rules ->
     verify_sha256 rules (py_str (get_or "policy_sha256" (PStr "") spec)) <> None \/
     exists rule w, PDict rule ∈ rules /\
       or_else (py_get "forbid_when" rule) (PDict []) = PDict w /\ w <> [] /\ forbids w r).
Proof.
  unfold forbid_evaluate. destruct (or_else (py_get "data_inline" spec) _) as [| | | | |rules|];
    try (intros [= <-]; by split).
  destruct (verify_sha256 rules _) as [why|] eqn:Ev.
  { intros [= <-]. split; [done|]. split; [|done]. intros _ rs [= <-]. left. congruence. }
  intros (matched & Hm & [= <-])%bind_ok. pose proof (first_match_spec rules r matched Hm) as Hs.
  split; [by destruct matched|]. destruct matched as [|x l]; cbn.
  - split; [done|]. intros Hr. destruct (Hr _ eq_refl) as [?|Hex]; [congruence|].
    by apply Hs in Hex.
  - split; [|done]. intros _ rs [= <-]. right. by apply Hs.
Qed.

End Forbids.

End Policy.
