(* ===== verification/Session.v ===== *)
(** * Session: deciding and recording a tool call

    [GovernanceSession.check_and_record] of [src/python/vibap/proxy.py] with the
    decision and event types around it: every backend is evaluated, the
    decisions are composed, the event is appended and a permitted call is
    counted.  The session lock makes a call one transition of the session. *)

From S2P Require Import Prelude CanonicalJson Passport ResourceScope PyJson Policy.
Import Passport ResourceScope PyJson Policy.
Open Scope string_scope.
Open Scope Z_scope.

Module Session.

Inductive Decision := PERMIT | DENY | VIOLATION | INSUFFICIENT_EVIDENCE | UNKNOWN.
#[global] Instance Decision_eq_dec : EqDecision Decision.
Proof. solve_decision. Defined.

(** [DenialReason] of [src/python/vibap/denial.py]. *)
Inductive DenialReason :=
| POLICY_DENIED | BUDGET_EXHAUSTED | TELEMETRY_MISSING | REVOKED | CHAIN_INVALID | MANIFEST_DRIFT
| ENVELOPE_TAMPERED | MEMORY_INTEGRITY_FAILURE | PROBING_RATE_EXCEEDED | APPROVAL_FATIGUE_THRESHOLD
| REVOCATION_UNAVAILABLE | MEMORY_COMPROMISE_BOUNDARY | APPROVAL_OPERATOR_UNAVAILABLE
| RISK_ACTION_CAP_EXCEEDED | RISK_BUDGET_EXHAUSTED | RISK_CONTRACT_INVALID | RISK_FACT_INVALID
| RISK_POLICY_INVALID | RISK_REQUEST_ID_INVALID | RISK_REPLAY | RISK_STATE_UNAVAILABLE
| OBSERVATION_GAP.
#[global] Instance DenialReason_eq_dec : EqDecision DenialReason.
Proof. solve_decision. Defined.

(** The reason of an event. *)
Inductive event_reason :=
| InScope
| AllAbstained
| NativeReasons (l : list reason)
| UnknownBackendReason (r : reason)
| BackendReasons (label backend : string) (l : list reason)
| Text (s : string).

(** [_legacy_denial_reason] of a text. *)
Definition legacy_text (d : Decision) (text : string) : option DenialReason :=
  let normalized := py_lower (py_strip text) in
  let exactly := String.eqb normalized in
  if bool_decide (d = PERMIT) then None
  else Some (
    if exactly "approval_fatigue_threshold" then APPROVAL_FATIGUE_THRESHOLD
    else if exactly "approval_operator_unavailable" then APPROVAL_OPERATOR_UNAVAILABLE
    else if exactly "approval_policy_invalid" then TELEMETRY_MISSING
    else if exactly "passport_revoked" || exactly "revoked" then REVOKED
    else if exactly "revocation_unavailable" || exactly "status_list_too_large" then REVOCATION_UNAVAILABLE
    else if exactly "chain_invalid" then CHAIN_INVALID
    else if exactly "memory_integrity_failure" then MEMORY_INTEGRITY_FAILURE
    else if exactly "memory_compromise_boundary" then MEMORY_COMPROMISE_BOUNDARY
    else if String.prefix "budget exceeded:" normalized
            || String.prefix "duration exceeded:" normalized
            || String.prefix "per-class budget exhausted" normalized then BUDGET_EXHAUSTED
    else if bool_decide (d = INSUFFICIENT_EVIDENCE) then TELEMETRY_MISSING
    else if bool_decide (d = UNKNOWN) then OBSERVATION_GAP
    else POLICY_DENIED).

(** The fixed text a message opens with; the whole text of an engine's own. *)
Definition opening (r : reason) : string :=
  match r with
  | BudgetExceeded _ _ _ _ => "budget exceeded: "
  | DurationExceeded _ _ => "duration exceeded: "
  | ClassBudgetExhausted _ _ _ _ => "per-class budget exhausted for '"
  | EngineReason text => text
  | WithinScope => "within scope"
  | DelegationDepthExceeded => "delegation depth exceeded"
  | ToolForbidden _ | ToolNotAllowed _ => "tool '"
  | ResourceDenied _ => "resource"
  | SideEffectNotAllowed _ _ => "side_effect_class '"
  | NativeNotRegistered => "native backend not registered"
  | UnknownBackend _ => "unknown policy backend: "
  | RulesNotAList => "data_inline must be a list of rules; got "
  | HashMissing | HashMismatch _ => "integrity: "
  | RuleMatched id _ => id ++ "("
  end.
(** [_legacy_denial_reason] of the joined native reasons: what a message opens
    with decides, and no joined message is one of the exact texts. *)
Definition native_denial_reason (d : Decision) (l : list reason) : option DenialReason :=
  match l with
  | [] => legacy_text d "native policy denied"
  | [r] => legacy_text d (opening r)
  | r :: _ => legacy_text d (opening r ++ "; ")
  end.

Record decision_entry := DecisionEntry {
  de_backend : string; de_label : string; de_decision : DecisionType; de_reasons : list reason
}.

(** [PolicyEvent], the fields [check_and_record] sets. *)
Record PolicyEvent := Event {
  ev_timestamp : string;
  ev_step_id : string;
  ev_actor : string;
  ev_verifier_id : string;
  ev_tool_name : string;
  ev_arguments : claims;
  ev_action_class : string;
  ev_target : string;
  ev_resource_family : string;
  ev_side_effect_class : string;
  ev_decision : Decision;
  ev_reason : event_reason;
  ev_passport_jti : string;
  ev_run_nonce : string;
  ev_denial_reason : option DenialReason;
  ev_policy_decisions : list decision_entry
}.

(** [GovernanceSession], the fields the decision of a call depends on or
    changes; times are in ticks. *)
Record GovernanceSession := MkSession {
  passport_claims : claims;
  events : list PolicyEvent;
  tool_call_count : Z;
  tool_call_count_by_class : list (string * Z);
  delegated_budget_reserved : Z;
  start_time : Z;
  end_time : option Z;
  run_nonce : string
}.

(** [elapsed_s] at a clock reading. *)
Definition elapsed (s : GovernanceSession) (now : Z) : Z := default now (end_time s) - start_time s.

(** [_event_policy_decision_dict]. *)
Definition event_policy_decision (pd : PolicyDecision) : decision_entry :=
  if String.eqb (pd_backend pd) "native"
  then DecisionEntry "native_claims" "ardur_builtin" (pd_decision pd) (pd_reasons pd)
  else DecisionEntry (pd_backend pd) (pd_label pd) (pd_decision pd) (pd_reasons pd).

(** [d[k] = d.get(k, 0) + 1]. *)
Fixpoint bump (k : string) (d : list (string * Z)) : list (string * Z) :=
  match d with
  | [] => [(k, 1)]
  | (k', n) :: d => if String.eqb k k' then (k', n + 1) :: d else (k', n) :: bump k d
  end.

(** [len(v)]. *)
Definition py_length (v : pyval) : PolicyRes nat :=
  match v with
  | PList l => Ok (length l)
  | PDict d => Ok (length d)
  | PStr s => Ok (length (chars s))
  | _ => Raise EvaluationError
  end.

Section CheckAndRecord.
Context `{!PyRepr, !UnicodeData, !Filesystem, !Digests, !Regex}.
Variable env : scope_env.
Variable cedar : option backend.

(** [_receipt_step_id]. *)
Definition receipt_step_id (passport_jti timestamp tool_name : string) (arguments : claims) : string :=
  let material := dumps compact_style
    (PDict [("passport_jti", PStr passport_jti); ("timestamp", PStr timestamp);
            ("tool_name", PStr tool_name); ("arguments", PDict arguments)]) in
  "step:" ++ substring 0 32 (hmac_sha256 "vibap-receipt-step" material).

(** One additional policy of the loop. *)
Definition evaluate_spec (r : request) (spec : claims) (reg : registry)
    : PolicyRes (registry * PolicyDecision) :=
  let backend_name := py_str (get_or "backend" (PStr "?") spec) in
  let policy_label := py_str (get_or "label" (PStr "") spec) in
  let '(reg, b) := get_backend env cedar backend_name reg in
  match b with
  | None => Ok (reg, Decided backend_name policy_label Deny [UnknownBackend backend_name])
  | Some b =>
      pd ← b_evaluate b r spec;
      Ok (reg, if non_empty policy_label && negb (non_empty (pd_label pd))
               then Decided (pd_backend pd) policy_label (pd_decision pd) (pd_reasons pd) else pd)
  end.

Fixpoint evaluate_specs (r : request) (specs : list pyval) (reg : registry)
    : PolicyRes (registry * list PolicyDecision) :=
  match specs with
  | [] => Ok (reg, [])
  | PDict spec :: specs =>
      '(reg, pd) ← evaluate_spec r spec reg;
      '(reg, pds) ← evaluate_specs r specs reg;
      Ok (reg, pd :: pds)
  | _ => Raise EvaluationError
  end.

Definition native_decision (r : request) (reg : registry) : PolicyRes (registry * PolicyDecision) :=
  let '(reg, b) := get_backend env cedar "native" reg in
  match b with
  | None => Ok (reg, Decided "native" "ardur_builtin" Deny [NativeNotRegistered])
  | Some b => pd ← b_evaluate b r []; Ok (reg, pd)
  end.

Definition starts_unknown (l : list reason) : option reason :=
  match l with
  | UnknownBackend n :: _ => Some (UnknownBackend n)
  | EngineReason t :: _ => if String.prefix "unknown policy backend:" t then Some (EngineReason t)
                           else None
  | _ => None
  end.

(** The decision, reason and denial reason of a composed verdict. *)
Definition verdict (composed : DecisionType * option PolicyDecision)
    : Decision * event_reason * option DenialReason :=
  match composed with
  | (Allow, _) => (PERMIT, InScope, None)
  | (_, None) => (DENY, AllAbstained, Some POLICY_DENIED)
  | (_, Some denier) =>
      if String.eqb (pd_backend denier) "native"
      then (DENY, NativeReasons (pd_reasons denier), native_denial_reason DENY (pd_reasons denier))
      else match starts_unknown (pd_reasons denier) with
           | Some r => (DENY, UnknownBackendReason r, Some POLICY_DENIED)
           | None =>
               let label := if non_empty (pd_label denier) then pd_label denier
                            else pd_backend denier in
               (DENY, BackendReasons label (pd_backend denier) (pd_reasons denier),
                Some POLICY_DENIED)
           end
  end.

(** The request the backends see; [now] and [now'] are the two clock readings. *)
Definition call_request (s : GovernanceSession) (active : claims) (tool_name : string)
    (arguments : claims) (now now' : Z) : request :=
  let target := policy_event_target tool_name arguments in
  let action_class := policy_action_class tool_name in
  let family := policy_resource_family tool_name arguments target action_class in
  let sec := policy_side_effect_class tool_name action_class family in
  Request tool_name arguments (py_str (get_or "sub" (PStr "unknown") (passport_claims s))) target
    (Context active
       (SessionState (tool_call_count s) (tool_call_count_by_class s)
          (delegated_budget_reserved s) (elapsed s now))
       (elapsed s now') (tool_call_count s) action_class sec).

(** The session after the event: only a permitted call is counted. *)
Definition record_event (s : GovernanceSession) (e : PolicyEvent) : GovernanceSession :=
  let permitted := bool_decide (ev_decision e = PERMIT) in
  MkSession (passport_claims s) (events s ++ [e])%list
    (if permitted then tool_call_count s + 1 else tool_call_count s)
    (if permitted then bump (ev_side_effect_class e) (tool_call_count_by_class s)
     else tool_call_count_by_class s)
    (delegated_budget_reserved s) (start_time s) (end_time s) (run_nonce s).

(** [GovernanceSession.check_and_record]. *)
Definition check_and_record (s : GovernanceSession) (tool_name : string) (arguments : claims)
    (policy_claims : option claims) (verifier_id : string) (reg : registry)
    (now now' : Z) (timestamp : string)
    : PolicyRes (registry * GovernanceSession * PolicyEvent) :=
  let active := default (passport_claims s) policy_claims in
  _ ← py_length (or_else (get_or "delegation_chain" (PList []) active) (PList []));
  let r := call_request s active tool_name arguments now now' in
  let additional := or_else (py_get "additional_policies" active) (PList []) in
  '(reg, native) ← native_decision r reg;
  specs ← py_iter additional;
  '(reg, others) ← evaluate_specs r specs reg;
  let '(decision, why, denial) := verdict (compose_decisions (native :: others)) in
  jti ← match dget "jti" (passport_claims s) with
        | Some v => Ok (py_str v) | None => Raise EvaluationError end;
  let c := rq_context r in
  let e := Event timestamp (receipt_step_id jti timestamp tool_name arguments) (rq_principal r)
    verifier_id tool_name arguments (ctx_action_class c) (rq_target r)
    (policy_resource_family tool_name arguments (rq_target r) (ctx_action_class c))
    (ctx_side_effect_class c) decision why jti (run_nonce s) denial
    (if truthy additional then event_policy_decision <$> (native :: others) else []) in
  Ok (reg, record_event s e, e).

(** ** The decision of a call *)

Hypothesis cedar_named : forall b, cedar = Some b -> b_name b = "cedar".

Definition builtin (name : string) : option backend :=
  if String.eqb name "native" then Some (NativeBackend env)
  else if String.eqb name "forbid_rules" then Some ForbidRulesBackend
  else if String.eqb name "cedar" then cedar else None.
(** The backend a lookup finds. *)
Definition backend_of (name : string) (reg : registry) : option backend :=
  match reg !! name with Some b => Some b | None => builtin name end.

Lemma bootstrap_spec name reg : bootstrap_builtin_backend env cedar name reg
  = match builtin name with Some b => <[name := b]> reg | None => reg end.
Proof.
  unfold bootstrap_builtin_backend, builtin, register_backend.
  destruct (String.eqb_spec name "native") as [->|_]; [done|].
  destruct (String.eqb_spec name "forbid_rules") as [->|_]; [done|].
  destruct (String.eqb_spec name "cedar") as [->|_]; [|done].
  destruct cedar as [b|]; [|done]. by rewrite (cedar_named b eq_refl).
Qed.

Lemma get_backend_spec name reg : exists reg',
  get_backend env cedar name reg = (reg', backend_of name reg) /\
  forall name', backend_of name' reg' = backend_of name' reg.
Proof.
  unfold get_backend, backend_of. destruct (reg !! name) as [b|] eqn:En.
  { exists reg. by rewrite En. }
  rewrite bootstrap_spec. destruct (builtin name) as [b|] eqn:Eb; [|exists reg; by rewrite En].
  exists (<[name := b]> reg). rewrite lookup_insert_eq. split; [done|]. intros name'.
  destruct (decide (name' = name)) as [->|Hne]; [by rewrite lookup_insert_eq, En|].
  by rewrite lookup_insert_ne.
Qed.

(** What the policy of a specification decides, independently of the calls
    before. *)
Definition spec_decision (r : request) (spec : claims) (reg : registry) : PolicyRes PolicyDecision :=
  let name := py_str (get_or "backend" (PStr "?") spec) in
  let label := py_str (get_or "label" (PStr "") spec) in
  match backend_of name reg with
  | None => Ok (Decided name label Deny [UnknownBackend name])
  | Some b =>
      pd ← b_evaluate b r spec;
      Ok (if non_empty label && negb (non_empty (pd_label pd))
          then Decided (pd_backend pd) label (pd_decision pd) (pd_reasons pd) else pd)
  end.

Definition same_backends (reg reg' : registry) : Prop :=
  forall name, backend_of name reg' = backend_of name reg.

Lemma evaluate_spec_ok r spec reg reg' pd : evaluate_spec r spec reg = Ok (reg', pd) ->
  spec_decision r spec reg = Ok pd /\ same_backends reg reg'.
Proof.
  unfold evaluate_spec, spec_decision.
  destruct (get_backend_spec (py_str (get_or "backend" (PStr "?") spec)) reg) as (reg1 & -> & Hs).
  destruct (backend_of _ reg) as [b|]; [|by intros [= -> <-]].
  intros (pd' & -> & [= -> <-])%bind_ok. done.
Qed.

Lemma spec_decision_same r spec reg reg' : same_backends reg reg' ->
  spec_decision r spec reg' = spec_decision r spec reg.
Proof. intros Hs. unfold spec_decision. by rewrite Hs. Qed.

Lemma evaluate_specs_ok r specs reg reg' pds : evaluate_specs r specs reg = Ok (reg', pds) ->
  Forall2 (fun v pd => exists spec, v = PDict spec /\ spec_decision r spec reg = Ok pd) specs pds /\
  same_backends reg reg'.
Proof.
  revert reg reg' pds. induction specs as [|v specs IH]; intros reg reg' pds; cbn [evaluate_specs].
  { intros [= -> <-]. done. }
  destruct v as [| | | | | |spec]; try done.
  intros ([reg1 pd] & [Hd Hs]%evaluate_spec_ok & ([reg2 pds'] & [Hf Hs']%IH & [= -> <-])%bind_ok)%bind_ok.
  split; [|intros name; by rewrite Hs', Hs]. constructor; [by exists spec|].
  eapply Forall2_impl; [exact Hf|]. intros v pd' (spec' & -> & E). exists spec'.
  by rewrite <- E, (spec_decision_same _ _ reg reg1).
Qed.

(** No other backend has been registered under the name of the native one. *)
Definition native_builtin (reg : registry) : Prop := backend_of "native" reg = Some (NativeBackend env).

Definition state_of (s : GovernanceSession) (now : Z) : session_state :=
  SessionState (tool_call_count s) (tool_call_count_by_class s) (delegated_budget_reserved s)
    (elapsed s now).

Lemma native_decision_ok s active tool args now now' reg reg' pd : native_builtin reg ->
  native_decision (call_request s active tool args now now') reg = Ok (reg', pd) ->
  pd_decision pd <> Abstain /\ same_backends reg reg' /\
  (pd_decision pd = Allow <->
   native_permits env active tool args (state_of s now)
     (ctx_side_effect_class (rq_context (call_request s active tool args now now')))).
Proof.
  intros Hn. unfold native_decision. destruct (get_backend_spec "native" reg) as (reg1 & -> & Hs).
  rewrite Hn. intros (pd' & Hp & [= -> <-])%bind_ok. cbn [b_evaluate NativeBackend] in Hp.
  unfold native_evaluate in Hp. apply bind_ok in Hp as (reasons & Hr & [= <-]).
  change (ctx_side_effect_class _) with (policy_metadata tool args (policy_event_target tool args) None).2.
  rewrite <- native_denials_nil.
  cbn [rq_context call_request ctx_passport ctx_session rq_tool_name rq_arguments rq_target] in Hr.
  unfold state_of. rewrite Hr. by destruct reasons.
Qed.

Lemma verdict_permit composed : (verdict composed).1.1 = PERMIT <-> composed.1 = Allow.
Proof.
  destruct composed as [[] [pd|]]; cbn; try done; destruct (String.eqb _ _); try done;
    by destruct (starts_unknown _).
Qed.

Definition additional_of (active : claims) : pyval :=
  or_else (py_get "additional_policies" active) (PList []).

(** The parts of a recorded call. *)
Lemma check_and_record_parts s tool args pc vid reg now now' ts reg' s' e :
  check_and_record s tool args pc vid reg now now' ts = Ok (reg', s', e) ->
  let active := default (passport_claims s) pc in
  let r := call_request s active tool args now now' in
  s' = record_event s e /\ ev_side_effect_class e = ctx_side_effect_class (rq_context r) /\
  exists reg1 native specs others,
    native_decision r reg = Ok (reg1, native) /\ py_iter (additional_of active) = Ok specs /\
    evaluate_specs r specs reg1 = Ok (reg', others) /\
    ev_decision e = (verdict (compose_decisions (native :: others))).1.1 /\
    ev_policy_decisions e
      = (if truthy (additional_of active) then event_policy_decision <$> (native :: others) else []).
Proof.
  unfold check_and_record. intros (n & _ & Hc)%bind_ok. cbv zeta in Hc.
  apply bind_ok in Hc as ([reg1 native] & Hn & Hc). apply bind_ok in Hc as (specs & Hs & Hc).
  apply bind_ok in Hc as ([reg2 others] & Ho & Hc).
  destruct (verdict _) as [[d why] denial] eqn:Ev. apply bind_ok in Hc as (jti & _ & Hc).
  injection Hc as <- <- <-. split; [done|]. split; [done|].
  exists reg1, native, specs, others. rewrite Ev. done.
Qed.

(** C6. A call is permitted exactly when every authority agrees: it returns
    [PERMIT] if and only if all the native conditions hold (tool allowed and
    not forbidden, resources in scope, calls and time left, side effect class
    allowed and its cap not reached, chain not too deep) and no additional
    policy denies it, an unregistered backend counting as a denial.  Every
    verdict is recorded: one event is appended, the counters move only on a
    permit, and the event of a call under additional policies lists one
    decision per policy after the native one. *)
Theorem call_permitted_iff s tool args pc vid reg now now' ts reg' s' e :
  native_builtin reg ->
  check_and_record s tool args pc vid reg now now' ts = Ok (reg', s', e) ->
  let active := default (passport_claims s) pc in
  let r := call_request s active tool args now now' in
  (ev_decision e = PERMIT <->
   native_permits env active tool args (state_of s now) (ev_side_effect_class e) /\
   exists specs, py_iter (additional_of active) = Ok specs /\
     Forall (fun v => exists spec pd, v = PDict spec /\ spec_decision r spec reg = Ok pd /\
                        pd_decision pd <> Deny) specs) /\
  s' = record_event s e /\
  (truthy (additional_of active) = true -> forall specs, py_iter (additional_of active) = Ok specs ->
   length (ev_policy_decisions e) = S (length specs)) /\
  same_backends reg reg'.
Proof.
  intros Hn Hc active r.
  apply check_and_record_parts in Hc as (Hs' & Hsec & reg1 & native & specs & others & Hnat & Hsp & Ho & Hd & Hl).
  fold active in Hnat, Hsp, Ho, Hl, Hsec. fold r in Hnat, Ho, Hsec.
  apply native_decision_ok in Hnat as (Hab & Hs1 & Hiff); [|done].
  apply evaluate_specs_ok in Ho as [Hf Hs2]. fold r in Hiff.
  split; [|split; [done|split; [|intros name; by rewrite Hs2, Hs1]]].
  - rewrite Hd, verdict_permit, compose_allow, Forall_cons, Exists_cons, Hsec, <- Hiff. split.
    + intros [[Hnd Hall] _]. split; [by destruct (pd_decision native)|]. exists specs. split; [done|].
      apply Forall_forall. intros v Hv. apply list_elem_of_lookup_1 in Hv as [i Hi].
      destruct (Forall2_lookup_l _ _ _ _ _ Hf Hi) as (pd & Hpd & spec & -> & Hsd).
      exists spec, pd. split; [done|]. rewrite <- (spec_decision_same _ _ reg reg1) by done.
      split; [done|]. rewrite Forall_forall in Hall. apply Hall. by eapply list_elem_of_lookup_2.
    + intros [Ha (specs' & E & Hall)]. rewrite Hsp in E. injection E as <-.
      split; [|by left]. split; [by rewrite Ha|]. apply Forall_forall. intros pd Hp.
      apply list_elem_of_lookup_1 in Hp as [i Hi].
      destruct (Forall2_lookup_r _ _ _ _ _ Hf Hi) as (v & Hv & spec & -> & Hsd).
      rewrite Forall_forall in Hall.
      destruct (Hall _ (list_elem_of_lookup_2 _ _ _ Hv)) as (spec' & pd' & [= <-] & Hsd' & Hnd).
      rewrite (spec_decision_same _ _ reg reg1) in Hsd by done. congruence.
  - intros Ht specs' E. rewrite Hsp in E. injection E as <-. rewrite Hl, Ht.
    rewrite length_fmap. cbn. f_equal. symmetry. by eapply Forall2_length.
Qed.

(** ** Every call is decided *)

(** Claims of the types [issue_passport] writes. *)
Record typed_claims (active : claims) : Prop := {
  tc_chain : exists l, get_or "delegation_chain" (PList []) active = PList l;
  tc_forbidden : exists l, get_or "forbidden_tools" (PList []) active = PList l;
  tc_allowed : exists l, get_or "allowed_tools" (PList []) active = PList l;
  tc_calls : exists n, get_or "max_tool_calls" (PInt 50) active = PInt n;
  tc_duration : exists n, get_or "max_duration_s" (PInt 600) active = PInt n;
  tc_scope : exists l, get_or "resource_scope" (PList []) active = PList l;
  tc_effects : exists l, get_or "allowed_side_effect_classes" (PList []) active = PList l;
  tc_caps : exists d, get_or "max_tool_calls_per_class" (PDict []) active = PDict d /\
    Forall (fun kv => exists n, kv.2 = PInt n) d
}.

Lemma or_else_list l : exists l', or_else (PList l) (PList []) = PList l'.
Proof. unfold or_else. destruct (truthy _); by eexists. Qed.

Lemma first_reasons_ok checks : Forall (fun c : PolicyRes (list reason) => exists l, c = Ok l) checks ->
  exists l, first_reasons checks = Ok l.
Proof.
  induction 1 as [|c checks [l ->] _ [l' IH]]; cbn; [by eexists|]. rewrite IH. destruct l; by eexists.
Qed.

Lemma native_total active tool args target st : typed_claims active ->
  exists l, evaluate_native_denials env active tool args target st None = Ok l.
Proof.
  intros [_ [lf Hf] [la Ha] [nc Hc] [nd Hd] [ls Hs] [le He] (dc & Hdc & Hcaps)].
  apply first_reasons_ok. repeat apply Forall_cons_2; [..|apply Forall_nil_2].
  - by eexists.
  - unfold check_forbidden_tools. rewrite Hf. by eexists.
  - unfold check_tool_scope. rewrite Ha. cbn [py_in mbind res_bind]. destruct (existsb _ la); by eexists.
  - unfold check_session_budget. rewrite Hc, Hd. cbn. destruct (_ <=? _); by eexists.
  - unfold check_resource_scope_claim. rewrite Hs. destruct (or_else_list ls) as [l ->]. by eexists.
  - unfold check_side_effect_class. rewrite He. destruct (or_else_list le) as [l ->]. by eexists.
  - unfold check_per_class_budget. rewrite Hdc.
    replace (or_else (PDict dc) (PDict [])) with (PDict dc) by (by destruct dc).
    cbn [py_dict mbind res_bind]. destruct (dget _ dc) as [v|] eqn:Ev; [|by eexists].
    rewrite Forall_forall in Hcaps. destruct (Hcaps _ (dget_elem _ _ _ Ev)) as [n Hn].
    cbn in Hn. rewrite Hn. by eexists.
Qed.

Lemma evaluate_specs_total r specs reg :
  Forall (fun v => exists spec, v = PDict spec /\ exists pd, spec_decision r spec reg = Ok pd) specs ->
  exists out, evaluate_specs r specs reg = Ok out.
Proof.
  revert reg. induction specs as [|v specs IH]; intros reg Hf; [by eexists|].
  apply Forall_cons_1 in Hf as [(spec & -> & pd & Hpd) Hf]. cbn [evaluate_specs].
  assert (He : exists reg1 pd1, evaluate_spec r spec reg = Ok (reg1, pd1)).
  { unfold evaluate_spec. unfold spec_decision in Hpd.
    destruct (get_backend_spec (py_str (get_or "backend" (PStr "?") spec)) reg) as (reg1 & -> & _).
    destruct (backend_of _ reg) as [b|]; [|by eexists _, _].
    apply bind_ok in Hpd as (pd' & -> & _). cbn. by eexists _, _. }
  destruct He as (reg1 & pd1 & He). rewrite He. cbn [mbind res_bind].
  apply evaluate_spec_ok in He as [_ Hs].
  destruct (IH reg1) as [[reg2 pds] Ho].
  { eapply Forall_impl; [exact Hf|]. intros v (spec' & -> & pd' & E). exists spec'. split; [done|].
    exists pd'. by rewrite (spec_decision_same _ _ reg reg1). }
  rewrite Ho. by eexists.
Qed.


(** ** Budgets of a session *)

Definition permitted (e : PolicyEvent) : bool := bool_decide (ev_decision e = PERMIT).
Definition permitted_in (c : string) (e : PolicyEvent) : bool :=
  permitted e && String.eqb (ev_side_effect_class e) c.
Definition count_of (p : PolicyEvent -> bool) (l : list PolicyEvent) : Z :=
  Z.of_nat (length (List.filter p l)).

(** The counters are what the event log says. *)
Record counters_ok (s : GovernanceSession) : Prop := {
  co_calls : tool_call_count s = count_of permitted (events s);
  co_class : forall c, default 0 (dget c (tool_call_count_by_class s))
                       = count_of (permitted_in c) (events s);
  co_reserved : 0 <= delegated_budget_reserved s
}.

(** A session under fixed claims: calls, and delegations that move its reserved
    budget. *)
Inductive session_step (active : claims) (s : GovernanceSession) : GovernanceSession -> Prop :=
| step_call tool args pc vid reg now now' ts reg' s' e :
    native_builtin reg -> default (passport_claims s) pc = active ->
    check_and_record s tool args pc vid reg now now' ts = Ok (reg', s', e) ->
    session_step active s s'
| step_reserve reserved : 0 <= reserved ->
    session_step active s
      (MkSession (passport_claims s) (events s) (tool_call_count s) (tool_call_count_by_class s)
         reserved (start_time s) (end_time s) (run_nonce s)).

Lemma count_of_snoc p l e : count_of p (l ++ [e])%list = count_of p l + if p e then 1 else 0.
Proof.
  unfold count_of. rewrite List.filter_app, length_app. cbn. destruct (p e); cbn; lia.
Qed.

Lemma dget_bump k c d :
  default 0 (dget c (bump k d)) = default 0 (dget c d) + if String.eqb k c then 1 else 0.
Proof.
  induction d as [|[k' n] d IH]; cbn.
  - destruct (String.eqb_spec c k) as [->|Hne]; [by rewrite String.eqb_refl|].
    destruct (String.eqb_spec k c); [congruence|done].
  - destruct (String.eqb_spec k k') as [->|Hne]; cbn; destruct (String.eqb_spec c k') as [->|Hc]; cbn.
    + rewrite String.eqb_refl. lia.
    + destruct (String.eqb_spec k' c); [congruence|lia].
    + destruct (String.eqb_spec k k'); [congruence|lia].
    + exact IH.
Qed.

Lemma record_event_counters s e : counters_ok s -> counters_ok (record_event s e).
Proof.
  intros [Hc Hk Hr]. constructor; [| |done]; unfold record_event; cbn.
  - rewrite count_of_snoc, <- Hc. unfold permitted. case_bool_decide; lia.
  - intros c. rewrite count_of_snoc, <- Hk. unfold permitted_in, permitted.
    case_bool_decide; cbn; [apply dget_bump|lia].
Qed.

(** The largest values the counters may have under the claims. *)
Record within_claims (active : claims) (s : GovernanceSession) : Prop := {
  wc_calls : forall m, to_int (get_or "max_tool_calls" (PInt 50) active) = Ok m ->
    tool_call_count s <= Z.max 0 m;
  wc_class : forall caps c v cap,
    py_dict (or_else (get_or "max_tool_calls_per_class" (PDict []) active) (PDict [])) = Ok caps ->
    dget c caps = Some v -> to_int v = Ok cap ->
    default 0 (dget c (tool_call_count_by_class s)) <= Z.max 0 cap
}.

Lemma permit_within active s tool args now e : 0 <= delegated_budget_reserved s ->
  within_claims active s -> ev_decision e = PERMIT ->
  native_permits env active tool args (state_of s now) (ev_side_effect_class e) ->
  within_claims active (record_event s e).
Proof.
  intros Hr [Hwc Hwk] Hp Hn. constructor; unfold record_event; rewrite (bool_decide_true _ Hp);
    cbn [tool_call_count tool_call_count_by_class].
  - intros m Hm. destruct (np_calls _ _ _ _ _ _ Hn) as (m' & E & Hlt). rewrite Hm in E.
    injection E as <-. cbn in Hlt. lia.
  - intros caps c v cap Hcaps Hc Hcap. rewrite dget_bump.
    pose proof (Hwk _ _ _ _ Hcaps Hc Hcap) as Hle.
    destruct (String.eqb_spec (ev_side_effect_class e) c) as [Ec|_]; [|lia].
    destruct (np_class _ _ _ _ _ _ Hn) as (caps' & E & Hk). rewrite Hcaps in E. injection E as <-.
    rewrite Ec in Hk. destruct (Hk _ Hc) as (cap' & E & Hlt). rewrite Hcap in E. injection E as <-.
    cbn in Hlt. lia.
Qed.

Lemma session_step_within active s s' : session_step active s s' ->
  counters_ok s -> within_claims active s -> counters_ok s' /\ within_claims active s'.
Proof.
  intros [tool args pc vid reg now now' ts reg' s1 e Hn Ha Hc|reserved Hr] Hco Hw.
  - pose proof Hc as Hc'.
    apply check_and_record_parts in Hc as (-> & Hsec & reg1 & native & specs & others & Hnat & _ & _ & Hd & _).
    rewrite Ha in Hsec, Hnat. apply native_decision_ok in Hnat as (Hab & _ & Hiff); [|done].
    split; [by apply record_event_counters|].
    destruct (decide (ev_decision e = PERMIT)) as [Hp|Hp].
    + eapply permit_within; [by destruct Hco|done|done|]. rewrite Hsec. apply Hiff.
      rewrite Hd, verdict_permit, compose_allow, Forall_cons in Hp. destruct Hp as [[Hnd _] _].
      by destruct (pd_decision native).
    + destruct Hw as [Hwc Hwk]. constructor; unfold record_event;
        rewrite (bool_decide_false _ Hp); cbn; auto.
  - split; [by destruct Hco; constructor|]. by destruct Hw; constructor.
Qed.

(** C5. A session never exceeds its grant: whatever calls are made, in any
    order and with any other policies, and however delegations move the
    reserved budget, the permitted calls in the event log number at most
    [max_tool_calls], those of a capped side effect class at most its cap, and
    the counters kept are exactly those numbers. *)
Theorem session_within_grant active s0 s :
  counters_ok s0 -> within_claims active s0 -> rtc (session_step active) s0 s ->
  tool_call_count s = count_of permitted (events s) /\
  (forall m, to_int (get_or "max_tool_calls" (PInt 50) active) = Ok m ->
     count_of permitted (events s) <= Z.max 0 m) /\
  (forall caps c v cap,
     py_dict (or_else (get_or "max_tool_calls_per_class" (PDict []) active) (PDict [])) = Ok caps ->
     dget c caps = Some v -> to_int v = Ok cap ->
     count_of (permitted_in c) (events s) <= Z.max 0 cap).
Proof.
  intros Hc Hw Hr. assert (Hinv : counters_ok s /\ within_claims active s).
  { induction Hr as [|s0 s1 s Hst _ IH]; [done|]. destruct (session_step_within _ _ _ Hst Hc Hw). auto. }
  destruct Hinv as [[Hcc Hck _] [Hwc Hwk]]. rewrite <- Hcc. split; [done|]. split; [done|].
  intros caps c v cap H4 H5 H6. rewrite <- Hck. by eapply Hwk.
Qed.

End CheckAndRecord.

(** ** A session with a forbid-rules policy *)
Module Demo.

#[local] Existing Instances demo_digests ResourceScope.Demo.demo_unicode ResourceScope.Demo.demo_files.
#[local] Instance demo_repr : PyRepr := {| repr_container := fun v => dumps default_style v |}.
#[local] Instance demo_regex : Regex := {| re_search := fun re s => Some (str_contains re s) |}.

Definition env : scope_env := ScopeEnv None None.
Definition rules : list pyval :=
  [PDict [("id", PStr "no_secrets"); ("forbid_when", PDict [("arg_contains", PList [PStr "Secret"])])]].
Definition spec : claims :=
  [("backend", PStr "forbid_rules"); ("label", PStr "compliance"); ("data_inline", PList rules);
   ("policy_sha256", PStr (sha256_hex (canonical_source rules)))].
Definition claims0 : claims :=
  [("jti", PStr "j-1"); ("sub", PStr "agent"); ("allowed_tools", PList [PStr "read_file"]);
   ("resource_scope", PList [PStr "/w/*"]); ("max_tool_calls", PInt 2);
   ("max_tool_calls_per_class", PDict [("none", PInt 1)]);
   ("additional_policies", PList [PDict spec])].
Definition session0 : GovernanceSession := MkSession claims0 [] 0 [] 0 0 None "nonce".
Definition args : claims := [("path", PStr "/w/notes.txt")].
Definition call (s : GovernanceSession) (a : claims) :=
  check_and_record env None s "read_file" a None "verifier" ∅ 5 6 "2026-01-01T00:00:00Z".

Lemma no_cedar : forall b, None = Some b -> b_name b = "cedar".
Proof. discriminate. Qed.
Lemma builtin_here : native_builtin env None ∅.
Proof. reflexivity. Qed.

Definition outcome (m : PolicyRes (registry * GovernanceSession * PolicyEvent)) : option Decision :=
  match m with Ok (_, _, e) => Some (ev_decision e) | Raise _ => None end.

Lemma first_permitted : outcome (call session0 args) = Some PERMIT.
Proof. vm_compute. reflexivity. Qed.
Lemma secret_denied : outcome (call session0 [("path", PStr "/w/secret.txt")]) = Some DENY.
Proof. vm_compute. reflexivity. Qed.

Lemma outcome_some m d : outcome m = Some d -> exists reg s e, m = Ok (reg, s, e) /\ ev_decision e = d.
Proof. destruct m as [[[reg s] e]|]; [|done]. intros [= <-]. by exists reg, s, e. Qed.

Lemma call_permitted_iff_witness :
  native_permits env claims0 "read_file" args (state_of session0 5) "none".
Proof.
  destruct (outcome_some _ _ first_permitted) as (reg & s & e & E & Hp).
  destruct (call_permitted_iff env None no_cedar session0 "read_file" args None "verifier" ∅ 5 6
    "2026-01-01T00:00:00Z" reg s e builtin_here E) as [[Hiff _] _].
  destruct (Hiff Hp) as [Hn _]. cbn [default passport_claims session0] in Hn.
  destruct (check_and_record_parts env None _ _ _ _ _ _ _ _ _ _ _ _ E) as (_ & Hsec & _).
  rewrite Hsec in Hn. exact Hn.
Defined.


Lemma session_within_grant_witness : exists s, rtc (session_step env None claims0) session0 s /\
  count_of permitted (events s) <= 2.
Proof.
  destruct (outcome_some _ _ first_permitted) as (reg & s & e & E & Hp). exists s.
  assert (Hr : rtc (session_step env None claims0) session0 s).
  { apply rtc_once. eapply (step_call env None claims0 session0 "read_file" args None);
      [exact builtin_here|reflexivity|exact E]. }
  split; [exact Hr|].
  destruct (session_within_grant env None no_cedar claims0 session0 s) as (_ & Hc & _).
  - constructor; [reflexivity|intros c; reflexivity|cbn; lia].
  - constructor; cbn; intros; lia.
  - exact Hr.
  - apply (Hc 2). reflexivity.
Defined.

Definition secret_request : request :=
  call_request session0 claims0 "read_file" [("path", PStr "/w/secret.txt")] 5 6.

Definition decided (m : PolicyRes PolicyDecision) : option DecisionType :=
  match m with Ok pd => Some (pd_decision pd) | Raise _ => None end.
Lemma secret_vetoed : decided (forbid_evaluate secret_request spec) = Some Deny.
Proof. vm_compute. reflexivity. Qed.

Lemma forbid_rules_exact_witness : exists pd, forbid_evaluate secret_request spec = Ok pd /\
  pd_decision pd = Deny /\
  (verify_sha256 rules (py_str (get_or "policy_sha256" (PStr "") spec)) <> None \/
   exists rule w, PDict rule ∈ rules /\
     or_else (py_get "forbid_when" rule) (PDict []) = PDict w /\ w <> [] /\ forbids w secret_request).
Proof.
  pose proof secret_vetoed as Hd. destruct (forbid_evaluate secret_request spec) as [pd|] eqn:E; [|discriminate].
  injection Hd as Hd. exists pd. split; [reflexivity|]. split; [exact Hd|].
  destruct (forbid_rules_exact secret_request spec pd E) as [_ [Hf _]]. apply (Hf Hd rules). reflexivity.
Defined.

End Demo.

End Session.
