(* ===== verification/RiskLedger.v ===== *)
(** * Risk ledger: reservations of risk facts at three scopes

    [FileRiskBudgetLedger], the second half of
    [src/python/vibap/risk_budget.py].  One JSON file holds, for all lineages,
    the accounts, the reservations and the tombstones of archived requests;
    [store] is that file, [None] while it does not exist.  The lock around
    every operation makes it one transition of the store; an operation returns
    the store it leaves even where it raises, because a reservation call first
    writes the file pruned.

    An account key [fact:scope:hash] is the triple of its parts: a fact is one
    of three names and a scope one of three, none with a colon, so the text
    determines them.  Times are in ticks, [expires_at] and [replay_until] in
    seconds. *)

From S2P Require Import Prelude CanonicalJson Merkle RiskPolicy Passport.
Import RiskPolicy.
Open Scope string_scope.
Open Scope Z_scope.

Module RiskLedger.

Definition MAX_RESERVATIONS : nat := 4096.
Definition QUARANTINE_RETENTION_S : Z := 24 * 60 * 60.
Definition REPLAY_TOMBSTONE_RETENTION_S : Z := 60 * 60.
Definition TICKS : Z := Passport.TICKS.

(** ** The ledger file *)

Definition account_key := (string * scope * string)%type.
Record account := Account { spent : Z; reserved : Z; archived_spent : Z }.
Definition no_account : account := Account 0 0 0.

(** A pending lifecycle has no receipt, a delivered one has its identifier. *)
Inductive lifecycle_state := Pending | Delivered (receipt_id : string).
Record lifecycle := Lifecycle { lc_id : string; lc_state : lifecycle_state }.

Inductive status := Active | Quarantined | Committed | Released.
#[global] Instance status_eq_dec : EqDecision status.
Proof. solve_decision. Defined.

Record reservation := Reservation {
  fingerprint_hash : string;
  policy_digest : string;
  contract_digest : string;
  fact_digest : string;
  amounts : gmap string Z;
  scope_keys : per_scope string;
  ceilings : gmap string (per_scope Z);
  res_status : status;
  created_at : Z;
  updated_at : Z;
  expires_at : Z;
  res_lifecycle : option lifecycle
}.

Inductive archived_status := ACommitted | AReleased | AQuarantinedCommitted.

Record tombstone := Tombstone {
  t_fingerprint_hash : string;
  t_fact_digest : string;
  t_session_hash : string;
  t_lineage_hash : string;
  t_status : archived_status;
  replay_until : Z;
  t_lifecycle : lifecycle
}.

Record payload := Payload {
  accounts : gmap account_key account;
  reservations : gmap string reservation;
  tombstones : gmap string tombstone
}.
Definition empty_payload : payload := Payload ∅ ∅ ∅.

Definition store := option payload.

(** [_load] and [_persist]. *)
Definition load (d : store) : payload := default empty_payload d.
Definition persist (p : payload) : store := Some p.

Definition with_accounts (a : gmap account_key account) (p : payload) : payload :=
  Payload a (reservations p) (tombstones p).
Definition put_reservation (k : string) (r : reservation) (p : payload) : payload :=
  Payload (accounts p) (<[k := r]> (reservations p)) (tombstones p).

Definition set_status (s : status) (now : Z) (l : lifecycle) (r : reservation) : reservation :=
  Reservation (fingerprint_hash r) (policy_digest r) (contract_digest r) (fact_digest r) (amounts r)
    (scope_keys r) (ceilings r) s (created_at r) now (expires_at r) (Some l).
Definition set_lifecycle (l : lifecycle) (r : reservation) : reservation :=
  Reservation (fingerprint_hash r) (policy_digest r) (contract_digest r) (fact_digest r) (amounts r)
    (scope_keys r) (ceilings r) (res_status r) (created_at r) (updated_at r) (expires_at r) (Some l).

(** ** Accounts *)

Definition account_at (p : payload) (k : account_key) : account := default no_account (accounts p !! k).
Definition used (p : payload) (k : account_key) : Z := spent (account_at p k) + reserved (account_at p k).

(** The keys an amount map touches, with the amounts, facts in the given order. *)
Definition postings (keys : per_scope string) (l : list (string * Z)) : list (account_key * Z) :=
  concat (map (fun fa => (fun s => ((fa.1, s, at_scope keys s), fa.2)) <$> SCOPES) l).
Definition post (f : Z -> account -> account) (ks : list (account_key * Z))
    (a : gmap account_key account) : gmap account_key account :=
  foldl (fun a ka => <[ka.1 := f ka.2 (default no_account (a !! ka.1))]> a) a ks.

Definition hold_amount (n : Z) (a : account) : account :=
  Account (spent a) (reserved a + n) (archived_spent a).
Definition release_amount (n : Z) (a : account) : account :=
  Account (spent a) (reserved a - n) (archived_spent a).
Definition commit_amount (n : Z) (a : account) : account :=
  Account (spent a + n) (reserved a - n) (archived_spent a).
Definition charge_amount (n : Z) (a : account) : account :=
  Account (spent a + n) (reserved a - n) (archived_spent a + n).
Definition archive_amount (n : Z) (a : account) : account :=
  Account (spent a) (reserved a) (archived_spent a + n).

Definition postings_of (r : reservation) : list (account_key * Z) :=
  postings (scope_keys r) (items (amounts r)).
Definition post_reservation (f : Z -> account -> account) (r : reservation) (p : payload) : payload :=
  with_accounts (post f (postings_of r) (accounts p)) p.

(** [_remaining]: what a fact has left at a scope. *)
Definition remaining_at (p : payload) (ceilings : gmap string (per_scope Z)) (keys : per_scope string)
    (fact : string) (s : scope) : Z :=
  match ceilings !! fact with
  | Some c => Z.max 0 (at_scope c s - used p (fact, s, at_scope keys s))
  | None => 0
  end.
Definition remaining_map (p : payload) (ceilings : gmap string (per_scope Z)) (keys : per_scope string)
    : gmap string (per_scope Z) :=
  map_imap (fun fact _ => Some (PerScope (remaining_at p ceilings keys fact Session)
                                         (remaining_at p ceilings keys fact Agent)
                                         (remaining_at p ceilings keys fact Lineage))) ceilings.

(** ** Validation *)

Definition risk_int (z : Z) : bool := (0 <=? z) && (z <=? MAX_RISK_VALUE).
Definition hash_len (s : string) : bool := (py_len s =? 64)%nat.
(** The digest of a tombstone: [sha256:] and 64 lower-case hexadecimal digits
    as [bytes.fromhex] reads them. *)
Definition fact_digest_ok (s : string) : bool :=
  let rest := substring 7 (String.length s) s in
  String.prefix "sha256:" s && (py_len s =? 71)%nat && String.eqb rest (py_lower rest)
  && bool_decide (is_Some (Merkle.from_hex rest)).

Definition lifecycle_ok (l : lifecycle) : bool :=
  hash_len (lc_id l) &&
  match lc_state l with
  | Pending => true
  | Delivered receipt_id => is_ok (require_string (PStr receipt_id) 256)
  end.

Definition tombstone_ok (kt : string * tombstone) : bool :=
  hash_len kt.1 && hash_len (t_fingerprint_hash kt.2) && fact_digest_ok (t_fact_digest kt.2)
  && hash_len (t_session_hash kt.2) && hash_len (t_lineage_hash kt.2)
  && risk_int (replay_until kt.2) && lifecycle_ok (t_lifecycle kt.2).

Definition reservation_ok (kr : string * reservation) : bool :=
  let r := kr.2 in
  hash_len kr.1 && risk_int (expires_at r)
  && bool_decide (dom (ceilings r) = dom (amounts r))
  && forallb (fun fc => forallb (fun s => risk_int (at_scope fc.2 s)) SCOPES) (items (ceilings r))
  && match res_status r, res_lifecycle r with
     | Active, None => true
     | Active, Some _ => false
     | _, Some l => lifecycle_ok l
     | _, None => false
     end
  && forallb (fun fa => numeric fa.1 && risk_int fa.2
                        && forallb (fun s => hash_len (at_scope (scope_keys r) s)) SCOPES)
       (items (amounts r)).

(** What a reservation has in an account. *)
Definition share (k : account_key) (r : reservation) : Z :=
  let '(fact, s, h) := k in
  if String.eqb (at_scope (scope_keys r) s) h then default 0 (amounts r !! fact) else 0.
Definition holds (r : reservation) : bool :=
  bool_decide (res_status r = Active \/ res_status r = Quarantined).
Definition held_share (k : account_key) (r : reservation) : Z := if holds r then share k r else 0.
Definition spent_share (k : account_key) (r : reservation) : Z :=
  if bool_decide (res_status r = Committed) then share k r else 0.
Definition expected_reserved (p : payload) (k : account_key) : Z :=
  total_of (held_share k) (reservations p).
Definition retained_spent (p : payload) (k : account_key) : Z :=
  total_of (spent_share k) (reservations p).

Definition account_ok (p : payload) (ka : account_key * account) : bool :=
  risk_int (spent ka.2) && risk_int (reserved ka.2) && risk_int (archived_spent ka.2)
  && (reserved ka.2 =? expected_reserved p ka.1)
  && (spent ka.2 =? archived_spent ka.2 + retained_spent p ka.1).

(** The accounts the reservations that hold or have spent refer to. *)
Definition referenced (r : reservation) : list account_key :=
  if bool_decide (res_status r = Released) then [] else (postings_of r).*1.

(** [_validate]. *)
Definition validate (p : payload) : res risk_exc unit :=
  raise_if (MAX_RESERVATIONS <? base.size (reservations p))%nat with risk_invalid ;;
  raise_if (MAX_RESERVATIONS <? base.size (tombstones p))%nat with risk_invalid ;;
  raise_if negb (forallb tombstone_ok (items (tombstones p))) with risk_invalid ;;
  raise_if negb (forallb reservation_ok (items (reservations p))) with risk_invalid ;;
  raise_if negb (forallb (account_ok p) (map_to_list (accounts p))) with risk_invalid ;;
  raise_if negb (forallb (fun kr => forallb (fun k => bool_decide (is_Some (accounts p !! k)))
                                      (referenced kr.2)) (items (reservations p))) with risk_invalid ;;
  Ok tt.

Section Operations.
Context `{Digests}.

(** [_request_hash]. *)
Definition request_hash (lineage_id request_id : string) : string :=
  sha256_hex (sha256_hex lineage_id ++ ":" ++ request_id).
Definition outcome_id (rid outcome : string) : string :=
  sha256_hex ("outcome:" ++ rid ++ ":" ++ outcome).
Definition scope_hashes (session_id agent_id lineage_id : string) : per_scope string :=
  PerScope (sha256_hex session_id) (sha256_hex agent_id) (sha256_hex lineage_id).

(** A stripped identifier of at most [n] bytes. *)
Definition identifier (s : string) (n : Z) : res risk_exc string := require_string (PStr s) n.

(** ** Pruning: [_prune_payload] *)

Definition delivered (l : lifecycle) : bool :=
  match lc_state l with Delivered _ => true | Pending => false end.
Definition tombstone_over (now : Z) (t : tombstone) : bool :=
  (replay_until t * TICKS <=? now) && delivered (t_lifecycle t).
Definition prune_tombstones (now : Z) (m : gmap string tombstone) : gmap string tombstone :=
  filter (fun kt => tombstone_over now kt.2 = false) m.

Record prune_state := PruneState { ps_payload : payload; ps_pruned : nat; ps_quarantined : nat }.

(** Quarantine of a reservation, its lifecycle pending. *)
Definition quarantined_at (now : Z) (rid : string) (r : reservation) : reservation :=
  set_status Quarantined now (Lifecycle (outcome_id rid "quarantined") Pending) r.

(** Replace a reservation by its tombstone. *)
Definition archive (now : Z) (rid : string) (r : reservation) (s : archived_status) (p : payload)
    : res risk_exc payload :=
  raise_if (MAX_RESERVATIONS <=? base.size (tombstones p))%nat with risk_invalid ;;
  match res_lifecycle r with
  | None => Raise risk_invalid
  | Some l =>
      let t := Tombstone (fingerprint_hash r) (fact_digest r) (session (scope_keys r))
                 (lineage (scope_keys r)) s
                 (Z.max (expires_at r) (now / TICKS) + REPLAY_TOMBSTONE_RETENTION_S) l in
      Ok (Payload (accounts p) (delete rid (reservations p)) (<[rid := t]> (tombstones p)))
  end.

(** The body of the loop over the reservations. *)
Definition prune_one (now : Z) (kr : string * reservation) (ps : prune_state)
    : res risk_exc prune_state :=
  let '(rid, r) := kr in
  let p := ps_payload ps in
  let archived p := PruneState p (S (ps_pruned ps)) (ps_quarantined ps) in
  let undelivered := match res_lifecycle r with Some l => negb (delivered l) | None => false end in
  raise_if negb (risk_int (expires_at r)) with risk_invalid ;;
  if now <? expires_at r * TICKS then Ok ps
  else match res_status r with
  | Active =>
      Ok (PruneState (put_reservation rid (quarantined_at now rid r) p) (ps_pruned ps)
            (S (ps_quarantined ps)))
  | Quarantined =>
      if now <? updated_at r + QUARANTINE_RETENTION_S * TICKS then Ok ps
      else p ← archive now rid r AQuarantinedCommitted (post_reservation charge_amount r p);
           Ok (archived p)
  | Committed =>
      if undelivered then Ok ps
      else p ← archive now rid r ACommitted (post_reservation archive_amount r p); Ok (archived p)
  | Released =>
      if undelivered then Ok ps
      else p ← archive now rid r AReleased p; Ok (archived p)
  end.

Definition prune_payload (p : payload) (now : Z) : res risk_exc prune_state :=
  let kept := prune_tombstones now (tombstones p) in
  foldR (prune_one now) (items (reservations p))
    (PruneState (Payload (accounts p) (reservations p) kept)
       (base.size (tombstones p) - base.size kept) 0).
Definition pruned_any (ps : prune_state) : bool :=
  (0 <? ps_pruned ps)%nat || (0 <? ps_quarantined ps)%nat.

(** Load, validate, prune, and write back what pruning changed. *)
Definition open_pruned (d : store) (now : Z) : store * res risk_exc payload :=
  let p := load d in
  match _ ← validate p; ps ← prune_payload p now;
        if pruned_any ps then _ ← validate (ps_payload ps); Ok (ps_payload ps, true)
        else Ok (p, false)
  with
  | Raise e => (d, Raise e)
  | Ok (p', true) => (persist p', Ok p')
  | Ok (_, false) => (d, Ok p)
  end.

(** ** [reserve] *)

Record reserve_call := ReserveCall {
  rc_lineage_id : string;
  rc_session_id : string;
  rc_agent_id : string;
  rc_request_id : string;
  rc_fingerprint : string;
  rc_facts : list (string * Z);
  rc_ceilings : gmap string (per_scope Z);
  rc_policy_digest : string;
  rc_contract_digest : string;
  rc_fact_digest : string;
  rc_expires_at : Z
}.

Record RiskReservationResult := ReservationResult {
  rr_accepted : bool;
  rr_request_hash : string;
  rr_remaining : gmap string (per_scope Z);
  rr_blocking : option (string * scope)
}.

Definition rc_hash (c : reserve_call) : string := request_hash (rc_lineage_id c) (rc_request_id c).
Definition rc_keys (c : reserve_call) : per_scope string :=
  scope_hashes (rc_session_id c) (rc_agent_id c) (rc_lineage_id c).
Definition rc_amounts (c : reserve_call) : gmap string Z := list_to_map (rc_facts c).

(** The checks before the lock. *)
Definition check_call (c : reserve_call) : res risk_exc unit :=
  _ ← iterR (fun s => _ ← identifier s 1024; Ok tt)
        [rc_lineage_id c; rc_session_id c; rc_agent_id c; rc_request_id c; rc_fingerprint c];
  raise_if negb (bool_decide (list_to_set (dkeys (rc_facts c)) = dom (rc_ceilings c)))
    with risk_invalid ;;
  iterR (fun fa => raise_if negb (risk_int fa.2) with risk_invalid ;; Ok tt) (rc_facts c).

(** A request identifier seen before. *)
Definition same_request (c : reserve_call) (r : reservation) : bool :=
  bool_decide (fingerprint_hash r = sha256_hex (rc_fingerprint c) /\
    policy_digest r = rc_policy_digest c /\ contract_digest r = rc_contract_digest c /\
    fact_digest r = rc_fact_digest c /\ amounts r = rc_amounts c /\ scope_keys r = rc_keys c).
Definition check_replay (c : reserve_call) (p : payload) : res risk_exc unit :=
  match tombstones p !! rc_hash c with
  | Some t => if String.eqb (t_fingerprint_hash t) (sha256_hex (rc_fingerprint c))
              then Raise RiskBudgetReplayError else Raise RiskBudgetConflictError
  | None =>
      match reservations p !! rc_hash c with
      | Some r => if same_request c r then Raise RiskBudgetReplayError
                  else Raise RiskBudgetConflictError
      | None => Ok tt
      end
  end.

(** The first fact and scope without room. *)
Definition blocking (c : reserve_call) (p : payload) : option (string * scope) :=
  head (concat (map (fun fa =>
    (fun s => (fa.1, s)) <$>
      filter (fun s => remaining_at p (rc_ceilings c) (rc_keys c) fa.1 s < fa.2) SCOPES) (rc_facts c))).

Definition new_reservation (c : reserve_call) (now : Z) : reservation :=
  Reservation (sha256_hex (rc_fingerprint c)) (rc_policy_digest c) (rc_contract_digest c)
    (rc_fact_digest c) (rc_amounts c) (rc_keys c) (rc_ceilings c) Active now now
    (rc_expires_at c) None.

(** The reservation itself; [None] where nothing is written. *)
Definition reserve_locked (c : reserve_call) (now : Z) (p : payload)
    : res risk_exc (option payload * RiskReservationResult) :=
  _ ← check_replay c p;
  raise_if (MAX_RESERVATIONS <=? base.size (reservations p))%nat with risk_invalid ;;
  match blocking c p with
  | Some b =>
      Ok (None, ReservationResult false (rc_hash c)
                  (remaining_map p (rc_ceilings c) (rc_keys c)) (Some b))
  | None =>
      let held := with_accounts (post hold_amount (postings (rc_keys c) (rc_facts c)) (accounts p)) p in
      raise_if negb (risk_int (rc_expires_at c)) with risk_invalid ;;
      let p' := put_reservation (rc_hash c) (new_reservation c now) held in
      _ ← validate p';
      Ok (Some p', ReservationResult true (rc_hash c)
                     (remaining_map p' (rc_ceilings c) (rc_keys c)) None)
  end.

(** Run an operation on a loaded payload and write what it returns. *)
Definition commit {A} (d : store) (m : res risk_exc (option payload * A)) : store * res risk_exc A :=
  match m with
  | Ok (Some p, a) => (persist p, Ok a)
  | Ok (None, a) => (d, Ok a)
  | Raise e => (d, Raise e)
  end.

Definition reserve (d : store) (c : reserve_call) (now : Z) : store * res risk_exc RiskReservationResult :=
  match check_call c with
  | Raise e => (d, Raise e)
  | Ok _ =>
      let '(d, m) := open_pruned d now in
      commit d (p ← m; reserve_locked c now p)
  end.

(** ** [record_outcome] *)

Inductive outcome := Commit | Release.
#[global] Instance outcome_eq_dec : EqDecision outcome.
Proof. solve_decision. Defined.
Definition outcome_status (o : outcome) : status := match o with Commit => Committed | Release => Released end.
Definition outcome_name (o : outcome) : string :=
  match o with Commit => "committed" | Release => "released" end.

Record RiskOutcomeResult := OutcomeResult {
  ro_request_hash : string;
  ro_status : status;
  ro_remaining : gmap string (per_scope Z);
  ro_fact_digest : string;
  ro_lifecycle : lifecycle;
  ro_idempotent : bool
}.

Definition result_of (p : payload) (rid : string) (r : reservation) (l : lifecycle) (idempotent : bool)
    : RiskOutcomeResult :=
  OutcomeResult rid (res_status r) (remaining_map p (ceilings r) (scope_keys r)) (fact_digest r) l
    idempotent.

Definition outcome_locked (rid session_hash lineage_hash : string) (o : outcome) (now : Z) (p : payload)
    : res risk_exc (option payload * RiskOutcomeResult) :=
  match reservations p !! rid with
  | None => Raise risk_invalid
  | Some r =>
      raise_if negb (String.eqb (session (scope_keys r)) session_hash) with RiskBudgetConflictError ;;
      raise_if negb (String.eqb (lineage (scope_keys r)) lineage_hash) with RiskBudgetConflictError ;;
      if bool_decide (res_status r = outcome_status o) then
        match res_lifecycle r with
        | Some l => Ok (None, result_of p rid r l true)
        | None => Raise TypeError
        end
      else
        raise_if bool_decide (res_status r = Quarantined /\ o = Release)
          with RiskBudgetConflictError ;;
        raise_if bool_decide (res_status r = Quarantined)
                 && negb (match res_lifecycle r with Some l => delivered l | None => false end)
          with risk_invalid ;;
        raise_if negb (holds r) with RiskBudgetConflictError ;;
        let settle := match o with Commit => commit_amount | Release => release_amount end in
        let l := Lifecycle (outcome_id rid (outcome_name o)) Pending in
        let r' := set_status (outcome_status o) now l r in
        let p' := put_reservation rid r' (post_reservation settle r p) in
        _ ← validate p';
        Ok (Some p', result_of p' rid r' l false)
  end.

Definition record_outcome (d : store) (lineage_id session_id request_id : string) (o : outcome) (now : Z)
    : store * res risk_exc RiskOutcomeResult :=
  commit d (
    request_id ← identifier request_id 1024;
    session_id ← identifier session_id 1024;
    lineage ← identifier lineage_id 1024;
    let p := load d in
    _ ← validate p;
    outcome_locked (request_hash lineage_id request_id) (sha256_hex session_id) (sha256_hex lineage)
      o now p).

(** ** [mark_lifecycle_delivered] *)

(** The acknowledgement of a lifecycle; [None] for a repeat. *)
Definition deliver (l : option lifecycle) (lifecycle_id receipt_id : string)
    : res risk_exc (option lifecycle) :=
  match l with
  | None => Raise RiskBudgetConflictError
  | Some l =>
      raise_if negb (String.eqb (lc_id l) lifecycle_id) with RiskBudgetConflictError ;;
      match lc_state l with
      | Delivered r => raise_if negb (String.eqb r receipt_id) with RiskBudgetConflictError ;; Ok None
      | Pending => Ok (Some (Lifecycle (lc_id l) (Delivered receipt_id)))
      end
  end.
Definition owned (session lineage session_hash lineage_hash : string) : res risk_exc unit :=
  raise_if negb (String.eqb session session_hash) with RiskBudgetConflictError ;;
  raise_if negb (String.eqb lineage lineage_hash) with RiskBudgetConflictError ;;
  Ok tt.
Definition set_tombstone_lifecycle (l : lifecycle) (t : tombstone) : tombstone :=
  Tombstone (t_fingerprint_hash t) (t_fact_digest t) (t_session_hash t) (t_lineage_hash t)
    (t_status t) (replay_until t) l.

Definition deliver_locked (rid session_hash lineage_hash lifecycle_id receipt_id : string) (p : payload)
    : res risk_exc (option payload * unit) :=
  match reservations p !! rid, tombstones p !! rid with
  | Some r, _ =>
      _ ← owned (session (scope_keys r)) (lineage (scope_keys r)) session_hash lineage_hash;
      l ← deliver (res_lifecycle r) lifecycle_id receipt_id;
      match l with
      | None => Ok (None, tt)
      | Some l => let p' := put_reservation rid (set_lifecycle l r) p in
                  _ ← validate p'; Ok (Some p', tt)
      end
  | None, Some t =>
      _ ← owned (t_session_hash t) (t_lineage_hash t) session_hash lineage_hash;
      l ← deliver (Some (t_lifecycle t)) lifecycle_id receipt_id;
      match l with
      | None => Ok (None, tt)
      | Some l =>
          let p' := Payload (accounts p) (reservations p)
                      (<[rid := set_tombstone_lifecycle l t]> (tombstones p)) in
          _ ← validate p'; Ok (Some p', tt)
      end
  | None, None => Raise risk_invalid
  end.

Definition mark_lifecycle_delivered (d : store)
    (lineage_id session_id rid lifecycle_id receipt_id : string) : store * res risk_exc unit :=
  commit d (
    session_id ← identifier session_id 1024;
    lineage ← identifier lineage_id 1024;
    _ ← identifier lifecycle_id 128;
    _ ← identifier receipt_id 1024;
    let p := load d in
    _ ← validate p;
    deliver_locked rid (sha256_hex session_id) (sha256_hex lineage) lifecycle_id receipt_id p).

(** ** [quarantine_stale] *)

Definition owns (session_hash lineage_hash : string) (r : reservation) : bool :=
  String.eqb (session (scope_keys r)) session_hash && String.eqb (lineage (scope_keys r)) lineage_hash.
Definition t_owns (session_hash lineage_hash : string) (t : tombstone) : bool :=
  String.eqb (t_session_hash t) session_hash && String.eqb (t_lineage_hash t) lineage_hash.

Definition stale (session_hash lineage_hash : string) (stale_before : Z) (r : reservation) : bool :=
  bool_decide (res_status r = Active) && owns session_hash lineage_hash r
  && (created_at r <=? stale_before).
Definition pending (l : option lifecycle) : option lifecycle :=
  match l with
  | Some l => if delivered l then None else Some l
  | None => None
  end.

Definition quarantine_locked (session_hash lineage_hash : string) (stale_before now : Z) (p : payload)
    : res risk_exc (option payload * list RiskOutcomeResult) :=
  let marked := map_imap (fun rid r =>
    Some (if stale session_hash lineage_hash stale_before r then quarantined_at now rid r else r))
    (reservations p) in
  let p' := Payload (accounts p) marked (tombstones p) in
  let results := omap (fun kr : string * reservation =>
    let '(rid, r) := kr in
    if bool_decide (res_status r = Quarantined) && owns session_hash lineage_hash r
    then (fun l => result_of p' rid r l
                     (negb (match reservations p !! rid with
                            | Some r0 => stale session_hash lineage_hash stale_before r0
                            | None => false
                            end)))
           <$> pending (res_lifecycle r)
    else None) (items marked) in
  let archived := omap (fun kt : string * tombstone =>
    let '(rid, t) := kt in
    match t_status t, pending (Some (t_lifecycle t)) with
    | AQuarantinedCommitted, Some l =>
        if t_owns session_hash lineage_hash t
        then Some (OutcomeResult rid Quarantined ∅ (t_fact_digest t) l true) else None
    | _, _ => None
    end) (items (tombstones p)) in
  let all := (results ++ archived)%list in
  match all with
  | [] => Ok (None, [])
  | _ => _ ← validate p'; Ok (Some p', all)
  end.

Definition quarantine_stale (d : store) (lineage_id session_id : string) (stale_before now : Z)
    : store * res risk_exc (list RiskOutcomeResult) :=
  commit d (
    session_id ← identifier session_id 1024;
    lineage ← identifier lineage_id 1024;
    let p := load d in
    _ ← validate p;
    quarantine_locked (sha256_hex session_id) (sha256_hex lineage) stale_before now p).

(** ** Queries and pruning *)

(** [unresolved_for_session]. *)
Definition unresolved_for_session (d : store) (lineage_id session_id : string)
    : res risk_exc (list string) :=
  let p := load d in
  let own := owns (sha256_hex session_id) (sha256_hex lineage_id) in
  let t_own := t_owns (sha256_hex session_id) (sha256_hex lineage_id) in
  _ ← validate p;
  Ok (((filter (fun kr => (holds kr.2 && own kr.2) = true) (items (reservations p))).*1
      ++ (filter (fun kt => match t_status kt.2 with
                            | AQuarantinedCommitted => t_own kt.2 && negb (delivered (t_lifecycle kt.2))
                            | _ => false
                            end = true) (items (tombstones p))).*1)%list).

(** [pending_lifecycles_for_session]. *)
Definition pending_lifecycles_for_session (d : store) (lineage_id session_id : string)
    : res risk_exc (list RiskOutcomeResult) :=
  session_id ← identifier session_id 1024;
  lineage ← identifier lineage_id 1024;
  let p := load d in
  let own := owns (sha256_hex session_id) (sha256_hex lineage) in
  let t_own := t_owns (sha256_hex session_id) (sha256_hex lineage) in
  let status_of s := match s with
    | ACommitted => Committed | AReleased => Released | AQuarantinedCommitted => Quarantined end in
  _ ← validate p;
  Ok ((omap (fun kr : string * reservation =>
         if own kr.2 then (fun l => result_of p kr.1 kr.2 l true) <$> pending (res_lifecycle kr.2)
         else None) (items (reservations p))
      ++ omap (fun kt : string * tombstone =>
           if t_own kt.2
           then (fun l => OutcomeResult kt.1 (status_of (t_status kt.2)) ∅ (t_fact_digest kt.2) l true)
                  <$> pending (Some (t_lifecycle kt.2))
           else None) (items (tombstones p)))%list).

(** [remaining]. *)
Definition remaining (d : store) (lineage_id session_id agent_id : string)
    (ceilings : gmap string (per_scope Z)) : res risk_exc (gmap string (per_scope Z)) :=
  _ ← validate (load d);
  Ok (remaining_map (load d) ceilings (scope_hashes session_id agent_id lineage_id)).

(** [snapshot]. *)
Definition snapshot (d : store) : res risk_exc payload := _ ← validate (load d); Ok (load d).

(** [prune_expired]. *)
Definition prune_expired (d : store) (now : Z) : store * res risk_exc (nat * nat) :=
  commit d (
    let p := load d in
    _ ← validate p;
    ps ← prune_payload p now;
    if pruned_any ps then
      _ ← validate (ps_payload ps);
      Ok (Some (ps_payload ps), (ps_pruned ps, ps_quarantined ps))
    else Ok (None, (ps_pruned ps, ps_quarantined ps))).

End Operations.

End RiskLedger.
