(* ===== verification/RiskInv.v ===== *)
(** * Risk ledger: the invariant and what each change of the file does to it

    The accounts are what the reservations add up to; every reservation and
    tombstone is well formed; nothing is used beyond a bound the calls'
    ceilings respect.  A file with the invariant passes the ledger's own
    validation, and every operation preserves it. *)

From S2P Require Import Prelude CanonicalJson Merkle RiskPolicy RiskLedger.
Import RiskPolicy RiskLedger.
Open Scope string_scope.
Open Scope Z_scope.

(** ** Postings *)

Definition share_of (keys : per_scope string) (m : gmap string Z) (k : account_key) : Z :=
  let '(fact, s, h) := k in
  if String.eqb (at_scope keys s) h then default 0 (m !! fact) else 0.

Lemma share_share_of k r : share k r = share_of (scope_keys r) (amounts r) k.
Proof. by destruct k as [[f s] h]. Qed.

Section Post.
Variable F : Z -> account -> account.
Hypothesis F_zero : forall a, F 0 a = a.

Definition at_key (a : gmap account_key account) (k : account_key) : account := default no_account (a !! k).

(** One fact is posted once at each scope. *)
Lemma post_fact keys f n a k :
  at_key (post F ((fun s => ((f, s, at_scope keys s), n)) <$> SCOPES) a) k
  = F (share_of keys {[f := n]} k) (at_key a k).
Proof.
  destruct k as [[g s] h]. cbn [share_of]. unfold at_key. cbn [post foldl SCOPES fmap list_fmap fst snd].
  destruct (String.eqb_spec (at_scope keys s) h) as [<-|Hh].
  - destruct (decide (g = f)) as [->|Hg].
    + rewrite lookup_singleton_eq. cbn [default id].
      destruct s; repeat first [rewrite lookup_insert_eq | rewrite lookup_insert_ne by congruence]; done.
    + rewrite lookup_singleton_ne by congruence. cbn [default id].
      rewrite !lookup_insert_ne by congruence. by rewrite F_zero.
  - rewrite F_zero, !lookup_insert_ne; [done|..]; intros [= <- <- E]; cbn in Hh; congruence.
Qed.

Lemma post_app ks ks' a : post F (ks ++ ks') a = post F ks' (post F ks a).
Proof. apply foldl_app. Qed.

Lemma post_spec keys l a k : NoDup l.*1 ->
  at_key (post F (postings keys l) a) k = F (share_of keys (list_to_map l) k) (at_key a k).
Proof.
  revert a. induction l as [|[f n] l IH]; intros a Hn.
  { destruct k as [[g s] h]. cbn. rewrite lookup_empty. cbn. by destruct (String.eqb _ _); rewrite F_zero. }
  apply NoDup_cons in Hn as [Hf Hn]. cbn [postings map concat fst snd] in *.
  change (concat (map _ l)) with (postings keys l). rewrite post_app, IH, post_fact by done.
  rewrite list_to_map_cons. destruct k as [[g s] h]. cbn [share_of].
  destruct (String.eqb (at_scope keys s) h); [|by rewrite !F_zero].
  destruct (decide (g = f)) as [->|Hg].
  - rewrite lookup_singleton_eq, lookup_insert_eq, not_elem_of_list_to_map_1 by done.
    cbn. by rewrite F_zero.
  - assert (Hfg : f <> g) by congruence.
    rewrite (lookup_singleton_ne f g), (lookup_insert_ne _ f g) by done. cbn. by rewrite F_zero.
Qed.

Lemma post_known ks a k : is_Some (post F ks a !! k) <-> k ∈ ks.*1 \/ is_Some (a !! k).
Proof.
  clear F_zero. revert a. induction ks as [|[j n] ks IH]; intros a; [cbn; set_solver|].
  change (post F ((j, n) :: ks) a) with (post F ks (<[j := F n (default no_account (a !! j))]> a)).
  rewrite IH. cbn [fmap list_fmap fst]. rewrite elem_of_cons. destruct (decide (j = k)) as [->|Hne].
  - rewrite lookup_insert_eq. naive_solver.
  - rewrite lookup_insert_ne by done. naive_solver.
Qed.
End Post.

Lemma hold_zero a : hold_amount 0 a = a.
Proof. destruct a. unfold hold_amount. cbn. f_equal; lia. Qed.
Lemma release_zero a : release_amount 0 a = a.
Proof. destruct a. unfold release_amount. cbn. f_equal; lia. Qed.
Lemma commit_zero a : commit_amount 0 a = a.
Proof. destruct a. unfold commit_amount. cbn. f_equal; lia. Qed.
Lemma charge_zero a : charge_amount 0 a = a.
Proof. destruct a. unfold charge_amount. cbn. f_equal; lia. Qed.
Lemma archive_zero a : archive_amount 0 a = a.
Proof. destruct a. unfold archive_amount. cbn. f_equal; lia. Qed.

Lemma post_reservation_at F r p k : (forall a, F 0 a = a) ->
  account_at (post_reservation F r p) k = F (share k r) (account_at p k).
Proof.
  intros HF. rewrite share_share_of. unfold account_at, post_reservation, postings_of.
  cbn [accounts with_accounts]. pose proof (post_spec F HF (scope_keys r) (items (amounts r)) (accounts p) k
    (items_NoDup _)) as Hp. by rewrite items_map in Hp.
Qed.

(** ** The invariant *)

(** A reservation as the ledger writes it: valid, and fit for its tombstone. *)
Record rec_wf (rid : string) (r : reservation) : Prop := {
  rw_ok : reservation_ok (rid, r) = true;
  rw_fingerprint : hash_len (fingerprint_hash r) = true;
  rw_digest : fact_digest_ok (fact_digest r) = true;
  rw_keys : forall s, hash_len (at_scope (scope_keys r) s) = true
}.

Record inv (B : account_key -> Z) (p : payload) : Prop := {
  iv_reserved : forall k, reserved (account_at p k) = expected_reserved p k;
  iv_spent : forall k, spent (account_at p k) = archived_spent (account_at p k) + retained_spent p k;
  iv_archived : forall k, 0 <= archived_spent (account_at p k);
  iv_bound : forall k, used p k <= B k;
  iv_recs : forall rid r, reservations p !! rid = Some r -> rec_wf rid r;
  iv_known : forall rid r k, reservations p !! rid = Some r -> k ∈ (postings_of r).*1 ->
    is_Some (accounts p !! k);
  iv_tombs : forall rid t, tombstones p !! rid = Some t -> tombstone_ok (rid, t) = true;
  iv_res_size : (base.size (reservations p) <= MAX_RESERVATIONS)%nat;
  iv_tomb_size : (base.size (tombstones p) <= MAX_RESERVATIONS)%nat
}.

Lemma amounts_nonneg rid r f n : reservation_ok (rid, r) = true -> amounts r !! f = Some n ->
  numeric f = true /\ 0 <= n <= MAX_RISK_VALUE.
Proof.
  unfold reservation_ok. intros Ho Hf. apply andb_prop in Ho as [_ Ho]. rewrite forallb_forall in Ho.
  specialize (Ho (f, n)). rewrite <- list_elem_of_In in Ho. apply elem_of_items in Hf.
  specialize (Ho Hf). cbn [fst snd] in Ho. apply andb_prop in Ho as [[Hn Hi]%andb_prop _].
  split; [done|]. unfold risk_int in Hi. lia.
Qed.

Lemma share_nonneg rid r k : reservation_ok (rid, r) = true -> 0 <= share k r.
Proof.
  intros Ho. destruct k as [[f s] h]. cbn. destruct (String.eqb _ _); [|done].
  destruct (amounts r !! f) as [n|] eqn:E; cbn; [|done]. by destruct (amounts_nonneg rid r f n Ho E) as [_ [? _]].
Qed.

Lemma held_nonneg rid r k : reservation_ok (rid, r) = true -> 0 <= held_share k r.
Proof. intros Ho. unfold held_share. destruct (holds r); [by eapply share_nonneg|done]. Qed.
Lemma spent_nonneg rid r k : reservation_ok (rid, r) = true -> 0 <= spent_share k r.
Proof. intros Ho. unfold spent_share. case_bool_decide; [by eapply share_nonneg|done]. Qed.

Section Valid.
Variable B : account_key -> Z.
Hypothesis B_range : forall k, 0 <= B k <= MAX_RISK_VALUE.

Lemma expected_nonneg p k : inv B p -> 0 <= expected_reserved p k.
Proof.
  intros Hi. apply total_of_nonneg. intros rid r Hr. eapply held_nonneg, rw_ok. by eapply iv_recs.
Qed.
Lemma retained_nonneg p k : inv B p -> 0 <= retained_spent p k.
Proof.
  intros Hi. apply total_of_nonneg. intros rid r Hr. eapply spent_nonneg, rw_ok. by eapply iv_recs.
Qed.

Lemma forallb_items {V} (f : string * V -> bool) (m : gmap string V) :
  forallb f (items m) = true <-> forall k v, m !! k = Some v -> f (k, v) = true.
Proof.
  rewrite forallb_forall. setoid_rewrite <- list_elem_of_In. split.
  - intros Hf k v Hk. apply Hf. by apply elem_of_items.
  - intros Hf [k v] Hk. apply Hf. by apply elem_of_items.
Qed.

(** The ledger accepts what has the invariant. *)
Lemma risk_inv_validates p : inv B p -> validate p = Ok tt.
Proof.
  intros Hi. unfold validate. rewrite !guard_ok. repeat apply conj; try done.
  - apply Nat.ltb_ge, (iv_res_size _ _ Hi).
  - apply Nat.ltb_ge, (iv_tomb_size _ _ Hi).
  - rewrite negb_false_iff, forallb_items. apply (iv_tombs _ _ Hi).
  - rewrite negb_false_iff, forallb_items. intros rid r Hr. apply rw_ok. by eapply iv_recs.
  - rewrite negb_false_iff, forallb_forall. intros [k a] Hk.
    apply list_elem_of_In, elem_of_map_to_list in Hk.
    assert (Ea : account_at p k = a) by (unfold account_at; by rewrite Hk).
    pose proof (iv_reserved _ _ Hi k) as Hr. pose proof (iv_spent _ _ Hi k) as Hs.
    pose proof (iv_archived _ _ Hi k) as Ha. pose proof (iv_bound _ _ Hi k) as Hb.
    pose proof (expected_nonneg p k Hi). pose proof (retained_nonneg p k Hi).
    pose proof (B_range k). unfold used in Hb. rewrite Ea in *.
    unfold account_ok, risk_int. cbn [fst snd]. lia.
  - rewrite negb_false_iff, forallb_items. intros rid r Hr. cbn [snd]. rewrite forallb_forall.
    intros k Hk. apply bool_decide_eq_true. unfold referenced in Hk. case_bool_decide; [done|].
    eapply iv_known; [done|done|]. by apply list_elem_of_In.
Qed.
End Valid.

(** ** Changes of the file that preserve the invariant *)

(** Every reservation may be relabelled, as long as it holds and has spent the
    same. *)
Definition same_shares (rid : string) (r r' : reservation) : Prop :=
  rec_wf rid r' /\ (postings_of r').*1 = (postings_of r).*1 /\
  (forall k, held_share k r' = held_share k r) /\ (forall k, spent_share k r' = spent_share k r).

Lemma same_shares_refl rid r : rec_wf rid r -> same_shares rid r r.
Proof. intros Hw. by split_and!. Qed.

Lemma total_of_ext {A} (f : A -> Z) (m m' : gmap string A) :
  (forall k, option_Forall2 (fun x y => f x = f y) (m !! k) (m' !! k)) -> total_of f m = total_of f m'.
Proof.
  revert m'. induction m as [|k x m Hk IH] using map_ind; intros m' Hm.
  - assert (m' = ∅) as ->; [|done]. apply map_empty. intros k. specialize (Hm k).
    rewrite lookup_empty in Hm. by inversion Hm.
  - pose proof (Hm k) as Hx. rewrite lookup_insert_eq in Hx. inversion Hx as [x' y Hxy E1 E2|]. subst.
    rewrite total_of_insert, (total_of_delete f m' k y), Hxy by done. f_equal. apply IH. intros j.
    destruct (decide (j = k)) as [->|Hj]; [rewrite Hk, lookup_delete_eq; constructor|].
    specialize (Hm j). by rewrite lookup_insert_ne in Hm by done; rewrite lookup_delete_ne by done.
Qed.

Lemma dom_ext {A} (R : A -> A -> Prop) (m m' : gmap string A) :
  (forall k, option_Forall2 R (m !! k) (m' !! k)) -> dom m' = dom m.
Proof.
  intros Hm. apply set_eq. intros k. rewrite !elem_of_dom. specialize (Hm k).
  destruct Hm; split; intros [? ?]; try done; eauto.
Qed.

Lemma inv_relabel B p p' : inv B p -> accounts p' = accounts p -> tombstones p' = tombstones p ->
  (forall rid, option_Forall2 (same_shares rid) (reservations p !! rid) (reservations p' !! rid)) ->
  inv B p'.
Proof.
  intros Hi Ha Ht Hr.
  assert (Hat : forall k, account_at p' k = account_at p k) by (intros k; unfold account_at; by rewrite Ha).
  assert (Hfrom : forall rid r', reservations p' !! rid = Some r' ->
    exists r, reservations p !! rid = Some r /\ same_shares rid r r').
  { intros rid r' E. specialize (Hr rid). rewrite E in Hr. inversion Hr; eauto. }
  split.
  - intros k. rewrite Hat, (iv_reserved _ _ Hi). apply total_of_ext. intros rid. specialize (Hr rid).
    destruct Hr as [r r' (_ & _ & Hh & _)|]; by constructor.
  - intros k. rewrite Hat, (iv_spent _ _ Hi). f_equal. apply total_of_ext. intros rid. specialize (Hr rid).
    destruct Hr as [r r' (_ & _ & _ & Hh)|]; by constructor.
  - intros k. rewrite Hat. by apply (iv_archived _ _ Hi).
  - intros k. unfold used. rewrite Hat. by apply (iv_bound _ _ Hi).
  - intros rid r' E. by destruct (Hfrom rid r' E) as (r & _ & ? & _).
  - intros rid r' k E Hk. destruct (Hfrom rid r' E) as (r & Er & _ & Hp & _). rewrite Ha.
    rewrite Hp in Hk. by apply (iv_known _ _ Hi rid r).
  - rewrite Ht. apply (iv_tombs _ _ Hi).
  - rewrite <- (size_dom (reservations p')), (dom_ext (fun _ _ => True) (reservations p)), size_dom.
    + apply (iv_res_size _ _ Hi).
    + intros rid. specialize (Hr rid). destruct Hr; by constructor.
  - rewrite Ht. apply (iv_tomb_size _ _ Hi).
Qed.

(** Only tombstones change. *)
Lemma inv_tombstones B p m : inv B p -> (forall i t, m !! i = Some t -> tombstone_ok (i, t) = true) ->
  (base.size m <= MAX_RESERVATIONS)%nat -> inv B (Payload (accounts p) (reservations p) m).
Proof. intros [] Ht Hs. by split. Qed.

(** One reservation is replaced or removed, and its amounts move between the
    columns of the accounts it is posted to. *)
Definition weight (b : bool) : Z := if b then 1 else 0.
Definition holds_o (r : option reservation) : bool := from_option holds false r.
Definition spends (r : reservation) : bool := bool_decide (res_status r = Committed).
Definition spends_o (r : option reservation) : bool := from_option spends false r.

Record moves (F : Z -> account -> account) (r : reservation) (r' : option reservation) : Prop := {
  mv_zero : forall a, F 0 a = a;
  mv_reserved : forall n a, reserved (F n a) = reserved a + (weight (holds_o r') - weight (holds r)) * n;
  mv_spent : forall n a, spent (F n a) - archived_spent (F n a)
    = spent a - archived_spent a + (weight (spends_o r') - weight (spends r)) * n;
  mv_archived : forall n a, 0 <= n -> archived_spent a <= archived_spent (F n a);
  mv_used : forall n a, 0 <= n -> spent (F n a) + reserved (F n a) <= spent a + reserved a
}.

Lemma held_weight k r : held_share k r = weight (holds r) * share k r.
Proof. unfold held_share, weight. destruct (holds r); lia. Qed.
Lemma spent_weight k r : spent_share k r = weight (spends r) * share k r.
Proof. unfold spent_share, weight, spends. case_bool_decide; lia. Qed.

Lemma total_of_alter {A} (f : A -> Z) (m : gmap string A) k x o : m !! k = Some x ->
  total_of f (partial_alter (fun _ => o) k m) = total_of f m - f x + from_option f 0 o.
Proof.
  intros Hk. destruct o as [y|]; cbn.
  - pose proof (total_of_update f m k x y Hk) as E. change (partial_alter (fun _ => Some y) k m) with (<[k:=y]> m). lia.
  - pose proof (total_of_delete f m k x Hk) as E. change (partial_alter (fun _ => None) k m) with (delete k m). lia.
Qed.

Definition same_postings (r : reservation) (r' : option reservation) : Prop :=
  forall x, r' = Some x -> scope_keys x = scope_keys r /\ amounts x = amounts r.

Lemma moved_totals r r' k : same_postings r r' ->
  from_option (held_share k) 0 r' = weight (holds_o r') * share k r /\
  from_option (spent_share k) 0 r' = weight (spends_o r') * share k r.
Proof.
  intros Hs. destruct r' as [x|]; cbn [from_option holds_o spends_o]; [|done].
  destruct (Hs x eq_refl) as [Ek Ea]. rewrite held_weight, spent_weight, !share_share_of, Ek, Ea. done.
Qed.

Lemma inv_change B F p p' rid r r' : inv B p -> reservations p !! rid = Some r -> moves F r r' ->
  same_postings r r' -> (forall x, r' = Some x -> rec_wf rid x) ->
  (forall k, account_at p' k = F (share k r) (account_at p k)) ->
  (forall k, is_Some (accounts p !! k) -> is_Some (accounts p' !! k)) ->
  reservations p' = partial_alter (fun _ => r') rid (reservations p) ->
  (forall i t, tombstones p' !! i = Some t -> tombstone_ok (i, t) = true) ->
  (base.size (tombstones p') <= MAX_RESERVATIONS)%nat -> inv B p'.
Proof.
  intros Hi Hr [_ Hres Hsp Har Hus] Hp Hwf Hat Hkn Er Ht Hts.
  assert (Hw : rec_wf rid r) by by eapply iv_recs.
  assert (Hn : forall k, 0 <= share k r) by (intros k; by eapply share_nonneg, rw_ok).
  assert (Hl : forall j x, reservations p' !! j = Some x ->
    (j = rid /\ r' = Some x) \/ reservations p !! j = Some x).
  { intros j x. rewrite Er. destruct (decide (j = rid)) as [->|Hne].
    - rewrite lookup_partial_alter_eq. auto.
    - rewrite lookup_partial_alter_ne by done. auto. }
  split; [| | | | | |exact Ht| |exact Hts].
  - intros k. rewrite Hat, Hres, (iv_reserved _ _ Hi). unfold expected_reserved.
    rewrite Er, (total_of_alter _ _ _ r), held_weight by done. destruct (moved_totals r r' k Hp). lia.
  - intros k. specialize (Hsp (share k r) (account_at p k)). pose proof (iv_spent _ _ Hi k) as Es.
    rewrite Hat. unfold retained_spent in *. rewrite Er, (total_of_alter _ _ _ r), spent_weight by done.
    destruct (moved_totals r r' k Hp). lia.
  - intros k. rewrite Hat. etrans; [by apply (iv_archived _ _ Hi)|by apply Har].
  - intros k. unfold used. rewrite Hat. etrans; [by apply Hus|]. by apply (iv_bound _ _ Hi).
  - intros j x Hj. destruct (Hl j x Hj) as [[-> Ex]|Hx]; [by apply Hwf|by eapply iv_recs].
  - intros j x k Hj Hk. apply Hkn. destruct (Hl j x Hj) as [[-> Ex]|Hx].
    + destruct (Hp x Ex) as [Ek Ea]. unfold postings_of in Hk. rewrite Ek, Ea in Hk. by eapply iv_known.
    + by eapply iv_known.
  - etrans; [|by apply (iv_res_size _ _ Hi)]. rewrite Er, <- !size_dom. apply subseteq_size. intros j.
    rewrite !elem_of_dom. intros [x Hj]. rewrite <- Er in Hj.
    destruct (Hl j x Hj) as [[-> _]|Hx]; eauto.
Qed.

(** ** The operations preserve the invariant *)

Lemma hex_py_len s : str_all is_lower_hex s = true -> py_len s = String.length s.
Proof.
  induction s as [|a s IH]; [done|]. cbn [str_all py_len String.length].
  intros [Ha Hs]%andb_prop. rewrite IH by done.
  by destruct a as [[] [] [] [] [] [] [] []].
Qed.

Lemma digest_hash_len s : digest_match s = true -> hash_len s = true.
Proof. intros [Hl Hs]%andb_prop. unfold hash_len. by rewrite hex_py_len. Qed.

Lemma rec_lifecycle rid r l : rec_wf rid r -> res_lifecycle r = Some l -> lifecycle_ok l = true.
Proof.
  intros [Ho _ _ _]. unfold reservation_ok in Ho. cbn [fst snd] in Ho. intros E. rewrite E in Ho.
  apply andb_prop in Ho as [[_ Ho]%andb_prop _]. by destruct (res_status r).
Qed.

Lemma rec_settled rid r : rec_wf rid r -> res_status r <> Active -> is_Some (res_lifecycle r).
Proof.
  intros [Ho _ _ _] Hs. unfold reservation_ok in Ho. cbn [fst snd] in Ho.
  apply andb_prop in Ho as [[_ Ho]%andb_prop _]. destruct (res_status r), (res_lifecycle r); eauto; done.
Qed.

Lemma rec_facts rid r : rec_wf rid r -> hash_len rid = true /\ 0 <= expires_at r <= MAX_RISK_VALUE.
Proof.
  intros [Ho _ _ _]. unfold reservation_ok, risk_int in Ho. cbn [fst snd] in Ho. lia.
Qed.

(** A record whose status and lifecycle are set anew. *)
Lemma rec_relabel rid r r' l : rec_wf rid r -> lifecycle_ok l = true -> res_status r' <> Active ->
  res_lifecycle r' = Some l -> fingerprint_hash r' = fingerprint_hash r ->
  fact_digest r' = fact_digest r -> amounts r' = amounts r -> scope_keys r' = scope_keys r ->
  ceilings r' = ceilings r -> expires_at r' = expires_at r -> rec_wf rid r'.
Proof.
  intros [Ho Hf Hd Hk] Hl Hs El Ef Ed Ea Ek Ec Ee. split; [|congruence|congruence|by rewrite Ek].
  unfold reservation_ok in *. cbn [fst snd] in *. rewrite Ea, Ek, Ec, Ee, El.
  repeat rewrite andb_true_iff in Ho. destruct Ho as [[[[[-> ->] ->] ->] _] ->].
  destruct (res_status r'); try done; by rewrite Hl.
Qed.

Lemma post_reservation_known F r p k : is_Some (accounts p !! k) ->
  is_Some (accounts (post_reservation F r p) !! k).
Proof. intros Hk. unfold post_reservation. cbn [accounts with_accounts]. rewrite post_known. by right. Qed.

Section Preserve.
Context `{Digests}.
Variable B : account_key -> Z.

Lemma outcome_lifecycle_ok rid o : lifecycle_ok (Lifecycle (outcome_id rid o) Pending) = true.
Proof.
  unfold lifecycle_ok. cbn [lc_id lc_state]. rewrite andb_true_r.
  apply digest_hash_len, sha256_hex_shape.
Qed.

Lemma set_status_wf rid r s now l : rec_wf rid r -> lifecycle_ok l = true -> s <> Active ->
  rec_wf rid (set_status s now l r).
Proof. intros Hw Hl Hs. by eapply rec_relabel. Qed.

Lemma quarantined_shares now rid r : rec_wf rid r -> res_status r = Active ->
  same_shares rid r (quarantined_at now rid r).
Proof.
  intros Hw Es. split_and!.
  - apply set_status_wf; [done|apply outcome_lifecycle_ok|done].
  - done.
  - intros k. rewrite !held_weight. unfold holds. by rewrite Es.
  - intros k. rewrite !spent_weight. unfold spends. by rewrite Es.
Qed.

Lemma put_shares p rid r r' i : inv B p -> reservations p !! rid = Some r -> same_shares rid r r' ->
  option_Forall2 (same_shares i) (reservations p !! i) (<[rid := r']> (reservations p) !! i).
Proof.
  intros Hi Hr Hs. destruct (decide (i = rid)) as [->|Hne].
  - rewrite lookup_insert_eq, Hr. by constructor.
  - rewrite lookup_insert_ne by done. destruct (reservations p !! i) as [x|] eqn:E; constructor.
    apply same_shares_refl. by eapply iv_recs.
Qed.

Lemma inv_put p rid r r' : inv B p -> reservations p !! rid = Some r -> same_shares rid r r' ->
  inv B (put_reservation rid r' p).
Proof. intros Hi Hr Hs. eapply inv_relabel; [done..|]. intros i. by eapply put_shares. Qed.

(** *** Outcomes *)

(** The columns move by the difference of what the two records weigh. *)
Ltac weigh :=
  unfold holds_o, spends_o; cbn [from_option reserved spent archived_spent hold_amount commit_amount
    release_amount charge_amount archive_amount];
  repeat match goal with E : holds _ = _ |- _ => rewrite E; clear E end;
  repeat match goal with E : spends _ = _ |- _ => rewrite E; clear E end;
  cbn [weight]; intros; lia.

Lemma commit_moves r r' : holds r = true -> spends r = false -> res_status r' = Committed ->
  moves commit_amount r (Some r').
Proof.
  intros Hh Hs E.
  assert (holds r' = false /\ spends r' = true) as [? ?] by (unfold holds, spends; by rewrite E).
  split; [apply commit_zero|weigh..].
Qed.
Lemma release_moves r r' : holds r = true -> spends r = false -> res_status r' = Released ->
  moves release_amount r (Some r').
Proof.
  intros Hh Hs E.
  assert (holds r' = false /\ spends r' = false) as [? ?] by (unfold holds, spends; by rewrite E).
  split; [apply release_zero|weigh..].
Qed.
Lemma holds_not_spends r : holds r = true -> spends r = false.
Proof. unfold holds, spends. destruct (res_status r); done. Qed.

Definition settle_amount (o : outcome) : Z -> account -> account :=
  match o with Commit => commit_amount | Release => release_amount end.

Lemma settle_moves o now l r : holds r = true ->
  moves (settle_amount o) r (Some (set_status (outcome_status o) now l r)).
Proof.
  intros Hh. pose proof (holds_not_spends r Hh).
  destruct o; [by apply commit_moves|by apply release_moves].
Qed.

Lemma inv_settle o now l p rid r : inv B p -> reservations p !! rid = Some r -> holds r = true ->
  lifecycle_ok l = true ->
  inv B (put_reservation rid (set_status (outcome_status o) now l r) (post_reservation (settle_amount o) r p)).
Proof.
  intros Hi Hr Hh Hl. pose proof (settle_moves o now l r Hh) as Hm.
  eapply inv_change; [exact Hi|exact Hr|exact Hm|..].
  - by intros x [= <-].
  - intros x [= <-]. apply set_status_wf; [by eapply iv_recs|done|by destruct o].
  - intros k. apply (post_reservation_at _ r p k), Hm.
  - intros k Hk. by apply post_reservation_known.
  - done.
  - apply (iv_tombs _ _ Hi).
  - apply (iv_tomb_size _ _ Hi).
Qed.

(** *** Pruning *)

(** The clock leaves room for the retention of a tombstone. *)
Definition clock_ok (now : Z) : Prop :=
  0 <= now /\ now / TICKS + REPLAY_TOMBSTONE_RETENTION_S <= MAX_RISK_VALUE.

Lemma prune_tombstones_ok now p i t : inv B p ->
  prune_tombstones now (tombstones p) !! i = Some t -> tombstone_ok (i, t) = true.
Proof. intros Hi [E _]%map_lookup_filter_Some. by apply (iv_tombs _ _ Hi). Qed.

Lemma charge_moves r : holds r = true -> moves charge_amount r None.
Proof.
  intros Hh. pose proof (holds_not_spends r Hh). split; [apply charge_zero|weigh..].
Qed.
Lemma archive_moves r : res_status r = Committed -> moves archive_amount r None.
Proof.
  intros E. assert (holds r = false /\ spends r = true) as [? ?] by (unfold holds, spends; by rewrite E).
  split; [apply archive_zero|weigh..].
Qed.
Lemma drop_moves r : res_status r = Released -> moves (fun _ a => a) r None.
Proof.
  intros E. assert (holds r = false /\ spends r = false) as [? ?] by (unfold holds, spends; by rewrite E).
  split; [done|weigh..].
Qed.

(** The tombstone of a well-formed reservation is well formed. *)
Lemma archive_ok now rid r s p p' : archive now rid r s p = Ok p' -> rec_wf rid r -> clock_ok now ->
  expires_at r * TICKS <= now ->
  accounts p' = accounts p /\ reservations p' = delete rid (reservations p) /\
  (base.size (tombstones p') <= MAX_RESERVATIONS)%nat /\
  exists t, tombstones p' = <[rid := t]> (tombstones p) /\ tombstone_ok (rid, t) = true /\
    expires_at r + REPLAY_TOMBSTONE_RETENTION_S <= replay_until t.
Proof.
  intros Ha Hw Hc He. unfold archive in Ha. apply guard_ok in Ha as [Hs Ha].
  destruct (res_lifecycle r) as [l|] eqn:El; [|done]. injection Ha as <-. cbn [accounts reservations tombstones].
  pose proof (rec_lifecycle _ _ _ Hw El) as Hl. destruct (rec_facts _ _ Hw) as [Hr Hx].
  split_and!; [done..| |].
  - rewrite map_size_insert. apply Nat.leb_gt in Hs. destruct (tombstones p !! rid); cbn; lia.
  - eexists. split; [done|]. cbn [replay_until]. split; [|lia].
    destruct Hw as [_ Hf Hd Hk]. unfold tombstone_ok. cbn [fst snd t_fingerprint_hash t_fact_digest t_session_hash
      t_lineage_hash replay_until t_lifecycle]. rewrite Hr, Hf, Hd, Hl.
    rewrite (Hk Session : hash_len (session _) = true), (Hk Lineage : hash_len (lineage _) = true).
    unfold risk_int. destruct Hc as [Hc0 Hc].
    assert (expires_at r <= now / TICKS) by (apply Z.div_le_lower_bound; [done|lia]).
    unfold REPLAY_TOMBSTONE_RETENTION_S in *. lia.
Qed.

(** Until when a request identifier is remembered, in seconds. *)
Definition horizon (p : payload) (rid : string) : option Z :=
  match reservations p !! rid with
  | Some r => Some (expires_at r + REPLAY_TOMBSTONE_RETENTION_S)
  | None => replay_until <$> tombstones p !! rid
  end.
Definition remembers (p p' : payload) : Prop :=
  forall rid t, horizon p rid = Some t -> exists t', horizon p' rid = Some t' /\ t <= t'.

Lemma remembers_refl p : remembers p p.
Proof. intros rid t Ht. by exists t. Qed.
Lemma remembers_trans p q r : remembers p q -> remembers q r -> remembers p r.
Proof.
  intros Hp Hq rid t Ht. destruct (Hp rid t Ht) as (t' & Ht' & ?), (Hq rid t' Ht') as (u & Hu & ?).
  exists u. split; [done|lia].
Qed.

(** Pruning of some reservations: nothing is given back and no request is forgotten. *)
Definition prunes (rids : list string) (p p' : payload) : Prop :=
  inv B p' /\ (forall k, used p' k = used p k) /\ remembers p p' /\
  (forall j, j ∉ rids -> reservations p' !! j = reservations p !! j).

Lemma prunes_refl rids p : inv B p -> prunes rids p p.
Proof. intros Hi. by split_and!; [..|apply remembers_refl|]. Qed.
Lemma prunes_trans l l' p q r : prunes l p q -> prunes l' q r -> prunes (l ++ l') p r.
Proof.
  intros (_ & Hu & Hm & Hr) (Hi & Hu' & Hm' & Hr'). split_and!; [done| | |].
  - intros k. by rewrite Hu'.
  - by eapply remembers_trans.
  - intros j [? ?]%not_elem_of_app. by rewrite Hr', Hr.
Qed.

(** Replacing a reservation by its tombstone, its amounts moved by [F]. *)
Lemma archive_inv F now rid r s p q p' : inv B p -> reservations p !! rid = Some r -> clock_ok now ->
  expires_at r * TICKS <= now -> moves F r None ->
  (forall n a, spent (F n a) + reserved (F n a) = spent a + reserved a) ->
  reservations q = reservations p -> tombstones q = tombstones p ->
  (forall k, account_at q k = F (share k r) (account_at p k)) ->
  (forall k, is_Some (accounts p !! k) -> is_Some (accounts q !! k)) ->
  archive now rid r s q = Ok p' ->
  prunes [rid] p p'.
Proof.
  intros Hi Hr Hc He Hm Hu Eqr Eqt Hat Hkn Ha. assert (Hw : rec_wf rid r) by by eapply iv_recs.
  destruct (archive_ok _ _ _ _ _ _ Ha Hw Hc He) as (Ea & Er & Hts & t & Et & Ht & Hx).
  assert (Hat' : forall k, account_at p' k = F (share k r) (account_at p k)).
  { intros k. rewrite <- Hat. unfold account_at. by rewrite Ea. }
  rewrite Eqr in Er. rewrite Eqt in Et. split_and!.
  - eapply (inv_change B F p p' rid r None); try done.
    + intros k Hk. rewrite Ea. by apply Hkn.
    + rewrite Et. intros i u. rewrite lookup_insert_Some. intros [[<- <-]|[_ Hu']]; [done|].
      by apply (iv_tombs _ _ Hi).
  - intros k. unfold used. rewrite Hat'. apply Hu.
  - intros j u. unfold horizon. rewrite Er, Et. destruct (decide (j = rid)) as [->|Hne].
    + rewrite lookup_delete_eq, lookup_insert_eq, Hr. cbn [fmap option_fmap option_map]. intros [= <-]. eauto.
    + rewrite lookup_delete_ne, lookup_insert_ne by done. intros E. exists u. split; [done|lia].
  - intros j Hj%not_elem_of_cons. rewrite Er. apply lookup_delete_ne. naive_solver.
Qed.

Lemma prune_one_ok now rid r ps ps' : inv B (ps_payload ps) -> clock_ok now ->
  reservations (ps_payload ps) !! rid = Some r -> prune_one now (rid, r) ps = Ok ps' ->
  prunes [rid] (ps_payload ps) (ps_payload ps').
Proof.
  intros Hi Hc Hr Ho. unfold prune_one in Ho. apply guard_ok in Ho as [_ Ho].
  assert (Hsame : ps = ps' -> prunes [rid] (ps_payload ps) (ps_payload ps'))
    by (intros <-; by apply prunes_refl).
  destruct (Z.ltb_spec now (expires_at r * TICKS)) as [|He]; [apply Hsame; congruence|].
  destruct (res_status r) eqn:Es.
  - injection Ho as <-. cbn [ps_payload]. assert (Hw : rec_wf rid r) by by eapply iv_recs.
    split_and!.
    + eapply inv_put; [done..|]. by apply quarantined_shares.
    + done.
    + intros j u. unfold horizon. cbn [put_reservation reservations tombstones].
      destruct (decide (j = rid)) as [->|Hne]; [rewrite lookup_insert_eq, Hr|rewrite lookup_insert_ne by done];
        intros E; exists u; (split; [done|lia]).
    + intros j Hj%not_elem_of_cons. cbn. apply lookup_insert_ne. naive_solver.
  - destruct (_ <? _); [apply Hsame; congruence|]. apply bind_ok in Ho as (q & Ha & [= <-]).
    apply (archive_inv charge_amount) with now r AQuarantinedCommitted (post_reservation charge_amount r (ps_payload ps)); try done.
    + apply charge_moves. unfold holds. by rewrite Es.
    + intros n a. cbn. lia.
    + intros k. apply post_reservation_at, charge_zero.
    + intros k. apply post_reservation_known.
  - match type of Ho with (if ?b then _ else _) = _ => destruct b end; [apply Hsame; congruence|].
    apply bind_ok in Ho as (q & Ha & [= <-]).
    apply (archive_inv archive_amount) with now r ACommitted (post_reservation archive_amount r (ps_payload ps)); try done.
    + by apply archive_moves.
    + intros k. apply post_reservation_at, archive_zero.
    + intros k. apply post_reservation_known.
  - match type of Ho with (if ?b then _ else _) = _ => destruct b end; [apply Hsame; congruence|].
    apply bind_ok in Ho as (q & Ha & [= <-]).
    apply (archive_inv (fun _ a => a)) with now r AReleased (ps_payload ps); try done. by apply drop_moves.
Qed.

Lemma prune_list_ok now l ps ps' : inv B (ps_payload ps) -> clock_ok now -> NoDup l.*1 ->
  (forall rid r, (rid, r) ∈ l -> reservations (ps_payload ps) !! rid = Some r) ->
  foldR (prune_one now) l ps = Ok ps' -> prunes l.*1 (ps_payload ps) (ps_payload ps').
Proof.
  revert ps. induction l as [|[rid r] l IH]; intros ps Hi Hc Hn Hl Hf.
  { injection Hf as <-. by apply prunes_refl. }
  rewrite fmap_cons in *. cbn [foldR] in Hf. apply bind_ok in Hf as (q & Hq & Hf).
  apply NoDup_cons in Hn as [Hrid Hn]. change ((rid, r).1 :: l.*1) with ([rid] ++ l.*1)%list.
  assert (Hp : prunes [rid] (ps_payload ps) (ps_payload q)).
  { eapply prune_one_ok; [done|done| |done]. apply Hl. by left. }
  eapply prunes_trans; [done|].
  destruct Hp as (Hiq & _ & _ & Hj). apply IH; try done. intros j x Hx. rewrite Hj.
  - apply Hl. by right.
  - rewrite not_elem_of_cons. split; [|set_solver]. intros ->. apply Hrid.
    apply list_elem_of_fmap. by exists (rid, x).
Qed.

(** What is remembered beyond the clock stays remembered. *)
Definition remembers_at (now : Z) (p p' : payload) : Prop :=
  forall rid t, horizon p rid = Some t -> now < t * TICKS -> exists t', horizon p' rid = Some t' /\ t <= t'.

Lemma drop_tombstones_ok now p : inv B p ->
  let q := Payload (accounts p) (reservations p) (prune_tombstones now (tombstones p)) in
  inv B q /\ (forall k, used q k = used p k) /\ remembers_at now p q.
Proof.
  intros Hi q. split_and!; [apply inv_tombstones; [done|..]|done|].
  - intros i t. by apply prune_tombstones_ok.
  - etrans; [|apply (iv_tomb_size _ _ Hi)]. apply map_size_filter.
  - intros rid t. unfold horizon. cbn [q reservations tombstones].
    destruct (reservations p !! rid) as [r|]; [intros [= <-] _; by eexists|].
    destruct (tombstones p !! rid) as [x|] eqn:Ex; [|done]. cbn. intros [= <-] Hnow.
    exists (replay_until x). split; [|done]. unfold prune_tombstones.
    rewrite (map_lookup_filter_Some_2 _ _ _ x); [done|done|]. cbn. unfold tombstone_over. lia.
Qed.

Lemma prune_payload_ok now p ps : inv B p -> clock_ok now -> prune_payload p now = Ok ps ->
  inv B (ps_payload ps) /\ (forall k, used (ps_payload ps) k = used p k) /\
  remembers_at now p (ps_payload ps).
Proof.
  intros Hi Hc Hp. destruct (drop_tombstones_ok now p Hi) as (Hq & Hu & Hm).
  apply prune_list_ok in Hp as (Hi' & Hu' & Hm' & _); try done.
  - cbn [ps_payload] in *. split_and!; [done|intros k; by rewrite Hu', Hu|].
    intros rid t Ht Hn. destruct (Hm rid t Ht Hn) as (t' & Ht' & ?), (Hm' rid t' Ht') as (u & ? & ?).
    exists u. split; [done|lia].
  - apply items_NoDup.
  - intros rid r. apply elem_of_items.
Qed.

Lemma open_pruned_ok d now d' m : (forall k, 0 <= B k <= MAX_RISK_VALUE) -> inv B (load d) ->
  clock_ok now -> open_pruned d now = (d', m) ->
  inv B (load d') /\ (forall k, used (load d') k = used (load d) k) /\
  remembers_at now (load d) (load d') /\ (m = Ok (load d') \/ (d' = d /\ exists e, m = Raise e)).
Proof.
  intros HB Hi Hc Ho. unfold open_pruned in Ho. rewrite (risk_inv_validates B HB) in Ho by done.
  assert (Hsame : remembers_at now (load d) (load d)) by (intros rid t Ht _; by exists t).
  cbn [mbind res_bind] in Ho. destruct (prune_payload (load d) now) as [ps|e] eqn:Ep.
  - destruct (prune_payload_ok _ _ _ Hi Hc Ep) as (Hi' & Hu & Hm).
    cbn [mbind res_bind] in Ho. rewrite (risk_inv_validates B HB) in Ho by done. destruct (pruned_any ps).
    + injection Ho as <- <-. split_and!; auto.
    + injection Ho as <- <-. split_and!; auto.
  - injection Ho as <- <-. split_and!; eauto.
Qed.
End Preserve.
