(* ===== verification/RiskSafety.v ===== *)
(** * Risk ledger: what the operations do

    The reservation step, the exact behaviour of the operations on a ledger
    with the invariant, and that every operation keeps it. *)

From S2P Require Import Prelude CanonicalJson Merkle RiskPolicy RiskLedger RiskInv.
Import RiskPolicy RiskLedger.
Open Scope string_scope.
Open Scope Z_scope.

Section Risk.
Context `{Digests}.
Variable B : account_key -> Z.
Hypothesis B_range : forall k, 0 <= B k <= MAX_RISK_VALUE.

(** ** The reservation *)

(** What a caller passes: the numeric facts of one action as a dict, ceilings
    within the bound of the accounts, and the digest of the facts. *)
Record call_ok (c : reserve_call) : Prop := {
  co_facts : NoDup (rc_facts c).*1;
  co_numeric : forall f n, (f, n) ∈ rc_facts c -> numeric f = true;
  co_ceilings : forall f cl s, rc_ceilings c !! f = Some cl ->
    0 <= at_scope cl s <= B (f, s, at_scope (rc_keys c) s);
  co_digest : fact_digest_ok (rc_fact_digest c) = true
}.

(** There is room for every fact at every scope. *)
Definition fits (c : reserve_call) (p : payload) : Prop :=
  forall f n s cl, (f, n) ∈ rc_facts c -> rc_ceilings c !! f = Some cl ->
    n = 0 \/ used p (f, s, at_scope (rc_keys c) s) + n <= at_scope cl s.

Lemma check_call_ok c : check_call c = Ok tt ->
  dom (rc_ceilings c) = list_to_set (rc_facts c).*1 /\
  (forall f n, (f, n) ∈ rc_facts c -> 0 <= n <= MAX_RISK_VALUE).
Proof.
  intros Hc. unfold check_call in Hc. apply bind_ok in Hc as ([] & _ & Hc).
  apply guard_ok in Hc as [Hd Hc]. apply negb_false_iff, bool_decide_eq_true in Hd. split; [done|].
  rewrite iterR_ok in Hc. intros f n Hn. apply Hc in Hn. cbn [fst snd] in Hn.
  apply guard_ok in Hn as [Hn _]. unfold risk_int in Hn. lia.
Qed.

Lemma fact_ceiling c f n : check_call c = Ok tt -> (f, n) ∈ rc_facts c -> is_Some (rc_ceilings c !! f).
Proof.
  intros Hc Hf. destruct (check_call_ok c Hc) as [Hd _]. apply elem_of_dom. rewrite Hd.
  apply elem_of_list_to_set, list_elem_of_fmap. by exists (f, n).
Qed.

Lemma scope_in s : s ∈ SCOPES.
Proof. destruct s; set_solver. Qed.

Lemma blocking_None c p : check_call c = Ok tt -> blocking c p = None <-> fits c p.
Proof.
  intros Hc. destruct (check_call_ok c Hc) as [_ Hr]. unfold blocking, fits.
  assert (Hh : forall {A} (l : list A), head l = None <-> l = []) by (by intros ? []).
  rewrite Hh. split.
  - intros He f n s cl Hf Hl. destruct (decide (remaining_at p (rc_ceilings c) (rc_keys c) f s < n)) as [Hlt|Hge].
    + exfalso. eapply (not_elem_of_nil (f, s)). rewrite <- He. apply list_elem_of_In, in_concat.
      eexists. split; [apply in_map, list_elem_of_In, Hf|]. apply list_elem_of_In, list_elem_of_fmap.
      exists s. split; [done|]. apply list_elem_of_filter. split; [done|apply scope_in].
    + unfold remaining_at in Hge. rewrite Hl in Hge. specialize (Hr f n Hf). lia.
  - intros Hfit. destruct (concat _) as [|[f s] l] eqn:E; [done|]. exfalso.
    assert (Hin : (f, s) ∈ ((f, s) :: l)) by left. rewrite <- E in Hin.
    apply list_elem_of_In, in_concat in Hin as (b & Hb & Hin).
    apply in_map_iff in Hb as ([g n] & <- & Hg). apply list_elem_of_In in Hg, Hin.
    apply list_elem_of_fmap in Hin as (s' & [= <- <-] & Hs). cbn [fst snd] in *.
    apply list_elem_of_filter in Hs as [Hlt _].
    destruct (fact_ceiling c f n Hc Hg) as [cl Hl]. unfold remaining_at in Hlt. rewrite Hl in Hlt.
    specialize (Hr f n Hg). destruct (Hfit f n s cl Hg Hl); lia.
Qed.

(** ** The hold *)

Definition hold (c : reserve_call) (now : Z) (p : payload) : payload :=
  put_reservation (rc_hash c) (new_reservation c now)
    (with_accounts (post hold_amount (postings (rc_keys c) (rc_facts c)) (accounts p)) p).

Lemma hold_at c now p k : NoDup (rc_facts c).*1 ->
  account_at (hold c now p) k = hold_amount (share k (new_reservation c now)) (account_at p k).
Proof.
  intros Hn. rewrite share_share_of. apply (post_spec hold_amount hold_zero). done.
Qed.

Lemma facts_perm c : NoDup (rc_facts c).*1 -> items (rc_amounts c) ≡ₚ rc_facts c.
Proof. intros Hn. rewrite items_perm. by apply map_to_list_to_map. Qed.

Lemma share_fact c now f s h : NoDup (rc_facts c).*1 ->
  let n := share (f, s, h) (new_reservation c now) in
  n = 0 \/ ((f, n) ∈ rc_facts c /\ h = at_scope (rc_keys c) s).
Proof.
  intros Hn. cbn. destruct (String.eqb_spec (at_scope (rc_keys c) s) h) as [<-|]; [|by left].
  destruct (rc_amounts c !! f) as [n|] eqn:E; [|by left]. right. split; [|done].
  by apply elem_of_list_to_map in E.
Qed.

Lemma new_wf c now : check_call c = Ok tt -> call_ok c -> risk_int (rc_expires_at c) = true ->
  rec_wf (rc_hash c) (new_reservation c now).
Proof.
  intros Hc Hk He. destruct (check_call_ok c Hc) as [Hd Hr]. destruct Hk as [Hn Hnum Hcl Hdig].
  assert (Hh : forall s, hash_len (at_scope (rc_keys c) s) = true)
    by (intros []; apply digest_hash_len, sha256_hex_shape).
  split; [|by apply digest_hash_len, sha256_hex_shape|done|done].
  unfold reservation_ok. cbn [fst snd new_reservation expires_at ceilings amounts res_status res_lifecycle scope_keys].
  rewrite He, digest_hash_len by apply sha256_hex_shape. rewrite !andb_true_r. cbn [andb].
  rewrite !andb_true_iff. split_and!.
  - apply bool_decide_eq_true. rewrite Hd. unfold rc_amounts. by rewrite dom_list_to_map_L.
  - rewrite forallb_items. intros f cl Hf. cbn [snd]. rewrite forallb_forall. intros s _.
    unfold risk_int. specialize (Hcl f cl s Hf). specialize (B_range (f, s, at_scope (rc_keys c) s)). lia.
  - rewrite forallb_items. intros f n Hf. cbn [fst snd]. apply elem_of_list_to_map in Hf; [|done].
    rewrite !andb_true_iff. split_and!; [by eapply Hnum| |].
    + unfold risk_int. specialize (Hr f n Hf). lia.
    + rewrite forallb_forall. by intros s _.
Qed.

Lemma inv_hold c now p : inv B p -> check_call c = Ok tt -> call_ok c -> fits c p ->
  risk_int (rc_expires_at c) = true -> reservations p !! rc_hash c = None ->
  (base.size (reservations p) < MAX_RESERVATIONS)%nat -> inv B (hold c now p).
Proof.
  intros Hi Hc Hk Hf He Hnew Hsz. pose proof (co_facts c Hk) as Hn.
  pose proof (new_wf c now Hc Hk He) as Hw.
  assert (Hat := fun k => hold_at c now p k Hn).
  split; [..|apply (iv_tombs _ _ Hi)| |apply (iv_tomb_size _ _ Hi)].
  - intros k. rewrite Hat. unfold expected_reserved. cbn [hold put_reservation reservations with_accounts].
    rewrite total_of_insert by done. cbn [hold_amount reserved]. rewrite (iv_reserved _ _ Hi).
    unfold expected_reserved. change (held_share k (new_reservation c now)) with (share k (new_reservation c now)). lia.
  - intros k. rewrite Hat. unfold retained_spent. cbn [hold put_reservation reservations with_accounts].
    rewrite total_of_insert by done. cbn [hold_amount spent archived_spent]. rewrite (iv_spent _ _ Hi).
    unfold retained_spent. change (spent_share k (new_reservation c now)) with 0. lia.
  - intros k. rewrite Hat. apply (iv_archived _ _ Hi).
  - intros [[f s] h]. unfold used. rewrite Hat. cbn [hold_amount spent reserved].
    pose proof (iv_bound _ _ Hi (f, s, h)) as Hb. unfold used in Hb.
    destruct (share_fact c now f s h Hn) as [->|[Hin ->]]; [lia|].
    destruct (fact_ceiling c _ _ Hc Hin) as [cl Hcl]. pose proof (co_ceilings c Hk f cl s Hcl).
    destruct (Hf f _ s cl Hin Hcl) as [->|Hle]; [lia|]. unfold used in Hle. lia.
  - intros rid r. cbn [hold put_reservation reservations]. rewrite lookup_insert_Some.
    intros [[<- <-]|[_ E]]; [done|by eapply iv_recs].
  - intros rid r k. cbn [hold put_reservation reservations accounts with_accounts].
    rewrite lookup_insert_Some, post_known. intros [[<- <-]|[_ E]] Hin.
    + left. unfold postings_of, postings in *. cbn [new_reservation amounts scope_keys] in Hin.
      by rewrite (facts_perm c Hn) in Hin.
    + right. by eapply iv_known.
  - cbn [hold put_reservation reservations with_accounts]. rewrite map_size_insert, Hnew. cbn [id]. lia.
Qed.

(** ** [reserve] *)

Lemma check_replay_ok c p : check_replay c p = Ok tt <-> horizon p (rc_hash c) = None.
Proof.
  unfold check_replay, horizon. destruct (tombstones p !! rc_hash c) as [t|].
  - destruct (String.eqb _ _); (split; [done|]); destruct (reservations p !! rc_hash c); done.
  - destruct (reservations p !! rc_hash c) as [r|]; [|done]. destruct (same_request c r); done.
Qed.

Lemma horizon_new p rid : horizon p rid = None -> reservations p !! rid = None.
Proof. unfold horizon. by destruct (reservations p !! rid). Qed.

Lemma risk_reserve_locked_ok c now p : inv B p -> check_call c = Ok tt -> call_ok c ->
  horizon p (rc_hash c) = None -> (base.size (reservations p) < MAX_RESERVATIONS)%nat ->
  risk_int (rc_expires_at c) = true ->
  (fits c p /\ reserve_locked c now p = Ok (Some (hold c now p), ReservationResult true (rc_hash c)
                (remaining_map (hold c now p) (rc_ceilings c) (rc_keys c)) None)) \/
  (~ fits c p /\ exists b, blocking c p = Some b /\
     reserve_locked c now p = Ok (None, ReservationResult false (rc_hash c)
                (remaining_map p (rc_ceilings c) (rc_keys c)) (Some b))).
Proof.
  intros Hi Hc Hk Hh Hs He. unfold reserve_locked.
  rewrite (proj2 (check_replay_ok c p) Hh). cbn [mbind res_bind].
  apply Nat.leb_gt in Hs as Hs'. rewrite Hs'. pose proof (blocking_None c p Hc) as Hb.
  destruct (blocking c p) as [b|].
  - right. split; [|by exists b]. intros Hf. by apply Hb in Hf.
  - left. assert (Hf : fits c p) by by apply Hb. split; [done|]. rewrite He. cbn [negb].
    assert (Hv : validate (hold c now p) = Ok tt).
    { apply (risk_inv_validates B B_range). apply inv_hold; try done. by apply horizon_new. }
    unfold hold in Hv. rewrite Hv. done.
Qed.

Lemma reserve_locked_inv c now p q r : inv B p -> check_call c = Ok tt -> call_ok c ->
  reserve_locked c now p = Ok (q, r) ->
  horizon p (rc_hash c) = None /\
  ((q = Some (hold c now p) /\ fits c p /\ rr_accepted r = true /\ inv B (hold c now p)) \/
   (q = None /\ ~ fits c p /\ rr_accepted r = false)).
Proof.
  intros Hi Hc Hk Hr. unfold reserve_locked in Hr. apply bind_ok in Hr as ([] & Hh & Hr).
  apply check_replay_ok in Hh. split; [done|]. apply guard_ok in Hr as [Hs Hr]. apply Nat.leb_gt in Hs.
  pose proof (blocking_None c p Hc) as Hb. destruct (blocking c p) as [b|].
  - right. injection Hr as <- <-. split_and!; [done| |done]. intros Hf. by apply Hb in Hf.
  - left. apply guard_ok in Hr as [He Hr]. apply negb_false_iff in He.
    apply bind_ok in Hr as ([] & _ & Hr). injection Hr as <- <-.
    assert (Hf : fits c p) by by apply Hb. split_and!; [done..|]. apply inv_hold; try done.
    by apply horizon_new.
Qed.

(** ** The other operations *)

Lemma outcome_locked_inv rid sh lh o now p q r : inv B p ->
  outcome_locked rid sh lh o now p = Ok (q, r) ->
  exists x, reservations p !! rid = Some x /\ session (scope_keys x) = sh /\ lineage (scope_keys x) = lh /\
  ((q = None /\ res_status x = outcome_status o /\ ro_idempotent r = true) \/
   (holds x = true /\ ro_idempotent r = false /\
    q = Some (put_reservation rid
          (set_status (outcome_status o) now (Lifecycle (outcome_id rid (outcome_name o)) Pending) x)
          (post_reservation (settle_amount o) x p)))).
Proof.
  intros Hi Ho. unfold outcome_locked in Ho. destruct (reservations p !! rid) as [x|]; [|done].
  apply guard_ok in Ho as [E1%negb_false_iff%String.eqb_eq Ho].
  apply guard_ok in Ho as [E2%negb_false_iff%String.eqb_eq Ho]. exists x. split_and!; [done..|].
  case_bool_decide as Es.
  - left. destruct (res_lifecycle x) as [l|]; [|done]. by injection Ho as <- <-.
  - right. apply guard_ok in Ho as [_ Ho]. apply guard_ok in Ho as [_ Ho].
    apply guard_ok in Ho as [Hh%negb_false_iff Ho]. apply bind_ok in Ho as ([] & _ & Ho).
    by injection Ho as <- <-.
Qed.

Lemma validate_rec p rid r : validate p = Ok tt -> reservations p !! rid = Some r ->
  reservation_ok (rid, r) = true.
Proof.
  unfold validate. rewrite !guard_ok. intros (_ & _ & _ & Hr & _) E. apply negb_false_iff in Hr.
  rewrite forallb_items in Hr. by apply Hr.
Qed.
Lemma validate_tomb p rid t : validate p = Ok tt -> tombstones p !! rid = Some t ->
  tombstone_ok (rid, t) = true.
Proof.
  unfold validate. rewrite !guard_ok. intros (_ & _ & Hr & _) E. apply negb_false_iff in Hr.
  rewrite forallb_items in Hr. by apply Hr.
Qed.

Lemma deliver_inv rid sh lh li ri p q : inv B p -> deliver_locked rid sh lh li ri p = Ok (Some q, tt) ->
  inv B q /\ (forall k, account_at q k = account_at p k) /\ remembers p q.
Proof.
  intros Hi Hd. unfold deliver_locked in Hd. destruct (reservations p !! rid) as [r|] eqn:Er.
  - apply bind_ok in Hd as ([] & _ & Hd). apply bind_ok in Hd as ([l|] & Hl & Hd); [|done].
    apply bind_ok in Hd as ([] & Hv & Hd). injection Hd as <-.
    assert (Hw : rec_wf rid r) by by eapply iv_recs.
    assert (Ho : reservation_ok (rid, set_lifecycle l r) = true)
      by (eapply validate_rec; [done|apply lookup_insert_eq]).
    split_and!; [|done|].
    + eapply inv_put; [done..|]. split_and!; try done. destruct Hw as [_ Hf Hg Hk]. by split.
    + intros j t. unfold horizon. cbn [put_reservation reservations tombstones].
      destruct (decide (j = rid)) as [->|Hne]; [rewrite lookup_insert_eq, Er|rewrite lookup_insert_ne by done];
        intros E; exists t; (split; [done|lia]).
  - destruct (tombstones p !! rid) as [t|] eqn:Et; [|done].
    apply bind_ok in Hd as ([] & _ & Hd). apply bind_ok in Hd as ([l|] & Hl & Hd); [|done].
    apply bind_ok in Hd as ([] & Hv & Hd). injection Hd as <-.
    split_and!; [apply inv_tombstones; [done|..]|done|].
    + intros i x. apply (validate_tomb _ i x Hv).
    + rewrite map_size_insert, Et. apply (iv_tomb_size _ _ Hi).
    + intros j u. unfold horizon. cbn [reservations tombstones].
      destruct (decide (j = rid)) as [->|Hne]; [rewrite Er, lookup_insert_eq, Et|rewrite lookup_insert_ne by done];
        intros E; exists u; (split; [done|lia]).
Qed.

Lemma quarantine_inv sh lh sb now p q r : inv B p -> quarantine_locked sh lh sb now p = Ok (Some q, r) ->
  inv B q /\ (forall k, account_at q k = account_at p k) /\ remembers p q.
Proof.
  intros Hi Hq. unfold quarantine_locked in Hq. destruct (_ ++ _)%list; [done|].
  apply bind_ok in Hq as ([] & _ & Hq). injection Hq as <- _. split_and!; [|done|].
  - eapply inv_relabel; [done..|]. intros rid. cbn [reservations]. rewrite map_lookup_imap.
    destruct (reservations p !! rid) as [x|] eqn:E; [|constructor]. cbn. constructor.
    assert (Hw : rec_wf rid x) by by eapply iv_recs.
    unfold stale. case_bool_decide; cbn [andb]; [|by apply same_shares_refl].
    destruct (_ && _); [by apply quarantined_shares|by apply same_shares_refl].
  - intros rid t. unfold horizon. cbn [reservations tombstones]. rewrite map_lookup_imap.
    destruct (reservations p !! rid) as [x|]; cbn; [|intros Ht; by exists t].
    intros [= <-]. eexists. split; [done|]. by destruct (stale _ _ _ x).
Qed.
End Risk.
