(* ===== verification/RiskProps.v ===== *)
(** * Risk ledger: properties

    Sequences of operations on one ledger file, and what holds of every file
    they lead to. *)

From S2P Require Import Prelude CanonicalJson Merkle RiskPolicy RiskLedger RiskInv RiskSafety.
Import RiskPolicy RiskLedger.
Open Scope string_scope.
Open Scope Z_scope.

(** ** Operations and runs *)

Inductive op :=
  | OpReserve (c : reserve_call) (now : Z)
  | OpOutcome (lineage_id session_id request_id : string) (o : outcome) (now : Z)
  | OpDeliver (lineage_id session_id rid lifecycle_id receipt_id : string)
  | OpQuarantine (lineage_id session_id : string) (stale_before now : Z)
  | OpPrune (now : Z).

Section Runs.
Context `{Digests}.
Variable B : account_key -> Z.

Definition exec (d : store) (o : op) : store :=
  match o with
  | OpReserve c now => (reserve d c now).1
  | OpOutcome l s r o now => (record_outcome d l s r o now).1
  | OpDeliver l s rid li ri => (mark_lifecycle_delivered d l s rid li ri).1
  | OpQuarantine l s sb now => (quarantine_stale d l s sb now).1
  | OpPrune now => (prune_expired d now).1
  end.
Definition run (d : store) (l : list op) : store := foldl exec d l.

Definition op_ok (o : op) : Prop :=
  match o with
  | OpReserve c now => call_ok B c /\ clock_ok now
  | OpPrune now => clock_ok now
  | _ => True
  end.
(** The operations that forget do it by this clock. *)
Definition op_before (t : Z) (o : op) : Prop :=
  match o with OpReserve _ now | OpPrune now => now < t * TICKS | _ => True end.

Hypothesis B_range : forall k, 0 <= B k <= MAX_RISK_VALUE.

Lemma inv_empty : inv B empty_payload.
Proof. split; try done; [intros k; apply B_range|apply Nat.le_0_l..]. Qed.

Lemma before_le now t u : now < t * TICKS -> t <= u -> now < u * TICKS.
Proof. assert (0 < TICKS) by done. nia. Qed.

(** Every operation keeps the invariant and remembers the requests it may not
    forget yet. *)
Definition keeps (o : op) (d d' : store) : Prop :=
  inv B (load d') /\
  forall t rid u, op_before t o -> horizon (load d) rid = Some u -> t <= u ->
    exists u', horizon (load d') rid = Some u' /\ u <= u'.

Lemma keeps_same o d : inv B (load d) -> keeps o d d.
Proof. intros Hi. split; [done|]. intros t rid u _ Hu _. by exists u. Qed.

Lemma keeps_remembers o d d' : inv B (load d') -> remembers (load d) (load d') -> keeps o d d'.
Proof. intros Hi Hr. split; [done|]. intros t rid u _ Hu _. by apply Hr. Qed.

(** An operation that loads, validates and writes. *)
Lemma commit_keeps {A} o d (m : res risk_exc (option payload * A)) : inv B (load d) ->
  (forall q a, m = Ok (Some q, a) -> keeps o d (Some q)) -> keeps o d (commit d m).1.
Proof.
  intros Hi Hm. destruct m as [[[q|] a]|e]; cbn; [by eapply Hm|by apply keeps_same..].
Qed.

Lemma reserve_keeps d c now : inv B (load d) -> call_ok B c -> clock_ok now ->
  keeps (OpReserve c now) d (reserve d c now).1.
Proof.
  intros Hi Hk Hc. unfold reserve. destruct (check_call c) as [[]|] eqn:Ec; [|by apply keeps_same].
  destruct (open_pruned d now) as [d' m] eqn:Ep.
  destruct (open_pruned_ok B d now d' m B_range Hi Hc Ep) as (Hi' & _ & Hm & Hor).
  assert (Hd' : keeps (OpReserve c now) d d').
  { split; [done|]. intros t rid u Hb Hu Ht. apply Hm; [done|]. by eapply before_le. }
  destruct Hor as [->|[-> [e ->]]]; [|done]. cbn [mbind res_bind].
  destruct (reserve_locked c now (load d')) as [[q r]|] eqn:Er; [|done].
  destruct (reserve_locked_inv B B_range c now _ q r Hi' Ec Hk Er) as [Hh [(-> & _ & _ & Hq)|(-> & _)]]; [|done].
  split; [done|]. intros t rid u Hb Hu Ht. destruct Hd' as [_ Hd'].
  destruct (Hd' t rid u Hb Hu Ht) as (u' & Hu' & ?). exists u'. split; [|done]. cbn.
  unfold horizon in *. cbn [hold put_reservation reservations tombstones with_accounts].
  destruct (decide (rid = rc_hash c)) as [->|Hne]; [by rewrite Hh in Hu'|].
  by rewrite lookup_insert_ne.
Qed.

Lemma exec_keeps d o : inv B (load d) -> op_ok o -> keeps o d (exec d o).
Proof.
  intros Hi Ho. destruct o as [c now|l s r o now|l s rid li ri|l s sb now|now]; cbn [exec].
  - destruct Ho. by apply reserve_keeps.
  - apply commit_keeps; [done|]. intros q a Hm.
    apply bind_ok in Hm as (r' & _ & Hm). apply bind_ok in Hm as (s' & _ & Hm).
    apply bind_ok in Hm as (l' & _ & Hm). apply bind_ok in Hm as ([] & _ & Hm).
    destruct (outcome_locked_inv B _ _ _ _ _ _ _ _ Hi Hm) as (x & Hx & _ & _ & [[? _]|(Hh & _ & [= ->])]); [done|].
    apply keeps_remembers; cbn [load default id].
    + apply inv_settle; try done. apply outcome_lifecycle_ok.
    + intros j u. unfold horizon. cbn [put_reservation post_reservation with_accounts reservations tombstones].
      intros E. exists u. split; [|lia]. destruct (decide (j = request_hash l r')) as [->|Hne].
      * rewrite Hx in E. by rewrite lookup_insert_eq.
      * by rewrite lookup_insert_ne.
  - apply commit_keeps; [done|]. intros q [] Hm.
    apply bind_ok in Hm as (r' & _ & Hm). apply bind_ok in Hm as (s' & _ & Hm).
    apply bind_ok in Hm as (l' & _ & Hm). apply bind_ok in Hm as (? & _ & Hm).
    apply bind_ok in Hm as ([] & _ & Hm).
    destruct (deliver_inv B _ _ _ _ _ _ _ Hi Hm) as (? & _ & ?). by apply keeps_remembers.
  - apply commit_keeps; [done|]. intros q a Hm.
    apply bind_ok in Hm as (s' & _ & Hm). apply bind_ok in Hm as (l' & _ & Hm).
    apply bind_ok in Hm as ([] & _ & Hm).
    destruct (quarantine_inv B _ _ _ _ _ _ _ Hi Hm) as (? & _ & ?). by apply keeps_remembers.
  - apply commit_keeps; [done|]. intros q a Hm. apply bind_ok in Hm as ([] & _ & Hm).
    apply bind_ok in Hm as (ps & Hp & Hm). destruct (pruned_any ps); [|done].
    apply bind_ok in Hm as ([] & _ & Hm). injection Hm as <- _.
    destruct (prune_payload_ok B _ _ _ Hi Ho Hp) as (Hi' & _ & Hm). split; [done|].
    intros t rid u Hb Hu Ht. apply Hm; [done|]. by eapply before_le.
Qed.

Lemma run_inv d l : inv B (load d) -> Forall op_ok l -> inv B (load (run d l)).
Proof.
  intros Hi Hl. revert d Hi. induction Hl as [|o l Ho Hl IH]; intros d Hi; [done|].
  apply IH. by apply exec_keeps.
Qed.

Lemma run_remembers t rid u d l : inv B (load d) -> Forall op_ok l -> Forall (op_before t) l ->
  horizon (load d) rid = Some u -> t <= u -> exists u', horizon (load (run d l)) rid = Some u' /\ t <= u'.
Proof.
  intros Hi Hl. revert d u Hi. induction Hl as [|o l Ho Hl IH]; intros d u Hi Hb Hu Ht; [by exists u|].
  apply Forall_cons in Hb as [Hbo Hb]. destruct (exec_keeps d o Hi Ho) as [Hi' Hr].
  destruct (Hr t rid u Hbo Hu Ht) as (u' & Hu' & ?). apply (IH _ u'); try done. lia.
Qed.
End Runs.

(** ** Properties *)

Section Properties.
Context `{Digests}.

Lemma reach_inv B l : (forall k, 0 <= B k <= MAX_RISK_VALUE) -> Forall (op_ok B) l ->
  inv B (load (run None l)).
Proof. intros HB Hl. apply run_inv; [done| |done]. by apply inv_empty. Qed.

(** C2. Whatever sequence of operations runs on the ledger, reservations,
    outcomes, acknowledgements, quarantines and prunings in any order and by
    any session, no account is ever used, spent and reserved together, beyond
    a bound that the ceilings passed for it respect, and nothing is ever
    negative. *)
Theorem risk_ceilings_hold B l : (forall k, 0 <= B k <= MAX_RISK_VALUE) -> Forall (op_ok B) l ->
  forall k, let a := account_at (load (run None l)) k in
  0 <= reserved a /\ 0 <= spent a /\ spent a + reserved a <= B k.
Proof.
  intros HB Hl k a. pose proof (reach_inv B l HB Hl) as Hi. subst a.
  pose proof (expected_nonneg B _ k Hi). pose proof (retained_nonneg B _ k Hi).
  pose proof (iv_archived _ _ Hi k). pose proof (iv_reserved _ _ Hi k). pose proof (iv_spent _ _ Hi k).
  pose proof (iv_bound _ _ Hi k) as Hb. unfold used in Hb. lia.
Qed.

(** The ledger never writes a file it would reject: after any sequence
    of operations the file validates and is read back, what an account has
    reserved is the sum over the unresolved reservations, and what it has
    spent is the archived part and the sum over the committed ones. *)
Theorem risk_ledger_consistent B l : (forall k, 0 <= B k <= MAX_RISK_VALUE) -> Forall (op_ok B) l ->
  let p := load (run None l) in
  snapshot (run None l) = Ok p /\
  forall k, reserved (account_at p k) = expected_reserved p k /\
    spent (account_at p k) = archived_spent (account_at p k) + retained_spent p k.
Proof.
  intros HB Hl p. pose proof (reach_inv B l HB Hl) as Hi. split.
  - unfold snapshot. by rewrite (risk_inv_validates B HB) by done.
  - intros k. split; [apply (iv_reserved _ _ Hi)|apply (iv_spent _ _ Hi)].
Qed.

(** A reservation of a new request is decided exactly: it is accepted if
    and only if every fact fits under its ceiling at each of the three scopes,
    pruning first never changing what is used; an accepted one adds its
    amounts to the accounts of its own session, agent and lineage and to no
    other, a refused one names a blocking fact and changes no account. *)
Theorem risk_reserve_decides B l c now d' p : (forall k, 0 <= B k <= MAX_RISK_VALUE) ->
  Forall (op_ok B) l -> call_ok B c -> clock_ok now -> check_call c = Ok tt ->
  open_pruned (run None l) now = (d', Ok p) -> horizon p (rc_hash c) = None ->
  (base.size (reservations p) < MAX_RESERVATIONS)%nat -> risk_int (rc_expires_at c) = true ->
  let d := run None l in
  exists d'' r, reserve d c now = (d'', Ok r) /\ (rr_accepted r = true <-> fits c (load d)) /\
    (rr_accepted r = false -> is_Some (rr_blocking r)) /\
    forall k, used (load d'') k =
      used (load d) k + (if rr_accepted r then share_of (rc_keys c) (rc_amounts c) k else 0).
Proof.
  intros HB Hl Hk Hc Ec Ep Hh Hs He d. subst d. pose proof (reach_inv B l HB Hl) as Hi.
  destruct (open_pruned_ok B _ now d' (Ok p) HB Hi Hc Ep) as (Hi' & Hu & _ & Hor).
  assert (p = load d') as -> by (by destruct Hor as [[= ->]|[_ [e ?]]]).
  assert (Hfit : fits c (load d') <-> fits c (load (run None l))) by (unfold fits; setoid_rewrite Hu; done).
  unfold reserve. rewrite Ec, Ep. cbn [mbind res_bind].
  destruct (risk_reserve_locked_ok B HB c now (load d') Hi' Ec Hk Hh Hs He) as [[Hf ->]|[Hf (b & _ & ->)]]; cbn [commit].
  - do 2 eexists. split; [done|]. cbn [rr_accepted]. split_and!; [by rewrite Hfit in Hf|done|].
    intros k. cbn [load persist default id]. unfold used in *. rewrite (hold_at c now _ k (co_facts _ _ Hk)).
    rewrite share_share_of. cbn [hold_amount spent reserved new_reservation scope_keys amounts].
    specialize (Hu k). lia.
  - do 2 eexists. split; [done|]. cbn [rr_accepted rr_blocking]. split_and!; [naive_solver|eauto|].
    intros k. rewrite Hu. lia.
Qed.

Lemma accepted_horizon B d c now d' r : (forall k, 0 <= B k <= MAX_RISK_VALUE) -> inv B (load d) ->
  call_ok B c -> clock_ok now -> reserve d c now = (d', Ok r) -> rr_accepted r = true ->
  inv B (load d') /\ check_call c = Ok tt /\
  reservations (load d') !! rc_hash c = Some (new_reservation c now).
Proof.
  intros HB Hi Hk Hc Hr Ha. destruct (reserve_keeps B HB d c now Hi Hk Hc) as [Hid _].
  rewrite Hr in Hid. unfold reserve in Hr. destruct (check_call c) as [[]|] eqn:Ec; [|done].
  destruct (open_pruned d now) as [d1 m] eqn:Ep.
  destruct (open_pruned_ok B _ now d1 m HB Hi Hc Ep) as (Hi' & _ & _ & [->|[_ [e ->]]]); [|done].
  cbn [mbind res_bind] in Hr. destruct (reserve_locked c now (load d1)) as [[q x]|] eqn:Er; [|done].
  destruct (reserve_locked_inv B HB c now _ q x Hi' Ec Hk Er) as [_ [(-> & _)|(-> & _ & Hx)]];
    cbn in Hr; injection Hr as <- <-; [|by rewrite Hx in Ha].
  split_and!; [done..|]. cbn. apply lookup_insert_eq.
Qed.

(** A request is accepted at most once: after an accepted reservation
    that expires at [e], and any further operations whose clocks are before
    the end of the replay window one hour after [e], every reservation with
    the same lineage and request identifier raises and holds nothing. *)
Theorem risk_request_once B l c now r d c' now' l' : (forall k, 0 <= B k <= MAX_RISK_VALUE) ->
  Forall (op_ok B) l -> call_ok B c -> clock_ok now ->
  reserve (run None l) c now = (d, Ok r) -> rr_accepted r = true ->
  let t := rc_expires_at c + REPLAY_TOMBSTONE_RETENTION_S in
  Forall (op_ok B) l' -> Forall (op_before t) l' -> clock_ok now' -> now' < t * TICKS ->
  rc_lineage_id c' = rc_lineage_id c -> rc_request_id c' = rc_request_id c -> call_ok B c' ->
  exists e, (reserve (run d l') c' now').2 = Raise e.
Proof.
  intros HB Hl Hk Hc Hr Ha t Hl' Hb Hc' Hn Elin Ereq Hk'. pose proof (reach_inv B l HB Hl) as Hi.
  destruct (accepted_horizon B _ c now d r HB Hi Hk Hc Hr Ha) as (Hid & _ & Hx).
  assert (Hh : horizon (load d) (rc_hash c) = Some t) by (unfold horizon; by rewrite Hx).
  destruct (run_remembers B HB t (rc_hash c) t d l' Hid Hl' Hb Hh ltac:(lia)) as (u & Hu & Htu).
  assert (Hi2 : inv B (load (run d l'))) by by apply run_inv.
  unfold reserve. destruct (check_call c') as [[]|e]; [|by exists e].
  destruct (open_pruned (run d l') now') as [d2 m] eqn:Ep.
  destruct (open_pruned_ok B _ now' d2 m HB Hi2 Hc' Ep) as (_ & _ & Hm & [->|[_ [e ->]]]); [|by exists e].
  destruct (Hm _ u Hu ltac:(by eapply before_le)) as (u' & Hu' & _).
  assert (Eh : rc_hash c' = rc_hash c) by (unfold rc_hash; congruence).
  cbn [mbind res_bind]. unfold reserve_locked. destruct (check_replay c' (load d2)) as [[]|e] eqn:E.
  - apply check_replay_ok in E. rewrite Eh in E. congruence.
  - by exists e.
Qed.

(** ** Outcomes *)

Definition stripped (s : string) : Prop := py_strip s = s.

Lemma identifier_stripped s : stripped s -> is_ok (identifier s 1024) = true -> identifier s 1024 = Ok s.
Proof.
  unfold stripped, identifier, require_string. intros ->.
  destruct (negb _); [done|]. destruct (_ <? _); done.
Qed.

Lemma check_call_ids c : check_call c = Ok tt ->
  stripped (rc_lineage_id c) -> stripped (rc_session_id c) -> stripped (rc_request_id c) ->
  identifier (rc_lineage_id c) 1024 = Ok (rc_lineage_id c) /\
  identifier (rc_session_id c) 1024 = Ok (rc_session_id c) /\
  identifier (rc_request_id c) 1024 = Ok (rc_request_id c).
Proof.
  intros Hc Hl Hs Hr. unfold check_call in Hc. apply bind_ok in Hc as ([] & Hc & _).
  rewrite iterR_ok in Hc.
  assert (Hi : forall s, s ∈ [rc_lineage_id c; rc_session_id c; rc_agent_id c; rc_request_id c; rc_fingerprint c] ->
    is_ok (identifier s 1024) = true).
  { intros s Hin. specialize (Hc s Hin). apply bind_ok in Hc as (x & -> & _). done. }
  split_and!; apply identifier_stripped; try done; apply Hi; set_solver.
Qed.

(** What settling a reservation returns and leaves. *)
Definition outcome_record (o : outcome) (now : Z) (rid : string) (x : reservation) : reservation :=
  set_status (outcome_status o) now (Lifecycle (outcome_id rid (outcome_name o)) Pending) x.
Definition settled (o : outcome) (now : Z) (rid : string) (x : reservation) (p : payload) : payload :=
  put_reservation rid (outcome_record o now rid x) (post_reservation (settle_amount o) x p).

Lemma outcome_active rid x o now p : validate (settled o now rid x p) = Ok tt ->
  reservations p !! rid = Some x -> res_status x = Active ->
  outcome_locked rid (session (scope_keys x)) (lineage (scope_keys x)) o now p
  = Ok (Some (settled o now rid x p), result_of (settled o now rid x p) rid (outcome_record o now rid x)
          (Lifecycle (outcome_id rid (outcome_name o)) Pending) false).
Proof.
  intros Hv Hx Es. unfold outcome_locked. rewrite Hx, !String.eqb_refl, Es. cbn [negb].
  assert (Hh : holds x = true) by (unfold holds; by rewrite Es).
  rewrite (bool_decide_eq_false_2 (Active = outcome_status o)) by by destruct o.
  rewrite (bool_decide_eq_false_2 (Active = Quarantined /\ _)) by (by intros [? _]).
  rewrite (bool_decide_eq_false_2 (Active = Quarantined)), Hh by done. cbn [andb negb].
  unfold settled, outcome_record, settle_amount in *. by rewrite Hv.
Qed.

Lemma outcome_settled rid o o' now now' x p :
  let p' := settled o now rid x p in let x' := outcome_record o now rid x in
  outcome_locked rid (session (scope_keys x)) (lineage (scope_keys x)) o' now' p'
  = if bool_decide (o' = o)
    then Ok (None, result_of p' rid x' (Lifecycle (outcome_id rid (outcome_name o)) Pending) true)
    else Raise RiskBudgetConflictError.
Proof.
  intros p' x'. unfold outcome_locked. subst p'. cbn [settled put_reservation reservations].
  rewrite lookup_insert_eq. unfold outcome_record. cbn [set_status scope_keys res_status res_lifecycle].
  rewrite !String.eqb_refl. by destruct o, o'.
Qed.

(** An accepted reservation can always be resolved, by the identifiers it
    was made with, either way: the outcome is recorded whatever the ledger
    holds, moves the reserved amounts to spent (commit) or gives them back
    (release) in exactly the accounts they were held in, and is final: the
    same outcome again changes nothing and is reported as a repeat, the other
    one is refused as a conflict. *)
Theorem risk_outcome_once B l c now r d o now' : (forall k, 0 <= B k <= MAX_RISK_VALUE) ->
  Forall (op_ok B) l -> call_ok B c -> clock_ok now ->
  reserve (run None l) c now = (d, Ok r) -> rr_accepted r = true ->
  stripped (rc_lineage_id c) -> stripped (rc_session_id c) -> stripped (rc_request_id c) ->
  let outcome_of d := record_outcome d (rc_lineage_id c) (rc_session_id c) (rc_request_id c) in
  exists d' r', outcome_of d o now' = (d', Ok r') /\ ro_status r' = outcome_status o /\
    ro_idempotent r' = false /\
    (forall k, account_at (load d') k
       = settle_amount o (share_of (rc_keys c) (rc_amounts c) k) (account_at (load d) k)) /\
    forall o2 now2, outcome_of d' o2 now2 =
      (d', if bool_decide (o2 = o)
           then Ok (OutcomeResult (ro_request_hash r') (ro_status r') (ro_remaining r') (ro_fact_digest r')
                      (ro_lifecycle r') true)
           else Raise RiskBudgetConflictError).
Proof.
  intros HB Hl Hk Hc Hr Ha Sl Ss Sr outcome_of. pose proof (reach_inv B l HB Hl) as Hi.
  destruct (accepted_horizon B _ c now d r HB Hi Hk Hc Hr Ha) as (Hid & Ec & Hx).
  destruct (check_call_ids c Ec Sl Ss Sr) as (El & Es & Er).
  set (x := new_reservation c now) in *. set (p' := settled o now' (rc_hash c) x (load d)).
  assert (Hi' : inv B p') by (apply inv_settle; try done; apply outcome_lifecycle_ok).
  exists (Some p'). eexists. subst outcome_of. unfold record_outcome.
  rewrite El, Es, Er. cbn [mbind res_bind]. rewrite !(risk_inv_validates B HB) by done. cbn [mbind res_bind].
  change (request_hash (rc_lineage_id c) (rc_request_id c)) with (rc_hash c).
  change (sha256_hex (rc_session_id c)) with (session (scope_keys x)).
  change (sha256_hex (rc_lineage_id c)) with (lineage (scope_keys x)).
  rewrite outcome_active; [|by apply (risk_inv_validates B HB)|done|done]. cbn [commit].
  split_and!; [done|done|done| |].
  - intros k. cbn [load default id]. change (rc_keys c) with (scope_keys x). change (rc_amounts c) with (amounts x).
    rewrite <- (share_share_of k x).
    apply (post_reservation_at _ x (load d) k). intros a. destruct o; [apply commit_zero|apply release_zero].
  - intros o2 now2. cbn [load default id ro_lifecycle result_of].
    subst p'. rewrite outcome_settled.
    by case_bool_decide.
Qed.
End Properties.

(** ** A ledger at work *)

Module Demo.

Definition digest64 : string := "0000000000000000000000000000000000000000000000000000000000000000".
Definition ceiling : gmap string (per_scope Z) := {["bytes_affected" := PerScope 100 100 100]}.
Definition call (request : string) (n : Z) : reserve_call :=
  ReserveCall "lineage" "session" "agent" request "fingerprint" [("bytes_affected", n)] ceiling
    "policy" "contract" ("sha256:" ++ digest64) 1000.
Definition bound (k : account_key) : Z := 100.
Definition history : list op :=
  [OpReserve (call "r0" 30) 0; OpOutcome "lineage" "session" "r0" Commit 1; OpPrune (2000 * TICKS)].

#[local] Existing Instance demo_digests.

Lemma bound_range k : 0 <= bound k <= MAX_RISK_VALUE.
Proof. done. Qed.
Lemma call_call_ok request n : call_ok bound (call request n).
Proof.
  split.
  - apply NoDup_singleton.
  - intros f m Hf. apply list_elem_of_singleton in Hf as [= -> ->]. reflexivity.
  - intros f cl s Hf. cbn in Hf. unfold ceiling in Hf. apply lookup_singleton_Some in Hf as [<- <-]. destruct s; done.
  - vm_compute. reflexivity.
Qed.
Lemma clock now : 0 <= now <= 4000 * TICKS -> clock_ok now.
Proof.
  intros Hn. split; [lia|]. transitivity (4000 + REPLAY_TOMBSTONE_RETENTION_S); [|done].
  apply Z.add_le_mono_r. transitivity (4000 * TICKS / TICKS); [apply Z.div_le_mono; done || lia|].
  by rewrite Z.div_mul.
Qed.
Lemma history_ok : Forall (op_ok bound) history.
Proof.
  apply Forall_cons. split; [split; [apply call_call_ok|by apply clock]|].
  apply Forall_cons. split; [done|]. apply Forall_singleton. by apply clock.
Qed.

Lemma risk_ceilings_hold_witness :
  let a := account_at (load (run None history)) ("bytes_affected", Session, sha256_hex "session") in
  0 <= reserved a /\ 0 <= spent a /\ spent a + reserved a <= 100.
Proof. apply (risk_ceilings_hold bound history bound_range history_ok). Defined.

Lemma risk_ledger_consistent_witness :
  snapshot (run None history) = Ok (load (run None history)).
Proof. apply (risk_ledger_consistent bound history bound_range history_ok). Defined.

(** Evaluation only as far as a boolean, so that no file is written out. *)
Definition accepts (m : store * res risk_exc RiskReservationResult) : bool :=
  match m.2 with Ok r => rr_accepted r | Raise _ => false end.
Lemma accepts_eq m : accepts m = true -> exists d r, m = (d, Ok r) /\ rr_accepted r = true.
Proof. destruct m as [d [r|]]; cbn; eauto. done. Qed.

Definition earlier : list op := [OpReserve (call "r0" 30) 0].
Lemma earlier_ok : Forall (op_ok bound) earlier.
Proof. apply Forall_singleton. split; [apply call_call_ok|by apply clock]. Qed.

Lemma clock_5 : clock_ok 5.
Proof. by apply clock. Qed.

Lemma clock_3000 : clock_ok (3000 * TICKS).
Proof. by apply clock. Qed.

Lemma open_pruned_eq l now : Forall (op_ok bound) l -> clock_ok now ->
  is_ok (open_pruned (run None l) now).2 = true ->
  exists d, open_pruned (run None l) now = (d, Ok (load d)) /\ d = (open_pruned (run None l) now).1.
Proof.
  intros Hl Hc. destruct (open_pruned (run None l) now) as [d m] eqn:E.
  destruct (open_pruned_ok bound _ now d m bound_range (reach_inv _ _ bound_range Hl) Hc E)
    as (_ & _ & _ & [->|[_ [e ->]]]); [|done]. intros _. by exists d.
Qed.

Lemma risk_reserve_decides_witness :
  exists d r, reserve (run None earlier) (call "r1" 60) 5 = (d, Ok r) /\
    (rr_accepted r = true <-> fits (call "r1" 60) (load (run None earlier))).
Proof.
  assert (Ho : is_ok (open_pruned (run None earlier) 5).2 = true) by (vm_compute; reflexivity).
  destruct (open_pruned_eq earlier 5 earlier_ok clock_5 Ho) as (d' & E & Ed).
  assert (Hc : check_call (call "r1" 60) = Ok tt) by (vm_compute; reflexivity).
  assert (Hh : horizon (load d') (rc_hash (call "r1" 60)) = None) by (rewrite Ed; vm_compute; reflexivity).
  assert (Hs : (base.size (reservations (load d')) < MAX_RESERVATIONS)%nat)
    by (rewrite Ed; apply Nat.ltb_lt; vm_compute; reflexivity).
  destruct (risk_reserve_decides bound earlier (call "r1" 60) 5 d' (load d') bound_range earlier_ok
    (call_call_ok _ _) clock_5 Hc E Hh Hs eq_refl) as (d & r & Hr & Hf & _).
  exists d, r. split; [exact Hr|exact Hf].
Defined.

Lemma accepted : accepts (reserve (run None earlier) (call "r1" 60) 5) = true.
Proof. vm_compute. reflexivity. Qed.

Lemma risk_request_once_witness :
  exists e, (reserve (run (reserve (run None earlier) (call "r1" 60) 5).1 [OpOutcome "lineage" "session" "r1" Release 6])
               (call "r1" 10) (3000 * TICKS)).2 = Raise e.
Proof.
  destruct (accepts_eq _ accepted) as (d & r & E & Ha). rewrite E. cbn [fst].
  apply (risk_request_once bound earlier (call "r1" 60) 5 r d (call "r1" 10) (3000 * TICKS)
    [OpOutcome "lineage" "session" "r1" Release 6] bound_range earlier_ok (call_call_ok _ _)
    clock_5 E Ha).
  - apply Forall_singleton. exact I.
  - apply Forall_singleton. exact I.
  - apply clock_3000.
  - reflexivity.
  - reflexivity.
  - reflexivity.
  - apply call_call_ok.
Defined.

Lemma risk_outcome_once_witness :
  exists d' r', record_outcome (reserve (run None earlier) (call "r1" 60) 5).1 "lineage" "session" "r1" Release 6
    = (d', Ok r') /\ ro_status r' = Released.
Proof.
  destruct (accepts_eq _ accepted) as (d & r & E & Ha). rewrite E. cbn [fst].
  destruct (risk_outcome_once bound earlier (call "r1" 60) 5 r d Release 6 bound_range earlier_ok
    (call_call_ok _ _) clock_5 E Ha) as (d' & r' & Ho & Hs & _); [reflexivity..|].
  exists d', r'. split; [exact Ho|exact Hs].
Defined.

(** An identifier with outer blanks is reserved as it is but looked up
    stripped, so the reservation cannot be resolved. *)
Definition refuses_outcome (d : store) (request : string) (o : outcome) : bool :=
  match (record_outcome d "lineage" "session" request o 6).2 with
  | Raise e => bool_decide (e = risk_invalid)
  | Ok _ => false
  end.
Lemma padded_request_unresolved :
  let m := reserve None (call " r1" 60) 5 in
  accepts m = true /\ refuses_outcome m.1 " r1" Commit = true /\ refuses_outcome m.1 " r1" Release = true.
Proof. vm_compute. done. Qed.
End Demo.
