(* ===== verification/Approvals.v ===== *)
(** * Approval rates

    [src/python/vibap/approvals.py]: [ApprovalRateTracker], the sliding window
    of approvals per operator.  Its lock makes a call one transition.  Times are
    in ticks, the window is a whole number of ticks, so [timestamp - window_s]
    is exact; a deque is a list, oldest first, and an operator without one has
    the empty deque a [defaultdict] makes.

    The tracker forgets what has left the window.  [tracker_refines] shows that
    nobody can tell: it answers as the specification does that keeps every
    approval ever recorded and counts those inside the window. *)

From S2P Require Import Prelude.
Open Scope string_scope.
Open Scope Z_scope.

Module Approvals.

Inductive approval_exc := ValueError.

Record tracker := Tracker {
  max_approvals : Z;
  window : Z;
  by_operator : gmap string (list Z)
}.

(** [ApprovalRateTracker.__init__]. *)
Definition new_tracker (max_per_hour window_s : Z) : res approval_exc tracker :=
  raise_if max_per_hour <? 1 with ValueError ;;
  raise_if window_s <=? 0 with ValueError ;;
  Ok (Tracker max_per_hour window_s ∅).

(** [_normalize_operator_id] of a string. *)
Definition normalize_operator_id (operator_id : string) : res approval_exc string :=
  let normalized := py_strip operator_id in
  raise_if negb (non_empty normalized) with ValueError ;;
  Ok normalized.

Fixpoint popleft_while (cutoff : Z) (timestamps : list Z) : list Z :=
  match timestamps with
  | t :: rest => if t <=? cutoff then popleft_while cutoff rest else timestamps
  | [] => []
  end.

Definition deque (tr : tracker) (operator_id : string) : list Z :=
  default [] (by_operator tr !! operator_id).
Definition set_deque (operator_id : string) (l : list Z) (tr : tracker) : tracker :=
  Tracker (max_approvals tr) (window tr) (<[operator_id := l]> (by_operator tr)).

(** [_prune_locked]. *)
Definition prune (operator_id : string) (timestamp : Z) (tr : tracker) : tracker :=
  set_deque operator_id (popleft_while (timestamp - window tr) (deque tr operator_id)) tr.

(** [record_approval]. *)
Definition record_approval (operator_id : string) (timestamp : Z) (tr : tracker)
    : res approval_exc tracker :=
  operator_id ← normalize_operator_id operator_id;
  let tr := prune operator_id timestamp tr in
  Ok (set_deque operator_id (deque tr operator_id ++ [timestamp])%list tr).

(** [check]. *)
Definition check (operator_id : string) (timestamp : Z) (tr : tracker)
    : res approval_exc (tracker * bool) :=
  operator_id ← normalize_operator_id operator_id;
  let tr := prune operator_id timestamp tr in
  Ok (tr, Z.of_nat (length (deque tr operator_id)) <? max_approvals tr).

(** ** The specification: every approval is kept *)

Inductive call := RecordApproval (operator_id : string) (t : Z) | Check (operator_id : string) (t : Z).
Definition call_time (c : call) : Z := match c with RecordApproval _ t | Check _ t => t end.

Notation log := (list (string * Z)).
Definition times_of (o : string) (l : log) : list Z := snd <$> filter (fun e => e.1 = o) l.
Definition in_window (t w : Z) (l : list Z) : list Z := filter (fun x => t - w < x) l.

(** What a call answers; [None] for a record. *)
Definition answer := res approval_exc (option bool).
Definition spec_step (max w : Z) (c : call) (l : log) : log * answer :=
  match c with
  | RecordApproval o t =>
      match normalize_operator_id o with
      | Ok o => ((l ++ [(o, t)])%list, Ok None)
      | Raise e => (l, Raise e)
      end
  | Check o t =>
      match normalize_operator_id o with
      | Ok o => (l, Ok (Some (Z.of_nat (length (in_window t w (times_of o l))) <? max)))
      | Raise e => (l, Raise e)
      end
  end.
Definition impl_step (c : call) (tr : tracker) : tracker * answer :=
  match c with
  | RecordApproval o t =>
      match record_approval o t tr with Ok tr' => (tr', Ok None) | Raise e => (tr, Raise e) end
  | Check o t =>
      match check o t tr with Ok (tr', b) => (tr', Ok (Some b)) | Raise e => (tr, Raise e) end
  end.
Fixpoint run {S} (step : call -> S -> S * answer) (calls : list call) (s : S) : list answer :=
  match calls with
  | [] => []
  | c :: calls => let '(s, a) := step c s in a :: run step calls s
  end.

(** ** The simulation *)

Fixpoint nondecreasing (from : Z) (l : list Z) : Prop :=
  match l with [] => True | x :: l => from <= x /\ nondecreasing x l end.
(** All earlier than [now], in order. *)
Definition ordered (l : list Z) (now : Z) : Prop := StronglySorted Z.le l /\ Forall (fun x => x <= now) l.

Lemma filter_all {A} (P : A -> Prop) `{!forall x, Decision (P x)} l : Forall P l -> filter P l = l.
Proof. induction 1 as [|x l Hx _ IH]; [done|]. by rewrite filter_cons_True, IH. Qed.

Lemma popleft_sorted cutoff l : StronglySorted Z.le l ->
  popleft_while cutoff l = filter (fun x => cutoff < x) l.
Proof.
  induction 1 as [|x l Hl IH Hx]; [done|]. cbn [popleft_while]. rewrite filter_cons.
  destruct (Z.leb_spec x cutoff); case_decide; try lia; [done|]. f_equal. symmetry.
  apply filter_all. eapply Forall_impl; [exact Hx|]. cbn. lia.
Qed.
Lemma filter_later c c' (l : list Z) : c <= c' ->
  filter (fun x => c' < x) (filter (fun x => c < x) l) = filter (fun x => c' < x) l.
Proof.
  intros Hc. induction l as [|x l IH]; [done|]. rewrite !(filter_cons _ x).
  destruct (decide (c < x)), (decide (c' < x)); rewrite ?filter_cons; try case_decide; try lia; congruence.
Qed.
Lemma filter_sorted (P : Z -> Prop) `{!forall x, Decision (P x)} l :
  StronglySorted Z.le l -> StronglySorted Z.le (filter P l).
Proof.
  induction 1 as [|x l Hl IH Hx]; [constructor|]. rewrite filter_cons. case_decide; [|done].
  constructor; [done|]. apply Forall_forall. intros y [_ Hy]%list_elem_of_filter.
  rewrite Forall_forall in Hx. auto.
Qed.
Lemma sorted_snoc l t : StronglySorted Z.le l -> Forall (fun x => x <= t) l ->
  StronglySorted Z.le (l ++ [t])%list.
Proof.
  induction 1 as [|x l Hl IH Hx]; intros Ht; [repeat constructor|].
  apply Forall_cons in Ht as [H1 H2]. cbn. constructor; [by apply IH|].
  apply Forall_app. split; [done|]. by constructor.
Qed.

(** The deque of every operator is the part of its history after some cutoff
    that no later window reaches. *)
Record simulates (max w now : Z) (l : log) (tr : tracker) : Prop := {
  sim_max : max_approvals tr = max;
  sim_window : window tr = w;
  sim_pos : 0 < w;
  sim_sorted : forall o, StronglySorted Z.le (times_of o l) /\ Forall (fun x => x <= now) (times_of o l);
  sim_deque : forall o, exists c, c <= now - w /\ deque tr o = filter (fun x => c < x) (times_of o l)
}.

Lemma deque_set o o' d tr : deque (set_deque o d tr) o' = if decide (o = o') then d else deque tr o'.
Proof.
  unfold deque, set_deque. cbn. case_decide as E; [subst; by rewrite lookup_insert_eq|by rewrite lookup_insert_ne].
Qed.
Lemma prune_simulates max w now t l tr o : simulates max w now l tr -> now <= t ->
  simulates max w t l (prune o t tr) /\ deque (prune o t tr) o = filter (fun x => t - w < x) (times_of o l).
Proof.
  intros [Hm Hw Hp Hs Hd] Ht.
  assert (Ho : deque (prune o t tr) o = filter (fun x => t - w < x) (times_of o l)).
  { unfold prune. rewrite deque_set, decide_True by done. destruct (Hd o) as (c & Hc & ->).
    rewrite popleft_sorted by (apply filter_sorted, Hs). rewrite Hw. apply filter_later. lia. }
  split; [|done]. split; [done|done|done| |].
  - intros o'. destruct (Hs o') as [H1 H2]. split; [done|]. eapply Forall_impl; [exact H2|]. cbn. lia.
  - intros o'. destruct (decide (o = o')) as [<-|Hne]; [exists (t - w); split; [lia|done]|].
    destruct (Hd o') as (c & Hc & E). exists c. split; [lia|]. unfold prune.
    by rewrite deque_set, decide_False.
Qed.

Lemma times_of_snoc o o' t l : times_of o (l ++ [(o', t)])%list
  = if decide (o' = o) then (times_of o l ++ [t])%list else times_of o l.
Proof.
  unfold times_of. rewrite filter_app, fmap_app, filter_cons, filter_nil. cbn [fst].
  case_decide; cbn; [done|]. by rewrite app_nil_r.
Qed.

Lemma step_simulates max w now c l tr : simulates max w now l tr -> now <= call_time c ->
  simulates max w (call_time c) (spec_step max w c l).1 (impl_step c tr).1 /\
  (impl_step c tr).2 = (spec_step max w c l).2.
Proof.
  intros Hsim Ht. assert (Hlater : simulates max w (call_time c) l tr).
  { destruct Hsim as [Hm Hw Hp Hs Hd]. split; [done|done|done| |].
    - intros o. destruct (Hs o) as [H1 H2]. split; [done|]. eapply Forall_impl; [exact H2|]. cbn. lia.
    - intros o. destruct (Hd o) as (k & Hk & E). exists k. split; [lia|done]. }
  destruct c as [o t|o t]; cbn [call_time spec_step impl_step] in *;
    unfold record_approval, check; destruct (normalize_operator_id o) as [o'|e]; cbn [mbind res_bind];
    try done; cbn [fst snd].
  - destruct (prune_simulates max w now t l tr o' Hsim Ht) as [[Hm Hw Hp Hs Hd] Ho]. split; [|done].
    split; [done|done|done| |].
    + intros o2. rewrite times_of_snoc. case_decide as E; [subst o2|done]. destruct (Hs o') as [H1 H2].
      split; [by apply sorted_snoc|]. apply Forall_app. split; [done|]. by constructor.
    + intros o2. rewrite deque_set, times_of_snoc. case_decide as E; [subst o2|done].
      destruct (Hd o') as (k & Hk & E). exists k. split; [done|].
      by rewrite E, filter_app, (filter_cons_True _ t) by lia.
  - destruct (prune_simulates max w now t l tr o' Hsim Ht) as [Hs Ho]. split; [done|].
    rewrite Ho, (sim_max _ _ _ _ _ Hs). done.
Qed.

Lemma run_simulates max w calls now l tr : simulates max w now l tr ->
  nondecreasing now (call_time <$> calls) -> run impl_step calls tr = run (spec_step max w) calls l.
Proof.
  revert now l tr. induction calls as [|c calls IH]; intros now l tr Hsim Hn; [done|].
  destruct Hn as [Hc Hn]. destruct (step_simulates max w now c l tr Hsim Hc) as [Hs Ha]. cbn [run].
  destruct (impl_step c tr) as [tr' a], (spec_step max w c l) as [l' a']. cbn [fst snd] in *. subst a'.
  f_equal. by eapply IH.
Qed.

(** C32. The tracker refines the specification that never forgets: over any
    sequence of calls made in time order, for any operators, every answer of
    [record_approval] and [check] is the one computed from the complete history
    of approvals, so an operator is refused exactly while the window holds the
    maximum. *)
Theorem tracker_refines max w tr calls now : new_tracker max w = Ok tr ->
  nondecreasing now (call_time <$> calls) ->
  run impl_step calls tr = run (spec_step max w) calls [].
Proof.
  unfold new_tracker. intros [_ [Hw [= <-]]%guard_ok]%guard_ok Hn. apply (run_simulates max w calls now); [|done].
  split; [done|done|lia|by repeat constructor|]. intros o. exists (now - w). split; [lia|].
  unfold deque. cbn. by rewrite lookup_empty.
Qed.

(** ** A run *)

Module Demo.
Definition two_per_hour : tracker := Tracker 2 3600 ∅.
Definition calls : list call :=
  [RecordApproval "ann" 0; RecordApproval " ann " 10; Check "ann" 20; Check "bob" 20; Check "ann" 3600; Check "" 3600].
Lemma tracker_refines_witness :
  run impl_step calls two_per_hour
  = [Ok None; Ok None; Ok (Some false); Ok (Some true); Ok (Some true); Raise ValueError].
Proof.
  rewrite (tracker_refines 2 3600 two_per_hour calls 0); [vm_compute; reflexivity|reflexivity|].
  cbn. lia.
Defined.
End Demo.

End Approvals.
