(* ===== verification/MemoryStore.v ===== *)
(** * Governed memory

    [src/python/vibap/memory.py]: [GovernedMemoryStore], records stored with a
    signed provenance tag.  A record is read back only under a tag that is
    genuine, in force, for this store and this record, and for exactly the
    stored content.  Random identifiers and clock readings are arguments. *)

From S2P Require Import Prelude CanonicalJson Passport PyJson Policy.
Import Passport PyJson Policy.
Open Scope string_scope.
Open Scope Z_scope.

Module MemoryStore.

Definition MEMORY_AUDIENCE : string := "vibap-governed-memory".
Definition MEMORY_ISSUER : string := "vibap-governed-memory".

(** [MemoryIntegrityError] by its message, and the [ValueError] of the
    constructor. *)
Inductive memory_exc :=
| RecordRevoked | UnknownRecord | ProvenanceInvalid | IatInvalid
| StoreMismatch | RecordMismatch | ContentMismatch
| TtlInvalid.

Section Memory.
Context `{!Digests, !Jwt, !PyRepr}.

Record row := Row { content : string; tag : token }.
Record store := Store {
  store_id : string;
  resource_family : string;
  ttl_s : Z;
  integrity_policy : pyval;
  records : gmap string row;
  revoked : gset string
}.

(** The constructor with [__post_init__]. *)
Definition new_store (id family : string) (ttl : Z) (policy : pyval) : res memory_exc store :=
  raise_if ttl <=? 0 with TtlInvalid ;;
  Ok (Store id family ttl policy ∅ ∅).

(** [_policy_wire]. *)
Definition policy_wire (s : store) : string :=
  match integrity_policy s with PStr p => p | v => dumps sorted_style v end.
(** [_content_digest]. *)
Definition content_digest (c : string) : string := sha256_hex c.

Definition tag_claims (s : store) (c record_id : string) (now : Z) : claims :=
  [("iss", PStr MEMORY_ISSUER); ("aud", PStr MEMORY_AUDIENCE); ("sub", PStr (store_id s));
   ("iat", PInt now); ("exp", PInt (now + ttl_s s)); ("jti", PStr record_id);
   ("rf", PStr (resource_family s)); ("ipol", PStr (policy_wire s)); ("ch", PStr (content_digest c))].
(** [write]; [record_id] is the new identifier, [now] in seconds. *)
Definition write (s : store) (c : string) (actor_key : private_key) (record_id : string) (now : Z)
    : store * string :=
  let t := jwt_encode (tag_claims s c record_id now) actor_key in
  (Store (store_id s) (resource_family s) (ttl_s s) (integrity_policy s)
     (<[record_id := Row c t]> (records s)) (revoked s), record_id).

Definition REQUIRED_TAG_CLAIMS : list string := ["exp"; "iat"; "jti"; "ch"; "sub"].
(** [read]; every tag of a store was made by [write], so a failed decoding is
    an expired or forged one. *)
Definition read (s : store) (record_id : string) (verifier_key : public_key) (t : Z) (t' : Z)
    : res memory_exc (string * claims) :=
  raise_if bool_decide (record_id ∈ revoked s) with RecordRevoked ;;
  match records s !! record_id with
  | None => Raise UnknownRecord
  | Some r =>
      match jwt_decode (tag r) verifier_key (Some MEMORY_AUDIENCE) REQUIRED_TAG_CLAIMS t with
      | None => Raise ProvenanceInvalid
      | Some c =>
          raise_if negb (py_eq_str (py_get "iss" c) MEMORY_ISSUER) with ProvenanceInvalid ;;
          raise_if negb (is_ok (assert_iat_in_window (py_get "iat" c) DEFAULT_IAT_FUTURE_SKEW_S
                                  DEFAULT_IAT_PAST_SKEW_S t'))
            with IatInvalid ;;
          raise_if negb (String.eqb (py_str (py_get "sub" c)) (store_id s)) with StoreMismatch ;;
          raise_if negb (String.eqb (py_str (py_get "jti" c)) record_id) with RecordMismatch ;;
          raise_if negb (String.eqb (py_str (py_get "ch" c)) (content_digest (content r)))
            with ContentMismatch ;;
          Ok (content r, c)
      end
  end.

(** [revoke]. *)
Definition revoke (s : store) (record_id : string) : store :=
  Store (store_id s) (resource_family s) (ttl_s s) (integrity_policy s) (records s)
    ({[record_id]} ∪ revoked s).

Lemma read_ok s rid key t t' c cl : read s rid key t t' = Ok (c, cl) ->
  rid ∉ revoked s /\ exists r, records s !! rid = Some r /\ content r = c /\
    jwt_decode (tag r) key (Some MEMORY_AUDIENCE) REQUIRED_TAG_CLAIMS t = Some cl /\
    py_str (py_get "sub" cl) = store_id s /\ py_str (py_get "jti" cl) = rid /\
    py_str (py_get "ch" cl) = content_digest c.
Proof.
  unfold read. intros [Hrev Hr]%guard_ok. apply bool_decide_eq_false in Hrev. split; [done|].
  destruct (records s !! rid) as [r|]; [|done]. exists r. split; [done|].
  destruct (jwt_decode _ _ _ _ _) as [c0|]; [|done].
  rewrite !guard_ok, !negb_false_iff, !String.eqb_eq in Hr. destruct Hr as (_ & _ & Hs & Hj & Hc & [= <- <-]).
  done.
Qed.

(** What was written is read back by the holder of the matching key,
    until the record expires, is revoked or leaves the issue-time window. *)
Theorem memory_write_read s c key rid now t t' :
  rid ∉ revoked s -> t < (now + ttl_s s) * TICKS ->
  (now - DEFAULT_IAT_FUTURE_SKEW_S) * TICKS <= t' <= (now + DEFAULT_IAT_PAST_SKEW_S) * TICKS ->
  read (write s c key rid now).1 rid (public_of key) t t' = Ok (c, tag_claims s c rid now).
Proof.
  intros Hr Hexp Hw. unfold read. cbn [write fst revoked records store_id].
  rewrite bool_decide_false, lookup_insert_eq by done. cbn [tag content].
  rewrite jwt_decode_encode.
  2: { unfold jwt_claims_ok. cbn -[Z.ltb Z.mul TICKS]. by rewrite (proj2 (Z.ltb_lt _ _) Hexp). }
  cbn -[assert_iat_in_window]. rewrite !String.eqb_refl. cbn [negb].
  assert (Hiat : assert_iat_in_window (PInt now) DEFAULT_IAT_FUTURE_SKEW_S DEFAULT_IAT_PAST_SKEW_S t' = Ok tt).
  { unfold assert_iat_in_window. cbn [py_int]. unfold DEFAULT_IAT_FUTURE_SKEW_S, DEFAULT_IAT_PAST_SKEW_S, TICKS in *.
    rewrite (proj2 (Z.ltb_ge _ _)), (proj2 (Z.ltb_ge _ _)) by lia. done. }
  by rewrite Hiat.
Qed.

(** Provenance binds a record.  When the row of a record still has the
    tag that [write] made, whatever has been done to its content and to the
    rest of the store, a read succeeds only in the store it was written to,
    before it expires, while it is not revoked, and with content of the digest
    that was signed. *)
Theorem memory_read_integrity s c key rid now s' c' key' t t' out cl :
  records s' !! rid = Some (Row c' (jwt_encode (tag_claims s c rid now) key)) ->
  read s' rid key' t t' = Ok (out, cl) ->
  out = c' /\ content_digest c' = content_digest c /\ store_id s' = store_id s /\
  rid ∉ revoked s' /\ t < (now + ttl_s s) * TICKS.
Proof.
  intros Hrow Hread. destruct (read_ok _ _ _ _ _ _ _ Hread) as (Hrev & r & Hr & Hc & Hd & Hs & Hj & Hch).
  rewrite Hrow in Hr. injection Hr as <-. cbn [content tag] in *. subst c'.
  pose proof (jwt_decode_payload _ _ _ _ _ _ Hd) as Hcl. rewrite jwt_payload_encode in Hcl. subst cl.
  split_and!; [done|by rewrite <- Hch|by rewrite <- Hs|done|].
  by apply (jwt_decode_unexpired _ _ _ _ _ _ (now + ttl_s s) Hd).
Qed.
End Memory.

(** ** A record *)

Module Demo.
#[local] Existing Instances demo_digests demo_jwt.
#[local] Instance plain_repr : PyRepr := {| repr_container := fun _ => "{}" |}.
Definition notes : store := Store "notes" "vibap.memory.generic" 3600 (PStr "default") ∅ ∅.
Definition written : store := (write notes "hello" tt "r1" 1000).1.

Lemma memory_write_read_witness :
  read written "r1" tt (2000 * TICKS) (2000 * TICKS) = Ok ("hello", tag_claims notes "hello" "r1" 1000).
Proof.
  apply (@memory_write_read demo_digests demo_jwt plain_repr notes "hello" tt "r1" 1000 (2000 * TICKS) (2000 * TICKS)).
  - apply not_elem_of_empty.
  - vm_compute. reflexivity.
  - vm_compute. split; discriminate.
Defined.

Lemma record_readable : read written "r1" tt (2000 * TICKS) (2000 * TICKS)
  = Ok ("hello", tag_claims notes "hello" "r1" 1000).
Proof. vm_compute. reflexivity. Qed.
Lemma memory_read_integrity_witness : "r1" ∉ revoked written /\ 2000 * TICKS < 4600 * TICKS.
Proof.
  destruct (@memory_read_integrity demo_digests demo_jwt plain_repr notes "hello" tt "r1" 1000 written "hello" tt
    (2000 * TICKS) (2000 * TICKS) "hello" (tag_claims notes "hello" "r1" 1000)) as (_ & _ & _ & Hr & Ht).
  - vm_compute. reflexivity.
  - exact record_readable.
  - exact (conj Hr Ht).
Defined.
End Demo.

End MemoryStore.
