(* ===== verification/PassportState.v ===== *)
(** * Passport state: replay cache, revocation list, lineage index

    [GovernanceProxy] of [src/python/vibap/proxy.py], the part that admits a
    passport: the three state files and their parsers, the cache of lineage
    parents, [revoke], [_record_passport_use], [verify_passport_token] and
    [start_session].

    A proxy process has its own memory ([proc]); the state directory
    ([store]) is shared by all processes.  Every access to the state files
    holds the lock file of the directory, and the admission of a passport
    holds its session lock, so each operation is a transition of the pair.
    What an operation has written stays written when it raises, so the
    operations run in a state monad whose exceptions keep the state.

    A state file is missing, unreadable (empty, or not a JSON object) or an
    object.  The order of members is not observed and is not kept.  Random
    identifiers and clock readings are arguments; the readings within one
    locked section are one reading.  Times are in ticks, the times in files in
    seconds. *)

From S2P Require Import Prelude CanonicalJson SpendPolicy RiskPolicy Passport PyJson Policy Session.
Import Passport PyJson Policy Session.
Open Scope string_scope.
Open Scope Z_scope.

Module PassportState.

Definition REPLAY_CACHE_MAX_ENTRIES : nat := 4096.
Definition LINEAGE_PARENT_CACHE_MAX_ENTRIES : nat := 4096.
Definition PASSPORT_STATE_SCHEMA_VERSION : Z := 1.
Definition KB_NONCE_MAX : nat := 4096.
Definition POP_MAX_AGE_S : Z := 300.

(** ** State *)

Inductive file := Missing | Unreadable | Object (payload : claims).

(** The session file holds the token and the claims; [None] is a file that
    does not parse or lacks them. *)
Definition session_file := option (string * claims).
Record store := Store {
  replay_cache : file;
  revoked_list : file;
  lineage_hashes : file;
  session_files : gmap string session_file
}.

Definition LineageEdge := (option string * option string)%type.

Inductive state_exc :=
| Unavailable (code : string) (sentinel_mismatch : bool)   (* PassportStateUnavailableError *)
| Denied                                                  (* PermissionError *)
| BadValue                                                (* ValueError *)
| Overflow                                                (* OverflowError *)
| Rejected (e : passport_exc)                             (* what the passport checks raise *)
| StrError.                                               (* the error of an evaluation *)

Definition REPLAY_UNAVAILABLE : string := "replay_cache_unavailable".
Definition REVOKED_UNAVAILABLE : string := "revocation_list_unavailable".
Definition LINEAGE_UNAVAILABLE : string := "lineage_hashes_unavailable".

(** ** Parsers of the state files *)

(** A regular expression ending in [$] under [match] also admits a final
    newline. *)
Definition chop_newline (s : string) : string :=
  let n := (String.length s - 1)%nat in
  if String.eqb (substring n 1 s) (String (ascii_of_N 10) "") then substring 0 n s else s.
Definition session_id_match (s : string) : bool := uuid_match s || uuid_match (chop_newline s).
Definition is_hex (a : ascii) : bool := is_lower_hex (ascii_lower a).
Definition hex64 (s : string) : bool := (String.length s =? 64)%nat && str_all is_hex s.
Definition sha256_hex_match (s : string) : bool := hex64 s || hex64 (chop_newline s).

(** [int(v)], its [TypeError] and [ValueError] turned into the state error. *)
Definition state_int (code : string) (v : pyval) : res state_exc Z :=
  match v with
  | PFloat (SpecFloat.S754_infinity _) => Raise Overflow
  | _ => match py_int v with Some z => Ok z | None => Raise (Unavailable code false) end
  end.

(** The version and sentinel members; [None] for a legacy file without them. *)
Definition check_header (payload : claims) (expected : option string) (allow_legacy : bool)
    (code : string) : res state_exc (option string) :=
  if allow_legacy && negb (has_key "sentinel" payload) && negb (has_key "version" payload) then Ok None
  else
    raise_if negb (py_eq_int (py_get "version" payload) PASSPORT_STATE_SCHEMA_VERSION)
      with Unavailable code false ;;
    match py_get "sentinel" payload with
    | PStr s =>
        raise_if negb (non_empty s) with Unavailable code false ;;
        raise_if match expected with Some e => negb (String.eqb s e) | None => false end
          with Unavailable code true ;;
        Ok (Some s)
    | _ => Raise (Unavailable code false)
    end.

(** [_parse_replay_cache_payload]: the entries still in force, first use and
    expiry. *)
Definition parse_replay_entry (now : Z) (kv : string * pyval) (entries : gmap string (Z * Z))
    : res state_exc (gmap string (Z * Z)) :=
  match kv.2 with
  | PDict meta =>
      exp ← match dget "exp" meta with
            | Some v => state_int REPLAY_UNAVAILABLE v
            | None => Raise (Unavailable REPLAY_UNAVAILABLE false)
            end;
      first_seen ← state_int REPLAY_UNAVAILABLE
                     (get_or "first_seen" (get_or "last_seen" (PInt 0) meta) meta);
      Ok (if now / TICKS <? exp then <[kv.1 := (first_seen, exp)]> entries else entries)
  | _ => Raise (Unavailable REPLAY_UNAVAILABLE false)
  end.
Definition parse_replay_cache (payload : claims) (expected : option string) (allow_legacy : bool) (now : Z)
    : res state_exc (option string * gmap string (Z * Z)) :=
  sentinel ← check_header payload expected allow_legacy REPLAY_UNAVAILABLE;
  match get_or "entries" (PDict []) payload with
  | PDict raw => entries ← foldR (parse_replay_entry now) raw ∅; Ok (sentinel, entries)
  | _ => Raise (Unavailable REPLAY_UNAVAILABLE false)
  end.

(** [_parse_revoked_payload]. *)
Definition parse_revoked_entry (kv : pyval * pyval) (revoked : gmap string Z)
    : res state_exc (gmap string Z) :=
  match kv.1 with
  | PStr jti => t ← state_int REVOKED_UNAVAILABLE kv.2; Ok (<[jti := t]> revoked)
  | _ => Raise (Unavailable REVOKED_UNAVAILABLE false)
  end.
Definition parse_revoked (payload : claims) (expected : option string) (allow_legacy : bool)
    : res state_exc (option string * gmap string Z) :=
  sentinel ← check_header payload expected allow_legacy REVOKED_UNAVAILABLE;
  raw ← match get_or "jtis" (PDict []) payload with
        | PDict d => Ok ((fun kv => (PStr kv.1, kv.2)) <$> d)
        | PList l => if allow_legacy then Ok ((fun jti => (jti, PInt 0)) <$> l)
                     else Raise (Unavailable REVOKED_UNAVAILABLE false)
        | _ => Raise (Unavailable REVOKED_UNAVAILABLE false)
        end;
  revoked ← foldR parse_revoked_entry raw ∅;
  Ok (sentinel, revoked).

(** [_parse_lineage_hashes_payload]. *)
Definition parse_token_hash (kv : string * pyval) (hashes : gmap string string)
    : res state_exc (gmap string string) :=
  match kv.2 with
  | PStr h =>
      raise_if negb (non_empty kv.1) || negb (sha256_hex_match h)
        with Unavailable LINEAGE_UNAVAILABLE false ;;
      Ok (<[kv.1 := py_lower h]> hashes)
  | _ => Raise (Unavailable LINEAGE_UNAVAILABLE false)
  end.
Definition parse_parent (kv : string * pyval) (edges : gmap string LineageEdge)
    : res state_exc (gmap string LineageEdge) :=
  let bad := Unavailable LINEAGE_UNAVAILABLE false in
  raise_if negb (non_empty kv.1) with bad ;;
  match kv.2 with
  | PDict meta =>
      parent ← match py_get "parent_jti" meta with
               | PNone => Ok None
               | PStr s => raise_if negb (non_empty s) with bad ;; Ok (Some s)
               | _ => Raise bad
               end;
      hash ← match py_get "parent_token_hash" meta with
             | PNone => Ok None
             | PStr h => raise_if negb (sha256_hex_match h) with bad ;; Ok (Some (py_lower h))
             | _ => Raise bad
             end;
      raise_if bool_decide (parent = None) && negb (bool_decide (hash = None)) with bad ;;
      Ok (<[kv.1 := (parent, hash)]> edges)
  | _ => Raise bad
  end.
Definition parse_lineage_hashes (payload : claims) (expected : option string) (allow_legacy : bool)
    : res state_exc (option string * gmap string string * gmap string LineageEdge) :=
  sentinel ← check_header payload expected allow_legacy LINEAGE_UNAVAILABLE;
  match get_or "token_hashes" (PDict []) payload, get_or "parents" (PDict []) payload with
  | PDict raw_hashes, PDict raw_parents =>
      hashes ← foldR parse_token_hash raw_hashes ∅;
      edges ← foldR parse_parent raw_parents ∅;
      Ok (sentinel, hashes, edges)
  | _, _ => Raise (Unavailable LINEAGE_UNAVAILABLE false)
  end.

(** The files as the three [_persist_*_locked] write them. *)
Definition replay_file (sentinel : string) (entries : gmap string (Z * Z)) : file :=
  Object [("version", PInt PASSPORT_STATE_SCHEMA_VERSION); ("sentinel", PStr sentinel);
    ("entries", PDict ((fun kv => (kv.1, PDict [("first_seen", PInt kv.2.1); ("exp", PInt kv.2.2)]))
                         <$> items entries))].
Definition revoked_file (sentinel : string) (revoked : gmap string Z) : file :=
  Object [("version", PInt PASSPORT_STATE_SCHEMA_VERSION); ("sentinel", PStr sentinel);
    ("jtis", PDict ((fun kv => (kv.1, PInt kv.2)) <$> items revoked))].
Definition opt_str (o : option string) : pyval := match o with Some s => PStr s | None => PNone end.
Definition lineage_file (sentinel : string) (hashes : gmap string string)
    (edges : gmap string LineageEdge) : file :=
  Object [("version", PInt PASSPORT_STATE_SCHEMA_VERSION); ("sentinel", PStr sentinel);
    ("token_hashes", PDict ((fun kv => (kv.1, PStr kv.2)) <$> items hashes));
    ("parents", PDict ((fun kv => (kv.1, PDict [("parent_jti", opt_str kv.2.1);
                                                ("parent_token_hash", opt_str kv.2.2)]))
                         <$> items edges))].

(** ** Operations *)

Section Proxy.
Context `{!Digests, !Jwt, !PyRepr}.

Record proc := Proc {
  replay_sentinel : option string;
  revoked_sentinel : option string;
  lineage_sentinel : option string;
  parent_cache : list (string * option string);   (* least recently used first *)
  sessions : gmap string (token * claims);
  seen_kb_nonces : list (string * Z)              (* oldest first *)
}.
Definition new_proc : proc := Proc None None None [] ∅ [].

Record world := World { mem : proc; disk : store }.

Definition M (A : Type) : Type := world -> world * res state_exc A.
#[local] Instance M_ret : MRet M := fun A a w => (w, Ok a).
#[local] Instance M_bind : MBind M := fun A B f m w =>
  match m w with
  | (w', Ok a) => f a w'
  | (w', Raise e) => (w', Raise e)
  end.
Definition throw {A} (e : state_exc) : M A := fun w => (w, Raise e).
Definition liftR {A} (m : res state_exc A) : M A := fun w => (w, m).
Definition check (b : bool) (e : state_exc) : M unit := if b then throw e else mret tt.
Definition get_mem : M proc := fun w => (w, Ok (mem w)).
Definition get_disk : M store := fun w => (w, Ok (disk w)).
Definition put_mem (f : proc -> proc) : M unit := fun w => (World (f (mem w)) (disk w), Ok tt).
Definition put_disk (f : store -> store) : M unit := fun w => (World (mem w) (f (disk w)), Ok tt).
(** [except PassportStateUnavailableError: return None]. *)
Definition or_none {A} (m : M (option A)) : M (option A) := fun w =>
  match m w with
  | (w', Raise (Unavailable _ _)) => (w', Ok None)
  | r => r
  end.
(** [except PassportStateUnavailableError] around a parse, for the mismatch. *)
Definition on_mismatch {A} (m : M A) (retry : M A) : M A := fun w =>
  match m w with
  | (w', Raise (Unavailable _ true)) => retry w'
  | r => r
  end.

Definition set_replay_sentinel (s : option string) (p : proc) : proc :=
  Proc s (revoked_sentinel p) (lineage_sentinel p) (parent_cache p) (sessions p) (seen_kb_nonces p).
Definition set_revoked_sentinel (s : option string) (p : proc) : proc :=
  Proc (replay_sentinel p) s (lineage_sentinel p) (parent_cache p) (sessions p) (seen_kb_nonces p).
Definition set_lineage_sentinel (s : option string) (p : proc) : proc :=
  Proc (replay_sentinel p) (revoked_sentinel p) s (parent_cache p) (sessions p) (seen_kb_nonces p).
Definition set_parent_cache (c : list (string * option string)) (p : proc) : proc :=
  Proc (replay_sentinel p) (revoked_sentinel p) (lineage_sentinel p) c (sessions p) (seen_kb_nonces p).
Definition set_sessions (m : gmap string (token * claims)) (p : proc) : proc :=
  Proc (replay_sentinel p) (revoked_sentinel p) (lineage_sentinel p) (parent_cache p) m (seen_kb_nonces p).
Definition set_nonces (l : list (string * Z)) (p : proc) : proc :=
  Proc (replay_sentinel p) (revoked_sentinel p) (lineage_sentinel p) (parent_cache p) (sessions p) l.
Definition set_replay_cache (f : file) (d : store) : store :=
  Store f (revoked_list d) (lineage_hashes d) (session_files d).
Definition set_revoked_list (f : file) (d : store) : store :=
  Store (replay_cache d) f (lineage_hashes d) (session_files d).
Definition set_lineage_hashes (f : file) (d : store) : store :=
  Store (replay_cache d) (revoked_list d) f (session_files d).
Definition set_session_file (jti : string) (f : session_file) (d : store) : store :=
  Store (replay_cache d) (revoked_list d) (lineage_hashes d) (<[jti := f]> (session_files d)).

(** [_load_state_json_locked]. *)
Definition load_state_json (f : file) (code : string) : M claims :=
  match f with Object payload => mret payload | _ => throw (Unavailable code false) end.

Definition is_missing (f : file) : bool := match f with Missing => true | _ => false end.
(** [_passport_state_can_bootstrap_locked(ignore_lockfile=True)]. *)
Definition can_bootstrap (d : store) : bool :=
  is_missing (replay_cache d) && is_missing (revoked_list d) && is_missing (lineage_hashes d)
  && bool_decide (session_files d = ∅).

(** *** The replay cache *)

Definition active_sentinel (given own : option string) : option string :=
  match given with Some s => Some s | None => own end.

(** [_persist_replay_cache_locked]. *)
Definition persist_replay_cache (entries : gmap string (Z * Z)) (sentinel : option string) : M unit :=
  p ← get_mem;
  match active_sentinel sentinel (replay_sentinel p) with
  | None => throw (Unavailable REPLAY_UNAVAILABLE false)
  | Some s => put_disk (set_replay_cache (replay_file s entries))
  end.

(** [_initialize_replay_cache_locked]; [fresh] is the new sentinel. *)
Definition initialize_replay_cache (bootstrap : bool) (fresh : string) (now : Z) : M (option string) :=
  d ← get_disk;
  if is_missing (replay_cache d) then
    if bootstrap then _ ← persist_replay_cache ∅ (Some fresh); mret (Some fresh)
    else mret None
  else
    payload ← load_state_json (replay_cache d) REPLAY_UNAVAILABLE;
    '(sentinel, entries) ← liftR (parse_replay_cache payload None true now);
    match sentinel with
    | Some s => mret (Some s)
    | None => _ ← persist_replay_cache entries (Some fresh); mret (Some fresh)
    end.
(** [_try_initialize_replay_cache_locked]. *)
Definition try_initialize_replay_cache (fresh : string) (now : Z) : M (option string) :=
  d ← get_disk;
  or_none (initialize_replay_cache (can_bootstrap d) fresh now).

Definition require_replay_sentinel (fresh : string) (now : Z) : M unit :=
  s ← try_initialize_replay_cache fresh now;
  _ ← put_mem (set_replay_sentinel s);
  check (bool_decide (s = None)) (Unavailable REPLAY_UNAVAILABLE false).
Definition read_replay_cache (now : Z) : M (gmap string (Z * Z)) :=
  d ← get_disk;
  p ← get_mem;
  payload ← load_state_json (replay_cache d) REPLAY_UNAVAILABLE;
  '(_, entries) ← liftR (parse_replay_cache payload (replay_sentinel p) false now);
  mret entries.
(** [_load_replay_cache_locked]. *)
Definition load_replay_cache (fresh : string) (now : Z) : M (gmap string (Z * Z)) :=
  p ← get_mem;
  _ ← (match replay_sentinel p with
       | None => require_replay_sentinel fresh now
       | Some _ => mret tt
       end : M unit);
  on_mismatch (read_replay_cache now)
    (_ ← put_mem (set_replay_sentinel None);
     _ ← require_replay_sentinel fresh now;
     read_replay_cache now).

(** *** The revocation list *)

(** [_persist_revoked_locked]. *)
Definition persist_revoked (revoked : gmap string Z) (sentinel : option string) : M unit :=
  p ← get_mem;
  match active_sentinel sentinel (revoked_sentinel p) with
  | None => throw (Unavailable REVOKED_UNAVAILABLE false)
  | Some s => put_disk (set_revoked_list (revoked_file s revoked))
  end.

(** [_initialize_revoked_locked]. *)
Definition initialize_revoked (bootstrap : bool) (fresh : string) : M (option string) :=
  d ← get_disk;
  if is_missing (revoked_list d) then
    if bootstrap then _ ← persist_revoked ∅ (Some fresh); mret (Some fresh)
    else mret None
  else
    payload ← load_state_json (revoked_list d) REVOKED_UNAVAILABLE;
    '(sentinel, revoked) ← liftR (parse_revoked payload None true);
    match sentinel with
    | Some s => mret (Some s)
    | None => _ ← persist_revoked revoked (Some fresh); mret (Some fresh)
    end.
(** [_try_initialize_revoked_locked]. *)
Definition try_initialize_revoked (fresh : string) : M (option string) :=
  d ← get_disk;
  or_none (initialize_revoked (can_bootstrap d) fresh).

Definition require_revoked_sentinel (fresh : string) : M unit :=
  s ← try_initialize_revoked fresh;
  _ ← put_mem (set_revoked_sentinel s);
  check (bool_decide (s = None)) (Unavailable REVOKED_UNAVAILABLE false).
Definition read_revoked : M (gmap string Z) :=
  d ← get_disk;
  p ← get_mem;
  payload ← load_state_json (revoked_list d) REVOKED_UNAVAILABLE;
  '(_, revoked) ← liftR (parse_revoked payload (revoked_sentinel p) false);
  mret revoked.
(** [_load_revoked_locked]. *)
Definition load_revoked (fresh : string) : M (gmap string Z) :=
  p ← get_mem;
  _ ← (match revoked_sentinel p with
       | None => require_revoked_sentinel fresh
       | Some _ => mret tt
       end : M unit);
  on_mismatch read_revoked
    (_ ← put_mem (set_revoked_sentinel None);
     _ ← require_revoked_sentinel fresh;
     read_revoked).

(** *** The lineage index *)

(** [_persist_lineage_hashes_locked]. *)
Definition persist_lineage_hashes (hashes : gmap string string) (edges : gmap string LineageEdge)
    (sentinel : option string) : M unit :=
  p ← get_mem;
  match active_sentinel sentinel (lineage_sentinel p) with
  | None => throw (Unavailable LINEAGE_UNAVAILABLE false)
  | Some s => put_disk (set_lineage_hashes (lineage_file s hashes edges))
  end.

(** [_lineage_edge_from_claims]. *)
Definition lineage_edge_from_claims (c : claims) : res state_exc LineageEdge :=
  match py_get "parent_jti" c with
  | PStr parent_jti =>
      if non_empty parent_jti then
        match py_get "parent_token_hash" c with
        | PStr h =>
            raise_if negb (sha256_hex_match h) with Unavailable LINEAGE_UNAVAILABLE false ;;
            Ok (Some parent_jti, Some (py_lower h))
        | _ => Raise (Unavailable LINEAGE_UNAVAILABLE false)
        end
      else Ok (None, None)
  | _ => Ok (None, None)
  end.

(** [_passport_token_hash]. *)
Definition passport_token_hash (text : string) : string := sha256_hex text.

(** [_reconstruct_lineage_from_sessions]. *)
Definition reconstruct_one (f : session_file) (acc : gmap string string * gmap string LineageEdge)
    : gmap string string * gmap string LineageEdge :=
  match f with
  | None => acc
  | Some (text, c) =>
      if non_empty text then
        match py_get "jti" c, lineage_edge_from_claims c with
        | PStr jti, Ok edge =>
            if non_empty jti
            then (<[jti := passport_token_hash text]> acc.1, <[jti := edge]> acc.2) else acc
        | _, _ => acc
        end
      else acc
  end.
Definition reconstruct_lineage_from_sessions (d : store)
    : gmap string string * gmap string LineageEdge :=
  foldl (fun acc kf => reconstruct_one kf.2 acc) (∅, ∅) (items (session_files d)).

(** [_initialize_lineage_hashes_locked]. *)
Definition initialize_lineage_hashes (bootstrap : bool) (fresh : string) : M (option string) :=
  d ← get_disk;
  if is_missing (lineage_hashes d) then
    if bootstrap then _ ← persist_lineage_hashes ∅ ∅ (Some fresh); mret (Some fresh)
    else if negb (is_missing (replay_cache d)) || negb (is_missing (revoked_list d))
            || negb (bool_decide (session_files d = ∅)) then
      let '(hashes, edges) := reconstruct_lineage_from_sessions d in
      _ ← persist_lineage_hashes hashes edges (Some fresh);
      mret (Some fresh)
    else mret None
  else
    payload ← load_state_json (lineage_hashes d) LINEAGE_UNAVAILABLE;
    '(sentinel, hashes, edges) ← liftR (parse_lineage_hashes payload None true);
    let migrate := negb (bool_decide (hashes = ∅)) && bool_decide (edges = ∅) in
    let '(hashes, edges) := if migrate then reconstruct_lineage_from_sessions d else (hashes, edges) in
    let s := default fresh sentinel in
    if bool_decide (sentinel = None) || migrate
    then _ ← persist_lineage_hashes hashes edges (Some s); mret (Some s)
    else mret (Some s).
(** [_try_initialize_lineage_hashes_locked]. *)
Definition try_initialize_lineage_hashes (fresh : string) : M (option string) :=
  d ← get_disk;
  or_none (initialize_lineage_hashes (can_bootstrap d) fresh).

Definition require_lineage_sentinel (fresh : string) : M unit :=
  s ← try_initialize_lineage_hashes fresh;
  _ ← put_mem (set_lineage_sentinel s);
  check (bool_decide (s = None)) (Unavailable LINEAGE_UNAVAILABLE false).
Definition read_lineage_index : M (gmap string string * gmap string LineageEdge) :=
  d ← get_disk;
  p ← get_mem;
  payload ← load_state_json (lineage_hashes d) LINEAGE_UNAVAILABLE;
  '(_, hashes, edges) ← liftR (parse_lineage_hashes payload (lineage_sentinel p) false);
  mret (hashes, edges).
(** [_load_lineage_index_locked]. *)
Definition load_lineage_index (fresh : string) : M (gmap string string * gmap string LineageEdge) :=
  p ← get_mem;
  _ ← (match lineage_sentinel p with
       | None => require_lineage_sentinel fresh
       | Some _ => mret tt
       end : M unit);
  on_mismatch read_lineage_index
    (_ ← put_mem (set_lineage_sentinel None);
     _ ← require_lineage_sentinel fresh;
     read_lineage_index).

(** [_initialize_passport_state_files], at the start of a process. *)
Definition keep {A} (m : M (option A)) : M (option A) := or_none m.
Definition initialize_passport_state_files (fresh1 fresh2 fresh3 : string) (now : Z) : M unit :=
  d ← get_disk;
  let bootstrap := can_bootstrap d in
  s1 ← keep (initialize_replay_cache bootstrap fresh1 now);
  _ ← put_mem (set_replay_sentinel s1);
  s2 ← keep (initialize_revoked bootstrap fresh2);
  _ ← put_mem (set_revoked_sentinel s2);
  s3 ← keep (initialize_lineage_hashes bootstrap fresh3);
  put_mem (set_lineage_sentinel s3).

(** *** The cache of lineage parents *)

Definition cache_remove (k : string) (c : list (string * option string)) : list (string * option string) :=
  filter (fun kv => kv.1 <> k) c.
(** [_remember_lineage_parent]. *)
Definition remember (k : string) (v : option string) (c : list (string * option string))
    : list (string * option string) :=
  let c := (cache_remove k c ++ [(k, v)])%list in
  drop (length c - LINEAGE_PARENT_CACHE_MAX_ENTRIES) c.
Definition remember_lineage_parent (jti : string) (parent_jti : option string) : M unit :=
  put_mem (fun p => set_parent_cache (remember jti parent_jti (parent_cache p)) p).

(** [_cached_lineage_parent]; [None] for the [KeyError]. *)
Definition cached_lineage_parent (jti : string) : M (option (option string)) :=
  p ← get_mem;
  match dget jti (parent_cache p) with
  | None => mret None
  | Some parent_jti =>
      _ ← put_mem (set_parent_cache (cache_remove jti (parent_cache p) ++ [(jti, parent_jti)])%list);
      mret (Some parent_jti)
  end.

Definition passport {A} (m : res passport_exc A) : M A :=
  liftR (match m with Ok a => Ok a | Raise e => Raise (Rejected e) end).

Fixpoint remember_links (chain : list link) : M unit :=
  match chain with
  | [] => mret tt
  | l :: chain => _ ← remember_lineage_parent (l_jti l) (l_parent_jti l); remember_links chain
  end.
Definition jti_of (c : claims) : M string :=
  liftR (match dget "jti" c with Some v => Ok (py_str v) | None => Raise (Rejected KeyErr) end).
(** [_seed_lineage_parent_cache]. *)
Definition seed_lineage_parent_cache (c : claims) : M unit :=
  current ← jti_of c;
  _ ← remember_lineage_parent current
        (match py_get "parent_jti" c with PNone => None | v => Some (py_str v) end);
  chain ← passport (delegation_chain_entries c);
  remember_links chain.

(** The loop of [_passport_lineage_jtis]; it is left after at most
    [MAX_DELEGATION_DEPTH + 2] rounds. *)
Fixpoint lineage_walk (fuel : nat) (current : string) (lineage : list string) : M (list string) :=
  match fuel with
  | O => throw Denied
  | S fuel =>
      _ ← check (str_in current lineage) (Unavailable REVOKED_UNAVAILABLE false);
      let lineage := (lineage ++ [current])%list in
      _ ← check (MAX_DELEGATION_DEPTH <? length lineage - 1)%nat Denied;
      parent ← cached_lineage_parent current;
      match parent with
      | None => throw (Unavailable REVOKED_UNAVAILABLE false)
      | Some None => mret lineage
      | Some (Some parent_jti) => lineage_walk fuel parent_jti lineage
      end
  end.
(** [_passport_lineage_jtis]. *)
Definition passport_lineage_jtis (c : claims) : M (list string) :=
  _ ← seed_lineage_parent_cache c;
  current ← jti_of c;
  lineage_walk (MAX_DELEGATION_DEPTH + 2) current [].

(** *** Revocation *)

(** [_first_revoked_jti_in_lineage_locked]. *)
Definition first_revoked_jti_in_lineage (c : claims) (fresh : string) : M (option string) :=
  revoked ← load_revoked fresh;
  lineage ← passport_lineage_jtis c;
  mret (List.find (fun jti => bool_decide (is_Some (revoked !! jti))) lineage).

(** [_assert_passport_lineage_not_revoked_locked]. *)
Definition assert_passport_lineage_not_revoked (c : claims) (fresh : string) : M unit :=
  r ← first_revoked_jti_in_lineage c fresh;
  check (negb (bool_decide (r = None))) Denied.

(** [revoke]. *)
Definition revoke (jti fresh : string) (now : Z) : M unit :=
  _ ← check (negb (session_id_match jti)) BadValue;
  revoked ← load_revoked fresh;
  let revoked := match revoked !! jti with
                 | Some _ => revoked
                 | None => <[jti := now / TICKS]> revoked
                 end in
  persist_revoked revoked None.

Inductive blocked := AlreadyEnded | PassportRevoked.
(** [_blocked_session_reason]; [ended] is whether the session has a summary or
    an end time. *)
Definition blocked_session_reason (ended : bool) (c : claims) (fresh : string) : M (option blocked) :=
  if ended then mret (Some AlreadyEnded)
  else
    r ← first_revoked_jti_in_lineage c fresh;
    mret (match r with Some _ => Some PassportRevoked | None => None end).

(** *** Admission *)

(** [_record_passport_use]. *)
Definition record_passport_use (c : claims) (text fresh : string) (now : Z) : M unit :=
  jti ← jti_of c;
  entries ← load_replay_cache fresh now;
  _ ← check (bool_decide (is_Some (entries !! jti))) Denied;
  _ ← check (REPLAY_CACHE_MAX_ENTRIES <=? base.size entries)%nat (Unavailable "replay_cache_full" false);
  exp ← liftR (match dget "exp" c with
               | Some v => match py_int v with Some z => Ok z | None => Raise (Rejected TypeErr) end
               | None => Raise (Rejected KeyErr)
               end);
  _ ← persist_replay_cache (<[jti := (now / TICKS, exp)]> entries) None;
  '(hashes, edges) ← load_lineage_index fresh;
  let token_hash := passport_token_hash text in
  _ ← check (match hashes !! jti with Some h => negb (String.eqb h token_hash) | None => false end)
        (Unavailable LINEAGE_UNAVAILABLE false);
  edge ← liftR (lineage_edge_from_claims c);
  _ ← check (match edges !! jti with Some e => negb (bool_decide (e = edge)) | None => false end)
        (Unavailable LINEAGE_UNAVAILABLE false);
  persist_lineage_hashes (<[jti := token_hash]> hashes) (<[jti := edge]> edges) None.

(** [_unverified_parent_jti]. *)
Definition unverified_parent_jti (t : token) : option string :=
  match py_get "parent_jti" (jwt_payload t) with
  | PStr s => if non_empty s then Some s else None
  | _ => None
  end.
(** [_resolve_cached_parent_token]. *)
Definition resolve_cached_parent_token (t : token) (p : proc) : option token :=
  parent_jti ← unverified_parent_jti t;
  fst <$> sessions p !! parent_jti.

Variable public : public_key.
Variable audience : string.

(** [verify_passport_token]; [now] and [now'] are the readings of the two
    decodings. *)
Definition verify_passport_token (t : token) (parent_token : option token) (fresh : string)
    (now now' : Z) : M claims :=
  p ← get_mem;
  let parent_token := match parent_token with
                      | Some t => Some t
                      | None => resolve_cached_parent_token t p
                      end in
  let needs_trusted_hashes :=
    bool_decide (parent_token = None) && negb (bool_decide (unverified_parent_jti t = None)) in
  trusted ← (if needs_trusted_hashes
             then index ← load_lineage_index fresh; mret (Some index)
             else mret None : M (option (gmap string string * gmap string LineageEdge)));
  c ← passport (verify_passport t public audience parent_token (fst <$> trusted) (snd <$> trusted) now now');
  _ ← seed_lineage_parent_cache c;
  _ ← assert_passport_lineage_not_revoked c fresh;
  mret c.

(** The second decoding of the key-binding token and its nonce. *)
Definition check_kb_nonce (kb : token) (holder : public_key) (t now now' : Z) : M unit :=
  match jwt_decode kb holder None [] t with
  | None => throw Denied
  | Some kb_claims =>
      _ ← (match assert_iat_in_window (py_get "iat" kb_claims) 30 300 now with
           | Ok _ => mret tt
           | Raise _ => throw Denied
           end : M unit);
      match py_get "nonce" kb_claims with
      | PStr nonce =>
          _ ← check (negb (non_empty nonce)) Denied;
          p ← get_mem;
          _ ← check (has_key nonce (seen_kb_nonces p)) Denied;
          let seen := (seen_kb_nonces p ++ [(nonce, now')])%list in
          put_mem (set_nonces (drop (length seen - KB_NONCE_MAX) seen))
      | _ => throw Denied
      end
  end.

(** The clock readings of [start_session]. *)
Record readings := Readings {
  r_verify : Z; r_parent : Z;          (* the passport and its parent *)
  r_pop : Z; r_pop_now : Z;            (* [verify_pop], the second in seconds *)
  r_kb : Z; r_kb_iat : Z; r_nonce : Z; (* the nonce check *)
  r_use : Z;                           (* the replay cache *)
  r_start : Z                          (* the session *)
}.

Definition check_possession (c : claims) (t : token) (holder : option public_key) (kb : option token)
    (r : readings) : M unit :=
  match py_get "cnf" c with
  | PNone => mret tt
  | _ =>
      _ ← passport (verify_pop c t holder kb POP_MAX_AGE_S (r_pop r) (r_pop_now r));
      match holder, kb with
      | Some holder, Some kb => check_kb_nonce kb holder (r_kb r) (r_kb_iat r) (r_nonce r)
      | _, _ => mret tt
      end
  end.

(** The claims with the policies of the authoritative store, where it knows
    the mission. *)
Definition resolve_policies (policy_store : option (string -> string -> option (list pyval))) (c : claims)
    : claims :=
  match policy_store with
  | None => c
  | Some get_policies =>
      let mission_id := py_str (or_else (py_get "mission_id" c) (get_or "sub" (PStr "") c)) in
      match get_policies mission_id (py_str (get_or "sub" (PStr "") c)) with
      | None => c
      | Some specs => dset "additional_policies" (PList specs) c
      end
  end.

(** [start_session]. *)
Definition start_session (policy_store : option (string -> string -> option (list pyval)))
    (t : token) (holder : option public_key) (kb : option token) (fresh run_nonce : string) (r : readings)
    : M GovernanceSession :=
  c ← verify_passport_token t None fresh (r_verify r) (r_parent r);
  _ ← check_possession c t holder kb r;
  jti ← jti_of c;
  _ ← check (negb (session_id_match jti)) BadValue;
  p ← get_mem;
  _ ← check (bool_decide (is_Some (sessions p !! jti))) BadValue;
  d ← get_disk;
  _ ← check (bool_decide (is_Some (session_files d !! jti))) BadValue;
  _ ← assert_passport_lineage_not_revoked c fresh;
  _ ← record_passport_use c (token_text t) fresh (r_use r);
  let c := resolve_policies policy_store c in
  _ ← put_mem (fun p => set_sessions (<[jti := (t, c)]> (sessions p)) p);
  _ ← put_disk (set_session_file jti (Some (token_text t, c)));
  mret (MkSession c [] 0 [] 0 (r_start r) None run_nonce).

End Proxy.

End PassportState.
