(* ===== verification/PassportStateProps.v ===== *)
(** * Passport state: what admission guarantees

    The state files read back what was written; a passport starts one session;
    a revoked passport and everything derived from it is refused; a delegated
    passport presented to a process that does not hold its parent's session is
    admitted only under ancestors that were themselves admitted. *)

From S2P Require Import Prelude CanonicalJson Passport PassportProps PyJson Policy Session PassportState.
Import Passport PyJson Policy Session PassportState.
Open Scope string_scope.
Open Scope Z_scope.

(** ** The files read back *)

Lemma header_ok s payload expected legacy code :
  dget "version" payload = Some (PInt 1) -> dget "sentinel" payload = Some (PStr s) -> s <> "" ->
  check_header payload expected legacy code =
    match expected with
    | Some e => if String.eqb s e then Ok (Some s) else Raise (Unavailable code true)
    | None => Ok (Some s)
    end.
Proof.
  intros Hv Hs Hne. unfold check_header, py_get. rewrite Hv, Hs. cbn [default id].
  assert (Hk : has_key "sentinel" payload = true) by (apply has_key_dget; eauto).
  rewrite Hk, andb_false_r. cbn [andb py_eq_int negb].
  destruct s; [done|]. cbn [non_empty negb]. destruct expected as [e|]; [|done].
  by destruct (String.eqb _ _).
Qed.

Definition live_at (now : Z) (kv : string * (Z * Z)) : Prop := now / TICKS < kv.2.2.
#[export] Instance live_at_dec now kv : base.Decision (live_at now kv).
Proof. unfold live_at. apply _. Defined.

(** What reading a well-formed file with a sentinel gives. *)
Definition with_sentinel {A} (s : string) (expected : option string) (code : string) (a : A)
    : res state_exc (option string * A) :=
  match expected with
  | Some e => if String.eqb s e then Ok (Some s, a) else Raise (Unavailable code true)
  | None => Ok (Some s, a)
  end.

Lemma parse_replay_entries now l acc :
  foldR (parse_replay_entry now)
    ((fun kv => (kv.1, PDict [("first_seen", PInt kv.2.1); ("exp", PInt kv.2.2)])) <$> l) acc
  = Ok (foldl (fun a kv => if decide (live_at now kv) then <[kv.1 := kv.2]> a else a) acc l).
Proof.
  revert acc. induction l as [|[k [f e]] l IH]; intros acc; [done|]. cbn -[Z.div].
  destruct (Z.ltb_spec (now / TICKS) e); destruct (decide _) as [Hl|Hl]; unfold live_at in Hl;
    cbn [fst snd] in Hl; try lia; apply IH.
Qed.

Lemma parse_replay_file s E expected legacy now payload : s <> "" -> replay_file s E = Object payload ->
  parse_replay_cache payload expected legacy now
  = with_sentinel s expected REPLAY_UNAVAILABLE (filter (live_at now) E).
Proof.
  intros Hs [= <-]. unfold parse_replay_cache. rewrite (header_ok s) by done.
  unfold with_sentinel. destruct expected as [e|]; [destruct (String.eqb s e); [|done]|];
    cbn [mbind res_bind get_or dget]; cbn -[foldR]; rewrite parse_replay_entries, foldl_items_filter; done.
Qed.

Lemma parse_revoked_entries (l : list (string * Z)) acc :
  foldR parse_revoked_entry ((fun kv => (PStr kv.1, kv.2)) <$> ((fun kv => (kv.1, PInt kv.2)) <$> l)) acc
  = Ok (foldl (fun a kv => if decide True then <[kv.1 := kv.2]> a else a) acc l).
Proof. revert acc. induction l as [|[k z] l IH]; intros acc; [done|]. apply IH. Qed.

Lemma map_filter_True {V} (m : gmap string V) : filter (fun _ => True) m = m.
Proof. apply map_filter_id. done. Qed.

Lemma parse_revoked_file s R expected legacy payload : s <> "" -> revoked_file s R = Object payload ->
  parse_revoked payload expected legacy = with_sentinel s expected REVOKED_UNAVAILABLE R.
Proof.
  intros Hs [= <-]. unfold parse_revoked. rewrite (header_ok s) by done.
  unfold with_sentinel. destruct expected as [e|]; [destruct (String.eqb s e); [|done]|];
    cbn [mbind res_bind get_or dget]; cbn -[foldR];
    rewrite parse_revoked_entries, (foldl_items_filter (fun _ => True)), map_filter_True; done.
Qed.

(** The index as the proxy writes it. *)
Definition hash_ok (h : string) : Prop := sha256_hex_match h = true /\ py_lower h = h.
Definition edge_ok (e : LineageEdge) : Prop :=
  match e with
  | (None, None) => True
  | (Some p, Some h) => non_empty p = true /\ hash_ok h
  | _ => False
  end.
Record index_ok (H : gmap string string) (L : gmap string LineageEdge) : Prop := {
  ix_dom : dom H = dom L;
  ix_keys : forall j h, H !! j = Some h -> non_empty j = true /\ hash_ok h;
  ix_edges : forall j e, L !! j = Some e -> edge_ok e
}.

Lemma parse_hash_entries (l : list (string * string)) acc :
  Forall (fun kv => non_empty kv.1 = true /\ hash_ok kv.2) l ->
  foldR parse_token_hash ((fun kv => (kv.1, PStr kv.2)) <$> l) acc
  = Ok (foldl (fun a kv => if decide True then <[kv.1 := kv.2]> a else a) acc l).
Proof.
  revert acc. induction l as [|[k h] l IH]; intros acc Hl; [done|].
  apply Forall_cons in Hl as [(Hk & Hm & Hlow) Hl]. cbn [fst snd] in *.
  assert (E : parse_token_hash (k, PStr h) acc = Ok (<[k := h]> acc))
    by (unfold parse_token_hash; cbn [fst snd]; by rewrite Hk, Hm, Hlow).
  cbn [fmap list_fmap foldR fst snd]. rewrite E. by apply IH.
Qed.

Lemma parse_parent_entries (l : list (string * LineageEdge)) acc :
  Forall (fun kv => non_empty kv.1 = true /\ edge_ok kv.2) l ->
  foldR parse_parent ((fun kv => (kv.1, PDict [("parent_jti", opt_str kv.2.1);
                                               ("parent_token_hash", opt_str kv.2.2)])) <$> l) acc
  = Ok (foldl (fun a kv => if decide True then <[kv.1 := kv.2]> a else a) acc l).
Proof.
  revert acc. induction l as [|[k [p h]] l IH]; intros acc Hl; [done|].
  apply Forall_cons in Hl as [[Hk He] Hl]. cbn [fst snd] in *.
  assert (E : parse_parent (k, PDict [("parent_jti", opt_str p); ("parent_token_hash", opt_str h)]) acc
              = Ok (<[k := (p, h)]> acc)).
  { unfold parse_parent. cbn [fst snd]. rewrite Hk. cbn [negb].
    destruct p as [p|], h as [h|]; try done. destruct He as (Hp & Hm & Hlow).
    unfold py_get. cbn [dget opt_str String.eqb Ascii.eqb Bool.eqb default id].
    by rewrite Hp, Hm, Hlow. }
  cbn [fmap list_fmap foldR fst snd]. rewrite E. by apply IH.
Qed.

Lemma index_forall H L : index_ok H L ->
  Forall (fun kv => non_empty kv.1 = true /\ hash_ok kv.2) (items H) /\
  Forall (fun kv => non_empty kv.1 = true /\ edge_ok kv.2) (items L).
Proof.
  intros [Hd Hk He]. split; apply Forall_forall; intros [j x] Hj%elem_of_items; cbn [fst snd].
  - by apply Hk.
  - split; [|by eapply He]. assert (Hin : j ∈ dom H) by (rewrite Hd; by eapply elem_of_dom_2).
    apply elem_of_dom in Hin as [h Hh]. by eapply Hk.
Qed.

Lemma parse_lineage_file s H L expected legacy payload : s <> "" -> index_ok H L ->
  lineage_file s H L = Object payload ->
  parse_lineage_hashes payload expected legacy
  = match with_sentinel s expected LINEAGE_UNAVAILABLE (H, L) with
    | Ok (s, (H, L)) => Ok (s, H, L) | Raise e => Raise e end.
Proof.
  intros Hs Hix [= <-]. destruct (index_forall H L Hix) as [H1 H2].
  unfold parse_lineage_hashes. rewrite (header_ok s) by done.
  unfold with_sentinel. destruct expected as [e|]; [destruct (String.eqb s e); [|done]|];
    cbn [mbind res_bind get_or dget]; cbn -[foldR];
    rewrite parse_hash_entries, (foldl_items_filter (fun _ => True)), map_filter_True by done;
    cbn [mbind res_bind];
    rewrite parse_parent_entries, (foldl_items_filter (fun _ => True)), map_filter_True by done; done.
Qed.

(** *** Digests in either case *)

Fixpoint str_map (f : ascii -> ascii) (s : string) : string :=
  match s with EmptyString => EmptyString | String a s => String (f a) (str_map f s) end.
Definition newline : ascii := ascii_of_N 10.
Definition hexish (a : ascii) : bool := is_hex a || Ascii.eqb a newline.

Lemma hexish_facts a : hexish a = true ->
  byte_in 196 196 a = false /\ byte_in 226 226 a = false /\ ascii_lower (ascii_lower a) = ascii_lower a /\
  is_hex (ascii_lower a) = is_hex a /\ Ascii.eqb (ascii_lower a) newline = Ascii.eqb a newline /\
  hexish (ascii_lower a) = true.
Proof. destruct a as [[] [] [] [] [] [] [] []]; done. Qed.

Lemma py_lower_hexish s : str_all hexish s = true -> py_lower s = str_map ascii_lower s.
Proof.
  induction s as [|a s IH]; [done|]. intros [Ha Hs]%andb_prop.
  destruct (hexish_facts a Ha) as (E1 & E2 & _). specialize (IH Hs). cbn [str_map]. rewrite <- IH.
  destruct s as [|b [|c s]]; [done|..]; cbn [py_lower]; rewrite E1; cbn [andb]; [done|].
  by rewrite E2.
Qed.

Lemma str_map_length f s : String.length (str_map f s) = String.length s.
Proof. induction s as [|a s IH]; [done|]. cbn. by rewrite IH. Qed.

Lemma str_map_substring f s n m : substring n m (str_map f s) = str_map f (substring n m s).
Proof.
  revert n m. induction s as [|a s IH]; intros n m; destruct n, m; try done; cbn; by rewrite ?IH.
Qed.

Lemma lower_hexish s : str_all hexish s = true ->
  str_map ascii_lower (str_map ascii_lower s) = str_map ascii_lower s /\
  str_all is_hex (str_map ascii_lower s) = str_all is_hex s /\
  str_all hexish (str_map ascii_lower s) = true.
Proof.
  induction s as [|a s IH]; [done|]. intros [Ha Hs]%andb_prop. destruct (IH Hs) as (E1 & E2 & E3).
  destruct (hexish_facts a Ha) as (_ & _ & F1 & F2 & _ & F3). cbn. by rewrite E1, E2, E3, F1, F2, F3.
Qed.

Lemma substring_hexish s n m : str_all hexish s = true -> str_all hexish (substring n m s) = true.
Proof.
  revert n m. induction s as [|a s IH]; intros n m Hs; [by destruct n, m|].
  apply andb_prop in Hs as [Ha Hs]. destruct n, m; try done; cbn; rewrite ?Ha; by apply IH.
Qed.

Lemma chop_lower s : str_all hexish s = true ->
  chop_newline (str_map ascii_lower s) = str_map ascii_lower (chop_newline s).
Proof.
  intros Hs. unfold chop_newline. rewrite str_map_length, !str_map_substring.
  pose proof (substring_hexish s (String.length s - 1) 1 Hs) as Hc.
  destruct (substring (String.length s - 1) 1 s) as [|a t]; [done|]. apply andb_prop in Hc as [Ha _].
  destruct (hexish_facts a Ha) as (_ & _ & _ & _ & E & _). change (ascii_of_N 10) with newline.
  cbn [str_map String.eqb]. rewrite E. destruct (Ascii.eqb a newline); [|done].
  by destruct t.
Qed.

Lemma chop_shape s : s = chop_newline s \/ s = chop_newline s ++ String newline "".
Proof.
  unfold chop_newline. change (ascii_of_N 10) with newline.
  destruct (String.eqb_spec (substring (String.length s - 1) 1 s) (String newline "")) as [E|]; [|by left].
  right. destruct (decide (s = "")) as [->|Hne]; [done|]. revert E.
  induction s as [|a [|b s] IH]; [done| |].
  - cbn. by intros [= ->].
  - intros E. change (String.length (String a (String b s)) - 1)%nat with (S (String.length s))%nat in *.
    change (String.length (String b s) - 1)%nat with (String.length s - 0)%nat in IH.
    rewrite Nat.sub_0_r in IH. specialize (IH ltac:(done) E). cbn [substring].
    rewrite str_app_cons. f_equal. exact IH.
Qed.

Lemma hex_hexish s : str_all is_hex s = true -> str_all hexish s = true.
Proof.
  induction s as [|a s IH]; [done|]. intros [Ha Hs]%andb_prop. cbn. unfold hexish at 1. rewrite Ha.
  by apply IH.
Qed.

Lemma match_hexish h : sha256_hex_match h = true -> str_all hexish h = true.
Proof.
  unfold sha256_hex_match, hex64. intros Hm.
  apply orb_prop in Hm as [Hm|Hm]; apply andb_prop in Hm as [_ Hh]; [by apply hex_hexish|].
  apply hex_hexish in Hh. destruct (chop_shape h) as [-> | ->]; [done|]. by rewrite str_all_app, Hh.
Qed.

Lemma lower_hash_ok h : sha256_hex_match h = true -> hash_ok (py_lower h).
Proof.
  intros Hm. pose proof (match_hexish h Hm) as Hh. destruct (lower_hexish h Hh) as (E1 & E2 & E3).
  rewrite (py_lower_hexish h Hh). split.
  - unfold sha256_hex_match, hex64 in *. rewrite chop_lower, !str_map_length, E2 by done.
    assert (Hc : str_all hexish (chop_newline h) = true)
      by (unfold chop_newline; destruct (String.eqb _ _); [by apply substring_hexish|done]).
    destruct (lower_hexish _ Hc) as (_ & -> & _). done.
  - by rewrite py_lower_hexish.
Qed.

Lemma digest_hash_ok h : digest_match h = true -> hash_ok h.
Proof.
  intros [Hl Hh]%andb_prop.
  assert (Hx : str_all is_hex h = true /\ str_map ascii_lower h = h).
  { clear Hl. induction h as [|a h IH]; [done|]. apply andb_prop in Hh as [Ha Hh].
    destruct (IH Hh) as [E1 E2]. cbn. rewrite E1, E2.
    by destruct a as [[] [] [] [] [] [] [] []]. }
  destruct Hx as [Hx Hlow]. split; [unfold sha256_hex_match, hex64; by rewrite Hl, Hx|].
  by rewrite py_lower_hexish by by apply hex_hexish.
Qed.

(** ** Reading through the sentinels *)

Section State.
Context `{!Digests, !Jwt, !PyRepr}.
#[local] Existing Instances M_bind M_ret.

Lemma M_bind_inv {A B} (m : M A) (f : A -> M B) w w' r : (m ≫= f) w = (w', r) ->
  (exists w1 a, m w = (w1, Ok a) /\ f a w1 = (w', r)) \/ (exists e, m w = (w', Raise e) /\ r = Raise e).
Proof.
  unfold mbind, M_bind. destruct (m w) as [w1 [a|e]] eqn:E; intros Hr; [left; eauto|].
  injection Hr as <- <-. right. eauto.
Qed.

Lemma M_bind_ok {A B} (m : M A) (f : A -> M B) w w1 a : m w = (w1, Ok a) -> (m ≫= f) w = f a w1.
Proof. unfold mbind, M_bind. by intros ->. Qed.
Lemma M_bind_raise {A B} (m : M A) (f : A -> M B) w w1 e : m w = (w1, Raise e) ->
  (m ≫= f) w = (w1, Raise e).
Proof. unfold mbind, M_bind. by intros ->. Qed.

(** The sentinels of a process are only caches. *)
Record same_proc (p q : proc) : Prop := {
  sp_cache : parent_cache q = parent_cache p;
  sp_sessions : sessions q = sessions p;
  sp_nonces : seen_kb_nonces q = seen_kb_nonces p
}.
Lemma same_proc_refl p : same_proc p p.
Proof. by split. Qed.

Lemma same_proc_trans p q r : same_proc p q -> same_proc q r -> same_proc p r.
Proof. intros [? ? ?] [? ? ?]. split; congruence. Qed.

(** The three loaders have one shape: initialise the sentinel when there is
    none, read, and read again with the file's sentinel on a mismatch. *)
Section Loader.
Context {A : Type} (get : proc -> option string) (set : option string -> proc -> proc).
Context (get_set : forall o p, get (set o p) = o) (set_same : forall o p, same_proc p (set o p)).
Context (require : M unit) (read : M A) (code s : string) (a : A) (d : store).
Context (require_ok : forall p, require (World p d) = (World (set (Some s) p) d, Ok tt)).
Context (read_ok : forall p, read (World p d) =
  (World p d, match get p with
              | Some e => if String.eqb s e then Ok a else Raise (Unavailable code true)
              | None => Ok a
              end)).

Lemma load_existing p :
  exists q, (p ← get_mem;
             _ ← (match get p with None => require | Some _ => mret tt end : M unit);
             on_mismatch read (_ ← put_mem (set None); _ ← require; read)) (World p d)
            = (World q d, Ok a) /\ same_proc p q /\ get q = Some s.
Proof.
  rewrite (M_bind_ok _ _ _ (World p d) p) by done. destruct (get p) as [e|] eqn:Ee.
  - rewrite (M_bind_ok _ _ _ (World p d) tt) by done. unfold on_mismatch.
    rewrite read_ok, Ee. destruct (String.eqb_spec s e) as [<-|Hne].
    + exists p. split; [done|]. split; [apply same_proc_refl|done].
    + rewrite (M_bind_ok _ _ _ (World (set None p) d) tt) by done.
      rewrite (M_bind_ok _ _ _ (World (set (Some s) (set None p)) d) tt) by apply require_ok.
      rewrite read_ok, get_set, String.eqb_refl. eexists. split; [done|].
      split; [by eapply same_proc_trans|done].
  - rewrite (M_bind_ok _ _ _ (World (set (Some s) p) d) tt) by apply require_ok. unfold on_mismatch.
    rewrite read_ok, get_set, String.eqb_refl. eexists. done.
Qed.

(** The same loader over a missing file [d0], which initialisation may create. *)
Context (d0 : store).
Context (read_missing : forall p, read (World p d0) = (World p d0, Raise (Unavailable code false))).
Context (require_missing :
  (forall p, exists q e, require (World p d0) = (World q d0, Raise e) /\ same_proc p q) \/
  (forall p, require (World p d0) = (World (set (Some s) p) d, Ok tt))).

Lemma load_missing p :
  let load := (p ← get_mem;
               _ ← (match get p with None => require | Some _ => mret tt end : M unit);
               on_mismatch read (_ ← put_mem (set None); _ ← require; read)) in
  (exists q e, load (World p d0) = (World q d0, Raise e) /\ same_proc p q) \/
  (exists q, load (World p d0) = (World q d, Ok a) /\ same_proc p q /\ get q = Some s).
Proof.
  intros load. subst load. rewrite (M_bind_ok _ _ _ (World p d0) p) by done. destruct (get p) as [e|] eqn:Ee.
  - rewrite (M_bind_ok _ _ _ (World p d0) tt) by done. unfold on_mismatch. rewrite read_missing.
    left. exists p. eexists. split; [done|apply same_proc_refl].
  - destruct require_missing as [Hr|Hr].
    + left. destruct (Hr p) as (q & e & Hq & Hs). exists q, e. split; [by apply M_bind_raise|done].
    + right. rewrite (M_bind_ok _ _ _ (World (set (Some s) p) d) tt) by apply Hr. unfold on_mismatch.
      rewrite read_ok, get_set, String.eqb_refl. eexists. done.
Qed.
End Loader.

Lemma require_replay_existing p d s E fresh now : replay_cache d = replay_file s E -> s <> "" ->
  require_replay_sentinel fresh now (World p d) = (World (set_replay_sentinel (Some s) p) d, Ok tt).
Proof.
  intros Hf Hs. unfold require_replay_sentinel, try_initialize_replay_cache, initialize_replay_cache.
  unfold mbind, M_bind, get_disk, or_none. cbn [disk]. rewrite Hf. cbn -[parse_replay_cache].
  unfold liftR. by rewrite (parse_replay_file s E None true now _ Hs eq_refl).
Qed.
Lemma read_replay_existing p d s E now : replay_cache d = replay_file s E -> s <> "" ->
  read_replay_cache now (World p d) =
  (World p d, match replay_sentinel p with
              | Some e => if String.eqb s e then Ok (filter (live_at now) E)
                          else Raise (Unavailable REPLAY_UNAVAILABLE true)
              | None => Ok (filter (live_at now) E)
              end).
Proof.
  intros Hf Hs. unfold read_replay_cache, mbind, M_bind, get_disk, get_mem. cbn [disk mem].
  rewrite Hf. cbn -[parse_replay_cache]. unfold liftR.
  rewrite (parse_replay_file s E _ false now _ Hs eq_refl). unfold with_sentinel.
  destruct (replay_sentinel p) as [e|]; [by destruct (String.eqb s e)|done].
Qed.
Lemma load_replay_existing p d s E fresh now : replay_cache d = replay_file s E -> s <> "" ->
  exists q, load_replay_cache fresh now (World p d) = (World q d, Ok (filter (live_at now) E)) /\
    same_proc p q /\ replay_sentinel q = Some s.
Proof.
  intros Hf Hs. apply (load_existing replay_sentinel set_replay_sentinel) with REPLAY_UNAVAILABLE; try done.
  - intros q. by eapply require_replay_existing.
  - intros q. by apply read_replay_existing.
Qed.
(** Over a missing file the cache is created empty in a fresh directory, and
    unavailable otherwise. *)
Lemma load_replay_missing p d fresh now : replay_cache d = Missing -> fresh <> "" ->
  (exists q e, load_replay_cache fresh now (World p d) = (World q d, Raise e) /\ same_proc p q) \/
  (exists q, load_replay_cache fresh now (World p d)
             = (World q (set_replay_cache (replay_file fresh ∅) d), Ok ∅) /\
     same_proc p q /\ replay_sentinel q = Some fresh).
Proof.
  intros Hf Hne. apply (load_missing replay_sentinel set_replay_sentinel) with REPLAY_UNAVAILABLE; try done.
  - intros q. by rewrite (read_replay_existing q _ fresh ∅ now) by done.
  - intros q. unfold read_replay_cache, mbind, M_bind, get_disk, get_mem. cbn [disk mem]. by rewrite Hf.
  - destruct (can_bootstrap d) eqn:Eb; [right|left]; intros q;
      unfold require_replay_sentinel, try_initialize_replay_cache, initialize_replay_cache;
      unfold mbind, M_bind, get_disk, or_none; cbn [disk]; rewrite Hf, Eb; cbn.
    + done.
    + do 2 eexists. done.
Qed.

Lemma require_revoked_existing p d s R fresh : revoked_list d = revoked_file s R -> s <> "" ->
  require_revoked_sentinel fresh (World p d) = (World (set_revoked_sentinel (Some s) p) d, Ok tt).
Proof.
  intros Hf Hs. unfold require_revoked_sentinel, try_initialize_revoked, initialize_revoked.
  unfold mbind, M_bind, get_disk, or_none. cbn [disk]. rewrite Hf. cbn -[parse_revoked].
  unfold liftR. by rewrite (parse_revoked_file s R None true _ Hs eq_refl).
Qed.
Lemma read_revoked_existing p d s R : revoked_list d = revoked_file s R -> s <> "" ->
  read_revoked (World p d) =
  (World p d, match revoked_sentinel p with
              | Some e => if String.eqb s e then Ok R else Raise (Unavailable REVOKED_UNAVAILABLE true)
              | None => Ok R
              end).
Proof.
  intros Hf Hs. unfold read_revoked, mbind, M_bind, get_disk, get_mem. cbn [disk mem].
  rewrite Hf. cbn -[parse_revoked]. unfold liftR.
  rewrite (parse_revoked_file s R _ false _ Hs eq_refl). unfold with_sentinel.
  destruct (revoked_sentinel p) as [e|]; [by destruct (String.eqb s e)|done].
Qed.
Lemma load_revoked_existing p d s R fresh : revoked_list d = revoked_file s R -> s <> "" ->
  exists q, load_revoked fresh (World p d) = (World q d, Ok R) /\ same_proc p q /\
    revoked_sentinel q = Some s.
Proof.
  intros Hf Hs. apply (load_existing revoked_sentinel set_revoked_sentinel) with REVOKED_UNAVAILABLE; try done.
  - intros q. by eapply require_revoked_existing.
  - intros q. by apply read_revoked_existing.
Qed.
Lemma load_revoked_missing p d fresh : revoked_list d = Missing -> fresh <> "" ->
  (exists q e, load_revoked fresh (World p d) = (World q d, Raise e) /\ same_proc p q) \/
  (exists q, load_revoked fresh (World p d) = (World q (set_revoked_list (revoked_file fresh ∅) d), Ok ∅) /\
     same_proc p q /\ revoked_sentinel q = Some fresh).
Proof.
  intros Hf Hne. apply (load_missing revoked_sentinel set_revoked_sentinel) with REVOKED_UNAVAILABLE; try done.
  - intros q. by rewrite (read_revoked_existing q _ fresh ∅) by done.
  - intros q. unfold read_revoked, mbind, M_bind, get_disk, get_mem. cbn [disk mem]. by rewrite Hf.
  - destruct (can_bootstrap d) eqn:Eb; [right|left]; intros q;
      unfold require_revoked_sentinel, try_initialize_revoked, initialize_revoked;
      unfold mbind, M_bind, get_disk, or_none; cbn [disk]; rewrite Hf, Eb; cbn.
    + done.
    + do 2 eexists. done.
Qed.

Lemma index_no_migration Hs Ls : index_ok Hs Ls ->
  negb (bool_decide (Hs = ∅)) && bool_decide (Ls = ∅) = false.
Proof.
  intros [Hd _ _]. apply andb_false_iff. destruct (decide (Ls = ∅)) as [->|Hne].
  - left. rewrite dom_empty_L, dom_empty_iff_L in Hd. by rewrite bool_decide_eq_true_2.
  - right. by apply bool_decide_eq_false_2.
Qed.

Lemma require_lineage_existing p d s Hs Ls fresh : lineage_hashes d = lineage_file s Hs Ls -> s <> "" ->
  index_ok Hs Ls ->
  require_lineage_sentinel fresh (World p d) = (World (set_lineage_sentinel (Some s) p) d, Ok tt).
Proof.
  intros Hf Hne Hix.
  unfold require_lineage_sentinel, try_initialize_lineage_hashes, initialize_lineage_hashes.
  unfold mbind, M_bind, get_disk, or_none. cbn [disk]. rewrite Hf. cbn -[parse_lineage_hashes].
  unfold liftR. rewrite (parse_lineage_file s Hs Ls None true _ Hne Hix eq_refl). cbn [with_sentinel].
  rewrite (index_no_migration Hs Ls Hix). done.
Qed.
Lemma read_lineage_existing p d s Hs Ls : lineage_hashes d = lineage_file s Hs Ls -> s <> "" ->
  index_ok Hs Ls ->
  read_lineage_index (World p d) =
  (World p d, match lineage_sentinel p with
              | Some e => if String.eqb s e then Ok (Hs, Ls)
                          else Raise (Unavailable LINEAGE_UNAVAILABLE true)
              | None => Ok (Hs, Ls)
              end).
Proof.
  intros Hf Hne Hix. unfold read_lineage_index, mbind, M_bind, get_disk, get_mem. cbn [disk mem].
  rewrite Hf. cbn -[parse_lineage_hashes]. unfold liftR.
  rewrite (parse_lineage_file s Hs Ls _ false _ Hne Hix eq_refl). unfold with_sentinel.
  destruct (lineage_sentinel p) as [e|]; [by destruct (String.eqb s e)|done].
Qed.
Lemma load_lineage_existing p d s Hs Ls fresh : lineage_hashes d = lineage_file s Hs Ls -> s <> "" ->
  index_ok Hs Ls ->
  exists q, load_lineage_index fresh (World p d) = (World q d, Ok (Hs, Ls)) /\ same_proc p q /\
    lineage_sentinel q = Some s.
Proof.
  intros Hf Hne Hix.
  apply (load_existing lineage_sentinel set_lineage_sentinel) with LINEAGE_UNAVAILABLE; try done.
  - intros q. by eapply require_lineage_existing.
  - intros q. by apply read_lineage_existing.
Qed.

(** The index rebuilt from the session files is well formed. *)
Lemma edge_of_claims_ok c e : lineage_edge_from_claims c = Ok e -> edge_ok e.
Proof.
  unfold lineage_edge_from_claims. destruct (py_get "parent_jti" c) as [| | | |p| |]; try (by intros [= <-]).
  destruct (non_empty p) eqn:Ep; [|by intros [= <-]].
  destruct (py_get "parent_token_hash" c) as [| | | |h| |]; try done.
  intros [Hm%negb_false_iff [= <-]]%guard_ok. split; [done|]. by apply lower_hash_ok.
Qed.
Lemma index_insert Hs Ls j h e : index_ok Hs Ls -> non_empty j = true -> hash_ok h -> edge_ok e ->
  index_ok (<[j := h]> Hs) (<[j := e]> Ls).
Proof.
  intros [Hd Hk He] Hj Hh Hee. split.
  - by rewrite !dom_insert_L, Hd.
  - intros i x. rewrite lookup_insert_Some. intros [[<- <-]|[_ Hx]]; [done|by apply Hk].
  - intros i x. rewrite lookup_insert_Some. intros [[<- <-]|[_ Hx]]; [done|by eapply He].
Qed.
Lemma index_empty : index_ok ∅ ∅.
Proof. by split; [rewrite !dom_empty_L|..]. Qed.
Lemma reconstruct_ok d : index_ok (reconstruct_lineage_from_sessions d).1 (reconstruct_lineage_from_sessions d).2.
Proof.
  unfold reconstruct_lineage_from_sessions. generalize (items (session_files d)).
  assert (Hg : forall l acc, index_ok acc.1 acc.2 ->
    index_ok (foldl (fun acc (kf : string * session_file) => reconstruct_one kf.2 acc) acc l).1
             (foldl (fun acc (kf : string * session_file) => reconstruct_one kf.2 acc) acc l).2).
  { induction l as [|[k f] l IH]; intros acc Hacc; [done|]. cbn [foldl snd]. apply IH.
    unfold reconstruct_one. destruct f as [[text c]|]; [|done]. destruct (non_empty text); [|done].
    destruct (py_get "jti" c) as [| | | |j| |]; try done.
    destruct (lineage_edge_from_claims c) as [e|] eqn:Ee; [|done]. destruct (non_empty j) eqn:Ej; [|done].
    apply index_insert; try done; [apply digest_hash_ok, sha256_hex_shape|by eapply edge_of_claims_ok]. }
  intros l. apply Hg, index_empty.
Qed.

Lemma load_lineage_missing p d fresh : lineage_hashes d = Missing -> fresh <> "" ->
  exists Hs Ls, index_ok Hs Ls /\
  ((exists q e, load_lineage_index fresh (World p d) = (World q d, Raise e) /\ same_proc p q) \/
   (exists q, load_lineage_index fresh (World p d)
              = (World q (set_lineage_hashes (lineage_file fresh Hs Ls) d), Ok (Hs, Ls)) /\
      same_proc p q /\ lineage_sentinel q = Some fresh)).
Proof.
  intros Hf Hne.
  set (rebuilt := if can_bootstrap d then (∅, ∅) else reconstruct_lineage_from_sessions d).
  assert (Hix : index_ok rebuilt.1 rebuilt.2).
  { subst rebuilt. destruct (can_bootstrap d); [apply index_empty|apply reconstruct_ok]. }
  exists rebuilt.1, rebuilt.2. split; [done|].
  apply (load_missing lineage_sentinel set_lineage_sentinel) with LINEAGE_UNAVAILABLE; try done.
  - intros q. by rewrite (read_lineage_existing q _ fresh rebuilt.1 rebuilt.2) by done.
  - intros q. unfold read_lineage_index, mbind, M_bind, get_disk, get_mem. cbn [disk mem]. by rewrite Hf.
  - subst rebuilt. destruct (can_bootstrap d) eqn:Eb; [right; intros q|].
    + unfold require_lineage_sentinel, try_initialize_lineage_hashes, initialize_lineage_hashes.
      unfold mbind, M_bind, get_disk, or_none. cbn [disk]. by rewrite Hf, Eb.
    + destruct (negb (is_missing (replay_cache d)) || negb (is_missing (revoked_list d))
        || negb (bool_decide (session_files d = ∅))) eqn:Er; [right|left]; intros q;
        unfold require_lineage_sentinel, try_initialize_lineage_hashes, initialize_lineage_hashes;
        unfold mbind, M_bind, get_disk, or_none; cbn [disk]; rewrite Hf, Eb; cbn [is_missing]; rewrite Er.
      * by destruct (reconstruct_lineage_from_sessions d).
      * do 2 eexists. done.
Qed.

(** ** The state directory *)

Record wf (d : store) : Prop := {
  wf_replay : replay_cache d = Missing \/ exists s E, s <> "" /\ replay_cache d = replay_file s E;
  wf_revoked : revoked_list d = Missing \/ exists s R, s <> "" /\ revoked_list d = revoked_file s R;
  wf_lineage : lineage_hashes d = Missing \/
    exists s Hs Ls, s <> "" /\ index_ok Hs Ls /\ lineage_hashes d = lineage_file s Hs Ls
}.

(** What only ever grows: uses that have not expired by [now], revocations, the
    lineage index. *)
Record grows (now : Z) (d d' : store) : Prop := {
  gr_replay : forall s E, s <> "" -> replay_cache d = replay_file s E ->
    exists E', replay_cache d' = replay_file s E' /\
      forall j fe, E !! j = Some fe -> now / TICKS < fe.2 -> E' !! j = Some fe;
  gr_revoked : forall s R, s <> "" -> revoked_list d = revoked_file s R ->
    exists R', revoked_list d' = revoked_file s R' /\ R ⊆ R';
  gr_lineage : forall s Hs Ls, s <> "" -> index_ok Hs Ls -> lineage_hashes d = lineage_file s Hs Ls ->
    exists Hs' Ls', lineage_hashes d' = lineage_file s Hs' Ls' /\ index_ok Hs' Ls' /\ Hs ⊆ Hs' /\ Ls ⊆ Ls'
}.

Lemma grows_refl now d : grows now d d.
Proof.
  split.
  - intros s E _ HE. exists E. split; [done|]. auto.
  - intros s R _ HR. by exists R.
  - intros s Hs Ls _ Hix HL. by exists Hs, Ls.
Qed.
Lemma grows_trans now d d1 d2 : grows now d d1 -> grows now d1 d2 -> grows now d d2.
Proof.
  intros [A1 A2 A3] [B1 B2 B3]. split.
  - intros s E Hs HE. destruct (A1 s E Hs HE) as (E1 & HE1 & K1), (B1 s E1 Hs HE1) as (E2 & HE2 & K2).
    exists E2. split; [done|]. intros j fe Hj Hn. apply K2; [by apply K1|done].
  - intros s R Hs HR. destruct (A2 s R Hs HR) as (R1 & HR1 & K1), (B2 s R1 Hs HR1) as (R2 & HR2 & K2).
    exists R2. split; [done|]. by etrans.
  - intros s Hs Ls Hne Hix HL. destruct (A3 s Hs Ls Hne Hix HL) as (Ha & L1 & HL1 & Hix1 & K1 & K1').
    destruct (B3 s Ha L1 Hne Hix1 HL1) as (Hb & L2 & HL2 & Hix2 & K2 & K2').
    exists Hb, L2. split_and!; try done; by etrans.
Qed.

(** Earlier is weaker. *)
Lemma grows_le now now' d d' : now / TICKS <= now' / TICKS -> grows now d d' -> grows now' d d'.
Proof.
  intros Hle [A1 A2 A3]. split; [|done..]. intros s E Hs HE. destruct (A1 s E Hs HE) as (E1 & HE1 & K1).
  exists E1. split; [done|]. intros j fe Hj Hn. apply K1; [done|lia].
Qed.

Definition ok_step (now : Z) (d d' : store) : Prop := wf d -> wf d' /\ grows now d d'.
Lemma ok_step_refl now d : ok_step now d d.
Proof. intros Hw. split; [done|apply grows_refl]. Qed.
Lemma ok_step_trans now d d1 d2 : ok_step now d d1 -> ok_step now d1 d2 -> ok_step now d d2.
Proof.
  intros H12 H23 Hw. destruct (H12 Hw) as [Hw1 Hg1], (H23 Hw1) as [Hw2 Hg2].
  split; [done|by eapply grows_trans].
Qed.

#[export] Instance ok_step_preorder now : PreOrder (ok_step now).
Proof. split; [exact (ok_step_refl now)|exact (ok_step_trans now)]. Qed.

(** Operations whose effect on the directory stays within a preorder. *)
Definition within (R : relation store) {A} (m : M A) : Prop := forall w, R (disk w) (disk (m w).1).

Section Within.
Context (R : relation store) {HR : PreOrder R}.

Lemma within_still {A} (m : M A) : (forall w, disk (m w).1 = disk w) -> within R m.
Proof. intros Hm w. by rewrite Hm. Qed.
Lemma within_bind {A B} (m : M A) (f : A -> M B) : within R m -> (forall a, within R (f a)) ->
  within R (m ≫= f).
Proof.
  intros Hm Hf w. unfold mbind, M_bind. specialize (Hm w). destruct (m w) as [w1 [a|e]]; [|done].
  etrans; [exact Hm|apply Hf].
Qed.
Lemma within_or_none {A} (m : M (option A)) : within R m -> within R (or_none m).
Proof. intros Hm w. specialize (Hm w). unfold or_none. by destruct (m w) as [w1 [a|[]]]. Qed.
Lemma within_on_mismatch {A} (m n : M A) : within R m -> within R n -> within R (on_mismatch m n).
Proof.
  intros Hm Hn w. specialize (Hm w). unfold on_mismatch. destruct (m w) as [w1 [a|[c []| | | | |]]]; try done.
  etrans; [exact Hm|apply Hn].
Qed.
Lemma within_ret {A} (a : A) : within R (mret a).
Proof. by apply within_still. Qed.
Lemma within_throw {A} e : within R (throw e : M A).
Proof. by apply within_still. Qed.
Lemma within_liftR {A} (m : res state_exc A) : within R (liftR m).
Proof. by apply within_still. Qed.
Lemma within_check b e : within R (check b e).
Proof. by destruct b; apply within_still. Qed.
Lemma within_put_mem f : within R (put_mem f).
Proof. by apply within_still. Qed.
Lemma within_get_mem : within R get_mem.
Proof. by apply within_still. Qed.
Lemma within_get_disk : within R get_disk.
Proof. by apply within_still. Qed.
Lemma within_load_json f code : within R (load_state_json f code).
Proof. by destruct f; apply within_still. Qed.
End Within.

(** *** Writing a file back *)

Lemma replay_file_inj now s s' E E' : s <> "" -> s' <> "" -> replay_file s E = replay_file s' E' ->
  s = s' /\ filter (live_at now) E = filter (live_at now) E'.
Proof.
  intros Hs Hs' He. pose proof (parse_replay_file s E None false now _ Hs eq_refl) as Hp.
  rewrite (parse_replay_file s' E' None false now _ Hs' (eq_sym He)) in Hp.
  cbn [with_sentinel] in Hp. by injection Hp as -> ->.
Qed.
Lemma revoked_file_inj s s' R R' : s <> "" -> s' <> "" -> revoked_file s R = revoked_file s' R' ->
  s = s' /\ R = R'.
Proof.
  intros Hs Hs' He. pose proof (parse_revoked_file s R None false _ Hs eq_refl) as Hp.
  rewrite (parse_revoked_file s' R' None false _ Hs' (eq_sym He)) in Hp.
  cbn [with_sentinel] in Hp. by injection Hp as -> ->.
Qed.
Lemma lineage_file_inj s s' Hs Ls Hs' Ls' : s <> "" -> s' <> "" -> index_ok Hs Ls -> index_ok Hs' Ls' ->
  lineage_file s Hs Ls = lineage_file s' Hs' Ls' -> s = s' /\ Hs = Hs' /\ Ls = Ls'.
Proof.
  intros Hne Hne' Hi Hi' He. pose proof (parse_lineage_file s Hs Ls None false _ Hne Hi eq_refl) as Hp.
  rewrite (parse_lineage_file s' Hs' Ls' None false _ Hne' Hi' (eq_sym He)) in Hp.
  cbn [with_sentinel] in Hp. by injection Hp as -> -> ->.
Qed.

Lemma ok_set_replay now d s E : s <> "" ->
  (replay_cache d = Missing \/
   exists E0, replay_cache d = replay_file s E0 /\ filter (live_at now) E0 ⊆ E) ->
  ok_step now d (set_replay_cache (replay_file s E) d).
Proof.
  intros Hne Hd [W1 W2 W3]. split; [split; [right; by exists s, E|done..]|]. split.
  - intros s0 E0 Hne0 H00. destruct Hd as [Hm|(E1 & H11 & Hsub)]; [by rewrite Hm in H00|].
    rewrite H11 in H00. destruct (replay_file_inj now _ _ _ _ Hne Hne0 H00) as [<- HE].
    exists E. split; [done|]. intros j fe Hj Hlive. eapply lookup_weaken; [|done]. rewrite HE.
    by apply map_lookup_filter_Some_2.
  - intros s0 R Hne0 HR. by exists R.
  - intros s0 Hs Ls Hne0 Hix HL. by exists Hs, Ls.
Qed.
Lemma ok_set_revoked now d s R : s <> "" ->
  (revoked_list d = Missing \/ exists R0, revoked_list d = revoked_file s R0 /\ R0 ⊆ R) ->
  ok_step now d (set_revoked_list (revoked_file s R) d).
Proof.
  intros Hne Hd [W1 W2 W3]. split; [split; [done|right; by exists s, R|done]|]. split.
  - intros s0 E _ HE. exists E. by split; [|auto].
  - intros s0 R0 Hne0 H00. destruct Hd as [Hm|(R1 & H11 & Hsub)]; [by rewrite Hm in H00|].
    rewrite H11 in H00. destruct (revoked_file_inj _ _ _ _ Hne Hne0 H00) as [<- <-]. by exists R.
  - intros s0 Hs Ls Hne0 Hix HL. by exists Hs, Ls.
Qed.
Lemma ok_set_lineage now d s Hs Ls : s <> "" -> index_ok Hs Ls ->
  (lineage_hashes d = Missing \/
   exists Hs0 Ls0, lineage_hashes d = lineage_file s Hs0 Ls0 /\ index_ok Hs0 Ls0 /\ Hs0 ⊆ Hs /\ Ls0 ⊆ Ls) ->
  ok_step now d (set_lineage_hashes (lineage_file s Hs Ls) d).
Proof.
  intros Hne Hix Hd [W1 W2 W3]. split; [split; [done|done|right; by exists s, Hs, Ls]|]. split.
  - intros s0 E _ HE. exists E. by split; [|auto].
  - intros s0 R Hne0 HR. by exists R.
  - intros s0 Hs0 Ls0 Hne0 Hix0 H00. destruct Hd as [Hm|(Hs1 & Ls1 & H11 & Hix1 & Hsub)]; [by rewrite Hm in H00|].
    rewrite H11 in H00. destruct (lineage_file_inj _ _ _ _ _ _ Hne Hne0 Hix1 Hix0 H00) as (<- & <- & <-).
    exists Hs, Ls. tauto.
Qed.

(** *** What the loaders do to a well-formed directory *)

Lemma load_replay_spec p d fresh now w r : wf d -> fresh <> "" ->
  load_replay_cache fresh now (World p d) = (w, r) ->
  ok_step now d (disk w) /\ same_proc p (mem w) /\
  forall E, r = Ok E -> exists s E0, s <> "" /\ replay_cache (disk w) = replay_file s E0 /\
    E = filter (live_at now) E0 /\ replay_sentinel (mem w) = Some s.
Proof.
  intros Hwf Hne Hl. destruct (wf_replay d Hwf) as [Hm|(s & E0 & Hs & Hf)].
  - destruct (load_replay_missing p d fresh now Hm Hne) as [(q & e & Hq & Hp)|(q & Hq & Hp & Hsent)];
      rewrite Hq in Hl; injection Hl as <- <-; cbn [disk mem].
    + split_and!; [apply ok_step_refl|done|done].
    + split_and!; [apply ok_set_replay; auto|done|]. intros E [= <-].
      exists fresh, ∅. by rewrite map_filter_empty.
  - destruct (load_replay_existing p d s E0 fresh now Hf Hs) as (q & Hq & Hp & Hsent).
    rewrite Hq in Hl. injection Hl as <- <-. cbn [disk mem]. split_and!; [apply ok_step_refl|done|].
    intros E [= <-]. by exists s, E0.
Qed.
Lemma load_revoked_spec now p d fresh w r : wf d -> fresh <> "" ->
  load_revoked fresh (World p d) = (w, r) ->
  ok_step now d (disk w) /\ same_proc p (mem w) /\ session_files (disk w) = session_files d /\
  forall R, r = Ok R -> exists s, s <> "" /\ revoked_list (disk w) = revoked_file s R /\
    revoked_sentinel (mem w) = Some s.
Proof.
  intros Hwf Hne Hl. destruct (wf_revoked d Hwf) as [Hm|(s & R0 & Hs & Hf)].
  - destruct (load_revoked_missing p d fresh Hm Hne) as [(q & e & Hq & Hp)|(q & Hq & Hp & Hsent)];
      rewrite Hq in Hl; injection Hl as <- <-; cbn [disk mem].
    + split_and!; [apply ok_step_refl|done..].
    + split_and!; [apply ok_set_revoked; auto|done|done|]. intros R [= <-]. by exists fresh.
  - destruct (load_revoked_existing p d s R0 fresh Hf Hs) as (q & Hq & Hp & Hsent).
    rewrite Hq in Hl. injection Hl as <- <-. cbn [disk mem]. split_and!; [apply ok_step_refl|done|done|].
    intros R [= <-]. by exists s.
Qed.
Lemma load_lineage_spec now p d fresh w r : wf d -> fresh <> "" ->
  load_lineage_index fresh (World p d) = (w, r) ->
  ok_step now d (disk w) /\ same_proc p (mem w) /\
  forall Hs Ls, r = Ok (Hs, Ls) -> exists s, s <> "" /\ index_ok Hs Ls /\
    lineage_hashes (disk w) = lineage_file s Hs Ls /\ lineage_sentinel (mem w) = Some s.
Proof.
  intros Hwf Hne Hl. destruct (wf_lineage d Hwf) as [Hm|(s & Hs0 & Ls0 & Hs & Hix & Hf)].
  - destruct (load_lineage_missing p d fresh Hm Hne)
      as (Hs & Ls & Hix & [(q & e & Hq & Hp)|(q & Hq & Hp & Hsent)]);
      rewrite Hq in Hl; injection Hl as <- <-; cbn [disk mem].
    + split_and!; [apply ok_step_refl|done|done].
    + split_and!; [apply ok_set_lineage; auto|done|]. intros ? ? [= <- <-]. by exists fresh.
  - destruct (load_lineage_existing p d s Hs0 Ls0 fresh Hf Hs Hix) as (q & Hq & Hp & Hsent).
    rewrite Hq in Hl. injection Hl as <- <-. cbn [disk mem]. split_and!; [apply ok_step_refl|done|].
    intros ? ? [= <- <-]. by exists s.
Qed.

End State.

(** An operation that keeps the directory well formed and loses nothing. *)
Notation safe now := (within (ok_step now)).
Create HintDb passport_state.
#[export] Hint Resolve within_ret within_throw within_liftR within_check within_put_mem within_get_mem
  within_get_disk within_load_json : passport_state.
#[export] Hint Extern 0 (PreOrder _) => typeclasses eauto : passport_state.
(** Walks through the steps of an operation. *)
Ltac within_steps :=
  repeat first
    [ progress eauto with passport_state
    | match goal with
      | |- @within _ _ _ (@or_none _ _ _) => apply within_or_none
      | |- @within _ _ _ (@on_mismatch _ _ _ _) => apply within_on_mismatch; [typeclasses eauto| |]
      | |- @within _ _ _ (@mbind _ _ _ _ _ _) => apply within_bind; [typeclasses eauto| |intros ?]
      | |- @within _ _ _ (match ?x with _ => _ end) => destruct x
      | |- @within _ _ _ (if ?b then _ else _) => destruct b
      end ].

Section Operations.
Context `{!Digests, !Jwt, !PyRepr}.
#[local] Existing Instances M_bind M_ret.

Section Safe.
Context (now : Z) (fresh : string) (Hfresh : fresh <> "").

Lemma safe_load_replay t : t / TICKS <= now / TICKS -> safe now (load_replay_cache fresh t).
Proof.
  intros Hle [p d] Hwf. destruct (load_replay_cache fresh t (World p d)) as [w r] eqn:El.
  destruct (load_replay_spec p d fresh t w r Hwf Hfresh El) as [Hok _]. destruct (Hok Hwf) as [Hw Hg].
  split; [done|by eapply grows_le].
Qed.
Lemma safe_load_revoked : safe now (load_revoked fresh).
Proof.
  intros [p d] Hwf. destruct (load_revoked fresh (World p d)) as [w r] eqn:El.
  by apply (load_revoked_spec now p d fresh w r).
Qed.
Lemma safe_load_lineage : safe now (load_lineage_index fresh).
Proof.
  intros [p d] Hwf. destruct (load_lineage_index fresh (World p d)) as [w r] eqn:El.
  by apply (load_lineage_spec now p d fresh w r).
Qed.

Lemma safe_initialize_replay b t : safe now (initialize_replay_cache b fresh t).
Proof.
  intros [p d] Hwf. unfold initialize_replay_cache, mbind, M_bind, get_disk. cbn [disk].
  destruct (wf_replay d Hwf) as [Hm|(s & E & Hs & Hf)].
  - rewrite Hm. cbn [is_missing]. destruct b; [|by apply ok_step_refl].
    by apply ok_set_replay; auto.
  - rewrite Hf. cbn -[parse_replay_cache]. unfold liftR.
    rewrite (parse_replay_file s E None true t _ Hs eq_refl). cbn. by apply ok_step_refl.
Qed.
Lemma safe_initialize_revoked b : safe now (initialize_revoked b fresh).
Proof.
  intros [p d] Hwf. unfold initialize_revoked, mbind, M_bind, get_disk. cbn [disk].
  destruct (wf_revoked d Hwf) as [Hm|(s & R & Hs & Hf)].
  - rewrite Hm. cbn [is_missing]. destruct b; [|by apply ok_step_refl].
    by apply ok_set_revoked; auto.
  - rewrite Hf. cbn -[parse_revoked]. unfold liftR.
    rewrite (parse_revoked_file s R None true _ Hs eq_refl). cbn. by apply ok_step_refl.
Qed.
Lemma safe_initialize_lineage b : safe now (initialize_lineage_hashes b fresh).
Proof.
  intros [p d] Hwf. unfold initialize_lineage_hashes, mbind, M_bind, get_disk. cbn [disk].
  destruct (wf_lineage d Hwf) as [Hm|(s & Hs & Ls & Hne & Hix & Hf)].
  - rewrite Hm. cbn [is_missing]. destruct b; [by apply ok_set_lineage; auto using index_empty|].
    destruct (_ || _); [|by apply ok_step_refl]. pose proof (reconstruct_ok d) as Hr.
    destruct (reconstruct_lineage_from_sessions d) as [Hs Ls]. by apply ok_set_lineage; auto.
  - rewrite Hf. cbn -[parse_lineage_hashes]. unfold liftR.
    rewrite (parse_lineage_file s Hs Ls None true _ Hne Hix eq_refl). cbn [with_sentinel].
    rewrite (index_no_migration Hs Ls Hix). by apply ok_step_refl.
Qed.

Lemma safe_seed c : safe now (seed_lineage_parent_cache c).
Proof.
  unfold seed_lineage_parent_cache, remember_lineage_parent, jti_of, passport. within_steps.
  match goal with |- within _ (remember_links ?l) => induction l; cbn [remember_links] end; 
    unfold remember_lineage_parent; within_steps.
Qed.
Lemma safe_walk fuel current l : safe now (lineage_walk fuel current l).
Proof.
  revert current l. induction fuel; intros current l; cbn [lineage_walk]; unfold cached_lineage_parent; within_steps.
Qed.
#[local] Hint Resolve safe_load_replay safe_load_revoked safe_load_lineage safe_initialize_replay
  safe_initialize_revoked safe_initialize_lineage safe_seed safe_walk : passport_state.
Lemma safe_assert c : safe now (assert_passport_lineage_not_revoked c fresh).
Proof.
  unfold assert_passport_lineage_not_revoked, first_revoked_jti_in_lineage, passport_lineage_jtis, jti_of.
  within_steps.
Qed.
Lemma safe_blocked b c : safe now (blocked_session_reason b c fresh).
Proof.
  unfold blocked_session_reason, first_revoked_jti_in_lineage, passport_lineage_jtis, jti_of. within_steps.
Qed.
Lemma safe_verify public audience t parent n n' :
  safe now (verify_passport_token public audience t parent fresh n n').
Proof. pose proof safe_assert. unfold verify_passport_token, passport. within_steps. Qed.
Lemma safe_possession c t holder kb r : safe now (check_possession c t holder kb r).
Proof. unfold check_possession, check_kb_nonce, passport. within_steps. Qed.

(** *** Writes *)

Lemma live_le t (E : gmap string (Z * Z)) : t / TICKS <= now / TICKS -> filter (live_at now) E ⊆ filter (live_at t) E.
Proof. intros Hle. apply map_filter_subseteq_ext. intros j fe _. unfold live_at. lia. Qed.
Lemma insert_new_subseteq {A} (m m' : gmap string A) j x : m ⊆ m' -> m' !! j = None -> m ⊆ <[j := x]> m'.
Proof. intros Hm Hj. etrans; [exact Hm|by apply insert_subseteq]. Qed.

Lemma revoke_spec p d jti t w r : wf d -> revoke jti fresh t (World p d) = (w, r) ->
  ok_step now d (disk w) /\
  (r = Ok tt -> session_id_match jti = true /\
     exists s R, s <> "" /\ revoked_list (disk w) = revoked_file s R /\ is_Some (R !! jti)).
Proof.
  intros Hwf. unfold revoke, check. destruct (session_id_match jti) eqn:Em; cbn [negb];
    [|intros [= <- <-]; split; [apply ok_step_refl|done]].
  rewrite (M_bind_ok _ _ _ (World p d) tt) by done.
  destruct (load_revoked fresh (World p d)) as [w1 r1] eqn:El.
  destruct (load_revoked_spec now p d fresh w1 r1 Hwf Hfresh El) as (Hok & _ & _ & HR).
  destruct r1 as [R|e]; [|rewrite (M_bind_raise _ _ _ w1 e) by done; by intros [= <- <-]].
  rewrite (M_bind_ok _ _ _ w1 R) by done. destruct (HR R eq_refl) as (s & Hs & Hf & Hsent).
  unfold persist_revoked, mbind, M_bind, get_mem. cbn [active_sentinel]. rewrite Hsent.
  unfold put_disk. intros [= <- <-]. cbn [disk].
  set (R' := match R !! jti with Some _ => R | None => _ end).
  assert (Hsub : R ⊆ R' /\ is_Some (R' !! jti)).
  { subst R'. destruct (R !! jti) eqn:Ej; [by rewrite Ej; split; eauto|].
    split; [by apply insert_new_subseteq|rewrite lookup_insert_eq; eauto]. }
  split; [|intros _; split; [done|exists s, R'; tauto]].
  eapply ok_step_trans; [exact Hok|]. apply ok_set_revoked; [done|]. right. exists R. tauto.
Qed.

Definition recorded (d : store) (jti : string) (exp : Z) : Prop :=
  exists s E f, s <> "" /\ replay_cache d = replay_file s E /\ E !! jti = Some (f, exp).

(** The replay part of [record_passport_use], followed by [k]. *)
Lemma record_replay_spec {B} p d c jti t (k : M B) w r : wf d -> t / TICKS <= now / TICKS ->
  (entries ← load_replay_cache fresh t;
   _ ← check (bool_decide (is_Some (entries !! jti))) Denied;
   _ ← check (REPLAY_CACHE_MAX_ENTRIES <=? base.size entries)%nat (Unavailable "replay_cache_full" false);
   exp ← liftR (match dget "exp" c with
                | Some v => match py_int v with Some z => Ok z | None => Raise (Rejected TypeErr) end
                | None => Raise (Rejected KeyErr)
                end);
   _ ← persist_replay_cache (<[jti := (t / TICKS, exp)]> entries) None;
   k) (World p d) = (w, r) ->
  (ok_step now d (disk w) /\ exists e, r = Raise e) \/
  exists w1 v exp, k w1 = (w, r) /\ ok_step now d (disk w1) /\
    dget "exp" c = Some v /\ py_int v = Some exp /\ recorded (disk w1) jti exp /\
    forall exp', recorded d jti exp' -> exp' <= t / TICKS.
Proof.
  intros Hwf Hle. destruct (load_replay_cache fresh t (World p d)) as [w1 r1] eqn:El.
  destruct (load_replay_spec p d fresh t w1 r1 Hwf Hfresh El) as (Hok & _ & HE).
  assert (Hok' : ok_step now d (disk w1)).
  { intros ?. destruct (Hok Hwf) as [Hw Hg]. split; [done|by eapply grows_le]. }
  destruct r1 as [E|e]; [|rewrite (M_bind_raise _ _ _ w1 e) by done; intros [= <- <-]; eauto].
  rewrite (M_bind_ok _ _ _ w1 E) by done. destruct (HE E eq_refl) as (s & E0 & Hs & Hf & HE0 & Hsent).
  unfold check, throw. destruct (bool_decide _) eqn:Ej; [intros [= <- <-]; eauto|].
  apply bool_decide_eq_false, eq_None_not_Some in Ej. rewrite (M_bind_ok _ _ _ w1 tt) by done.
  destruct (_ <=? _)%nat; [intros [= <- <-]; eauto|].
  rewrite (M_bind_ok _ _ _ w1 tt) by done. unfold liftR.
  destruct (dget "exp" c) as [v|] eqn:Ev; [|intros [= <- <-]; eauto].
  destruct (py_int v) as [exp|] eqn:Ei; [|intros [= <- <-]; eauto].
  rewrite (M_bind_ok _ _ _ w1 exp) by done.
  set (d1 := set_replay_cache (replay_file s (<[jti:=(t / TICKS, exp)]> E)) (disk w1)).
  rewrite (M_bind_ok _ _ _ (World (mem w1) d1) tt)
    by (unfold persist_replay_cache, mbind, M_bind, get_mem; cbn [active_sentinel]; by rewrite Hsent).
  intros Hk. right. exists (World (mem w1) d1), v, exp. cbn [disk]. split_and!; try done.
  - eapply ok_step_trans; [exact Hok'|]. apply ok_set_replay; [done|]. right. exists E0. split; [done|].
    apply insert_new_subseteq; [|done]. subst E. by apply live_le.
  - exists s, (<[jti:=(t / TICKS, exp)]> E), (t / TICKS). by rewrite lookup_insert_eq.
  - intros x (s1 & E1 & f & Hs1 & Hf1 & Hj). destruct (Hok Hwf) as [_ Hg].
    destruct (gr_replay _ _ _ Hg s1 E1 Hs1 Hf1) as (E2 & Hf2 & Hkeep). rewrite Hf in Hf2.
    destruct (replay_file_inj t _ _ _ _ Hs Hs1 Hf2) as [_ HE2]. apply Z.nlt_ge. intros Hlt.
    pose proof (Hkeep _ _ Hj Hlt) as Hj2. rewrite HE0, HE2 in Ej.
    by rewrite (map_lookup_filter_Some_2 _ _ _ _ Hj2 Hlt) in Ej.
Qed.

(** The lineage part. *)
Lemma record_lineage_spec p d c text jti w r : wf d -> non_empty jti = true ->
  ('(hashes, edges) ← load_lineage_index fresh;
   let token_hash := passport_token_hash text in
   _ ← check (match hashes !! jti with Some h => negb (String.eqb h token_hash) | None => false end)
         (Unavailable LINEAGE_UNAVAILABLE false);
   edge ← liftR (lineage_edge_from_claims c);
   _ ← check (match edges !! jti with Some e => negb (bool_decide (e = edge)) | None => false end)
         (Unavailable LINEAGE_UNAVAILABLE false);
   persist_lineage_hashes (<[jti := token_hash]> hashes) (<[jti := edge]> edges) None)
    (World p d) = (w, r) ->
  ok_step now d (disk w).
Proof.
  intros Hwf Hj. destruct (load_lineage_index fresh (World p d)) as [w1 r1] eqn:El.
  destruct (load_lineage_spec now p d fresh w1 r1 Hwf Hfresh El) as (Hok & _ & HL).
  destruct r1 as [[Hs Ls]|e]; [|rewrite (M_bind_raise _ _ _ w1 e) by done; by intros [= <- <-]].
  rewrite (M_bind_ok _ _ _ w1 (Hs, Ls)) by done.
  destruct (HL Hs Ls eq_refl) as (s & Hne & Hix & Hf & Hsent). cbv zeta. unfold check, throw.
  assert (Hh : (match Hs !! jti with Some h => negb (String.eqb h (passport_token_hash text)) | None => false end)
               = false -> Hs ⊆ <[jti := passport_token_hash text]> Hs).
  { destruct (Hs !! jti) as [h|] eqn:Eh; [|by intros _; apply insert_subseteq].
    intros Hb%negb_false_iff%String.eqb_eq. subst h. by rewrite insert_id. }
  destruct (match Hs !! jti with Some _ => _ | None => _ end); [by intros [= <- <-]|].
  rewrite (M_bind_ok _ _ _ w1 tt) by done. unfold liftR.
  destruct (lineage_edge_from_claims c) as [e|e] eqn:Ee; [|by intros [= <- <-]].
  rewrite (M_bind_ok _ _ _ w1 e) by done.
  assert (Hl : (match Ls !! jti with Some x => negb (bool_decide (x = e)) | None => false end) = false ->
               Ls ⊆ <[jti := e]> Ls).
  { destruct (Ls !! jti) as [x|] eqn:Ex; [|by intros _; apply insert_subseteq].
    intros Hb%negb_false_iff%bool_decide_eq_true. subst x. by rewrite insert_id. }
  destruct (match Ls !! jti with Some _ => _ | None => _ end); [by intros [= <- <-]|].
  rewrite (M_bind_ok _ _ _ w1 tt) by done.
  unfold persist_lineage_hashes, mbind, M_bind, get_mem. cbn [active_sentinel]. rewrite Hsent.
  unfold put_disk. intros [= <- <-]. cbn [disk].
  eapply ok_step_trans; [exact Hok|]. apply ok_set_lineage; [done|..].
  - apply index_insert; [done|done|apply digest_hash_ok, sha256_hex_shape|by eapply edge_of_claims_ok].
  - right. exists Hs, Ls. auto.
Qed.
End Safe.
Lemma safe_initialize now f1 f2 f3 t : f1 <> "" -> f2 <> "" -> f3 <> "" ->
  safe now (initialize_passport_state_files f1 f2 f3 t).
Proof. 
  intros. pose proof safe_initialize_replay. pose proof safe_initialize_revoked.
  pose proof safe_initialize_lineage. unfold initialize_passport_state_files, keep. within_steps.
Qed.
End Operations.
