(* ===== verification/PassportAdmission.v ===== *)
(** * Passport admission

    What [start_session], [verify_passport_token] and [revoke] of
    [PassportState] guarantee to every process that shares a state directory,
    in any interleaving of their operations: the lineage that is checked
    against the revocation list is the passport and its ancestors, whatever the
    bounded cache held; a passport starts one session while it is in force,
    even when session files are lost; a revoked passport takes its descendants
    with it; without the state files nothing is admitted. *)

From S2P Require Import Prelude CanonicalJson Passport PassportProps PyJson Policy Session.
From S2P Require Import PassportState PassportStateProps.
Import Passport PyJson Policy Session PassportState.
Open Scope string_scope.
Open Scope Z_scope.

(** ** The cache of lineage parents *)

Lemma dget_cons {A} k k' (v : A) c : dget k ((k', v) :: c) = if String.eqb k k' then Some v else dget k c.
Proof. done. Qed.
Lemma dget_notin {A} k (c : list (string * A)) : k ∉ c.*1 -> dget k c = None.
Proof.
  induction c as [|[k' v] c IH]; [done|]. rewrite fmap_cons, not_elem_of_cons, dget_cons. intros [Hk Hc].
  rewrite (proj2 (String.eqb_neq _ _)) by done. auto.
Qed.
Lemma dget_remove k k' c : k <> k' -> dget k (cache_remove k' c) = dget k c.
Proof.
  intros Hk. unfold cache_remove. induction c as [|[i v] c IH]; [done|]. rewrite filter_cons. cbn [fst].
  case_decide as Hi; rewrite !dget_cons; [by rewrite IH|]. subst i.
  by rewrite (proj2 (String.eqb_neq _ _)).
Qed.
Lemma remove_notin k c : k ∉ (cache_remove k c).*1.
Proof. intros ([i v] & -> & [Hne _]%list_elem_of_filter)%list_elem_of_fmap. done. Qed.
(** Moving an entry to the end changes no lookup. *)
Lemma dget_touch k k' v c : dget k' c = Some v ->
  dget k (cache_remove k' c ++ [(k', v)])%list = dget k c.
Proof.
  intros Hv. rewrite dget_app. destruct (decide (k = k')) as [->|Hk].
  - rewrite dget_notin by apply remove_notin. by rewrite dget_cons, String.eqb_refl.
  - rewrite dget_remove, dget_cons by done. rewrite (proj2 (String.eqb_neq _ _)) by done.
    by destruct (dget k c).
Qed.

(** [k] was used within the last [n + 1] uses. *)
Definition recent (n : nat) (k : string) (v : option string) (c : list (string * option string)) : Prop :=
  exists c1 c2, c = (c1 ++ (k, v) :: c2)%list /\ k ∉ c1.*1 /\ (length c2 <= n)%nat.
Lemma recent_dget n k v c : recent n k v c -> dget k c = Some v.
Proof.
  intros (c1 & c2 & -> & Hk & _). rewrite dget_app, dget_notin by done. by rewrite dget_cons, String.eqb_refl.
Qed.
Lemma recent_le n m k v c : (n <= m)%nat -> recent n k v c -> recent m k v c.
Proof. intros Hle (c1 & c2 & -> & Hk & Hl). exists c1, c2. split_and!; [done..|lia]. Qed.
Lemma drop_within {A} n (a b : list A) : (length (a ++ b) - n <= length a)%nat ->
  drop (length (a ++ b) - n) (a ++ b) = (drop (length (a ++ b) - n) a ++ b)%list.
Proof. intros Hn. by rewrite drop_app_le. Qed.
Lemma drop_keys {A} k n (l : list (string * A)) : k ∈ (drop n l).*1 -> k ∈ l.*1.
Proof. intros Hk. rewrite <- (take_drop n l), fmap_app. set_solver. Qed.
Lemma remember_new k v c : recent 0 k v (remember k v c).
Proof.
  unfold remember. rewrite drop_within by (rewrite length_app; unfold LINEAGE_PARENT_CACHE_MAX_ENTRIES; cbn; lia).
  eexists _, []. split; [done|]. split; [|done]. intros Hk%drop_keys. by apply (remove_notin k c).
Qed.
Lemma remember_old n k v k' v' c : (S n < LINEAGE_PARENT_CACHE_MAX_ENTRIES)%nat -> k <> k' ->
  recent n k v c -> recent (S n) k v (remember k' v' c).
Proof.
  intros Hn Hk (c1 & c2 & -> & Hc1 & Hl). unfold remember, cache_remove.
  rewrite filter_app, filter_cons_True, <- app_assoc, <- app_comm_cons by done.
  set (a := filter _ c1). set (b := filter _ c2).
  assert (Hb : (length (b ++ [(k', v')]) <= S n)%nat).
  { rewrite length_app. pose proof (length_filter (fun kv : string * option string => kv.1 <> k') c2).
    subst b. cbn. lia. }
  rewrite drop_within by (rewrite length_app; cbn [length]; lia).
  eexists _, _. split; [done|]. split; [|done]. intros Hin%drop_keys. apply Hc1.
  apply list_elem_of_fmap in Hin as (x & Hx & [_ Hi]%list_elem_of_filter). apply list_elem_of_fmap. eauto.
Qed.

Definition remember_all (kvs c : list (string * option string)) : list (string * option string) :=
  foldl (fun c kv => remember kv.1 kv.2 c) c kvs.
(** Distinct keys remembered in a row are all held. *)
Lemma remember_all_recent kvs c : NoDup kvs.*1 -> (length kvs < LINEAGE_PARENT_CACHE_MAX_ENTRIES)%nat ->
  forall k v, (k, v) ∈ kvs -> recent (length kvs) k v (remember_all kvs c).
Proof.
  unfold remember_all. induction kvs as [|[k' v'] kvs IH] using rev_ind; intros Hn Hl k v Hin; [by apply elem_of_nil in Hin|].
  rewrite fmap_app in Hn. apply NoDup_app in Hn as (Hn & Hd & _). rewrite length_app in *. cbn [length] in *.
  rewrite foldl_app. cbn [foldl fst snd]. apply elem_of_app in Hin as [Hin|Hin].
  - replace (length kvs + 1)%nat with (S (length kvs)) by lia. apply remember_old; [lia| |apply IH; [done|lia|done]].
    intros ->. apply (Hd k'); [apply list_elem_of_fmap; by exists (k', v)|set_solver].
  - apply list_elem_of_singleton in Hin. injection Hin as -> ->. eapply recent_le; [|apply remember_new]. lia.
Qed.

(** ** The lineage of a passport *)

Section Admission.
Context `{!Digests, !Jwt, !PyRepr}.
#[local] Existing Instances M_bind M_ret.
#[local] Hint Extern 0 (PreOrder _) => typeclasses eauto : core.

Lemma cached_parent_spec k v p d : dget k (parent_cache p) = Some v ->
  cached_lineage_parent k (World p d)
  = (World (set_parent_cache (cache_remove k (parent_cache p) ++ [(k, v)])%list p) d, Ok (Some v)).
Proof.
  intros Hv. unfold cached_lineage_parent. rewrite (M_bind_ok _ _ _ (World p d) p) by done. by rewrite Hv.
Qed.

Lemma walk_exact chain fuel current parent lineage p d :
  linked parent chain -> dget current (parent_cache p) = Some parent ->
  (forall l, l ∈ chain -> dget (l_jti l) (parent_cache p) = Some (l_parent_jti l)) ->
  NoDup (lineage ++ current :: (l_jti <$> chain)) ->
  (length lineage + length chain <= MAX_DELEGATION_DEPTH)%nat -> (length chain < fuel)%nat ->
  exists c, lineage_walk fuel current lineage (World p d)
    = (World (set_parent_cache c p) d, Ok (lineage ++ current :: (l_jti <$> chain))%list).
Proof.
  revert fuel current parent lineage p.
  induction chain as [|l chain IH]; intros [|fuel] current parent lineage p Hl Hc Hch Hn Hd Hf; try (cbn in *; lia).
  all: cbn [lineage_walk]; unfold check.
  all: assert (Hcur : str_in current lineage = false)
    by (apply str_in_false; apply NoDup_app in Hn as (_ & Hn & _); intros Hin; apply (Hn _ Hin); set_solver).
  all: rewrite Hcur, (M_bind_ok _ _ _ (World p d) tt) by done.
  all: replace (MAX_DELEGATION_DEPTH <? _)%nat with false
    by (symmetry; apply Nat.ltb_ge; rewrite length_app; cbn [length] in *; lia).
  all: rewrite (M_bind_ok _ _ _ (World p d) tt) by done.
  all: rewrite (M_bind_ok _ _ _ _ _ (cached_parent_spec _ _ _ _ Hc)).
  - cbn in Hl. subst parent. eexists. done.
  - destruct Hl as [-> Hl]. rewrite fmap_cons.
    destruct (IH fuel (l_jti l) (l_parent_jti l) (lineage ++ [current])%list (set_parent_cache
      (cache_remove current (parent_cache p) ++ [(current, Some (l_jti l))])%list p)) as (c & Hw); [done|..].
    + cbn [parent_cache set_parent_cache]. rewrite dget_touch by done. apply Hch. set_solver.
    + intros l' Hl'. cbn [parent_cache set_parent_cache]. rewrite dget_touch by done. apply Hch. set_solver.
    + rewrite <- app_assoc. done.
    + rewrite length_app. cbn [length] in *. lia.
    + cbn [length] in *. lia.
    + rewrite Hw. exists c. by rewrite <- app_assoc.
Qed.

Lemma remember_links_spec chain p d : remember_links chain (World p d)
  = (World (set_parent_cache (remember_all ((fun l => (l_jti l, l_parent_jti l)) <$> chain) (parent_cache p)) p) d,
     Ok tt).
Proof.
  revert p. induction chain as [|l chain IH]; intros p; [by destruct p|]. cbn [remember_links].
  rewrite (M_bind_ok _ _ _ (World (set_parent_cache (remember (l_jti l) (l_parent_jti l) (parent_cache p)) p) d) tt)
    by done. rewrite IH. done.
Qed.

Lemma chain_parent_shape c chain : delegation_chain_entries c = Ok chain ->
  match py_get "parent_jti" c with PNone => None | v => Some (py_str v) end = as_str (py_get "parent_jti" c).
Proof.
  unfold delegation_chain_entries. intros Ho. bind_inv Ho. destruct (py_get "parent_jti" c); try done.
Qed.

(** The passport and its ancestors, from its claims alone. *)
Definition lineage_of (c : claims) : option (list string) :=
  match py_get "jti" c, delegation_chain_entries c with
  | PStr jti, Ok chain => Some (jti :: (l_jti <$> chain))
  | _, _ => None
  end.

Lemma lineage_of_ok c chain : delegation_chain_entries c = Ok chain ->
  exists jti, py_get "jti" c = PStr jti /\ lineage_of c = Some (jti :: (l_jti <$> chain)).
Proof.
  intros Hc. destruct (chain_entries_ok c chain Hc) as (jti & Hj & _). exists jti. split; [done|].
  unfold lineage_of. by rewrite Hj, Hc.
Qed.
Lemma jti_of_ok c jti w : py_get "jti" c = PStr jti -> jti_of c w = (w, Ok jti).
Proof.
  unfold py_get, jti_of, liftR. destruct (dget "jti" c) as [v|]; unfold default, id; [|done]. by intros ->.
Qed.

Lemma lineage_jtis_spec c l p d : lineage_of c = Some l ->
  exists cache, passport_lineage_jtis c (World p d) = (World (set_parent_cache cache p) d, Ok l).
Proof.
  unfold lineage_of. destruct (py_get "jti" c) as [| | | |jti| |] eqn:Ej; try done.
  destruct (delegation_chain_entries c) as [chain|] eqn:Ec; [|done]. intros [= <-].
  destruct (chain_entries_ok c chain Ec) as (j & Hj & Hlen & Hn & Hl & _).
  rewrite Ej in Hj. injection Hj as <-.
  unfold passport_lineage_jtis, seed_lineage_parent_cache.
  rewrite (chain_parent_shape c chain Ec). set (parent := as_str _) in *.
  set (kvs := (jti, parent) :: ((fun l => (l_jti l, l_parent_jti l)) <$> chain)).
  set (cache := remember_all kvs (parent_cache p)).
  rewrite (M_bind_ok _ _ _ (World (set_parent_cache cache p) d) tt).
  2: { rewrite (M_bind_ok _ _ _ _ _ (jti_of_ok c jti _ Ej)).
       rewrite (M_bind_ok _ _ _ (World (set_parent_cache (remember jti parent (parent_cache p)) p) d) tt) by done.
       unfold passport. rewrite Ec.
       rewrite (M_bind_ok _ _ _ (World (set_parent_cache (remember jti parent (parent_cache p)) p) d) chain) by done.
       rewrite remember_links_spec. done. }
  rewrite (M_bind_ok _ _ _ _ _ (jti_of_ok c jti _ Ej)).
  assert (Hheld : forall k v, (k, v) ∈ kvs -> dget k cache = Some v).
  { intros k v Hin. eapply recent_dget, remember_all_recent; [|..|exact Hin].
    - subst kvs. rewrite fmap_cons, <- list_fmap_compose. exact Hn.
    - subst kvs. cbn [length]. rewrite length_fmap. unfold MAX_DELEGATION_DEPTH, LINEAGE_PARENT_CACHE_MAX_ENTRIES in *. lia. }
  edestruct (walk_exact chain (MAX_DELEGATION_DEPTH + 2) jti parent [] (set_parent_cache cache p) d) as (c' & Hw).
  - done.
  - apply Hheld. subst kvs. set_solver.
  - intros l Hin. apply Hheld. subst kvs. apply list_elem_of_further. apply list_elem_of_fmap. eauto.
  - exact Hn.
  - cbn [length]. lia.
  - lia.
  - exists c'. exact Hw.
Qed.

(** ** What an admission establishes *)

Definition revoked_in (d : store) (jti : string) : Prop :=
  exists s R, s <> "" /\ revoked_list d = revoked_file s R /\ is_Some (R !! jti).

Lemma revoked_grows now d d' j : grows now d d' -> revoked_in d j -> revoked_in d' j.
Proof.
  intros Hg (s & R & Hs & Hf & [x Hj]). destruct (gr_revoked _ _ _ Hg s R Hs Hf) as (R' & Hf' & Hsub).
  exists s, R'. split_and!; [done..|]. exists x. by eapply lookup_weaken.
Qed.
Lemma recorded_grows now d d' j e : grows now d d' -> recorded d j e -> now / TICKS < e -> recorded d' j e.
Proof.
  intros Hg (s & E & f & Hs & Hf & Hj) Hlt. destruct (gr_replay _ _ _ Hg s E Hs Hf) as (E' & Hf' & Hkeep).
  exists s, E', f. split_and!; [done..|]. by apply Hkeep.
Qed.

Lemma safe_at now {A} (m : M A) w w' r : safe now m -> m w = (w', r) -> ok_step now (disk w) (disk w').
Proof. intros Hs Hm. specialize (Hs w). by rewrite Hm in Hs. Qed.

Section Ops.
Context (now : Z) (fresh : string) (Hfresh : fresh <> "").
Context (public : public_key) (audience : string).

Lemma assert_spec c l p d w : wf d -> lineage_of c = Some l ->
  assert_passport_lineage_not_revoked c fresh (World p d) = (w, Ok tt) ->
  forall j, j ∈ l -> ~ revoked_in d j.
Proof.
  intros Hwf Hl. unfold assert_passport_lineage_not_revoked, first_revoked_jti_in_lineage.
  intros [(w1 & x & Hx & Hc)|(? & _ & ?)]%M_bind_inv; [|done].
  apply M_bind_inv in Hx as [(w2 & R & HR & Hx)|(? & _ & ?)]; [|done].
  destruct (load_revoked_spec 0 p d fresh w2 _ Hwf Hfresh HR) as (Hok & _ & _ & Hspec).
  destruct (Hspec R eq_refl) as (s & Hs & Hf & _). destruct w2 as [p2 d2]. cbn [disk mem] in *.
  destruct (lineage_jtis_spec c l p2 d2 Hl) as (cache & Hlin).
  rewrite (M_bind_ok _ _ _ _ _ Hlin) in Hx. injection Hx as <- <-.
  unfold check in Hc. destruct (bool_decide _) eqn:Eb in Hc; [|done].
  apply bool_decide_eq_true in Eb. intros j Hj Hrev.
  destruct (revoked_grows _ _ _ _ (proj2 (Hok Hwf)) Hrev) as (s' & R' & Hs' & Hf' & Hin).
  rewrite Hf in Hf'. destruct (revoked_file_inj _ _ _ _ Hs Hs' Hf') as [<- <-].
  apply list_elem_of_In, (find_none _ _ Eb), bool_decide_eq_false in Hj. done.
Qed.

Lemma verify_ok_lineage t key aud parent hs ls n n' c : verify_passport t key aud parent hs ls n n' = Ok c ->
  decode_passport t key aud n = Ok c /\ exists chain, delegation_chain_entries c = Ok chain.
Proof.
  unfold verify_passport. intros (c0 & Hd & Hv)%bind_ok. apply bind_ok in Hv as (chain & Hc & Hv).
  assert (c0 = c) as ->; [|eauto].
  destruct (py_get "parent_jti" c0); try (by injection Hv).
  all: apply bind_ok in Hv as (? & _ & Hv).
  all: destruct parent; [|destruct hs, ls, chain; try done; apply guard_ok in Hv as [_ Hv];
    apply bind_ok in Hv as (? & _ & Hv); by injection Hv].
  all: apply bind_ok in Hv as (? & _ & Hv); rewrite !guard_ok in Hv; destruct Hv as (_ & _ & Hv);
    apply bind_ok in Hv as (? & _ & Hv); apply guard_ok in Hv as [_ Hv];
    apply bind_ok in Hv as (mic & _ & Hv); destruct mic; [by injection Hv|];
    apply bind_ok in Hv as (? & _ & Hv); apply guard_ok in Hv as [_ Hv]; by injection Hv.
Qed.

Lemma verify_spec p d t parent n n' w c : wf d ->
  verify_passport_token public audience t parent fresh n n' (World p d) = (w, Ok c) ->
  decode_passport t public audience n = Ok c /\
  exists l, lineage_of c = Some l /\ forall j, j ∈ l -> ~ revoked_in d j.
Proof.
  intros Hwf. unfold verify_passport_token. rewrite (M_bind_ok _ _ _ (World p d) p) by done. cbv zeta.
  set (par := match parent with Some t0 => Some t0 | None => _ end). set (need := _ && _).
  intros [(w1 & tr & Htr & Hv)|(? & _ & ?)]%M_bind_inv; [|done].
  assert (Hok1 : ok_step 0 d (disk w1)).
  { refine (safe_at 0 _ (World p d) _ _ _ Htr).
    destruct need; [apply within_bind; [done|by apply safe_load_lineage|intros]|]; by apply within_ret. }
  unfold passport, liftR in Hv.
  destruct (verify_passport t public audience par _ _ n n') as [c0|] eqn:Ev; [|done].
  rewrite (M_bind_ok _ _ _ w1 c0) in Hv by done.
  apply M_bind_inv in Hv as [(w2 & [] & Hs & Hv)|(? & _ & ?)]; [|done].
  apply M_bind_inv in Hv as [(w3 & [] & Ha & Hv)|(? & _ & ?)]; [|done]. injection Hv as <- <-.
  destruct (verify_ok_lineage _ _ _ _ _ _ _ _ _ Ev) as (Hdec & chain & Hchain). split; [done|].
  destruct (lineage_of_ok c0 chain Hchain) as (jti & _ & Hl). eexists. split; [exact Hl|].
  pose proof (safe_at 0 _ _ _ _ (safe_seed 0 c0) Hs) as Hok2. destruct (Hok1 Hwf) as [Hwf1 Hg1].
  destruct (Hok2 Hwf1) as [Hwf2 Hg2]. destruct w2 as [p2 d2]. intros j Hj Hrev.
  apply (assert_spec c0 _ p2 d2 w3 Hwf2 Hl Ha j Hj). by eapply revoked_grows, revoked_grows.
Qed.

Lemma session_id_nonempty jti : session_id_match jti = true -> non_empty jti = true.
Proof. by destruct jti. Qed.

Lemma record_spec p d c text jti t w r : wf d -> t / TICKS <= now / TICKS ->
  py_get "jti" c = PStr jti -> non_empty jti = true ->
  record_passport_use c text fresh t (World p d) = (w, r) ->
  ok_step now d (disk w) /\
  (r = Ok tt -> exists v exp, dget "exp" c = Some v /\ py_int v = Some exp /\
     (now / TICKS < exp -> recorded (disk w) jti exp) /\
     forall exp', recorded d jti exp' -> exp' <= t / TICKS).
Proof.
  intros Hwf Hle Hj Hne. unfold record_passport_use. rewrite (M_bind_ok _ _ _ _ _ (jti_of_ok c jti _ Hj)).
  intros Hr. apply (record_replay_spec now fresh Hfresh p d c jti t) in Hr; [|done..].
  destruct Hr as [[Hok (e & ->)]|(w1 & v & exp & Hk & Hok & Hv & Hi & Hrec & Hold)]; [done|].
  destruct (Hok Hwf) as [Hwf1 Hg1]. destruct w1 as [p1 d1]. cbn [disk] in *.
  pose proof (record_lineage_spec now fresh Hfresh p1 d1 c text jti w r Hwf1 Hne Hk) as Hok2.
  split; [by eapply ok_step_trans|]. intros _. exists v, exp. split_and!; [done..| |done].
  intros Hlt. eapply recorded_grows; [|exact Hrec|done]. by apply Hok2.
Qed.

(** Nothing before the use of the passport is recorded changes the directory
    for the worse. *)
Definition before_use (t : token) (holder : option public_key) (kb : option token) (r : readings)
    : M (claims * string) :=
  c ← verify_passport_token public audience t None fresh (r_verify r) (r_parent r);
  _ ← check_possession c t holder kb r;
  jti ← jti_of c;
  _ ← check (negb (session_id_match jti)) BadValue;
  p ← get_mem;
  _ ← check (bool_decide (is_Some (sessions p !! jti))) BadValue;
  d ← get_disk;
  _ ← check (bool_decide (is_Some (session_files d !! jti))) BadValue;
  _ ← assert_passport_lineage_not_revoked c fresh;
  mret (c, jti).
Lemma M_assoc {A B C} (m : M A) (f : A -> M B) (g : B -> M C) w :
  ((m ≫= f) ≫= g) w = (m ≫= (fun a => f a ≫= g)) w.
Proof. unfold mbind, M_bind. by destruct (m w) as [w' []]. Qed.
Lemma M_bind_cong {A B} (m : M A) (f g : A -> M B) w : (forall a w, f a w = g a w) ->
  (m ≫= f) w = (m ≫= g) w.
Proof. intros Hfg. unfold mbind, M_bind. destruct (m w) as [w' []]; [apply Hfg|done]. Qed.

Lemma start_session_split store t holder kb run_nonce r w :
  start_session public audience store t holder kb fresh run_nonce r w =
  ('(c, jti) ← before_use t holder kb r;
   _ ← record_passport_use c (token_text t) fresh (r_use r);
   let c := resolve_policies store c in
   _ ← put_mem (fun p => set_sessions (<[jti := (t, c)]> (sessions p)) p);
   _ ← put_disk (set_session_file jti (Some (token_text t, c)));
   mret (MkSession c [] 0 [] 0 (r_start r) None run_nonce)) w.
Proof.
  unfold start_session, before_use.
  repeat (rewrite M_assoc; apply M_bind_cong; intros ? ?). done.
Qed.

Lemma before_use_safe n t holder kb r : safe n (before_use t holder kb r).
Proof.
  unfold before_use, jti_of.
  repeat first [by auto using safe_verify, safe_possession, within_liftR, within_check, within_get_mem,
    within_get_disk, safe_assert, within_ret | apply within_bind; [typeclasses eauto| |intros ?]].
Qed.

Lemma before_use_spec p d t holder kb r w c jti : wf d ->
  before_use t holder kb r (World p d) = (w, Ok (c, jti)) ->
  decode_passport t public audience (r_verify r) = Ok c /\ session_id_match jti = true /\
  exists l, py_get "jti" c = PStr jti /\ lineage_of c = Some (jti :: l) /\
    forall j, j ∈ jti :: l -> ~ revoked_in d j.
Proof.
  intros Hwf. unfold before_use.
  intros [(w1 & c0 & Hv & Hk)|(? & _ & ?)]%M_bind_inv; [|done].
  destruct (verify_spec p d t None _ _ w1 c0 Hwf Hv) as (Hdec & l & Hl & Hrev).
  pose proof (safe_at 0 _ _ _ _ (safe_verify 0 fresh Hfresh _ _ _ _ _ _) Hv) as Hok1.
  apply M_bind_inv in Hk as [(w2 & [] & Hp & Hk)|(? & _ & ?)]; [|done].
  apply M_bind_inv in Hk as [(w3 & j & Hj & Hk)|(? & _ & ?)]; [|done].
  destruct (py_get "jti" c0) as [| | | |j0| |] eqn:Ej; try by (unfold lineage_of in Hl; rewrite Ej in Hl).
  rewrite (jti_of_ok c0 j0 w2 Ej) in Hj. injection Hj as <- <-.
  unfold check in Hk. destruct (session_id_match j0) eqn:Em; [|done]. cbn [negb] in Hk.
  rewrite (M_bind_ok _ _ _ w2 tt), (M_bind_ok _ _ _ w2 (mem w2)) in Hk by done.
  destruct (bool_decide _) eqn:Es in Hk; [done|]. apply bool_decide_eq_false, eq_None_not_Some in Es.
  rewrite (M_bind_ok _ _ _ w2 tt), (M_bind_ok _ _ _ w2 (disk w2)) in Hk by done.
  destruct (bool_decide _) eqn:Ef in Hk; [done|].
  rewrite (M_bind_ok _ _ _ w2 tt) in Hk by done.
  apply M_bind_inv in Hk as [(w4 & [] & Ha & Hk)|(? & _ & ?)]; [|done]. injection Hk as <- <- <-.
  split_and!; [done..|]. unfold lineage_of in Hl. rewrite Ej in Hl.
  destruct (delegation_chain_entries c0) as [chain|] eqn:Ec; [|done]. injection Hl as <-.
  exists (l_jti <$> chain). split_and!; [done| |done]. unfold lineage_of. by rewrite Ej, Ec.
Qed.

Lemma start_spec policy_store p d t holder kb run_nonce r w res : wf d -> r_use r / TICKS <= now / TICKS ->
  start_session public audience policy_store t holder kb fresh run_nonce r (World p d) = (w, res) ->
  ok_step now d (disk w) /\
  forall g, res = Ok g -> exists c jti l v exp,
    passport_claims g = resolve_policies policy_store c /\
    decode_passport t public audience (r_verify r) = Ok c /\
    lineage_of c = Some (jti :: l) /\ (forall j, j ∈ jti :: l -> ~ revoked_in d j) /\
    dget "exp" c = Some v /\ py_int v = Some exp /\ (now / TICKS < exp -> recorded (disk w) jti exp) /\
    forall exp', recorded d jti exp' -> exp' <= r_use r / TICKS.
Proof.
  intros Hwf Hle. rewrite start_session_split. intros [(w1 & [c jti] & Hb & Hk)|(e & Hb & ->)]%M_bind_inv.
  2: { split; [|done]. by refine (safe_at now _ _ _ _ (before_use_safe _ _ _ _ _) Hb). }
  assert (Hok1 : forall n, ok_step n d (disk w1)).
  { intros n. by refine (safe_at n _ _ _ _ (before_use_safe _ _ _ _ _) Hb). }
  destruct (before_use_spec p d t holder kb r w1 c jti Hwf Hb) as (Hdec & Hid & l & Hj & Hl & Hrev).
  destruct (Hok1 (r_use r) Hwf) as [Hwf1 Hg1]. destruct w1 as [p1 d1]. cbn [disk] in *.
  apply M_bind_inv in Hk as [(w2 & [] & Hr & Hk)|(e & Hr & ->)].
  all: destruct (record_spec p1 d1 c _ jti _ _ _ Hwf1 Hle Hj (session_id_nonempty _ Hid) Hr) as [Hok2 Hrec].
  2: { split; [|done]. eapply ok_step_trans; [apply Hok1|done]. }
  destruct (Hrec eq_refl) as (v & exp & Hv & Hi & Hlive & Hold).
  injection Hk as <- <-. cbn [disk mem].
  split. 
  { eapply ok_step_trans; [apply Hok1|]. intros Hw1. destruct (Hok2 Hw1) as [[X1 X2 X3] [G1 G2 G3]]. by split. }
  intros g [= <-]. exists c, jti, l, v, exp. split_and!; try done.
  intros exp' Hexp. apply Z.nlt_ge. intros Hlt. 
  pose proof (Hold exp' (recorded_grows _ _ _ _ _ Hg1 Hexp Hlt)). lia.
Qed.

End Ops.

(** The chain of a passport checked against the index instead of its parent. *)
Lemma verify_cold_chain t key aud Hs Ls n n' c chain : verify_passport t key aud None (Some Hs) (Some Ls) n n' = Ok c ->
  delegation_chain_entries c = Ok chain ->
  forall l, l ∈ chain -> exists h, l_token_hash l = Some h /\ Hs !! l_jti l = Some h /\
    Ls !! l_jti l = Some (l_parent_jti l, l_parent_token_hash l).
Proof.
  intros Hv Hc. destruct (verify_ok_lineage _ _ _ _ _ _ _ _ _ Hv) as [Hd _]. unfold verify_passport in Hv.
  rewrite Hd in Hv. cbn [mbind res_bind] in Hv. rewrite Hc in Hv. cbn [mbind res_bind] in Hv.
  destruct (chain_entries_ok c chain Hc) as (jti & _ & _ & _ & Hlk & _).
  destruct (py_get "parent_jti" c); [cbn in Hlk; destruct chain; [set_solver|by destruct Hlk]|..].
  all: apply bind_ok in Hv as (h0 & _ & Hv); destruct chain as [|first chain]; [done|];
    apply guard_ok in Hv as [_ Hv]; apply bind_ok in Hv as ([] & Hit & _);
    rewrite iterR_ok in Hit; intros lk Hl%Hit; unfold check_trusted_link in Hl;
    apply guard_ok in Hl as [Hne Hl]; apply guard_ok in Hl as [Hh%negb_false_iff%bool_decide_eq_true Hl];
    destruct (l_token_hash lk) as [h|]; [|done]; destruct (Ls !! l_jti lk) as [[e1 e2]|] eqn:El; [|done];
    rewrite !guard_ok, !negb_false_iff, !bool_decide_eq_true in Hl; destruct Hl as (H1' & H2' & _);
    cbn in H1', H2'; subst; eauto.
Qed.
(** ** Interleavings *)

(** One operation of some process on the directory, at a clock reading no later
    than [now].  Session files may be written or lost at any time. *)
Inductive dir_step (now : Z) (d : store) : store -> Prop :=
| Boot p f1 f2 f3 t : f1 <> "" -> f2 <> "" -> f3 <> "" ->
    dir_step now d (disk (initialize_passport_state_files f1 f2 f3 t (World p d)).1)
| Start p public audience policies t holder kb fresh run_nonce r : fresh <> "" ->
    r_use r / TICKS <= now / TICKS ->
    dir_step now d (disk (start_session public audience policies t holder kb fresh run_nonce r (World p d)).1)
| Revoke p jti fresh t : fresh <> "" -> dir_step now d (disk (revoke jti fresh t (World p d)).1)
| Verify p public audience t parent fresh n n' : fresh <> "" ->
    dir_step now d (disk (verify_passport_token public audience t parent fresh n n' (World p d)).1)
| Blocked p ended c fresh : fresh <> "" ->
    dir_step now d (disk (blocked_session_reason ended c fresh (World p d)).1)
| SessionFiles m : dir_step now d (Store (replay_cache d) (revoked_list d) (lineage_hashes d) m).

Lemma safe_run now {A} (m : M A) p d : safe now m -> ok_step now d (disk (m (World p d)).1).
Proof. intros Hs. exact (Hs (World p d)). Qed.
Lemma dir_step_ok now d d' : dir_step now d d' -> ok_step now d d'.
Proof.
  destruct 1.
  - by apply safe_run, safe_initialize.
  - intros Hwf. destruct (start_session _ _ _ _ _ _ _ _ _ _) as [w res] eqn:E.
    by apply (start_spec now fresh) in E as [Hok _]; [apply Hok|..].
  - intros Hwf. destruct (revoke jti fresh t (World p d)) as [w res] eqn:E.
    by apply (revoke_spec now fresh) in E as [Hok _]; [apply Hok|..].
  - by apply safe_run, safe_verify.
  - by apply safe_run, safe_blocked.
  - intros [W1 W2 W3]. split; [by split|]. destruct (grows_refl now d) as [G1 G2 G3]. by split.
Qed.
Lemma dir_steps_ok now d d' : rtc (dir_step now) d d' -> ok_step now d d'.
Proof.
  induction 1; [apply ok_step_refl|]. eapply ok_step_trans; [by apply dir_step_ok|done].
Qed.

(** The lineage checked against the revocation list is right whatever
    the cache held: for every passport with a valid chain the walk through the
    bounded least-recently-used cache terminates with exactly the passport's
    identifier and those of its ancestors, nearest first, and touches nothing
    but the cache. *)
Theorem lineage_walk_exact c l w : lineage_of c = Some l ->
  exists cache, passport_lineage_jtis c w = (World (set_parent_cache cache (mem w)) (disk w), Ok l).
Proof. destruct w. apply lineage_jtis_spec. Qed.

(** C8. A passport starts one session.  After a start has been accepted by
    any process, no interleaving of starts, revocations, verifications, process
    restarts and losses of session files lets another process start a session
    for the same identifier before the first passport expires. *)
Theorem passport_single_use d p1 pub1 aud1 ps1 t1 h1 kb1 f1 n1 r1 w1 g1 d2 p2 pub2 aud2 ps2 t2 h2 kb2 f2 n2 r2 w2 g2 :
  wf d -> f1 <> "" -> f2 <> "" -> r_use r1 / TICKS <= r_use r2 / TICKS ->
  start_session pub1 aud1 ps1 t1 h1 kb1 f1 n1 r1 (World p1 d) = (w1, Ok g1) ->
  rtc (dir_step (r_use r2)) (disk w1) d2 ->
  start_session pub2 aud2 ps2 t2 h2 kb2 f2 n2 r2 (World p2 d2) = (w2, Ok g2) ->
  py_get "jti" (jwt_payload t1) = py_get "jti" (jwt_payload t2) ->
  exists exp, py_int (py_get "exp" (jwt_payload t1)) = Some exp /\ exp <= r_use r2 / TICKS.
Proof.
  intros Hwf Hf1 Hf2 Hle Hs1 Hsteps Hs2 Hj.
  destruct (start_spec (r_use r2) f1 Hf1 pub1 aud1 ps1 p1 d t1 h1 kb1 n1 r1 w1 _ Hwf Hle Hs1) as [Hok1 Hg1].
  destruct (Hg1 g1 eq_refl) as (c1 & j1 & l1 & v & exp & _ & Hd1 & Hl1 & _ & Hv & Hi & Hrec & _).
  destruct (Hok1 Hwf) as [Hwf1 _]. destruct (dir_steps_ok _ _ _ Hsteps Hwf1) as [Hwf2 Hgr].
  destruct (start_spec (r_use r2) f2 Hf2 pub2 aud2 ps2 p2 d2 t2 h2 kb2 n2 r2 w2 _ Hwf2 (Z.le_refl _) Hs2) as [_ Hg2].
  destruct (Hg2 g2 eq_refl) as (c2 & j2 & l2 & v2 & exp2 & _ & Hd2 & Hl2 & _ & _ & _ & _ & Hold).
  apply decode_payload in Hd1, Hd2. subst c1 c2. exists exp. unfold py_get at 1. rewrite Hv. split; [done|].
  assert (j2 = j1) as ->.
  { unfold lineage_of in Hl1, Hl2. rewrite Hj in Hl1. destruct (py_get "jti" (jwt_payload t2)); try done.
    destruct (delegation_chain_entries _), (delegation_chain_entries _); naive_solver. }
  apply Z.nlt_ge. intros Hlt. pose proof (Hold exp (recorded_grows _ _ _ _ _ Hgr (Hrec Hlt) Hlt)). lia.
Qed.

(** C9. Revocation is final and takes the descendants with it.  Once any
    process has revoked an identifier, no interleaving of operations of any
    processes lets a passport be verified, or start a session, if it or one of
    its ancestors has that identifier. *)
Theorem revocation_blocks_lineage now d p jti f t w d2 q pub aud tok f2 :
  wf d -> f <> "" -> f2 <> "" -> revoke jti f t (World p d) = (w, Ok tt) -> rtc (dir_step now) (disk w) d2 ->
  (forall parent n n' w2 c l,
     verify_passport_token pub aud tok parent f2 n n' (World q d2) = (w2, Ok c) ->
     lineage_of c = Some l -> jti ∉ l) /\
  (forall ps h kb nonce r w2 g l,
     start_session pub aud ps tok h kb f2 nonce r (World q d2) = (w2, Ok g) ->
     lineage_of (jwt_payload tok) = Some l -> jti ∉ l).
Proof.
  intros Hwf Hf Hf2 Hr Hsteps.
  destruct (revoke_spec now f Hf p d jti t w (Ok tt) Hwf Hr) as [Hok Hrev]. destruct (Hok Hwf) as [Hwf1 _].
  destruct (Hrev eq_refl) as (_ & Hin). destruct (dir_steps_ok _ _ _ Hsteps Hwf1) as [Hwf2 Hgr].
  pose proof (revoked_grows _ _ _ _ Hgr Hin) as Hin2. split.
  - intros parent n n' w2 c l Hv Hl Hj.
    destruct (verify_spec f2 Hf2 pub aud q d2 tok parent n n' w2 c Hwf2 Hv) as (_ & l' & Hl' & Hno).
    rewrite Hl in Hl'. injection Hl' as <-. by apply (Hno jti Hj).
  - intros ps h kb nonce r w2 g l Hs Hl Hj.
    destruct (start_spec (r_use r) f2 Hf2 pub aud ps q d2 tok h kb nonce r w2 _ Hwf2 (Z.le_refl _) Hs) as [_ Hg].
    destruct (Hg g eq_refl) as (c & j & l' & ? & ? & _ & Hd & Hl' & Hno & _). apply decode_payload in Hd. subst c.
    rewrite Hl in Hl'. injection Hl' as ->. by apply (Hno jti Hj).
Qed.

(** ** Lost state files *)

(** The file is corrupt, or gone from a directory that is in use. *)
Definition lost (f : file) (d : store) : Prop :=
  f = Unreadable \/ f = Missing /\ can_bootstrap d = false.

(** Keeps the file [get] and does not make the directory look new. *)
Definition leaves (get : store -> file) (d d' : store) : Prop :=
  get d' = get d /\ (can_bootstrap d = false -> can_bootstrap d' = false).
#[local] Instance leaves_preorder get : PreOrder (leaves get).
Proof. split; [done|]. intros d d1 d2 [A1 A2] [B1 B2]. split; [congruence|auto]. Qed.
Lemma leaves_lost get d d' : leaves get d d' -> lost (get d) d -> lost (get d') d'.
Proof. intros [-> Hb] [->|[-> Hc]]; [by left|right; auto]. Qed.

Lemma leaves_persist_revoked R sentinel : within (leaves replay_cache) (persist_revoked R sentinel).
Proof.
  unfold persist_revoked. within_steps. intros w. split; [done|]. intros _. unfold can_bootstrap. cbn.
  by rewrite andb_false_r.
Qed.
Lemma leaves_persist_lineage get Hs Ls sentinel : (forall f d, get (set_lineage_hashes f d) = get d) ->
  within (leaves get) (persist_lineage_hashes Hs Ls sentinel).
Proof.
  intros Hget. unfold persist_lineage_hashes. within_steps. intros w. split; [apply Hget|]. intros _.
  unfold can_bootstrap. cbn. by rewrite !andb_false_r.
Qed.
#[local] Hint Resolve leaves_persist_revoked leaves_persist_lineage : passport_state.
Lemma leaves_load_revoked fresh : within (leaves replay_cache) (load_revoked fresh).
Proof.
  unfold load_revoked, require_revoked_sentinel, try_initialize_revoked, initialize_revoked, read_revoked.
  within_steps.
Qed.
Lemma leaves_load_lineage get fresh : (forall f d, get (set_lineage_hashes f d) = get d) ->
  within (leaves get) (load_lineage_index fresh).
Proof.
  intros Hget. unfold load_lineage_index, require_lineage_sentinel, try_initialize_lineage_hashes,
    initialize_lineage_hashes, read_lineage_index. within_steps.
Qed.
Lemma within_seed R `{!PreOrder R} c : within R (seed_lineage_parent_cache c).
Proof.
  unfold seed_lineage_parent_cache, remember_lineage_parent, jti_of, passport. within_steps.
  apply within_still; [done|]. intros [p d]. by rewrite remember_links_spec.
Qed.
Lemma within_walk R `{!PreOrder R} fuel current l : within R (lineage_walk fuel current l).
Proof.
  revert current l. induction fuel; intros current l; cbn [lineage_walk]; unfold cached_lineage_parent; within_steps.
Qed.
#[local] Hint Resolve leaves_load_revoked leaves_load_lineage within_seed within_walk : passport_state.
Lemma leaves_assert c fresh : within (leaves replay_cache) (assert_passport_lineage_not_revoked c fresh).
Proof.
  unfold assert_passport_lineage_not_revoked, first_revoked_jti_in_lineage, passport_lineage_jtis, jti_of.
  within_steps.
Qed.
#[local] Hint Resolve leaves_assert : passport_state.
Lemma leaves_before_use fresh public audience t holder kb r :
  within (leaves replay_cache) (before_use fresh public audience t holder kb r).
Proof.
  unfold before_use, verify_passport_token, check_possession, check_kb_nonce, passport, jti_of. within_steps.
Qed.

Lemma load_replay_lost p d fresh now : lost (replay_cache d) d ->
  forall E w, load_replay_cache fresh now (World p d) <> (w, Ok E).
Proof.
  intros Hlost E w. unfold load_replay_cache, require_replay_sentinel, try_initialize_replay_cache,
    initialize_replay_cache, on_mismatch, read_replay_cache, or_none, mbind, M_bind, get_mem, get_disk.
  destruct d as [rc rl lh sf]. cbn in Hlost. destruct (replay_sentinel p) eqn:Es; cbn -[can_bootstrap]; rewrite ?Es;
    destruct Hlost as [-> | [-> Hb]]; cbn -[can_bootstrap]; rewrite ?Hb; done.
Qed.
Lemma load_revoked_lost p d fresh : lost (revoked_list d) d ->
  forall R w, load_revoked fresh (World p d) <> (w, Ok R).
Proof.
  intros Hlost R w. unfold load_revoked, require_revoked_sentinel, try_initialize_revoked,
    initialize_revoked, on_mismatch, read_revoked, or_none, mbind, M_bind, get_mem, get_disk.
  destruct d as [rc rl lh sf]. cbn in Hlost. destruct (revoked_sentinel p) eqn:Es; cbn -[can_bootstrap]; rewrite ?Es;
    destruct Hlost as [-> | [-> Hb]]; cbn -[can_bootstrap]; rewrite ?Hb; done.
Qed.

Lemma verify_lost_revoked p d pub aud t parent fresh n n' w c : lost (revoked_list d) d ->
  verify_passport_token pub aud t parent fresh n n' (World p d) <> (w, Ok c).
Proof.
  intros Hlost. unfold verify_passport_token. rewrite (M_bind_ok _ _ _ (World p d) p) by done. cbv zeta.
  set (need := _ && _). intros [(w1 & tr & Htr & Hv)|(? & _ & ?)]%M_bind_inv; [|done].
  apply M_bind_inv in Hv as [(w2 & c0 & Hc & Hv)|(? & _ & ?)]; [|done].
  apply M_bind_inv in Hv as [(w3 & [] & Hs & Hv)|(? & _ & ?)]; [|done].
  apply M_bind_inv in Hv as [(w4 & [] & Ha & _)|(? & _ & ?)]; [|done].
  assert (H3 : leaves revoked_list d (disk w3)).
  { etrans; [|etrans].
    - refine (eq_rect _ (fun x => leaves revoked_list d (disk x.1)) _ _ Htr).
      assert (Hw : within (leaves revoked_list) (if need then index ← load_lineage_index fresh; mret (Some index)
        else mret None)) by within_steps. apply (Hw (World p d)).
    - injection Hc as <- _. reflexivity.
    - refine (eq_rect _ (fun x => leaves revoked_list (disk w2) (disk x.1)) _ _ Hs).
      apply (within_seed (leaves revoked_list)). }
  apply (leaves_lost revoked_list) in H3; [|done]. destruct w3 as [p3 d3].
  unfold assert_passport_lineage_not_revoked, first_revoked_jti_in_lineage in Ha.
  apply M_bind_inv in Ha as [(w5 & x & Hx & _)|(? & _ & ?)]; [|done].
  apply M_bind_inv in Hx as [(w6 & R & HR & _)|(? & _ & ?)]; [|done]. by eapply load_revoked_lost.
Qed.

(** C24. Lost state admits nothing.  When the revocation list is corrupt, or
    missing from a directory that is in use, no process verifies any passport
    or starts any session; when the replay cache is, no session starts. *)
Theorem admission_fails_closed d p pub aud t fresh :
  (lost (revoked_list d) d ->
     forall parent n n' w c, verify_passport_token pub aud t parent fresh n n' (World p d) <> (w, Ok c)) /\
  (lost (revoked_list d) d \/ lost (replay_cache d) d ->
     forall ps h kb nonce r w g, start_session pub aud ps t h kb fresh nonce r (World p d) <> (w, Ok g)).
Proof.
  split; [intros; by apply verify_lost_revoked|]. intros [Hr|Hr] ps h kb nonce r w g Hs.
  - apply M_bind_inv in Hs as [(w1 & c & Hv & _)|(? & _ & ?)]; [|done]. by eapply verify_lost_revoked.
  - rewrite start_session_split in Hs. apply M_bind_inv in Hs as [(w1 & [c jti] & Hb & Hk)|(? & _ & ?)]; [|done].
    pose proof (leaves_before_use fresh pub aud t h kb r (World p d)) as Hl. rewrite Hb in Hl.
    apply leaves_lost in Hl; [|done]. destruct w1 as [p1 d1].
    apply M_bind_inv in Hk as [(w2 & [] & Hrec & _)|(? & _ & ?)]; [|done].
    apply M_bind_inv in Hrec as [(w3 & j & Hj & Hrec)|(? & _ & ?)]; [|done]. injection Hj as <- _.
    apply M_bind_inv in Hrec as [(w4 & E & HE & _)|(? & _ & ?)]; [|done]. by eapply load_replay_lost.
Qed.

(** C25. A delegated passport presented to a process that does not hold the
    session of its parent is accepted only under ancestors that were admitted:
    the lineage index of the directory records, for every ancestor in its chain,
    the very token hash, parent and parent hash that the chain names. *)
Theorem cold_lineage_trusted d p pub aud t fresh n n' w c chain : wf d -> fresh <> "" ->
  verify_passport_token pub aud t None fresh n n' (World p d) = (w, Ok c) ->
  resolve_cached_parent_token t p = None -> delegation_chain_entries c = Ok chain -> chain <> [] ->
  exists s Hs Ls, lineage_hashes (disk w) = lineage_file s Hs Ls /\
    forall l, l ∈ chain -> exists h, l_token_hash l = Some h /\ Hs !! l_jti l = Some h /\
      Ls !! l_jti l = Some (l_parent_jti l, l_parent_token_hash l).
Proof.
  intros Hwf Hf Hv Hres Hc Hne.
  destruct (verify_spec fresh Hf pub aud p d t None n n' w c Hwf Hv) as (Hdec & _ & _).
  apply decode_payload in Hdec. unfold verify_passport_token in Hv.
  rewrite (M_bind_ok _ _ _ (World p d) p) in Hv by done. cbv zeta in Hv. rewrite Hres in Hv.
  assert (Hpar : unverified_parent_jti t <> None).
  { destruct (chain_entries_ok c chain Hc) as (jti & _ & _ & _ & Hlk & Hok). destruct chain as [|l chain]; [done|].
    destruct Hlk as [Hp _]. apply Forall_cons in Hok as [[Hj _] _]. unfold unverified_parent_jti.
    rewrite <- Hdec. destruct (py_get "parent_jti" c); try done. injection Hp as ->. by rewrite Hj. }
  rewrite (bool_decide_false _ Hpar), (bool_decide_true (@None token = None) eq_refl) in Hv. cbn [andb negb] in Hv.
  rewrite M_assoc in Hv. destruct (load_lineage_index fresh (World p d)) as [w1 [[Hs Ls]|e]] eqn:El;
    [|by rewrite (M_bind_raise _ _ _ _ _ El) in Hv].
  rewrite (M_bind_ok _ _ _ _ _ El) in Hv. rewrite (M_bind_ok _ _ _ w1 (Some (Hs, Ls))) in Hv by done.
  destruct (load_lineage_spec 0 p d fresh w1 _ Hwf Hf El) as (Hok1 & _ & HL).
  destruct (HL Hs Ls eq_refl) as (s & Hs' & Hix & Hfile & _).
  unfold passport, liftR in Hv.
  change (fst <$> Some (Hs, Ls)) with (Some Hs) in Hv. change (snd <$> Some (Hs, Ls)) with (Some Ls) in Hv.
  destruct (verify_passport t pub aud None (Some Hs) (Some Ls) n n') as [c0|] eqn:Ev; [|done].
  rewrite (M_bind_ok _ _ _ w1 c0) in Hv by done.
  assert (Hok2 : ok_step 0 (disk w1) (disk w)).
  { refine (safe_at 0 _ _ _ _ _ Hv). apply within_bind; [done|apply safe_seed|intros].
    apply within_bind; [done|by apply safe_assert|intros; by apply within_ret]. }
  assert (c0 = c) as ->.
  { apply M_bind_inv in Hv as [(w2 & [] & _ & Hv)|(? & _ & ?)]; [|done].
    apply M_bind_inv in Hv as [(w3 & [] & _ & Hv)|(? & _ & ?)]; [|done]. by injection Hv. }
  destruct (Hok1 Hwf) as [Hwf1 _]. destruct (Hok2 Hwf1) as [_ Hg].
  destruct (gr_lineage _ _ _ Hg s Hs Ls Hs' Hix Hfile) as (Hs2 & Ls2 & Hf2 & _ & Hsub1 & Hsub2).
  exists s, Hs2, Ls2. split; [done|]. intros l Hl.
  destruct (verify_cold_chain t pub aud Hs Ls n n' c chain Ev Hc l Hl) as (h & Hh & Hin & Hedge).
  exists h. split_and!; [done|by eapply lookup_weaken..].
Qed.
End Admission.

(** ** Concrete runs *)

Module Demo.
#[local] Existing Instances demo_digests demo_jwt M_bind M_ret.
#[local] Instance plain_repr : PyRepr := {| repr_container := fun _ => "{}" |}.

Definition fresh_dir : store := Store (replay_file "s1" ∅) (revoked_file "s2" ∅) (lineage_file "s3" ∅ ∅) ∅.
Lemma fresh_dir_wf : wf fresh_dir.
Proof.
  split; right; [by exists "s1", ∅|by exists "s2", ∅|]. exists "s3", ∅, ∅. split_and!; [done|apply index_empty|done].
Qed.

Definition root_jti : string := "00000000-0000-4000-8000-000000000001".
Definition child_jti : string := "00000000-0000-4000-8000-000000000002".
Definition mission : MissionPassport :=
  MkMission "alice" "triage" ["read"; "web"] [] [] 40 600 true 3 None None ["none"] [] None None None [] None None.
Definition root_at (iat : Z) : token :=
  match issue_passport mission tt DEFAULT_ISSUER DEFAULT_AUDIENCE None [] None root_jti iat
  with Ok t => t | Raise _ => [] end.
Definition request : child_request :=
  MkChild "bob" ["read"] "sub-task" None (Some 5) None 10 None None None.
Definition child : token :=
  match derive_child_passport (root_at 1000) tt tt request child_jti (1001 * TICKS) 1001 1002
  with Ok t => t | Raise _ => [] end.

Definition at_time (s : Z) : readings :=
  let t := s * TICKS in Readings t t t s t t t t t.
Definition start (t : token) (s : Z) (w : world) : world * res state_exc GovernanceSession :=
  start_session tt DEFAULT_AUDIENCE None t None None "f" "run" (at_time s) w.
Definition ok {A} (r : res state_exc A) : bool := match r with Ok _ => true | Raise _ => false end.
Lemma ok_run {A} (m : world -> world * res state_exc A) w : ok (m w).2 = true ->
  exists a, m w = ((m w).1, Ok a).
Proof. destruct (m w) as [w' [a|e]]; [by exists a|done]. Qed.

Definition started : world := (start (root_at 1000) 1010 (World new_proc fresh_dir)).1.
Definition files_lost : store := Store (replay_cache (disk started)) (revoked_list (disk started))
  (lineage_hashes (disk started)) ∅.
Lemma root_starts : ok (start (root_at 1000) 1010 (World new_proc fresh_dir)).2 = true.
Proof. vm_compute. reflexivity. Qed.
(** A later passport with the same identifier, once the first has expired. *)
Lemma root_restarts : ok (start (root_at 1700) 1701 (World new_proc files_lost)).2 = true.
Proof. vm_compute. reflexivity. Qed.
(** Before that it is refused, although every session file is gone. *)
Example root_replay_refused : (start (root_at 1000) 1020 (World new_proc files_lost)).2 = Raise Denied.
Proof. vm_compute. reflexivity. Qed.

Lemma lineage_walk_exact_witness : exists cache,
  passport_lineage_jtis child (World new_proc fresh_dir)
  = (World (set_parent_cache cache new_proc) fresh_dir, Ok [child_jti; root_jti]).
Proof. apply (lineage_walk_exact child [child_jti; root_jti]). vm_compute. reflexivity. Defined.

Lemma passport_single_use_witness :
  exists exp, py_int (py_get "exp" (root_at 1000)) = Some exp /\ exp <= r_use (at_time 1701) / TICKS.
Proof.
  destruct (ok_run _ _ root_starts) as [g1 Hg1]. destruct (ok_run _ _ root_restarts) as [g2 Hg2].
  refine (passport_single_use fresh_dir new_proc tt DEFAULT_AUDIENCE None (root_at 1000) None None "f" "run"
    (at_time 1010) _ g1 files_lost new_proc tt DEFAULT_AUDIENCE None (root_at 1700) None None "f" "run"
    (at_time 1701) _ g2 fresh_dir_wf _ _ _ Hg1 _ Hg2 _).
  - discriminate.
  - discriminate.
  - vm_compute. discriminate.
  - apply rtc_once. exact (SessionFiles _ (disk started) ∅).
  - vm_compute. reflexivity.
Defined.

Definition revoked : world := (revoke root_jti "f" (1030 * TICKS) (World (mem started) (disk started))).1.
Lemma root_revoked : ok (revoke root_jti "f" (1030 * TICKS) (World (mem started) (disk started))).2 = true.
Proof. vm_compute. reflexivity. Qed.
Lemma started_wf : wf (disk started).
Proof.
  assert (Hs : dir_step (1010 * TICKS) fresh_dir (disk started)).
  { apply Start; [done|]. vm_compute. discriminate. }
  apply (dir_step_ok _ _ _ Hs fresh_dir_wf).
Qed.
(** Without the revocation the child is accepted by a process that never saw
    its parent. *)
Lemma child_accepted_cold :
  ok (verify_passport_token tt DEFAULT_AUDIENCE child None "f" (1040 * TICKS) (1040 * TICKS)
        (World new_proc (disk started))).2 = true.
Proof. vm_compute. reflexivity. Qed.

Lemma child_lineage : lineage_of child = Some [child_jti; root_jti].
Proof. vm_compute. reflexivity. Qed.

Lemma revocation_blocks_lineage_witness : ok (start child 1040 (World new_proc (disk revoked))).2 = false.
Proof.
  apply not_true_is_false. intros Es. destruct (ok_run _ _ Es) as [g Hs].
  destruct (ok_run _ _ root_revoked) as [[] Hr].
  assert (Hf : "f" <> "") by discriminate.
  destruct (@revocation_blocks_lineage demo_digests demo_jwt plain_repr 0 (disk started) (mem started) root_jti
    "f" (1030 * TICKS) revoked (disk revoked) new_proc tt DEFAULT_AUDIENCE child "f" started_wf Hf Hf Hr
    (rtc_refl _ _)) as [_ Hb].
  exact (Hb None None None "run" (at_time 1040) _ g _ Hs child_lineage
    (list_elem_of_further _ _ _ (list_elem_of_here _ _))).
Defined.

Definition no_replay_cache : store := set_replay_cache Missing fresh_dir.
Lemma admission_fails_closed_witness : ok (start (root_at 1000) 1010 (World new_proc no_replay_cache)).2 = false.
Proof.
  destruct (ok (start (root_at 1000) 1010 (World new_proc no_replay_cache)).2) eqn:Es; [exfalso|reflexivity].
  destruct (ok_run _ _ Es) as [g Hs].
  destruct (@admission_fails_closed demo_digests demo_jwt plain_repr no_replay_cache new_proc tt DEFAULT_AUDIENCE
    (root_at 1000) "f") as [_ Hc].
  refine (Hc _ _ _ _ _ _ _ _ Hs). right. right. split; reflexivity.
Defined.

Lemma cold_lineage_trusted_witness : exists Hs : gmap string string, Hs !! root_jti = Some (token_sha256 (root_at 1000)).
Proof.
  destruct (ok_run _ _ child_accepted_cold) as [c Hc].
  assert (Hdec : c = child).
  { destruct (verify_spec "f" ltac:(discriminate) _ _ _ _ _ _ _ _ _ _ started_wf Hc) as (Hd & _).
    exact (decode_payload _ _ _ _ _ Hd). }
  subst c.
  destruct (@cold_lineage_trusted demo_digests demo_jwt plain_repr (disk started) new_proc tt DEFAULT_AUDIENCE child "f" _ _ _ _
    [Link root_jti (Some (token_sha256 (root_at 1000))) None None] started_wf ltac:(discriminate) Hc)
    as (s & Hs & Ls & _ & Hall).
  - vm_compute. reflexivity.
  - vm_compute. reflexivity.
  - discriminate.
  - destruct (Hall _ (list_elem_of_here _ _)) as (h & Hh & Hin & _). exists Hs. injection Hh as <-. exact Hin.
Defined.
End Demo.
