(* ===== verification/PolicyStore.v ===== *)
(** * Policy stores

    [src/python/vibap/policy_store.py] and [backed_policy_store.py]: where the
    proxy looks up the policies of a mission when a session starts.  The
    [PolicyStore] protocol is the class [PolicyStore] with the laws its
    documentation states; [InMemoryPolicyStore] and [FileBackedPolicyStore] are
    instances.  What [start_session] does with a store is proved against the
    class.  A list of specifications is a value: the first class copies deeply
    what it takes and returns, the second copies one level, and what a caller
    could do to values nested in its cache is left out.  A policies file is one this class writes, or
    absent, or not JSON. *)

From S2P Require Import Prelude CanonicalJson Passport PassportProps PyJson Policy Session.
From S2P Require Import PassportState PassportStateProps PassportAdmission.
Import Passport PyJson Policy Session PassportState.
Open Scope string_scope.
Open Scope Z_scope.

Module PolicyStore.

Inductive store_exc := ValueError | TypeError.

(** The protocol; a lookup may fill a cache. *)
Class PolicyStore (St : Type) := {
  get_policies : string -> St -> St * option (list claims);
  put_policies : string -> list pyval -> St -> res store_exc St;
  (** what is in force for a mission *)
  in_force : St -> string -> option (list claims)
}.
Class PolicyStoreLaws (St : Type) `{!PolicyStore St} : Prop := {
  get_in_force : forall m s, (get_policies m s).2 = in_force s m;
  get_keeps : forall m s m', in_force (get_policies m s).1 m' = in_force s m';
  put_replaces : forall m specs s s', put_policies m (PDict <$> specs) s = Ok s' ->
    in_force s' m = Some specs;
  put_others : forall m specs s s' m', put_policies m (PDict <$> specs) s = Ok s' -> m <> "" -> m' <> m ->
    in_force s' m' = in_force s m'
}.

(** ** [InMemoryPolicyStore] *)

Definition memory_store := gmap string (list claims).
(** [InMemoryPolicyStore.get_policies]. *)
Definition memory_get (mission_id : string) (s : memory_store) : option (list claims) :=
  if non_empty mission_id then (s : gmap string (list claims)) !! mission_id else None.
Definition check_spec (spec : pyval) : res store_exc claims :=
  match spec with
  | PDict d =>
      raise_if negb (has_key "backend" d && has_key "label" d && has_key "policy_sha256" d)
        with ValueError ;;
      Ok d
  | _ => Raise TypeError
  end.
(** [InMemoryPolicyStore.put_policies]. *)
Definition memory_put (mission_id : string) (policies : list pyval) (s : memory_store)
    : res store_exc memory_store :=
  raise_if negb (non_empty mission_id) with ValueError ;;
  specs ← mapR check_spec policies;
  Ok (<[mission_id := specs]> (s : gmap string (list claims))).
(** [InMemoryPolicyStore.clear]. *)
Definition memory_clear (s : memory_store) : memory_store := (∅ : gmap string (list claims)).

#[export] Instance InMemoryPolicyStore : PolicyStore memory_store := {|
  get_policies m s := (s, memory_get m s);
  put_policies := memory_put;
  in_force s m := memory_get m s
|}.

(** ** [FileBackedPolicyStore] *)

Inductive policies_file := Absent | NotJson | Policies (data : gmap string (list claims)).
Record file_store := FileStore { file : policies_file; cache : option (gmap string (list claims)) }.

(** [_load]. *)
Definition load (f : policies_file) : gmap string (list claims) :=
  match f with Policies data => data | Absent | NotJson => ∅ end.
(** The cache, loaded on first use. *)
Definition cached (s : file_store) : gmap string (list claims) := default (load (file s)) (cache s).
Definition lookup_or_default (m : string) (data : gmap string (list claims)) : option (list claims) :=
  match data !! m with
  | Some specs => Some specs
  | None => data !! ""
  end.
(** [FileBackedPolicyStore.get_policies]. *)
Definition file_get (mission_id : string) (s : file_store) : file_store * option (list claims) :=
  let data := cached s in
  (FileStore (file s) (Some data), lookup_or_default mission_id data).
(** [dict(spec)]. *)
Definition copy_spec (spec : pyval) : res store_exc claims :=
  match py_dict spec with Ok d => Ok d | Raise _ => Raise TypeError end.
(** [FileBackedPolicyStore.put_policies] with [_save]. *)
Definition file_put (mission_id : string) (policies : list pyval) (s : file_store)
    : res store_exc file_store :=
  specs ← mapR copy_spec policies;
  let data := <[mission_id := specs]> (cached s) in
  Ok (FileStore (Policies data) (Some data)).

#[export] Instance FileBackedPolicyStore : PolicyStore file_store := {|
  get_policies := file_get;
  put_policies := file_put;
  in_force s m := lookup_or_default m (cached s)
|}.

(** ** Both satisfy the protocol *)

Lemma mapR_ok_fmap {A B C E} (f : B -> res E C) (g : A -> B) l (out : list C) (h : A -> C) :
  (forall a c, f (g a) = Ok c -> c = h a) -> mapR f (g <$> l) = Ok out -> out = h <$> l.
Proof.
  intros Hf. revert out. induction l as [|a l IH]; intros out; cbn; [by intros [= <-]|].
  intros (c & Hc & (cs & Hcs & [= <-])%bind_ok)%bind_ok. f_equal; [by apply Hf|by apply IH].
Qed.
Lemma check_specs specs out : mapR check_spec (PDict <$> specs) = Ok out -> out = specs.
Proof.
  intros Hm. rewrite (mapR_ok_fmap check_spec PDict specs out id), list_fmap_id; [done| |done].
  intros a c. cbn. by intros [_ [= <-]]%guard_ok.
Qed.
Lemma copy_specs specs out : mapR copy_spec (PDict <$> specs) = Ok out -> out = specs.
Proof.
  intros Hm. rewrite (mapR_ok_fmap copy_spec PDict specs out id), list_fmap_id; [done| |done].
  by intros a c [= <-].
Qed.

#[export] Instance memory_laws : PolicyStoreLaws memory_store.
Proof.
  split; [done|done| |]; cbn; unfold memory_put; intros m specs s s'.
  - intros [Hne%negb_false_iff Hp]%guard_ok. apply bind_ok in Hp as (out & ->%check_specs & [= <-]).
    unfold memory_get. by rewrite Hne, lookup_insert_eq.
  - intros m' [Hne%negb_false_iff Hp]%guard_ok _ Hm. apply bind_ok in Hp as (out & ->%check_specs & [= <-]).
    unfold memory_get. by rewrite lookup_insert_ne.
Qed.
#[export] Instance file_laws : PolicyStoreLaws file_store.
Proof.
  split; [done|done| |]; cbn; unfold file_put; intros m specs s s'.
  - intros (out & ->%copy_specs & [= <-])%bind_ok. unfold lookup_or_default. cbn. by rewrite lookup_insert_eq.
  - intros m' (out & ->%copy_specs & [= <-])%bind_ok Hne Hm. unfold lookup_or_default. cbn.
    by rewrite !lookup_insert_ne.
Qed.

(** What was put survives a restart: a new process reads it from the file. *)
Lemma policies_survive_restart m specs s s' m' : file_put m (PDict <$> specs) s = Ok s' ->
  in_force (FileStore (file s') None) m' = in_force s' m'.
Proof. by intros (out & _ & [= <-])%bind_ok. Qed.

(** A process that has filled its cache before another one's put does not see
    it, and its own put then removes it from the file. *)
Lemma concurrent_put_lost data m1 specs1 m2 specs2 s1 s2 : m1 <> m2 ->
  file_put m1 (PDict <$> specs1) (FileStore (Policies data) (Some data)) = Ok s1 ->
  file_put m2 (PDict <$> specs2) (FileStore (file s1) (Some data)) = Ok s2 ->
  data !! m1 = None -> file s2 = Policies (<[m2 := specs2]> data) /\ load (file s2) !! m1 = None.
Proof.
  intros Hne (o1 & ->%copy_specs & [= <-])%bind_ok (o2 & ->%copy_specs & [= <-])%bind_ok Hm. cbn.
  split; [done|]. by rewrite lookup_insert_ne.
Qed.

(** ** The client *)

Section Client.
Context {St : Type} `{!PolicyStore St, !PolicyStoreLaws St}.
Context `{!Digests, !Jwt, !PyRepr}.

(** The store as [start_session] calls it. *)
Definition lookup_in (s : St) (mission_id agent_id : string) : option (list pyval) :=
  fmap (M:=list) PDict <$> (get_policies mission_id s).2.
(** The key a session looks its policies up with. *)
Definition mission_key (c : claims) : string :=
  py_str (or_else (py_get "mission_id" c) (get_or "sub" (PStr "") c)).

Lemma resolve_in_force s c :
  py_get "additional_policies" (resolve_policies (Some (lookup_in s)) c)
  = match in_force s (mission_key c) with
    | Some specs => PList (PDict <$> specs)
    | None => py_get "additional_policies" c
    end.
Proof.
  unfold resolve_policies, lookup_in. fold (mission_key c). rewrite get_in_force.
  destruct (in_force s (mission_key c)); [|done]. cbn. unfold py_get. by rewrite dget_dset.
Qed.

(** C26. The store is authoritative.  With any store that keeps the laws, the
    session a passport starts runs under exactly the policies last put for its
    mission, an empty list included, whatever policies its credential carries;
    only a mission the store does not know keeps those of the credential. *)
Theorem stored_policies_authoritative d p pub aud t h kb fresh nonce r w g s :
  wf d -> fresh <> "" ->
  start_session pub aud (Some (lookup_in s)) t h kb fresh nonce r (World p d) = (w, Ok g) ->
  py_get "additional_policies" (passport_claims g)
  = match in_force s (mission_key (jwt_payload t)) with
    | Some specs => PList (PDict <$> specs)
    | None => py_get "additional_policies" (jwt_payload t)
    end.
Proof.
  intros Hwf Hf Hs.
  destruct (start_spec (r_use r) fresh Hf pub aud _ p d t h kb nonce r w _ Hwf (Z.le_refl _) Hs) as [_ Hg].
  destruct (Hg g eq_refl) as (c & _ & _ & _ & _ & -> & Hd & _). apply decode_payload in Hd. subst c.
  apply resolve_in_force.
Qed.
End Client.

(** ** A session under stored policies *)

Module Demo.
Import PassportAdmission.Demo.
#[local] Existing Instances demo_digests demo_jwt plain_repr.

Definition forbid_web : claims :=
  [("backend", PStr "forbid_rules"); ("label", PStr "sec"); ("policy_sha256", PStr "00"); ("data_inline", PList [])].
Definition registered : memory_store :=
  match memory_put (mission_key (root_at 1000)) [PDict forbid_web] (∅ : gmap string (list claims)) with
  | Ok s => s | Raise _ => (∅ : gmap string (list claims)) end.
Lemma root_starts_governed :
  ok (start_session tt DEFAULT_AUDIENCE (Some (lookup_in registered)) (root_at 1000) None None "f" "run"
        (at_time 1010) (World new_proc fresh_dir)).2 = true.
Proof. vm_compute. reflexivity. Qed.
Lemma registered_in_force :
  in_force registered (mission_key (jwt_payload (root_at 1000))) = Some [forbid_web].
Proof. vm_compute. reflexivity. Qed.
Lemma stored_policies_authoritative_witness : exists g : GovernanceSession,
  py_get "additional_policies" (passport_claims g) = PList [PDict forbid_web].
Proof.
  destruct (ok_run _ _ root_starts_governed) as [g Hg]. exists g.
  assert (Hf : "f" <> "") by discriminate.
  pose proof (stored_policies_authoritative (St:=memory_store) fresh_dir new_proc tt DEFAULT_AUDIENCE (root_at 1000) None None
    "f" "run" (at_time 1010) _ g registered fresh_dir_wf Hf Hg) as Hp.
  rewrite registered_in_force in Hp. exact Hp.
Defined.
End Demo.

End PolicyStore.
