(* ===== verification/Receipt.v ===== *)
(** * Execution receipts

    [src/python/vibap/receipt.py] with [key_fingerprint.py]: receipts are
    built from a policy event, signed over their canonical JSON, checked
    against the claim schema and chained by the digest of the signed text of
    the receipt before.  PyJWT is the class [Jws] over the tokens of
    [Passport.Jwt]; the Unicode table behind [str.isprintable] and the reading
    of a timestamp by [datetime.fromisoformat], which depends on the local
    time zone, are the class [PyText].  base64 decoding, the patterns, the
    canonical form and the replay cache are definitions. *)

From Stdlib Require Import SpecFloat.
From S2P Require Import Prelude Sha256 CanonicalJson Passport PassportPop ResourceScope PyJson Policy Session.
Import Passport.
Open Scope string_scope.
Open Scope Z_scope.

Module Receipt.

Definition RECEIPT_JWT_TYPE : string := "application/ardur.er+jwt".
Definition RECEIPT_SCHEMA_VERSION : string := "ardur.execution_receipt.v0.2".
Definition RECEIPT_CANONICALIZATION : string := "jcs-rfc8785".
Definition RECEIPT_KIND_ACTION : string := "action".
Definition DEFAULT_RECEIPT_TTL_S : Z := 300.
Definition DEFAULT_EVIDENCE_LEVEL : string := "self_signed".
Definition ALGORITHM : string := "ES256".
Definition KEY_FINGERPRINT_PREFIX : string := "sha256:".

Definition REQUIRED_CLAIMS : list string :=
  ["receipt_id"; "grant_id"; "parent_receipt_hash"; "parent_receipt_id"; "actor"; "verifier_id";
   "step_id"; "tool"; "action_class"; "target"; "resource_family"; "side_effect_class"; "verdict";
   "evidence_level"; "reason"; "policy_decisions"; "arguments_hash"; "trace_id"; "run_nonce";
   "invocation_digest"; "budget_remaining"; "timestamp"; "iss"; "iat"; "exp"; "jti"].
Definition PYJWT_REQUIRED_CLAIMS : list string :=
  List.filter (fun k => negb (str_in k ["parent_receipt_hash"; "parent_receipt_id"])) REQUIRED_CLAIMS.
Definition OPTIONAL_CLAIMS : list string :=
  ["content_class"; "content_provenance"; "sensitivity"; "instruction_bearing"; "budget_delta";
   "result_hash"; "public_denial_reason"; "internal_denial_code"; "evidence_proof_ref"; "measurements"].
Definition V02_REQUIRED_CLAIMS : list string := ["schema_version"; "canonicalization"; "receipt_kind"].
Definition LEGACY_ALLOWED_CLAIMS : list string := (REQUIRED_CLAIMS ++ OPTIONAL_CLAIMS)%list.
Definition ALLOWED_CLAIMS : list string := (LEGACY_ALLOWED_CLAIMS ++ V02_REQUIRED_CLAIMS)%list.
Definition ACTION_CLASSES : list string :=
  ["search"; "read"; "write"; "query"; "delegate"; "send"; "summarize"; "observe"; "execute";
   "dispatch"; "fetch"; "invoke"].
Definition SIDE_EFFECT_CLASSES : list string :=
  ["none"; "internal_write"; "external_send"; "state_change"; "filesystem_write"; "process_launch";
   "network_read"; "subagent_launch"].
Definition VERDICTS : list string := ["compliant"; "violation"; "insufficient_evidence"; "unknown"].
Definition EVIDENCE_LEVELS : list string := ["self_signed"; "counter_signed"; "transparency_logged"].
Definition DIGEST_ALGS : list string := ["sha-256"; "sha-384"; "sha-512"].
Definition DIGEST_CANONICALIZATIONS : list string := ["jcs-rfc8785"; "none"].
Definition DIGEST_SCOPES : list string := ["result"; "normalized_input"; "measurement"; "custom"].
Definition DENIAL_REASONS : list string :=
  ["policy_denied"; "budget_exhausted"; "insufficient_evidence"; "revoked"; "chain_invalid"; "unknown";
   "observation_gap"].
Definition SENSITIVITY_LEVELS : list string :=
  ["public"; "internal"; "confidential"; "restricted"; "regulated"; "unknown"].

(** [_SHA256_HEX_RE], [_BASE64URL_RE] and [_TOKEN_FIELD_RE], each by
    [fullmatch]. *)
Definition is_alnum (a : ascii) : bool := byte_in 48 57 a || byte_in 65 90 a || byte_in 97 122 a.
Definition hex_match (s : string) : bool :=
  (String.length s =? 64)%nat && str_all (fun a => byte_in 48 57 a || byte_in 65 70 a || byte_in 97 102 a) s.
Definition base64url_match (s : string) : bool :=
  non_empty s && str_all (fun a => is_alnum a || Ascii.eqb a "_" || Ascii.eqb a "-") s.
Definition token_field_match (s : string) : bool :=
  non_empty s
  && str_all (fun a => is_alnum a || Ascii.eqb a "." || Ascii.eqb a "_" || Ascii.eqb a ":" || Ascii.eqb a "-") s.

(** What is raised: an error of PyJWT's hierarchy ([InvalidTokenError], the
    missing claim and the key mismatch), [TypeError] of a set lookup with a
    container or of an unusable argument, an error of the serialiser, and the
    error of [verify_chain] with the index it names. *)
Inductive receipt_exc :=
| InvalidToken
| MissingRequiredClaim (claim : string)
| ReceiptKeyIdMismatch
| TypeErr
| CanonicalizationErr
| ReceiptChainErr (index : nat).
Definition is_pyjwt_error (e : receipt_exc) : bool :=
  match e with InvalidToken | MissingRequiredClaim _ | ReceiptKeyIdMismatch => true | _ => false end.
Notation rx := (res receipt_exc).

(** ** base64 *)

(** The value of a character after [urlsafe_b64decode]'s translation. *)
Definition b64_value (a : ascii) : option Z :=
  let c := CanonicalJson.code a in
  if (65 <=? c) && (c <=? 90) then Some (c - 65)
  else if (97 <=? c) && (c <=? 122) then Some (c - 71)
  else if (48 <=? c) && (c <=? 57) then Some (c + 4)
  else if (c =? 43) || (c =? 45) then Some 62
  else if (c =? 47) || (c =? 95) then Some 63
  else None.
(** [binascii.a2b_base64], not strict: other characters are skipped, padding
    that completes a quad ends the input. *)
Fixpoint a2b_base64 (s : string) (quad : nat) (left : Z) (pads : nat) : option (list Z) :=
  match s with
  | EmptyString => match quad with O => Some [] | _ => None end
  | String a s =>
      if Ascii.eqb a "=" then
        if (2 <=? quad)%nat
        then if (4 <=? quad + S pads)%nat then Some [] else a2b_base64 s quad left (S pads)
        else a2b_base64 s quad left pads
      else
        match b64_value a with
        | None => a2b_base64 s quad left pads
        | Some v =>
            match quad with
            | 0%nat => a2b_base64 s 1 v 0
            | 1%nat => l ← a2b_base64 s 2 (v mod 16) 0; Some (left * 4 + v / 16 :: l)
            | 2%nat => l ← a2b_base64 s 3 (v mod 4) 0; Some (left * 16 + v / 4 :: l)
            | _ => l ← a2b_base64 s 0 0 0; Some (left * 64 + v :: l)
            end
        end
  end.
(** [base64.urlsafe_b64decode] of a text, which must be ASCII. *)
Definition urlsafe_b64decode (s : string) : option (list Z) :=
  if str_all (byte_in 0 127) s then a2b_base64 s 0 0 0 else None.
(** ["=" * (-len(s) % 4)]. *)
Fixpoint equals (n : nat) : string := match n with O => "" | S n => String "=" (equals n) end.
Definition padding (s : string) : string := equals (Z.to_nat ((- Z.of_nat (py_len s)) mod 4)).

(** ** Services *)

Class PyText := {
  isprintable : string -> bool;
  (** [int(datetime.fromisoformat(s).timestamp())], [None] for [ValueError] *)
  iso_seconds : string -> option Z;
  isprintable_ascii : forall s, str_all (byte_in 32 126) s = true -> isprintable s = true
}.

(** PyJWT's checks of the payload of a receipt: a required claim is present
    and not null; expiry only when asked for. *)
Definition jws_claims_ok (c : claims) (require : list string) (at_time : option Z) : bool :=
  forallb (fun k => match dget k c with None | Some PNone => false | Some _ => true end) require
  && match at_time with
     | None => true
     | Some now => match dget "exp" c with Some (PInt e) => now <? e * TICKS | Some _ => false | None => true end
     end
  && match dget "nbf" c with None => true | Some _ => false end.

(** [jwt.encode] with headers, a payload and the text its JSON encoder made
    of the payload, [jwt.decode], [jwt.get_unverified_header] and decoding without
    verification.  A decoded payload is the JSON value of the payload segment:
    what was encoded, with the members of objects in the order of the text. *)
Class Jws `{Jwt} := {
  spki_der : public_key -> string;
  jws_encode : claims -> claims -> string -> private_key -> token;
  jws_decode : token -> public_key -> list string -> option Z -> option claims;
  jws_header : token -> option claims;
  jws_unverified : token -> option claims;
  jws_text : forall h c body key, exists hd sg,
    token_text (jws_encode h c body key) = hd ++ "." ++ b64url (Sha256.bytes body) ++ "." ++ sg /\
    str_all (fun a => negb (Ascii.eqb a ".")) hd = true;
  jws_header_encode : forall h c body key, exists hd, jws_header (jws_encode h c body key) = Some hd /\
    dget "alg" hd = Some (PStr ALGORITHM) /\ (forall k v, k <> "alg" -> dget k h = Some v -> dget k hd = Some v);
  jws_decode_encode : forall h body key c c' require at_time,
    CanonicalJson.dump (PDict c) = Ok body -> CanonicalJson.float_free (PDict c) = true ->
    CanonicalJson.norm (PDict c) = PDict c' -> jws_claims_ok c' require at_time = true ->
    jws_decode (jws_encode h c body key) (public_of key) require at_time = Some c';
  jws_decode_text : forall t t' key key' require require' at_time at_time' c c',
    token_text t = token_text t' -> jws_decode t key require at_time = Some c ->
    jws_decode t' key' require' at_time' = Some c' -> c = c'
}.

(** ** The claim schema *)

(** [v in {...}] of strings, which hashes [v]. *)
Definition in_set (v : pyval) (allowed : list string) : rx bool :=
  match v with
  | PStr s => Ok (str_in s allowed)
  | PList _ | PDict _ => Raise TypeErr
  | _ => Ok false
  end.
(** [isinstance(v, int) and v >= 0]. *)
Definition nonneg_int (v : pyval) : bool :=
  match v with PInt n => 0 <=? n | PBool _ => true | _ => false end.
(** [_require_string] and [_require_enum]. *)
Definition require_string (key : string) (c : claims) : rx string :=
  match py_get key c with
  | PStr s => raise_if negb (non_empty s) with InvalidToken ;; Ok s
  | _ => Raise InvalidToken
  end.
Definition require_enum (key : string) (allowed : list string) (c : claims) : rx string :=
  value ← require_string key c;
  raise_if negb (str_in value allowed) with InvalidToken ;;
  Ok value.
(** A violation unless [b]. *)
Definition demand (b : bool) : rx unit := raise_if negb b with InvalidToken ;; Ok tt.
Definition demand_in (v : pyval) (allowed : list string) : rx unit :=
  b ← in_set v allowed; demand b.
(** [key in d and (...)] checks of optional members. *)
Definition if_present (key : string) (d : claims) (check : pyval -> rx unit) : rx unit :=
  match dget key d with Some v => check v | None => Ok tt end.

(** [_validate_digest_object]. *)
Definition validate_digest_object (v : pyval) : rx unit :=
  match v with
  | PDict d =>
      demand (subset_b (dkeys d) ["alg"; "canonicalization"; "scope"; "value"]) ;;
      demand match py_get "alg" d with PStr a => str_in a DIGEST_ALGS | _ => false end ;;
      demand match py_get "canonicalization" d with
             | PNone => true | PStr a => str_in a DIGEST_CANONICALIZATIONS | _ => false end ;;
      demand match py_get "scope" d with PNone => true | PStr a => str_in a DIGEST_SCOPES | _ => false end ;;
      demand match py_get "value" d with PStr s => base64url_match s | _ => false end
  | _ => Raise InvalidToken
  end.

(** [_validate_spend_amounts]. *)
Definition validate_spend_amounts (v : pyval) : rx unit :=
  match v with
  | PDict d =>
      demand (same_set (dkeys d) ["tokens"; "currency_micros"]) ;;
      iterR (fun k => demand match py_get k d with
                             | PInt n => (0 <=? n) && (n <=? 9007199254740991)
                             | _ => false
                             end) ["tokens"; "currency_micros"]
  | _ => Raise InvalidToken
  end.

(** The three shapes of [_validate_budget_delta]. *)
Definition legacy_delta (d : claims) : rx unit :=
  demand (subset_b (dkeys d) ["bucket"; "unit"; "delta"; "remaining_after"; "ceiling"]) ;;
  _ ← require_string "bucket" d;
  demand_in (py_get "unit" d) ["invocations"; "tokens"; "bytes"; "usd"; "custom"] ;;
  iterR (fun k => if_present k d (fun v => demand (nonneg_int v))) ["delta"; "remaining_after"; "ceiling"].
Definition lineage_delta (d : claims) : rx unit :=
  demand (subset_b (dkeys d)
    ["operation"; "resource"; "amount"; "unit"; "remaining_for_parent"; "remaining_after"; "used_total";
     "reserved_total"; "side_effect_class"; "delegation_request_id"; "idempotent"]) ;;
  demand_in (py_get "operation" d) ["consume"; "reserve"; "reject"; "release"] ;;
  _ ← require_string "resource" d;
  _ ← require_string "unit" d;
  iterR (fun k => if_present k d (fun v => demand (nonneg_int v)))
    ["amount"; "remaining_for_parent"; "remaining_after"; "used_total"; "reserved_total"] ;;
  if_present "side_effect_class" d (fun v => demand_in v SIDE_EFFECT_CLASSES) ;;
  if_present "delegation_request_id" d (fun _ => _ ← require_string "delegation_request_id" d; Ok tt) ;;
  if_present "idempotent" d (fun v => demand match v with PBool _ => true | _ => false end).
Definition SPEND_REQUIRED : list string :=
  ["operation"; "resource"; "requested"; "reserved"; "actual"; "refunded"; "remaining"; "currency";
   "quote_digest"; "reservation_hash"; "reason_code"].
Definition spend_delta (d : claims) : rx unit :=
  demand (subset_b (dkeys d) (SPEND_REQUIRED ++ ["idempotent"; "reconciled"])%list) ;;
  demand_in (py_get "operation" d) ["reserve"; "reject"; "release"; "settle"; "quarantine"] ;;
  demand (py_eq_str (py_get "resource" d) "spend") ;;
  iterR (fun k => validate_spend_amounts (py_get k d)) ["requested"; "reserved"; "actual"; "refunded"] ;;
  match py_get "remaining" d with
  | PDict remaining =>
      demand (same_set (dkeys remaining) ["session"; "agent"; "lineage"]) ;;
      iterR (fun k => validate_spend_amounts (py_get k remaining)) ["session"; "agent"; "lineage"]
  | _ => Raise InvalidToken
  end ;;
  demand match py_get "currency" d with PStr s => currency_match s | _ => false end ;;
  iterR (fun k => demand match py_get k d with PStr s => hex_match s | _ => false end)
    ["quote_digest"; "reservation_hash"] ;;
  demand match py_get "reason_code" d with
         | PStr s => (py_len s <=? 128)%nat && token_field_match s
         | _ => false
         end ;;
  iterR (fun k => if_present k d (fun v => demand match v with PBool _ => true | _ => false end))
    ["idempotent"; "reconciled"].
Definition validate_budget_delta (v : pyval) : rx unit :=
  match v with
  | PDict d =>
      if subset_b ["bucket"; "delta"] (dkeys d) then legacy_delta d
      else if subset_b ["operation"; "resource"; "amount"; "unit"] (dkeys d) then lineage_delta d
      else if subset_b SPEND_REQUIRED (dkeys d) then spend_delta d
      else Raise InvalidToken
  | _ => Raise InvalidToken
  end.

Section Receipts.
Context {D : Digests} {J : Jwt} {W : Jws} {P : PyText}.

(** One item of [policy_decisions]. *)
Definition validate_decision_item (v : pyval) : rx unit :=
  match v with
  | PDict item =>
      demand (subset_b (dkeys item) ["backend"; "decision"; "reason"; "rule_id"; "eval_ms"]) ;;
      _ ← require_string "backend" item;
      _ ← require_string "decision" item;
      if_present "reason" item (fun v => demand match v with PNone | PStr _ => true | _ => false end) ;;
      if_present "rule_id" item (fun _ =>
        rule_id ← require_string "rule_id" item;
        demand ((py_len rule_id <=? 256)%nat && isprintable rule_id)) ;;
      if_present "eval_ms" item (fun v =>
        demand match v with
               | PInt n => 0 <=? n
               | PBool _ => true
               | PFloat f => negb (SFltb f (S754_zero false))
               | _ => false
               end)
  | _ => Raise InvalidToken
  end.

(** The claims every schema version allows, and what version 0.2 adds. *)
Definition validate_version (c : claims) : rx unit :=
  match py_get "schema_version" c with
  | PNone => demand (subset_b (dkeys c) LEGACY_ALLOWED_CLAIMS)
  | v =>
      demand (py_eq_str v RECEIPT_SCHEMA_VERSION) ;;
      demand (subset_b V02_REQUIRED_CLAIMS (dkeys c)) ;;
      demand (py_eq_str (py_get "canonicalization" c) RECEIPT_CANONICALIZATION) ;;
      demand (py_eq_str (py_get "receipt_kind" c) RECEIPT_KIND_ACTION) ;;
      demand (subset_b (dkeys c) ALLOWED_CLAIMS)
  end.
Definition TEXT_CLAIMS : list string :=
  ["receipt_id"; "grant_id"; "actor"; "verifier_id"; "trace_id"; "run_nonce"; "step_id"; "tool"; "target";
   "resource_family"; "reason"; "iss"; "jti"].
(** The verdict and the denial reasons that go with it. *)
Definition validate_denial (verdict : string) (c : claims) : rx unit :=
  if String.eqb verdict "compliant"
  then demand (negb (has_key "public_denial_reason" c || has_key "internal_denial_code" c))
  else
    demand_in (py_get "public_denial_reason" c) DENIAL_REASONS ;;
    demand match py_get "internal_denial_code" c with PStr s => token_field_match s | _ => false end.
Definition validate_budget_remaining (v : pyval) : rx unit :=
  match v with
  | PDict d => iterR (fun kv => demand (token_field_match kv.1 && nonneg_int kv.2)) d
  | _ => Raise InvalidToken
  end.
Definition validate_receipt_claim_schema (c : claims) : rx unit :=
  validate_version c ;;
  iterR (fun k => _ ← require_string k c; Ok tt) TEXT_CLAIMS ;;
  demand match py_get "run_nonce" c with
         | PStr s => base64url_match s && (16 <=? py_len s)%nat
         | _ => false
         end ;;
  match py_get "parent_receipt_id" c with
  | PNone => Ok tt
  | _ => _ ← require_string "parent_receipt_id" c; Ok tt
  end ;;
  demand match py_get "parent_receipt_hash" c with PNone => true | PStr s => hex_match s | _ => false end ;;
  _ ← require_enum "action_class" ACTION_CLASSES c;
  _ ← require_enum "side_effect_class" SIDE_EFFECT_CLASSES c;
  verdict ← require_enum "verdict" VERDICTS c;
  _ ← require_enum "evidence_level" EVIDENCE_LEVELS c;
  validate_digest_object (py_get "invocation_digest" c) ;;
  demand (nonneg_int (py_get "iat" c)) ;;
  demand (nonneg_int (py_get "exp" c)) ;;
  arguments_hash ← require_string "arguments_hash" c;
  demand (hex_match arguments_hash) ;;
  match py_get "policy_decisions" c with
  | PList l => iterR validate_decision_item l
  | _ => Raise InvalidToken
  end ;;
  validate_budget_remaining (py_get "budget_remaining" c) ;;
  validate_denial verdict c ;;
  if_present "sensitivity" c (fun v => demand_in v SENSITIVITY_LEVELS) ;;
  if_present "instruction_bearing" c (fun v => demand match v with PBool _ => true | _ => false end) ;;
  if_present "budget_delta" c validate_budget_delta ;;
  if_present "result_hash" c validate_digest_object.

(** ** Building a receipt *)

(** One backend's decision as an event records it. *)
Record decision_note := DecisionNote { dn_backend : string; dn_decision : string; dn_reasons : list string }.

(** What [build_receipt] reads of a [PolicyEvent]; an attribute the class does
    not have reads as [None]. *)
Record event := Event {
  timestamp : string;
  step_id : string;
  actor : string;
  verifier_id : string;
  tool_name : string;
  arguments : claims;
  action_class : string;
  target : string;
  resource_family : string;
  side_effect_class : string;
  reason : string;
  passport_jti : string;
  trace_id : option string;
  run_nonce : option string;
  denial_reason : option string;
  evidence_level : string;
  event_decisions : list decision_note;
  evidence_proof_ref : option pyval;
  content_class : option string;
  content_provenance : option claims;
  sensitivity : option string;
  instruction_bearing : option bool;
  budget_delta : option claims;
  result_hash : option claims;
  measurements : option claims
}.

(** [x or y] of strings. *)
Definition str_or (x y : string) : string := if non_empty x then x else y.

(** [_canonical_json], [_stable_identifier], [_b64url_sha256] and
    [_digest_object]. *)
Definition canonical_json (payload : claims) : rx string :=
  match CanonicalJson.dump (PDict payload) with Ok s => Ok s | Raise _ => Raise CanonicalizationErr end.
Definition stable_identifier (prefix : string) (payload : claims) : rx string :=
  text ← canonical_json payload;
  Ok (prefix ++ ":" ++ String.substring 0 32 (sha256_hex text)).
Definition b64url_sha256 (payload : claims) : rx string :=
  text ← canonical_json payload;
  Ok (b64url (sha256_digest text)).
Definition digest_object (scope : string) (payload : claims) : rx claims :=
  value ← b64url_sha256 payload;
  Ok [("alg", PStr "sha-256"); ("canonicalization", PStr "jcs-rfc8785"); ("scope", PStr scope);
      ("value", PStr value)].

(** [_numeric_date]. *)
Fixpoint replace_Z (s : string) : string :=
  match s with
  | EmptyString => ""
  | String a s => if Ascii.eqb a "Z" then "+00:00" ++ replace_Z s else String a (replace_Z s)
  end.
Definition numeric_date (value : string) : option Z :=
  if non_empty value then iso_seconds (replace_Z value) else None.

(** [_decision_name] and [_verdict_from_decision] of a [Decision]. *)
Definition decision_name (d : Session.Decision) : string :=
  match d with
  | Session.PERMIT => "PERMIT"
  | Session.DENY => "DENY"
  | Session.VIOLATION => "VIOLATION"
  | Session.INSUFFICIENT_EVIDENCE => "INSUFFICIENT_EVIDENCE"
  | Session.UNKNOWN => "UNKNOWN"
  end.
Definition verdict_from_decision (d : Session.Decision) : string :=
  let name := decision_name d in
  if String.eqb name "PERMIT" then "compliant"
  else if String.eqb name "INSUFFICIENT_EVIDENCE" then "insufficient_evidence"
  else if String.eqb name "UNKNOWN" then "unknown"
  else "violation".

(** [_public_denial_reason]. *)
Definition public_denial_reason_of (verdict code : string) : option string :=
  if String.eqb verdict "compliant" then None
  else if String.eqb verdict "insufficient_evidence" then Some "insufficient_evidence"
  else if String.eqb verdict "unknown" then Some "unknown"
  else if str_in code ["budget_exhausted"; "risk_budget_exhausted"] then Some "budget_exhausted"
  else if str_in code ["revoked"; "mission_revoked"] then Some "revoked"
  else if str_in code ["chain_invalid"] then Some "chain_invalid"
  else Some "policy_denied".

(** [_invocation_digest_payload]. *)
Definition invocation_digest_payload (e : event) : claims :=
  [("grant_id", PStr (passport_jti e));
   ("actor", PStr (actor e));
   ("verifier_id", PStr (str_or (verifier_id e) DEFAULT_ISSUER));
   ("step_id", PStr (step_id e));
   ("tool", PStr (tool_name e));
   ("action_class", PStr (str_or (action_class e) "observe"));
   ("target", PStr (str_or (target e) (tool_name e)));
   ("resource_family", PStr (str_or (resource_family e) "general"));
   ("side_effect_class", PStr (str_or (side_effect_class e) "none"));
   ("arguments", PDict (arguments e))].

(** [_trace_id_from_event] and [_run_nonce_from_event]. *)
Definition trace_id_from_event (e : event) : string :=
  str_or (default "" (trace_id e)) (str_or (passport_jti e) "unknown-trace").
Definition run_nonce_from_event (e : event) (trace : string) : rx string :=
  let raw := default "" (run_nonce e) in
  if non_empty raw then Ok raw
  else
    digest ← b64url_sha256
      [("trace_id", PStr trace); ("grant_id", PStr (passport_jti e)); ("timestamp", PStr (timestamp e));
       ("step_id", PStr (step_id e))];
    Ok (String.substring 0 32 digest).

(** [_signed_policy_decisions]. *)
Definition opt_str (o : option string) : pyval := match o with Some s => PStr s | None => PNone end.
Definition signed_decision (n : decision_note) : claims :=
  [("backend", PStr (if String.eqb (dn_backend n) "native_claims" then "native" else dn_backend n));
   ("decision", PStr (dn_decision n));
   ("reason", match dn_reasons n with [] => PNone | l => PStr (join "; " l) end)].
Definition signed_policy_decisions (e : event) (d : Session.Decision) (reason_text : string) : list claims :=
  match event_decisions e with
  | [] => [[("backend", PStr "native");
            ("decision", PStr (if String.eqb (decision_name d) "PERMIT" then "Allow" else "Deny"));
            ("reason", if non_empty reason_text then PStr reason_text else PNone)]]
  | l => signed_decision <$> l
  end.

(** [ExecutionReceipt]; the constant first three fields are written by
    [to_dict]. *)
Record ExecutionReceipt := MkReceipt {
  receipt_id : string;
  grant_id : string;
  parent_receipt_hash : option string;
  parent_receipt_id : option string;
  r_actor : string;
  r_verifier_id : string;
  r_step_id : string;
  r_tool : string;
  r_action_class : string;
  r_target : string;
  r_resource_family : string;
  r_side_effect_class : string;
  r_verdict : string;
  r_evidence_level : string;
  r_reason : string;
  r_policy_decisions : list claims;
  arguments_hash : string;
  r_trace_id : string;
  r_run_nonce : string;
  invocation_digest : claims;
  budget_remaining : list (string * Z);
  r_timestamp : string;
  iss : string;
  iat : Z;
  exp : Z;
  jti : string;
  public_denial_reason : option string;
  internal_denial_code : option string;
  r_evidence_proof_ref : option pyval;
  r_content_class : option string;
  r_content_provenance : option claims;
  r_sensitivity : option string;
  r_instruction_bearing : option bool;
  r_budget_delta : option claims;
  r_result_hash : option claims;
  r_measurements : option claims
}.

(** [payload[key] = value] when there is one. *)
Definition opt_claim (key : string) (v : option pyval) : claims :=
  match v with Some v => [(key, v)] | None => [] end.
Definition budget_dict (l : list (string * Z)) : pyval := PDict ((fun kv => (kv.1, PInt kv.2)) <$> l).
(** [ExecutionReceipt.to_dict]. *)
Definition required_dict (r : ExecutionReceipt) : claims :=
  [("schema_version", PStr RECEIPT_SCHEMA_VERSION);
   ("canonicalization", PStr RECEIPT_CANONICALIZATION);
   ("receipt_kind", PStr RECEIPT_KIND_ACTION);
   ("receipt_id", PStr (receipt_id r));
   ("grant_id", PStr (grant_id r));
   ("parent_receipt_hash", opt_str (parent_receipt_hash r));
   ("parent_receipt_id", opt_str (parent_receipt_id r));
   ("actor", PStr (r_actor r));
   ("verifier_id", PStr (r_verifier_id r));
   ("step_id", PStr (r_step_id r));
   ("tool", PStr (r_tool r));
   ("action_class", PStr (r_action_class r));
   ("target", PStr (r_target r));
   ("resource_family", PStr (r_resource_family r));
   ("side_effect_class", PStr (r_side_effect_class r));
   ("verdict", PStr (r_verdict r));
   ("evidence_level", PStr (r_evidence_level r));
   ("reason", PStr (r_reason r));
   ("policy_decisions", PList (PDict <$> r_policy_decisions r));
   ("arguments_hash", PStr (arguments_hash r));
   ("trace_id", PStr (r_trace_id r));
   ("run_nonce", PStr (r_run_nonce r));
   ("invocation_digest", PDict (invocation_digest r));
   ("budget_remaining", budget_dict (budget_remaining r));
   ("timestamp", PStr (r_timestamp r));
   ("iss", PStr (iss r));
   ("iat", PInt (iat r));
   ("exp", PInt (exp r));
   ("jti", PStr (jti r))].
Definition optional_dict (r : ExecutionReceipt) : claims :=
  (opt_claim "public_denial_reason" (PStr <$> public_denial_reason r)
   ++ opt_claim "internal_denial_code" (PStr <$> internal_denial_code r)
   ++ opt_claim "evidence_proof_ref" (r_evidence_proof_ref r)
   ++ opt_claim "content_class" (PStr <$> r_content_class r)
   ++ opt_claim "content_provenance" (PDict <$> r_content_provenance r)
   ++ opt_claim "sensitivity" (PStr <$> r_sensitivity r)
   ++ opt_claim "instruction_bearing" (PBool <$> r_instruction_bearing r)
   ++ opt_claim "budget_delta" (PDict <$> r_budget_delta r)
   ++ opt_claim "result_hash" (PDict <$> r_result_hash r)
   ++ opt_claim "measurements" (PDict <$> r_measurements r))%list.
Definition to_dict (r : ExecutionReceipt) : claims := (required_dict r ++ optional_dict r)%list.

(** [str(raw).strip() or "unspecified"]. *)
Definition reason_text_of (raw : string) : string := str_or (py_strip raw) "unspecified".
(** The step identifier, derived when the event has none. *)
Definition step_id_of (e : event) : rx string :=
  let s := py_strip (step_id e) in
  if non_empty s then Ok s
  else stable_identifier "step"
    [("grant_id", PStr (passport_jti e)); ("timestamp", PStr (timestamp e)); ("tool", PStr (tool_name e));
     ("arguments", PDict (arguments e))].
Definition hash_prefix (o : option string) : option string := String.substring 0 16 <$> o.

(** [build_receipt], at second [now]. *)
Definition build_receipt (decision : Session.Decision) (e : event) (parent_hash : option string)
    (policy_decisions : option (list claims)) (reason_arg : option string)
    (budget : list (string * Z)) (now : Z) : rx ExecutionReceipt :=
  let verdict := verdict_from_decision decision in
  let compliant := String.eqb verdict "compliant" in
  let code := str_or (default "" (denial_reason e)) "unknown" in
  let internal := if compliant then None else Some code in
  let public := if compliant then None else public_denial_reason_of verdict code in
  let reason_text := reason_text_of (default (reason e) reason_arg) in
  let decisions := default (signed_policy_decisions e decision reason_text) policy_decisions in
  arguments_text ← canonical_json (arguments e);
  let args_hash := sha256_hex arguments_text in
  let trace := trace_id_from_event e in
  nonce ← run_nonce_from_event e trace;
  digest ← digest_object "normalized_input" (invocation_digest_payload e);
  let observed := match numeric_date (timestamp e) with Some 0 | None => now | Some o => o end in
  let iat := Z.max now observed in
  let verifier := str_or (verifier_id e) DEFAULT_ISSUER in
  step ← step_id_of e;
  let action := str_or (action_class e) "observe" in
  let tgt := str_or (target e) (tool_name e) in
  let family := str_or (resource_family e) "general" in
  let effect := str_or (side_effect_class e) "none" in
  let level := str_or (evidence_level e) DEFAULT_EVIDENCE_LEVEL in
  id ← stable_identifier "receipt"
    [("schema_version", PStr RECEIPT_SCHEMA_VERSION);
     ("canonicalization", PStr RECEIPT_CANONICALIZATION);
     ("receipt_kind", PStr RECEIPT_KIND_ACTION);
     ("grant_id", PStr (passport_jti e));
     ("parent_receipt_hash", opt_str parent_hash);
     ("parent_receipt_id", opt_str (hash_prefix parent_hash));
     ("actor", PStr (actor e));
     ("verifier_id", PStr verifier);
     ("step_id", PStr step);
     ("tool", PStr (tool_name e));
     ("action_class", PStr action);
     ("target", PStr tgt);
     ("resource_family", PStr family);
     ("side_effect_class", PStr effect);
     ("verdict", PStr verdict);
     ("evidence_level", PStr level);
     ("reason", PStr reason_text);
     ("policy_decisions", PList (PDict <$> decisions));
     ("arguments_hash", PStr args_hash);
     ("trace_id", PStr trace);
     ("run_nonce", PStr nonce);
     ("invocation_digest", PDict digest);
     ("budget_remaining", budget_dict budget);
     ("timestamp", PStr (timestamp e));
     ("iss", PStr verifier);
     ("public_denial_reason", opt_str public);
     ("internal_denial_code", opt_str internal);
     ("evidence_proof_ref", default PNone (evidence_proof_ref e))];
  Ok {| receipt_id := id; grant_id := passport_jti e; parent_receipt_hash := parent_hash;
        parent_receipt_id := hash_prefix parent_hash; r_actor := actor e; r_verifier_id := verifier;
        r_step_id := step; r_tool := tool_name e; r_action_class := action; r_target := tgt;
        r_resource_family := family; r_side_effect_class := effect; r_verdict := verdict;
        r_evidence_level := level; r_reason := reason_text; r_policy_decisions := decisions;
        arguments_hash := args_hash; r_trace_id := trace; r_run_nonce := nonce;
        invocation_digest := digest; budget_remaining := budget; r_timestamp := timestamp e;
        iss := verifier; iat := iat; exp := iat + DEFAULT_RECEIPT_TTL_S; jti := id;
        public_denial_reason := public; internal_denial_code := internal;
        r_evidence_proof_ref := evidence_proof_ref e; r_content_class := content_class e;
        r_content_provenance := content_provenance e; r_sensitivity := sensitivity e;
        r_instruction_bearing := instruction_bearing e; r_budget_delta := budget_delta e;
        r_result_hash := result_hash e; r_measurements := measurements e |}.

(** ** Signing and verifying *)

(** [public_key_fingerprint], which is [receipt_key_id]. *)
Definition public_key_fingerprint (key : public_key) : string :=
  KEY_FINGERPRINT_PREFIX ++ sha256_hex (spki_der key).
Definition receipt_key_id (key : public_key) : string := public_key_fingerprint key.

(** [sign_receipt]. *)
Definition receipt_header (key : private_key) : claims :=
  [("typ", PStr RECEIPT_JWT_TYPE); ("kid", PStr (receipt_key_id (public_of key)))].
Definition sign_receipt (r : ExecutionReceipt) (key : private_key) : rx token :=
  body ← canonical_json (to_dict r);
  Ok (jws_encode (receipt_header key) (to_dict r) body key).

(** [_assert_key_id_binds_verifying_key]. *)
Definition assert_key_id_binds_verifying_key (t : token) (key : public_key) : rx unit :=
  match jws_header t with
  | None => Raise ReceiptKeyIdMismatch
  | Some header =>
      match dget "kid" header with
      | None => Ok tt
      | Some kid =>
          raise_if negb (py_eq_str kid (receipt_key_id key)) with ReceiptKeyIdMismatch ;; Ok tt
      end
  end.

(** [_validate_canonical_payload]. *)
Definition payload_bytes (t : token) : option (list Z) :=
  match split_on "." (token_text t) with
  | _ :: encoded_payload :: _ => urlsafe_b64decode (encoded_payload ++ padding encoded_payload)
  | _ => None
  end.
Definition validate_canonical_payload (t : token) (c : claims) : rx unit :=
  if negb (py_eq_str (py_get "schema_version" c) RECEIPT_SCHEMA_VERSION) then Ok tt
  else
    match payload_bytes t, CanonicalJson.canonical_json_bytes (PDict c) with
    | Some got, Ok expected => demand (bool_decide (got = Sha256.bytes expected))
    | _, _ => Raise InvalidToken
    end.

(** The first required claim that is missing. *)
Definition demand_claims (c : claims) : rx unit :=
  match List.filter (fun k => negb (has_key k c)) REQUIRED_CLAIMS with
  | [] => Ok tt
  | k :: _ => Raise (MissingRequiredClaim k)
  end.

(** [assert_receipt_shaped]. *)
Definition assert_receipt_shaped (t : token) : rx claims :=
  match jws_header t with
  | None => Raise InvalidToken
  | Some header =>
      demand (py_eq_str (py_get "typ" header) RECEIPT_JWT_TYPE) ;;
      demand (py_eq_str (py_get "alg" header) ALGORITHM) ;;
      match jws_unverified t with
      | None => Raise InvalidToken
      | Some c =>
          demand_claims c ;;
          validate_canonical_payload t c ;;
          validate_receipt_claim_schema c ;;
          Ok c
      end
  end.

(** [BoundedReplayCache]: the keys, oldest first. *)
Record replay_cache := ReplayCache { max_entries : nat; entries : list string }.
Definition cache_add (value : string) (c : replay_cache) : replay_cache :=
  let l := (List.filter (fun x => negb (String.eqb x value)) (entries c) ++ [value])%list in
  ReplayCache (max_entries c) (drop (length l - max_entries c) l).
Definition cache_discard (value : string) (c : replay_cache) : replay_cache :=
  ReplayCache (max_entries c) (List.filter (fun x => negb (String.eqb x value)) (entries c)).

(** The keyword arguments of [verify_receipt]; a skew of 0 stands for [None]
    or 0, which disable that side. *)
Record context := Context_ {
  expected_trace_id : option string;
  expected_run_nonce : option string;
  expected_invocation_digest : option claims;
  trusted_issuer_bindings : option (gmap string (list string));
  verify_expiry : bool;
  iat_future_skew_s : Z;
  iat_past_skew_s : Z
}.
Definition default_context : context :=
  Context_ None None None None true DEFAULT_IAT_FUTURE_SKEW_S DEFAULT_IAT_PAST_SKEW_S.

(** The issuer speaks for itself or for a verifier bound to it. *)
Definition issuer_trusted (x : context) (issuer verifier : string) : bool :=
  String.eqb issuer verifier
  || match trusted_issuer_bindings x with
     | Some bindings => str_in verifier (default [] (bindings !! issuer))
     | None => false
     end.
Definition DIGEST_FIELDS : list string := ["alg"; "canonicalization"; "scope"; "value"].
(** Equality of two digest objects of strings, as dicts. *)
Definition digest_eq (a b : claims) : bool :=
  same_set (dkeys a) (dkeys b)
  && forallb (fun k => match py_get k a, py_get k b with
                       | PStr s, v => py_eq_str v s
                       | PNone, PNone => true
                       | _, _ => false
                       end) (dkeys a).
Definition replay_key (c : claims) : string :=
  match py_get "trace_id" c, py_get "run_nonce" c, py_get "jti" c with
  | PStr t, PStr n, PStr j => t ++ ":" ++ n ++ ":" ++ j
  | _, _, _ => ""
  end.

(** The checks of [verify_receipt] on the decoded claims. *)
Definition expects (o : option string) (k : string) (c : claims) : bool :=
  match o with Some s => py_eq_str (py_get k c) s | None => true end.
Definition check_claims (t : token) (x : context) (c : claims) (now : Z) : rx unit :=
  match assert_iat_in_window (py_get "iat" c) (iat_future_skew_s x) (iat_past_skew_s x) now with
  | Ok _ => Ok tt
  | Raise _ => Raise InvalidToken
  end ;;
  demand_claims c ;;
  validate_canonical_payload t c ;;
  validate_receipt_claim_schema c ;;
  demand match py_get "iss" c, py_get "verifier_id" c with
         | PStr i, PStr v => issuer_trusted x i v
         | _, _ => false
         end ;;
  (if py_eq_str (py_get "verdict" c) "compliant"
   then demand (negb (has_key "public_denial_reason" c || has_key "internal_denial_code" c))
   else
     raise_if negb (has_key "public_denial_reason" c) with MissingRequiredClaim "public_denial_reason" ;;
     raise_if negb (has_key "internal_denial_code" c) with MissingRequiredClaim "internal_denial_code" ;;
     Ok tt) ;;
  match py_get "invocation_digest" c with
  | PDict digest =>
      iterR (fun k => demand (truthy (py_get k digest))) DIGEST_FIELDS ;;
      demand (expects (expected_trace_id x) "trace_id" c) ;;
      demand (expects (expected_run_nonce x) "run_nonce" c) ;;
      demand match expected_invocation_digest x with Some e => digest_eq digest e | None => true end
  | _ => Raise InvalidToken
  end.
(** [verify_receipt], at [now] ticks for expiry and [now'] for the issue
    time; the cache afterwards is returned with the claims. *)
Definition verify_receipt (t : token) (key : public_key) (x : context) (cache : option replay_cache)
    (now now' : Z) : rx (claims * option replay_cache) :=
  match jws_decode t key PYJWT_REQUIRED_CLAIMS (if verify_expiry x then Some now else None) with
  | None => Raise InvalidToken
  | Some c =>
      assert_key_id_binds_verifying_key t key ;;
      check_claims t x c now' ;;
      match cache with
      | None => Ok (c, None)
      | Some rc =>
          raise_if (max_entries rc =? 0)%nat with TypeErr ;;
          raise_if str_in (replay_key c) (entries rc) with InvalidToken ;;
          Ok (c, Some (cache_add (replay_key c) rc))
      end
  end.

(** ** Chains *)

(** [verify_chain]; [clock] gives the readings for the receipt at an index. *)
Definition chain_context (verify_exp : bool) (future past : Z) : context :=
  Context_ None None None None verify_exp future past.
Definition verify_indexed (key : public_key) (x : context) (clock : nat -> Z * Z) (it : nat * token)
    : rx claims :=
  match verify_receipt it.2 key x None (clock it.1).1 (clock it.1).2 with
  | Ok (c, _) => Ok c
  | Raise e => Raise (if is_pyjwt_error e then ReceiptChainErr it.1 else e)
  end.
Definition check_root (c : claims) : rx unit :=
  raise_if match py_get "parent_receipt_hash" c with PNone => false | _ => true end with ReceiptChainErr 0 ;;
  raise_if match py_get "parent_receipt_id" c with PNone => false | _ => true end with ReceiptChainErr 0 ;;
  Ok tt.
Definition check_link (index : nat) (previous : token) (c : claims) : rx unit :=
  let expected_hash := sha256_hex (token_text previous) in
  raise_if negb (py_eq_str (py_get "parent_receipt_hash" c) expected_hash) with ReceiptChainErr index ;;
  match py_get "parent_receipt_id" c with
  | PNone => Ok tt
  | pid => raise_if negb (py_eq_str pid (String.substring 0 16 expected_hash)) with ReceiptChainErr index ;; Ok tt
  end.
Fixpoint check_links (index : nat) (previous : option token) (l : list (token * claims)) : rx unit :=
  match l with
  | [] => Ok tt
  | (t, c) :: l =>
      match previous with None => check_root c | Some p => check_link index p c end ;;
      check_links (S index) (Some t) l
  end.
Definition verify_chain (tokens : list token) (key : public_key) (verify_exp : bool) (future past : Z)
    (clock : nat -> Z * Z) : rx (list claims) :=
  verified ← mapR (verify_indexed key (chain_context verify_exp future past) clock) (imap pair tokens);
  check_links 0 None (zip tokens verified) ;;
  Ok verified.
End Receipts.
End Receipt.
