(* ===== verification/ReceiptProps.v ===== *)
(** * Receipts: what verification establishes

    base64 round trips, the claims of a built receipt as they are read back,
    and the properties of [verify_receipt], [verify_chain] and the replay
    cache. *)

From S2P Require Import Prelude Sha256 CanonicalJson Passport PassportPop PyJson Session Receipt.
Import Passport Receipt.
Open Scope string_scope.
Open Scope Z_scope.

(** ** base64 *)

Lemma b64_value_char n : 0 <= n < 64 -> b64_value (b64_char n) = Some n.
Proof.
  intros Hn.
  assert (Ha : forallb (fun n => bool_decide (b64_value (b64_char n) = Some n)) (seqZ 0 64) = true)
    by (vm_compute; reflexivity).
  rewrite forallb_forall in Ha. apply (bool_decide_eq_true _), Ha, list_elem_of_In, elem_of_seqZ. lia.
Qed.
(** A property of the 64 characters holds of every encoded text. *)
Lemma b64url_all (p : ascii -> bool) l : str_all p B64URL = true -> Forall is_byte l -> str_all p (b64url l) = true.
Proof.
  intros Hp.
  assert (Hc : forall n, 0 <= n < 64 -> p (b64_char n) = true).
  { intros n Hn. unfold b64_char. assert (Hs : forall s i, str_all p s = true -> (i < String.length s)%nat ->
      p (default "A"%char (String.get i s)) = true).
    { induction s as [|a s IH]; intros i Hs Hi; cbn in Hi; [lia|]. cbn [str_all] in Hs.
      apply andb_true_iff in Hs as [Ha Hs]. destruct i as [|i]; [done|]. apply IH; [done|lia]. }
    apply Hs; [done|]. change (String.length B64URL) with 64%nat. lia. }
  induction l as [|a|a b|a b c l IH] using list_ind3; unfold is_byte; intros Hl;
    repeat (apply Forall_cons in Hl as [? Hl]); cbn [b64url str_all]; rewrite ?Hc; cbn [andb];
    try (Z.div_mod_to_equations; lia); auto.
Qed.
Lemma bytes_is_byte s : Forall is_byte (Sha256.bytes s).
Proof.
  induction s as [|a s IH]; cbn; constructor; [|done]. unfold is_byte. pose proof (N_ascii_bounded a). lia.
Qed.

(** No encoded character is the padding character. *)
Lemma b64_char_not_pad n : 0 <= n < 64 -> Ascii.eqb (b64_char n) "=" = false.
Proof.
  intros Hn. apply Ascii.eqb_neq. intros E. pose proof (b64_value_char n Hn) as Hv. rewrite E in Hv. discriminate.
Qed.
Ltac b64_step :=
  cbn [a2b_base64]; rewrite b64_char_not_pad, b64_value_char by (Z.div_mod_to_equations; lia).

Lemma a2b_b64url l : Forall is_byte l ->
  a2b_base64 (b64url l ++ equals (Z.to_nat ((- Z.of_nat (String.length (b64url l))) mod 4))) 0 0 0 = Some l.
Proof.
  induction l as [|a|a b|a b c l IH] using list_ind3; unfold is_byte in *; intros Hl;
    repeat (apply Forall_cons in Hl as [? Hl]); cbn [b64url]; [done|..].
  - cbn [String.length]. change (Z.to_nat ((- Z.of_nat 2) mod 4)) with 2%nat. cbv [equals String.append].
    do 2 b64_step. cbn. do 2 f_equal. Z.div_mod_to_equations; lia.
  - cbn [String.length]. change (Z.to_nat ((- Z.of_nat 3) mod 4)) with 1%nat. cbv [equals String.append].
    do 3 b64_step. cbn. do 2 f_equal; [|f_equal]; Z.div_mod_to_equations; lia.
  - replace ((- Z.of_nat (String.length _)) mod 4) with ((- Z.of_nat (String.length (b64url l))) mod 4)
      by (cbn [String.length]; Z.div_mod_to_equations; lia).
    rewrite !str_app_cons. do 4 b64_step. rewrite IH by done. cbn.
    do 2 f_equal; [|f_equal; [|f_equal]]; Z.div_mod_to_equations; lia.
Qed.

Lemma py_len_ascii s : str_all (byte_in 0 127) s = true -> py_len s = String.length s.
Proof.
  induction s as [|a s IH]; [done|]. cbn [str_all]. intros [Ha Hs]%andb_true_iff.
  cbn [py_len String.length]. rewrite (IH Hs).
  destruct (byte_in 128 191 a) eqn:E; [|done]. exfalso. unfold byte_in in *. lia.
Qed.
Lemma equals_ascii n : str_all (byte_in 0 127) (equals n) = true.
Proof. by induction n. Qed.

(** The payload segment decodes to the bytes that were encoded. *)
Lemma urlsafe_b64_roundtrip l : Forall is_byte l -> urlsafe_b64decode (b64url l ++ padding (b64url l)) = Some l.
Proof.
  intros Hl. assert (Ha : str_all (byte_in 0 127) (b64url l) = true) by (by apply b64url_all).
  unfold urlsafe_b64decode, padding. rewrite str_all_app, Ha, equals_ascii. cbn [andb].
  by rewrite (py_len_ascii _ Ha), a2b_b64url.
Qed.

(** ** A dict and its wire form *)

Lemma dget_perm {A} k (d d' : list (string * A)) : NoDup (dkeys d) -> d ≡ₚ d' -> dget k d' = dget k d.
Proof.
  intros Hn Hp. assert (Hn' : NoDup (dkeys d')) by (unfold dkeys in *; by rewrite <- Hp).
  destruct (dget k d) as [v|] eqn:E.
  - apply dget_unique; [done|]. rewrite <- Hp. by apply dget_elem.
  - apply dget_None in E. apply dget_None. unfold dkeys in *. by rewrite <- Hp.
Qed.

(** The members of a dict as they are read back from its canonical text. *)
Definition wire (d : claims) : claims :=
  CanonicalJson.norm_items (List.map (fun kv => (kv.1, CanonicalJson.norm kv.2)) d).
Lemma norm_dict d : CanonicalJson.norm (PDict d) = PDict (wire d).
Proof. done. Qed.
Lemma dkeys_wire d : dkeys (wire d) ≡ₚ dkeys d.
Proof.
  unfold wire, dkeys. rewrite CanonicalJson.norm_items_perm. change (List.map ?f d) with (f <$> d).
  by rewrite <- list_fmap_compose.
Qed.
Lemma dget_wire k d : NoDup (dkeys d) -> dget k (wire d) = CanonicalJson.norm <$> dget k d.
Proof.
  intros Hn. unfold wire.
  assert (Hm : dkeys ((fun kv => (kv.1, CanonicalJson.norm kv.2)) <$> d) = dkeys d)
    by (unfold dkeys; by rewrite <- list_fmap_compose).
  rewrite (dget_perm k ((fun kv => (kv.1, CanonicalJson.norm kv.2)) <$> d)).
  - apply (dget_fmap CanonicalJson.norm).
  - by rewrite Hm.
  - symmetry. apply CanonicalJson.norm_items_perm.
Qed.
Lemma py_get_wire k d : NoDup (dkeys d) -> py_get k (wire d) = CanonicalJson.norm (py_get k d).
Proof. intros Hn. unfold py_get. rewrite dget_wire by done. by destruct (dget k d). Qed.

(** The keys of every dict inside a value are distinct, as Python's are. *)
Fixpoint distinct_keys (v : pyval) : bool :=
  match v with
  | PList l => forallb distinct_keys l
  | PDict d => bool_decide (NoDup d.*1) && forallb (fun kv => distinct_keys kv.2) d
  | _ => true
  end.
(** What was read back serialises to the text it was read from. *)
Lemma norm_norm v : distinct_keys v = true -> CanonicalJson.in_domain v = true ->
  CanonicalJson.norm (CanonicalJson.norm v) = CanonicalJson.norm v.
Proof.
  induction v as [|b|n|f|str|l IH|d IH] using pyval_ind; try done; cbn [distinct_keys CanonicalJson.in_domain].
  - rewrite !forallb_forall. rewrite Forall_forall in IH. intros Hd Ho. cbn [CanonicalJson.norm]. f_equal.
    rewrite List.map_map. apply List.map_ext_in. intros x Hx. apply IH; [by apply list_elem_of_In|by apply Hd|by apply Ho].
  - rewrite andb_true_iff, !forallb_forall. rewrite Forall_forall in IH.
    intros [Hn%bool_decide_eq_true Hd] Ho. cbn [CanonicalJson.norm]. f_equal.
    set (f := fun kv : string * pyval => (kv.1, CanonicalJson.norm kv.2)).
    assert (Hf : f <$> (f <$> d) = f <$> d).
    { rewrite <- list_fmap_compose. apply list_fmap_ext. intros i [k v] Hi%list_elem_of_lookup_2. unfold f. cbn. f_equal.
      pose proof (proj1 (list_elem_of_In _ _) Hi) as Hin. specialize (Ho _ Hin). apply andb_true_iff in Ho as [_ Ho].
      exact (IH (k, v) Hi (Hd _ Hin) Ho). }
    change (List.map f) with (fmap (M := list) f). unfold f at 1. rewrite (CanonicalJson.norm_items_fmap CanonicalJson.norm).
    fold f. rewrite <- (CanonicalJson.norm_items_unique (f <$> d) (CanonicalJson.norm_items (f <$> d))).
    + unfold f at 1. rewrite <- (CanonicalJson.norm_items_fmap CanonicalJson.norm). fold f. by rewrite Hf.
    + rewrite <- list_fmap_compose. exact Hn.
    + apply Forall_forall. intros kv Hkv. apply list_elem_of_fmap in Hkv as (y & -> & Hy). cbn.
      apply list_elem_of_In in Hy. specialize (Ho _ Hy). by apply andb_true_iff in Ho as [Hu%bool_decide_eq_true _].
    + symmetry. apply CanonicalJson.norm_items_perm.
Qed.
Lemma dump_norm v s : distinct_keys v = true -> CanonicalJson.dump v = Ok s ->
  CanonicalJson.dump (CanonicalJson.norm v) = Ok s.
Proof.
  intros Hk Hd. assert (Ho : CanonicalJson.in_domain v = true) by (apply CanonicalJson.dumps_ok_all; by eexists).
  apply CanonicalJson.dump_emit. rewrite norm_norm by done. by apply CanonicalJson.dump_emit.
Qed.

Section Props.
Context {D : Digests} {J : Jwt} {W : Jws} {P : PyText}.

(** ** The claims of a receipt *)

Lemma dget_opt_claim k k' v l :
  dget k (opt_claim k' v ++ l)%list = if String.eqb k k' then (match v with Some x => Some x | None => dget k l end)
                                 else dget k l.
Proof. unfold opt_claim. destruct v as [x|]; cbn; by destruct (String.eqb k k'). Qed.
Definition REQUIRED_KEYS : list string :=
  ["schema_version"; "canonicalization"; "receipt_kind"; "receipt_id"; "grant_id"; "parent_receipt_hash";
   "parent_receipt_id"; "actor"; "verifier_id"; "step_id"; "tool"; "action_class"; "target";
   "resource_family"; "side_effect_class"; "verdict"; "evidence_level"; "reason"; "policy_decisions";
   "arguments_hash"; "trace_id"; "run_nonce"; "invocation_digest"; "budget_remaining"; "timestamp"; "iss";
   "iat"; "exp"; "jti"].
Definition OPTIONAL_KEYS : list string :=
  ["public_denial_reason"; "internal_denial_code"; "evidence_proof_ref"; "content_class";
   "content_provenance"; "sensitivity"; "instruction_bearing"; "budget_delta"; "result_hash"; "measurements"].
Lemma opt_claim_keys k v l ks : dkeys l `sublist_of` ks -> dkeys (opt_claim k v ++ l)%list `sublist_of` k :: ks.
Proof. intros Hs. destruct v; cbn; by constructor. Qed.
Lemma optional_keys r : dkeys (optional_dict r) `sublist_of` OPTIONAL_KEYS.
Proof.
  unfold optional_dict, OPTIONAL_KEYS. do 9 apply opt_claim_keys.
  rewrite <- (app_nil_r (opt_claim "measurements" _)). apply opt_claim_keys. constructor.
Qed.
Lemma to_dict_keys r : dkeys (to_dict r) `sublist_of` (REQUIRED_KEYS ++ OPTIONAL_KEYS)%list.
Proof.
  unfold to_dict, dkeys. rewrite fmap_app. apply sublist_app; [|apply optional_keys]. reflexivity.
Qed.
Lemma to_dict_NoDup r : NoDup (dkeys (to_dict r)).
Proof.
  eapply sublist_NoDup; [|apply to_dict_keys]. apply (bool_decide_unpack _). by vm_compute.
Qed.
(** Every claim of the built payload as it is read back. *)
Definition read_back (r : ExecutionReceipt) : claims := wire (to_dict r).
Lemma read_key k r : py_get k (read_back r) = CanonicalJson.norm (py_get k (to_dict r)).
Proof. apply py_get_wire, to_dict_NoDup. Qed.
Lemma read_dget k r : dget k (read_back r) = CanonicalJson.norm <$> dget k (to_dict r).
Proof. apply dget_wire, to_dict_NoDup. Qed.
(** An optional claim is there exactly when the receipt has the field. *)
Lemma to_dict_optional k r : str_in k REQUIRED_KEYS = false -> dget k (to_dict r) = dget k (optional_dict r).
Proof.
  intros Hk. unfold to_dict. rewrite dget_app.
  destruct (dget k (required_dict r)) eqn:E; [|done]. exfalso.
  apply str_in_false in Hk. apply Hk. change REQUIRED_KEYS with (dkeys (required_dict r)).
  apply dget_is_Some. by eexists.
Qed.
Ltac optional := rewrite read_dget, to_dict_optional by reflexivity; unfold optional_dict;
  rewrite ?dget_opt_claim; cbn [String.eqb Ascii.eqb Bool.eqb].

(** What a receipt needs for the schema to accept it. *)
Record receipt_ok (r : ExecutionReceipt) : Prop := {
  ok_texts : forallb non_empty [receipt_id r; grant_id r; r_actor r; r_verifier_id r; r_trace_id r;
    r_run_nonce r; r_step_id r; r_tool r; r_target r; r_resource_family r; r_reason r; iss r; jti r] = true;
  ok_issuer : iss r = r_verifier_id r;
  ok_nonce : base64url_match (r_run_nonce r) && (16 <=? py_len (r_run_nonce r))%nat = true;
  ok_parent : match parent_receipt_hash r with Some h => hex_match h = true | None => True end;
  ok_parent_id : parent_receipt_id r = hash_prefix (parent_receipt_hash r);
  ok_action : str_in (r_action_class r) ACTION_CLASSES = true;
  ok_effect : str_in (r_side_effect_class r) SIDE_EFFECT_CLASSES = true;
  ok_verdict : str_in (r_verdict r) VERDICTS = true;
  ok_level : str_in (r_evidence_level r) EVIDENCE_LEVELS = true;
  ok_digest : exists value, base64url_match value = true /\ invocation_digest r =
    [("alg", PStr "sha-256"); ("canonicalization", PStr "jcs-rfc8785"); ("scope", PStr "normalized_input");
     ("value", PStr value)];
  ok_times : 0 <= iat r /\ exp r = iat r + DEFAULT_RECEIPT_TTL_S;
  ok_arguments : hex_match (arguments_hash r) = true;
  ok_decisions : Forall (fun d => validate_decision_item (PDict (wire d)) = Ok tt) (r_policy_decisions r);
  ok_budget : Forall (fun kv => token_field_match kv.1 = true /\ 0 <= kv.2) (budget_remaining r);
  ok_denial : if String.eqb (r_verdict r) "compliant"
    then public_denial_reason r = None /\ internal_denial_code r = None
    else exists p c, public_denial_reason r = Some p /\ internal_denial_code r = Some c /\
      str_in p DENIAL_REASONS = true /\ token_field_match c = true;
  ok_sensitivity : match r_sensitivity r with Some s => str_in s SENSITIVITY_LEVELS = true | None => True end;
  ok_delta : match r_budget_delta r with
    | Some d => validate_budget_delta (PDict (wire d)) = Ok tt | None => True end;
  ok_result : match r_result_hash r with
    | Some d => validate_digest_object (PDict (wire d)) = Ok tt | None => True end
}.

Lemma demand_true b : b = true -> demand b = Ok tt.
Proof. by intros ->. Qed.
Lemma enum_non_empty s l : str_in s l = true -> str_in "" l = false -> non_empty s = true.
Proof. intros Hs He. destruct s; [congruence|done]. Qed.
Lemma require_ok k r s : py_get k (to_dict r) = PStr s -> non_empty s = true -> require_string k (read_back r) = Ok s.
Proof. intros Hg Hs. unfold require_string. rewrite read_key, Hg. cbn. by rewrite Hs. Qed.
Lemma enum_ok k allowed r s : py_get k (to_dict r) = PStr s -> str_in s allowed = true ->
  str_in "" allowed = false -> require_enum k allowed (read_back r) = Ok s.
Proof.
  intros Hg Hs He. unfold require_enum. rewrite (require_ok k r s Hg (enum_non_empty _ _ Hs He)). cbn. by rewrite Hs.
Qed.

Lemma version_ok r : validate_version (read_back r) = Ok tt.
Proof.
  assert (Hs : subset_b (dkeys (read_back r)) ALLOWED_CLAIMS = true).
  { apply subset_b_spec. intros k Hk. unfold read_back in Hk. rewrite dkeys_wire in Hk. apply (sublist_subseteq _ _ (to_dict_keys r)) in Hk.
    revert k Hk. apply subset_b_spec. by vm_compute. }
  assert (Hv : subset_b V02_REQUIRED_CLAIMS (dkeys (read_back r)) = true).
  { apply subset_b_spec. intros k Hk. unfold read_back. rewrite dkeys_wire. unfold to_dict, dkeys.
    rewrite fmap_app, elem_of_app. left. revert k Hk. apply subset_b_spec. reflexivity. }
  unfold validate_version. rewrite !read_key.
  change (py_get "schema_version" (to_dict r)) with (PStr RECEIPT_SCHEMA_VERSION).
  change (py_get "canonicalization" (to_dict r)) with (PStr RECEIPT_CANONICALIZATION).
  change (py_get "receipt_kind" (to_dict r)) with (PStr RECEIPT_KIND_ACTION).
  cbn [CanonicalJson.norm]. by rewrite Hs, Hv.
Qed.
Lemma texts_ok r : receipt_ok r -> iterR (fun k => _ ← require_string k (read_back r); Ok tt) TEXT_CLAIMS = Ok tt.
Proof.
  intros Hr. pose proof (ok_texts r Hr) as Ht. cbn [forallb] in Ht. rewrite !andb_true_iff in Ht.
  destruct_and! Ht. unfold TEXT_CLAIMS. cbn [iterR].
  repeat (erewrite require_ok by (reflexivity || eassumption); cbn [mbind res_bind]). done.
Qed.
Lemma has_optional k r : str_in k REQUIRED_KEYS = false ->
  has_key k (read_back r) = match dget k (optional_dict r) with Some _ => true | None => false end.
Proof.
  intros Hk. rewrite <- (to_dict_optional k r Hk).
  destruct (has_key k (read_back r)) eqn:E.
  - apply has_key_dget in E. rewrite read_dget in E. destruct (dget k (to_dict r)); [done|by destruct E].
  - destruct (dget k (to_dict r)) eqn:G; [|done]. rewrite <- E. apply has_key_dget. rewrite read_dget, G. by eexists.
Qed.
Ltac opt_field f := unfold optional_dict; rewrite !dget_opt_claim; cbn [String.eqb Ascii.eqb Bool.eqb];
  destruct f; [reflexivity|]; unfold opt_claim; destruct (r_measurements _); reflexivity.
Lemma optional_fields r :
  dget "public_denial_reason" (optional_dict r) = PStr <$> public_denial_reason r /\
  dget "internal_denial_code" (optional_dict r) = PStr <$> internal_denial_code r /\
  dget "sensitivity" (optional_dict r) = PStr <$> r_sensitivity r /\
  dget "instruction_bearing" (optional_dict r) = PBool <$> r_instruction_bearing r /\
  dget "budget_delta" (optional_dict r) = PDict <$> r_budget_delta r /\
  dget "result_hash" (optional_dict r) = PDict <$> r_result_hash r.
Proof.
  split_and!; [opt_field (public_denial_reason r)|opt_field (internal_denial_code r)|opt_field (r_sensitivity r)
    |opt_field (r_instruction_bearing r)|opt_field (r_budget_delta r)|opt_field (r_result_hash r)].
Qed.
Lemma read_optional k r : str_in k REQUIRED_KEYS = false ->
  dget k (read_back r) = CanonicalJson.norm <$> dget k (optional_dict r).
Proof. intros Hk. by rewrite read_dget, (to_dict_optional k r Hk). Qed.

Lemma denial_ok r : receipt_ok r -> validate_denial (r_verdict r) (read_back r) = Ok tt.
Proof.
  intros Hr. pose proof (ok_denial r Hr) as Hd. destruct (optional_fields r) as (Hp & Hi & _).
  unfold validate_denial. rewrite !has_optional, Hp, Hi by reflexivity. unfold py_get.
  rewrite !read_optional, Hp, Hi by reflexivity.
  destruct (String.eqb (r_verdict r) "compliant"); [by destruct Hd as [-> ->]|].
  destruct Hd as (p & c & -> & -> & Hin & Hc). cbn -[DENIAL_REASONS]. rewrite Hin. cbn. by rewrite Hc.
Qed.
Lemma budget_ok r : receipt_ok r -> validate_budget_remaining (py_get "budget_remaining" (read_back r)) = Ok tt.
Proof.
  intros Hr. rewrite read_key. change (py_get "budget_remaining" (to_dict r)) with (budget_dict (budget_remaining r)).
  unfold budget_dict. rewrite norm_dict. cbn [validate_budget_remaining]. apply iterR_ok. intros [k v] Hin.
  unfold wire in Hin. rewrite CanonicalJson.norm_items_perm in Hin.
  apply list_elem_of_fmap in Hin as (y & [= -> ->] & Hy). apply list_elem_of_fmap in Hy as ([k' n] & -> & Hy).
  pose proof (proj1 (Forall_forall _ _) (ok_budget r Hr) _ Hy) as [Hk Hn]. cbn in *. rewrite Hk.
  apply demand_true. cbn. lia.
Qed.
Lemma decisions_ok r : receipt_ok r ->
  match py_get "policy_decisions" (read_back r) with
  | PList l => iterR validate_decision_item l | _ => Raise InvalidToken end = Ok tt.
Proof.
  intros Hr. rewrite read_key.
  change (py_get "policy_decisions" (to_dict r)) with (PList (PDict <$> r_policy_decisions r)).
  cbn [CanonicalJson.norm]. apply iterR_ok. intros v Hv.
  apply list_elem_of_fmap in Hv as (y & -> & Hy). apply list_elem_of_fmap in Hy as (d & -> & Hy).
  exact (proj1 (Forall_forall _ _) (ok_decisions r Hr) _ Hy).
Qed.
Lemma read_digest r : receipt_ok r -> exists value digest, base64url_match value = true /\
  py_get "invocation_digest" (read_back r) = PDict digest /\ invocation_digest r = digest /\
  digest = [("alg", PStr "sha-256"); ("canonicalization", PStr "jcs-rfc8785");
            ("scope", PStr "normalized_input"); ("value", PStr value)].
Proof.
  intros Hr. destruct (ok_digest r Hr) as (value & Hv & Hd). exists value, (invocation_digest r). split; [done|].
  rewrite read_key. change (py_get "invocation_digest" (to_dict r)) with (PDict (invocation_digest r)).
  rewrite Hd. split; [|by split]. vm_compute. reflexivity.
Qed.

Lemma then_ok {A B} (m : res receipt_exc A) (f : A -> res receipt_exc B) a r : m = Ok a -> f a = r -> (m ≫= f) = r.
Proof. by intros ->. Qed.
Ltac claim k v := rewrite (read_key k); change (py_get k (to_dict _)) with v; cbn [CanonicalJson.norm].

Lemma parent_claims_ok r : receipt_ok r ->
  match py_get "parent_receipt_id" (read_back r) with
  | PNone => Ok tt
  | _ => _ ← require_string "parent_receipt_id" (read_back r); Ok tt
  end = Ok tt /\
  demand match py_get "parent_receipt_hash" (read_back r) with
         | PNone => true | PStr s => hex_match s | _ => false end = Ok tt.
Proof.
  intros Hr. pose proof (ok_parent r Hr) as Hp. pose proof (ok_parent_id r Hr) as Hi. unfold require_string.
  claim "parent_receipt_id" (opt_str (parent_receipt_id r)).
  claim "parent_receipt_hash" (opt_str (parent_receipt_hash r)). rewrite Hi.
  destruct (parent_receipt_hash r) as [h|]; [|done]. cbn [opt_str hash_prefix fmap option_fmap option_map CanonicalJson.norm].
  split; [|by apply demand_true]. destruct h as [|a h]; [done|]. by destruct h.
Qed.
Lemma optionals_ok r : receipt_ok r ->
  (if_present "sensitivity" (read_back r) (fun v => demand_in v SENSITIVITY_LEVELS) ;;
   if_present "instruction_bearing" (read_back r) (fun v => demand match v with PBool _ => true | _ => false end) ;;
   if_present "budget_delta" (read_back r) validate_budget_delta ;;
   if_present "result_hash" (read_back r) validate_digest_object) = Ok tt.
Proof.
  intros Hr. destruct (optional_fields r) as (_ & _ & Hs & Hi & Hb & Hh).
  pose proof (ok_sensitivity r Hr) as Os. pose proof (ok_delta r Hr) as Ob. pose proof (ok_result r Hr) as Oh.
  unfold if_present. rewrite !read_optional, Hs, Hi, Hb, Hh by reflexivity.
  repeat eapply then_ok.
  - destruct (r_sensitivity r); [|done]. cbn -[SENSITIVITY_LEVELS]. by rewrite Os.
  - by destruct (r_instruction_bearing r).
  - by destruct (r_budget_delta r).
  - by destruct (r_result_hash r).
Qed.
Lemma schema_ok r : receipt_ok r -> validate_receipt_claim_schema (read_back r) = Ok tt.
Proof.
  intros Hr. destruct (parent_claims_ok r Hr) as [Hpid Hph]. destruct (ok_times r Hr) as [Hiat Hexp].
  destruct (read_digest r Hr) as (value & digest & Hval & Hdig & _ & ->).
  unfold validate_receipt_claim_schema.
  eapply then_ok; [apply version_ok|]. eapply then_ok; [by apply texts_ok|].
  eapply then_ok; [claim "run_nonce" (PStr (r_run_nonce r)); apply demand_true, (ok_nonce r Hr)|].
  eapply then_ok; [exact Hpid|]. eapply then_ok; [exact Hph|].
  eapply then_ok; [by eapply enum_ok; [reflexivity|apply (ok_action r Hr)|]|].
  eapply then_ok; [by eapply enum_ok; [reflexivity|apply (ok_effect r Hr)|]|].
  eapply then_ok; [by eapply enum_ok; [reflexivity|apply (ok_verdict r Hr)|]|].
  eapply then_ok; [by eapply enum_ok; [reflexivity|apply (ok_level r Hr)|]|].
  eapply then_ok; [rewrite Hdig; cbn; by rewrite Hval|].
  eapply then_ok; [claim "iat" (PInt (iat r)); apply demand_true; cbn; lia|].
  eapply then_ok; [claim "exp" (PInt (exp r)); apply demand_true; cbn; unfold DEFAULT_RECEIPT_TTL_S in Hexp; lia|].
  pose proof (ok_arguments r Hr) as Ha.
  eapply then_ok; [eapply require_ok; [reflexivity|by destruct (arguments_hash r)]|].
  eapply then_ok; [by apply demand_true|].
  eapply then_ok; [by apply decisions_ok|]. eapply then_ok; [by apply budget_ok|].
  eapply then_ok; [by apply denial_ok|]. by apply optionals_ok.
Qed.

(** ** A signed receipt verifies *)

Lemma payload_segment hd seg sg : str_all (fun a => negb (Ascii.eqb a ".")) hd = true ->
  str_all (fun a => negb (Ascii.eqb a ".")) seg = true ->
  exists rest, split_on "." (hd ++ "." ++ seg ++ "." ++ sg) = hd :: seg :: rest.
Proof.
  intros Hh Hs. change ("." ++ ?x) with (String "." x). rewrite split_on_app, (split_on_no "." hd Hh).
  change ("." ++ sg) with (String "." sg). rewrite split_on_app, (split_on_no "." seg Hs). by eexists.
Qed.
Lemma sign_ok r key t : sign_receipt r key = Ok t ->
  exists body, CanonicalJson.dump (PDict (to_dict r)) = Ok body /\
    t = jws_encode (receipt_header key) (to_dict r) body key.
Proof.
  unfold sign_receipt, canonical_json. destruct (CanonicalJson.dump _) as [body|] eqn:E; [|done].
  intros [= <-]. by exists body.
Qed.
Lemma signed_payload_bytes h c body key :
  payload_bytes (jws_encode h c body key) = Some (Sha256.bytes body).
Proof.
  unfold payload_bytes. destruct (jws_text h c body key) as (hd & sg & -> & Hh).
  destruct (payload_segment hd (b64url (Sha256.bytes body)) sg) as [rest ->]; [done| |].
  - apply b64url_all; [by vm_compute|apply bytes_is_byte].
  - apply urlsafe_b64_roundtrip, bytes_is_byte.
Qed.
Lemma signed_canonical r key t : sign_receipt r key = Ok t -> distinct_keys (PDict (to_dict r)) = true ->
  validate_canonical_payload t (read_back r) = Ok tt.
Proof.
  intros (body & Hb & ->)%sign_ok Hk. unfold validate_canonical_payload.
  destruct (negb _); [done|]. rewrite signed_payload_bytes.
  unfold CanonicalJson.canonical_json_bytes, read_back. rewrite <- norm_dict, (dump_norm _ _ Hk Hb).
  by apply demand_true, bool_decide_eq_true.
Qed.
Lemma signed_key_id r key t : sign_receipt r key = Ok t ->
  assert_key_id_binds_verifying_key t (public_of key) = Ok tt.
Proof.
  intros (body & _ & ->)%sign_ok. unfold assert_key_id_binds_verifying_key.
  destruct (jws_header_encode (receipt_header key) (to_dict r) body key) as (hd & -> & _ & Hh).
  rewrite (Hh "kid" (PStr (receipt_key_id (public_of key)))) by done.
  cbn [py_eq_str]. by rewrite String.eqb_refl.
Qed.
Lemma demand_claims_ok r : demand_claims (read_back r) = Ok tt.
Proof.
  unfold demand_claims. destruct (List.filter _ _) as [|k l] eqn:E; [done|]. exfalso.
  assert (Hk : In k (k :: l)) by (by left). rewrite <- E in Hk. apply filter_In in Hk as [Hk Hn].
  apply negb_true_iff in Hn. apply not_true_iff_false in Hn. apply Hn. apply has_key_dget. rewrite read_dget, fmap_is_Some.
  unfold to_dict. rewrite dget_app.
  assert (Hs : is_Some (dget k (required_dict r))); [|by destruct (dget k (required_dict r))].
  apply dget_is_Some. change (dkeys (required_dict r)) with REQUIRED_KEYS. apply list_elem_of_In in Hk.
  clear -Hk. revert k Hk.  apply subset_b_spec. reflexivity.
Qed.

Lemma norm_PNone v : CanonicalJson.norm v = PNone -> v = PNone.
Proof. by destruct v. Qed.
Lemma pyjwt_required_ok r :
  forallb (fun k => match dget k (read_back r) with None | Some PNone => false | Some _ => true end)
    PYJWT_REQUIRED_CLAIMS = true.
Proof.
  assert (Hr : forallb (fun k => match dget k (to_dict r) with None | Some PNone => false | Some _ => true end)
    PYJWT_REQUIRED_CLAIMS = true) by reflexivity.
  rewrite forallb_forall in Hr |- *. intros k Hk. specialize (Hr k Hk). rewrite read_dget.
  destruct (dget k (to_dict r)) as [v|]; [|done]. cbn. destruct v; done.
Qed.
Lemma jws_claims_read_back r at_time : (forall now, at_time = Some now -> now < exp r * TICKS) ->
  jws_claims_ok (read_back r) PYJWT_REQUIRED_CLAIMS at_time = true.
Proof.
  intros He. unfold jws_claims_ok. rewrite pyjwt_required_ok. cbn [andb]. apply andb_true_iff. split.
  - destruct at_time as [now|]; [|done]. rewrite read_dget. change (dget "exp" (to_dict r)) with (Some (PInt (exp r))).
    cbn. specialize (He now eq_refl). lia.
  - rewrite (proj2 (dget_None "nbf" (read_back r))); [done|]. unfold read_back. rewrite dkeys_wire.
    intros Hk%(sublist_subseteq _ _ (to_dict_keys r)). revert Hk. apply str_in_false. by vm_compute.
Qed.

(** The caller's expectations are the receipt's own values. *)
Record expects_receipt (x : context) (r : ExecutionReceipt) : Prop := {
  expects_trace : expected_trace_id x = None \/ expected_trace_id x = Some (r_trace_id r);
  expects_nonce : expected_run_nonce x = None \/ expected_run_nonce x = Some (r_run_nonce r);
  expects_digest : expected_invocation_digest x = None \/ expected_invocation_digest x = Some (invocation_digest r)
}.
Lemma digest_eq_refl value :
  let d := [("alg", PStr "sha-256"); ("canonicalization", PStr "jcs-rfc8785");
            ("scope", PStr "normalized_input"); ("value", PStr value)] in digest_eq d d = true.
Proof. cbn. by rewrite String.eqb_refl. Qed.
Lemma expects_ok o k r s : py_get k (to_dict r) = PStr s -> o = None \/ o = Some s ->
  demand (expects o k (read_back r)) = Ok tt.
Proof.
  intros Hk [-> | ->]; [done|]. apply demand_true. unfold expects. rewrite read_key, Hk. cbn. apply String.eqb_refl.
Qed.
Lemma denial_presence r : receipt_ok r ->
  (if py_eq_str (py_get "verdict" (read_back r)) "compliant"
   then demand (negb (has_key "public_denial_reason" (read_back r) || has_key "internal_denial_code" (read_back r)))
   else
     raise_if negb (has_key "public_denial_reason" (read_back r)) with MissingRequiredClaim "public_denial_reason" ;;
     raise_if negb (has_key "internal_denial_code" (read_back r)) with MissingRequiredClaim "internal_denial_code" ;;
     Ok tt) = Ok tt.
Proof.
  intros Hr. pose proof (ok_denial r Hr) as Hd. destruct (optional_fields r) as (Hp & Hi & _).
  rewrite !has_optional, Hp, Hi by reflexivity. claim "verdict" (PStr (r_verdict r)). cbn [py_eq_str].
  destruct (String.eqb (r_verdict r) "compliant"); [by destruct Hd as [-> ->]|].
  by destruct Hd as (p & c & -> & -> & _).
Qed.
Lemma digest_fields_ok x r : receipt_ok r -> expects_receipt x r ->
  match py_get "invocation_digest" (read_back r) with
  | PDict digest =>
      iterR (fun k => demand (truthy (py_get k digest))) DIGEST_FIELDS ;;
      demand (expects (expected_trace_id x) "trace_id" (read_back r)) ;;
      demand (expects (expected_run_nonce x) "run_nonce" (read_back r)) ;;
      demand match expected_invocation_digest x with Some e => digest_eq digest e | None => true end
  | _ => Raise InvalidToken
  end = Ok tt.
Proof.
  intros Hr [Ht Hn Hd]. destruct (read_digest r Hr) as (value & digest & Hv & -> & Hi & ->).
  eapply then_ok; [by destruct value|].
  eapply then_ok; [by eapply expects_ok|]. eapply then_ok; [by eapply expects_ok|]. apply demand_true.
  destruct Hd as [-> | ->]; [done|]. rewrite Hi. apply digest_eq_refl.
Qed.

(** The issue time of the receipt is inside the caller's window. *)
Definition iat_in_window (x : context) (issued now : Z) : Prop :=
  (iat_future_skew_s x = 0 \/ issued * TICKS <= now + iat_future_skew_s x * TICKS) /\
  (iat_past_skew_s x = 0 \/ now - iat_past_skew_s x * TICKS <= issued * TICKS).
Lemma window_ok x issued now : iat_in_window x issued now ->
  assert_iat_in_window (PInt issued) (iat_future_skew_s x) (iat_past_skew_s x) now = Ok tt.
Proof.
  intros [Hf Hp]. unfold assert_iat_in_window. cbn [py_int].
  rewrite (proj2 (andb_false_iff _ _)); [|destruct Hf; [left|right]; lia].
  by rewrite (proj2 (andb_false_iff _ _)); [|destruct Hp; [left|right]; lia].
Qed.

Lemma check_claims_ok r key t x now : sign_receipt r key = Ok t -> receipt_ok r ->
  distinct_keys (PDict (to_dict r)) = true -> expects_receipt x r -> iat_in_window x (iat r) now ->
  check_claims t x (read_back r) now = Ok tt.
Proof.
  intros Hs Hr Hk Hx Hw. unfold check_claims.
  eapply then_ok; [claim "iat" (PInt (iat r)); by rewrite window_ok|].
  eapply then_ok; [apply demand_claims_ok|]. eapply then_ok; [by eapply signed_canonical|].
  eapply then_ok; [by apply schema_ok|].
  eapply then_ok.
  { claim "iss" (PStr (iss r)). claim "verifier_id" (PStr (r_verifier_id r)). rewrite (ok_issuer r Hr).
    apply demand_true. unfold issuer_trusted. by rewrite String.eqb_refl. }
  eapply then_ok; [by apply denial_presence|]. by apply digest_fields_ok.
Qed.

(** A receipt that is well formed, signed and presented in time verifies with
    the matching key, and is read back as it was built. *)
Lemma signed_verifies r key t x now now' : sign_receipt r key = Ok t -> receipt_ok r ->
  distinct_keys (PDict (to_dict r)) = true -> CanonicalJson.float_free (PDict (to_dict r)) = true ->
  expects_receipt x r -> iat_in_window x (iat r) now' -> (verify_expiry x = true -> now < exp r * TICKS) ->
  verify_receipt t (public_of key) x None now now' = Ok (read_back r, None).
Proof.
  intros Hs Hr Hk Hf Hx Hw He. unfold verify_receipt.
  pose proof (check_claims_ok r key t x now' Hs Hr Hk Hx Hw) as Hc.
  pose proof (signed_key_id r key t Hs) as Hkid.
  destruct (sign_ok _ _ _ Hs) as (body & Hb & ->).
  rewrite (jws_decode_encode _ _ _ (to_dict r) (read_back r)); [|done..|].
  - eapply then_ok; [done|]. by eapply then_ok.
  - apply jws_claims_read_back. intros n. destruct (verify_expiry x); [|done]. intros [= <-]. by apply He.
Qed.

(** ** Building *)

Record sound_event (decision : Session.Decision) (e : event) (parent : option string)
    (pd : option (list claims)) (reason_arg : option string) (budget : list (string * Z)) : Prop := {
  se_jti : non_empty (passport_jti e) = true;
  se_actor : non_empty (actor e) = true;
  se_tool : non_empty (tool_name e) = true;
  se_action : str_in (str_or (action_class e) "observe") ACTION_CLASSES = true;
  se_effect : str_in (str_or (side_effect_class e) "none") SIDE_EFFECT_CLASSES = true;
  se_level : str_in (str_or (evidence_level e) DEFAULT_EVIDENCE_LEVEL) EVIDENCE_LEVELS = true;
  se_nonce : match run_nonce e with
    | Some s => s = "" \/ base64url_match s && (16 <=? py_len s)%nat = true | None => True end;
  se_code : decision <> Session.PERMIT ->
    token_field_match (str_or (default "" (denial_reason e)) "unknown") = true;
  se_parent : match parent with Some h => hex_match h = true | None => True end;
  se_decisions : Forall (fun d => validate_decision_item (PDict (wire d)) = Ok tt)
    (default (signed_policy_decisions e decision (reason_text_of (default (reason e) reason_arg))) pd);
  se_budget : Forall (fun kv => token_field_match kv.1 = true /\ 0 <= kv.2) budget;
  se_sensitivity : match sensitivity e with Some s => str_in s SENSITIVITY_LEVELS = true | None => True end;
  se_delta : match budget_delta e with
    | Some d => validate_budget_delta (PDict (wire d)) = Ok tt | None => True end;
  se_result : match result_hash e with
    | Some d => validate_digest_object (PDict (wire d)) = Ok tt | None => True end
}.

Lemma str_or_non_empty x y : non_empty y = true -> non_empty (str_or x y) = true.
Proof. unfold str_or. by destruct (non_empty x) eqn:E. Qed.
Lemma sha256_hex_ok s : hex_match (sha256_hex s) = true.
Proof.
  pose proof (sha256_hex_shape s) as Hs. unfold digest_match in Hs. apply andb_true_iff in Hs as [Hl Hs].
  unfold hex_match. rewrite Hl. revert Hs. apply str_all_mono. intros a. unfold is_lower_hex.
  rewrite !orb_true_iff. tauto.
Qed.
Lemma digest_b64_all p s : str_all p B64URL = true -> str_all p (b64url (sha256_digest s)) = true.
Proof.
  intros Hp. apply b64url_all; [done|]. destruct (sha_shape s) as [Hl Hs]. by destruct (hex_bytes_spec 32 _ Hl Hs).
Qed.
Lemma digest_base64url s : base64url_match (b64url (sha256_digest s)) = true.
Proof. unfold base64url_match. rewrite digest_text_nonempty. by apply digest_b64_all. Qed.
Lemma b64url_length l : (length l <= String.length (b64url l))%nat.
Proof. induction l as [|a|a b|a b c l IH] using list_ind3; cbn; lia. Qed.
Lemma substring_all p n s : str_all p s = true -> str_all p (String.substring 0 n s) = true.
Proof.
  revert s. induction n as [|n IH]; intros [|a s]; cbn; try done. intros [-> Hs]%andb_true_iff. by apply IH.
Qed.
Lemma substring_length n s : (n <= String.length s)%nat -> String.length (String.substring 0 n s) = n.
Proof. revert s. induction n as [|n IH]; intros [|a s]; cbn; try done; [lia|]. intros Hn. f_equal. apply IH. lia. Qed.
(** The nonce derived from an event that has none. *)
Lemma derived_nonce s : let n := String.substring 0 32 (b64url (sha256_digest s)) in
  base64url_match n && (16 <=? py_len n)%nat = true.
Proof.
  intros n. destruct (sha_shape s) as [Hl Hs]. destruct (hex_bytes_spec 32 _ Hl Hs) as [Hn _].
  assert (Hlen : String.length n = 32%nat).
  { apply substring_length. pose proof (b64url_length (sha256_digest s)). unfold sha256_digest in *. lia. }
  assert (Ha : forall p, str_all p B64URL = true -> str_all p n = true)
    by (intros p Hp; by apply substring_all, digest_b64_all).
  rewrite (py_len_ascii n), Hlen by (by apply Ha). unfold base64url_match. rewrite Ha by done.
  by destruct n.
Qed.

Lemma stable_identifier_ok prefix payload id : stable_identifier prefix payload = Ok id ->
  non_empty prefix = true -> non_empty id = true.
Proof. unfold stable_identifier. intros (text & _ & [= <-])%bind_ok. by destruct prefix. Qed.
Lemma step_id_ok e id : step_id_of e = Ok id -> non_empty id = true.
Proof.
  unfold step_id_of. destruct (non_empty (py_strip (step_id e))) eqn:E; [by intros [= <-]|].
  intros Hs. by eapply stable_identifier_ok.
Qed.
Lemma run_nonce_ok e trace n :
  match run_nonce e with Some s => s = "" \/ base64url_match s && (16 <=? py_len s)%nat = true | None => True end ->
  run_nonce_from_event e trace = Ok n -> base64url_match n && (16 <=? py_len n)%nat = true.
Proof.
  intros He. unfold run_nonce_from_event. destruct (non_empty (default "" (run_nonce e))) eqn:E.
  - intros [= <-]. destruct (run_nonce e) as [s|]; [|done]. by destruct He as [->|].
  - intros (digest & (text & _ & [= <-])%bind_ok & [= <-])%bind_ok. apply derived_nonce.
Qed.
Lemma digest_object_ok scope payload d : digest_object scope payload = Ok d ->
  exists value, base64url_match value = true /\
    d = [("alg", PStr "sha-256"); ("canonicalization", PStr "jcs-rfc8785"); ("scope", PStr scope); ("value", PStr value)].
Proof.
  intros (value & (text & _ & [= <-])%bind_ok & [= <-])%bind_ok. eexists. split; [apply digest_base64url|done].
Qed.
Lemma public_reason_ok verdict code : String.eqb verdict "compliant" = false ->
  exists p, public_denial_reason_of verdict code = Some p /\ str_in p DENIAL_REASONS = true.
Proof.
  unfold public_denial_reason_of. intros ->.
  destruct (String.eqb verdict "insufficient_evidence"); [by eexists|].
  destruct (String.eqb verdict "unknown"); [by eexists|].
  destruct (str_in code _); [by eexists|]. destruct (str_in code _); [by eexists|].
  destruct (str_in code _); by eexists.
Qed.
Lemma verdict_in decision : str_in (verdict_from_decision decision) VERDICTS = true.
Proof. by destruct decision. Qed.
Lemma verdict_compliant decision :
  String.eqb (verdict_from_decision decision) "compliant" = bool_decide (decision = Session.PERMIT).
Proof. by destruct decision. Qed.

Lemma nonce_non_empty n : base64url_match n && (16 <=? py_len n)%nat = true -> non_empty n = true.
Proof. unfold base64url_match. rewrite !andb_true_iff. tauto. Qed.
Lemma built_denial decision p c :
  (decision <> Session.PERMIT -> token_field_match c = true) ->
  p = public_denial_reason_of (verdict_from_decision decision) c ->
  if String.eqb (verdict_from_decision decision) "compliant"
  then (if String.eqb (verdict_from_decision decision) "compliant" then None else p) = None /\
       (if String.eqb (verdict_from_decision decision) "compliant" then None else Some c) = None
  else exists p' c', (if String.eqb (verdict_from_decision decision) "compliant" then None else p) = Some p' /\
       (if String.eqb (verdict_from_decision decision) "compliant" then None else Some c) = Some c' /\
       str_in p' DENIAL_REASONS = true /\ token_field_match c' = true.
Proof.
  intros Hc ->. destruct (String.eqb (verdict_from_decision decision) "compliant") eqn:E; [done|].
  destruct (public_reason_ok _ c E) as (p' & -> & Hp). exists p', c. rewrite verdict_compliant in E.
  apply bool_decide_eq_false in E. auto.
Qed.

Lemma build_receipt_ok decision e parent pd reason_arg budget at_ r :
  sound_event decision e parent pd reason_arg budget -> 0 <= at_ ->
  build_receipt decision e parent pd reason_arg budget at_ = Ok r -> receipt_ok r.
Proof.
  intros [] Hat Hb. unfold build_receipt in Hb.
  apply bind_ok in Hb as (text & Ht & Hb). apply bind_ok in Hb as (nonce & Hn & Hb).
  apply bind_ok in Hb as (digest & Hd & Hb). apply bind_ok in Hb as (step & Hst%step_id_ok & Hb).
  apply bind_ok in Hb as (id & Hid & [= <-]). apply stable_identifier_ok in Hid; [|done].
  apply run_nonce_ok in Hn; [|done]. pose proof (nonce_non_empty _ Hn) as Hne.
  split; cbn -[ACTION_CLASSES SIDE_EFFECT_CLASSES EVIDENCE_LEVELS VERDICTS DENIAL_REASONS SENSITIVITY_LEVELS
    String.eqb str_or non_empty forallb base64url_match py_len]; try done.
  - cbn [forallb]. unfold trace_id_from_event, reason_text_of. rewrite Hid, se_jti0, se_actor0, Hne, Hst, se_tool0.
    repeat (rewrite str_or_non_empty; [|done || by apply str_or_non_empty]). done.
  - apply verdict_in.
  - by eapply digest_object_ok.
  - split; [|done]. by etrans; [|apply Z.le_max_l].
  - apply sha256_hex_ok.
  - by apply built_denial.
Qed.

(** C27. What is built and signed verifies.  A receipt made of an event with
    the fields the schema asks for, signed and presented to [verify_receipt]
    with the matching key before it expires and within the issue-time window,
    is accepted, and every claim is read back as it was built. *)
Theorem built_receipt_verifies decision e parent pd reason_arg budget at_ r key t x now now' :
  sound_event decision e parent pd reason_arg budget -> 0 <= at_ ->
  build_receipt decision e parent pd reason_arg budget at_ = Ok r -> sign_receipt r key = Ok t ->
  distinct_keys (PDict (to_dict r)) = true -> CanonicalJson.float_free (PDict (to_dict r)) = true ->
  expects_receipt x r -> iat_in_window x (iat r) now' -> (verify_expiry x = true -> now < exp r * TICKS) ->
  exists c, verify_receipt t (public_of key) x None now now' = Ok (c, None) /\
    forall k, dget k c = CanonicalJson.norm <$> dget k (to_dict r).
Proof.
  intros Hs Hat Hb Hsig Hk Hf Hx Hw He. exists (read_back r). split; [|intros k; apply read_dget].
  eapply signed_verifies; try done. by eapply build_receipt_ok.
Qed.

(** ** What verification establishes *)

Lemma verify_receipt_ok t key x cache now now' c cache' :
  verify_receipt t key x cache now now' = Ok (c, cache') ->
  jws_decode t key PYJWT_REQUIRED_CLAIMS (if verify_expiry x then Some now else None) = Some c /\
  assert_key_id_binds_verifying_key t key = Ok tt /\ check_claims t x c now' = Ok tt /\
  match cache with
  | None => cache' = None
  | Some rc => max_entries rc <> 0%nat /\ replay_key c ∉ entries rc /\ cache' = Some (cache_add (replay_key c) rc)
  end.
Proof.
  unfold verify_receipt. destruct (jws_decode _ _ _ _) as [c0|]; [|done].
  intros ([] & Hk & ([] & Hc & Hr)%bind_ok)%bind_ok. destruct cache as [rc|]; [|by injection Hr as <- <-].
  apply guard_ok in Hr as [Hm [Hin [= <- <-]]%guard_ok].
  apply Nat.eqb_neq in Hm. apply str_in_false in Hin. done.
Qed.

(** *** Chains *)

Lemma check_links_snoc i prev l t c : check_links i prev (l ++ [(t, c)]) = Ok tt <->
  check_links i prev l = Ok tt /\
  match last l with
  | Some p => check_link (i + length l) p.1 c
  | None => match prev with None => check_root c | Some p => check_link i p c end
  end = Ok tt.
Proof.
  revert i prev. induction l as [|[t0 c0] l IH]; intros i prev.
  - cbn. destruct prev; cbn; rewrite bind_unit_ok; tauto.
  - cbn [app check_links]. rewrite !bind_unit_ok, IH, last_cons. cbn [length].
    replace (S i + length l)%nat with (i + S (length l))%nat by lia.
    destruct (last l) eqn:E; [tauto|]. apply last_None in E as ->. cbn [length].
    replace (i + 1)%nat with (S i) by lia. cbn [fst]. tauto.
Qed.
Lemma check_link_ok i p c : check_link i p c = Ok tt ->
  py_get "parent_receipt_hash" c = PStr (sha256_hex (token_text p)).
Proof.
  unfold check_link. intros [Hh _]%guard_ok. apply negb_false_iff in Hh.
  destruct (py_get "parent_receipt_hash" c); try done. cbn in Hh. by apply String.eqb_eq in Hh as ->.
Qed.
Lemma check_root_ok c : check_root c = Ok tt -> py_get "parent_receipt_hash" c = PNone.
Proof. unfold check_root. intros [Hh _]%guard_ok. by destruct (py_get "parent_receipt_hash" c). Qed.

(** The claims were decoded from the token. *)
Definition decoded (tc : token * claims) : Prop :=
  exists key require at_time, jws_decode tc.1 key require at_time = Some tc.2.
Definition texts (l : list (token * claims)) : list (string * claims) :=
  (fun tc => (token_text tc.1, tc.2)) <$> l.

(** Where the previous receipt stands in a linked chain. *)
Lemma link_cases l t c : check_links 0 None (l ++ [(t, c)]) = Ok tt ->
  check_links 0 None l = Ok tt /\
  match last l with
  | None => l = [] /\ py_get "parent_receipt_hash" c = PNone
  | Some p => py_get "parent_receipt_hash" c = PStr (sha256_hex (token_text p.1))
  end.
Proof.
  rewrite check_links_snoc. intros [Hl Hc]. split; [done|]. destruct (last l) as [p|] eqn:E.
  - by eapply check_link_ok.
  - split; [by apply last_None|by apply check_root_ok].
Qed.
Lemma texts_snoc l t c : texts (l ++ [(t, c)]) = (texts l ++ [(token_text t, c)])%list.
Proof. unfold texts. by rewrite fmap_app. Qed.
Lemma last_text l p : last l = Some p -> token_text p.1 ∈ (texts l).*1.
Proof.
  intros Hl%last_Some_elem_of. unfold texts. rewrite <- list_fmap_compose. apply list_elem_of_fmap. by exists p.
Qed.
Lemma linked_unique l l' : check_links 0 None l = Ok tt -> check_links 0 None l' = Ok tt ->
  Forall decoded l -> Forall decoded l' ->
  (token_text ∘ fst <$> last l) = (token_text ∘ fst <$> last l') ->
  texts l = texts l' \/ collide sha256_hex (texts l).*1 (texts l').*1.
Proof.
  revert l'. induction l as [|[t c] l IH] using rev_ind; intros l' Hl Hl' Hd Hd' Hlast.
  - destruct l' as [|x l']; [by left|]. exfalso. cbn in Hlast. destruct (last (x :: l')) eqn:E; [done|].
    by apply last_None in E.
  - destruct l' as [|[t' c'] l' _] using rev_ind; [by rewrite last_snoc in Hlast|].
    rewrite !last_snoc in Hlast. injection Hlast as Ht. cbn in Ht.
    apply Forall_app in Hd as [Hd [Hc _]%Forall_cons], Hd' as [Hd' [Hc' _]%Forall_cons].
    destruct Hc as (k & q & a & Hc), Hc' as (k' & q' & a' & Hc').
    assert (c = c') as <- by (eapply jws_decode_text; eassumption).
    apply link_cases in Hl as [Hl Hp], Hl' as [Hl' Hp'].
    rewrite !texts_snoc, Ht, !fmap_app.
    destruct (last l) as [p|] eqn:E, (last l') as [p'|] eqn:E'.
    + rewrite Hp in Hp'. injection Hp' as Hh. eapply same_digest in Hh as [Hpp|Hco];
        [|right; exact Hco|by apply elem_of_app; left; apply last_text..].
      destruct (IH l') as [Hx|Hco]; [done..|by rewrite ?E, ?E'; cbn; rewrite Hpp| |right; eapply collide_mono, Hco; intros ? ?; apply elem_of_app; by left].
      left. by rewrite Hx.
    + destruct Hp' as [_ Hp']. congruence.
    + destruct Hp as [_ Hp]. congruence.
    + destruct Hp as [-> _], Hp' as [-> _]. by left.
Qed.

Lemma verify_chain_ok tokens key ve future past clock cs :
  verify_chain tokens key ve future past clock = Ok cs ->
  check_links 0 None (zip tokens cs) = Ok tt /\ length tokens = length cs /\ Forall decoded (zip tokens cs).
Proof.
  unfold verify_chain. intros (verified & Hv%mapR_Forall2 & Hr)%bind_ok.
  apply bind_unit_ok in Hr as [Hl [= ->]].
  assert (Hd : Forall2 (fun t c => decoded (t, c)) tokens cs).
  { revert Hv. clear Hl. generalize (chain_context ve future past). intros x.
    assert (Hgen : forall f : nat -> token -> nat * token, (forall i t, (f i t).2 = t) ->
      Forall2 (fun it c => verify_indexed key x clock it = Ok c) (imap f tokens) cs ->
      Forall2 (fun t c => decoded (t, c)) tokens cs).
    { revert cs. induction tokens as [|t tokens IH]; intros cs f Hf Hv.
      - apply Forall2_nil_inv_l in Hv as ->. constructor.
      - rewrite imap_cons in Hv. apply Forall2_cons_inv_l in Hv as (c & cs' & Hc & Hv & ->).
        constructor; [|apply (IH cs' (f ∘ S)); [intros; apply Hf|done]].
        unfold verify_indexed in Hc. rewrite Hf in Hc.
        destruct (verify_receipt _ _ _ _ _ _) as [[c' ?]|] eqn:E; [|done]. injection Hc as <-.
        apply verify_receipt_ok in E as [Hdec _]. by do 3 eexists. }
    by apply Hgen. }
  split; [done|]. split; [by eapply Forall2_length|].
  clear -Hd. induction Hd as [|t c tokens cs Hc Hd IH]; by constructor.
Qed.
Lemma texts_zip tokens cs : length tokens = length cs -> texts (zip tokens cs) = zip (token_text <$> tokens) cs.
Proof. revert cs. induction tokens as [|t tokens IH]; intros [|c cs]; cbn; try done. intros [= Hl]. f_equal. by apply IH. Qed.
Lemma last_zip (tokens : list token) (cs : list claims) : length tokens = length cs -> fst <$> last (zip tokens cs) = last tokens.
Proof.
  revert cs. induction tokens as [|t tokens IH]; intros [|c cs]; try done. intros [= Hl]. cbn [zip zip_with].
  rewrite !last_cons, <- (IH cs Hl). by destruct (last (zip tokens cs)).
Qed.

(** C13. The last receipt commits to the whole history.  When two chains
    verify, whichever keys and clocks were used, and their last receipts are
    the same text, the chains are the same receipts with the same claims, or a
    receipt of the one and a different receipt of the other have the same
    SHA-256 digest. *)
Theorem receipt_chain_commits tokens tokens' key key' ve ve' future future' past past' clock clock' cs cs' :
  verify_chain tokens key ve future past clock = Ok cs ->
  verify_chain tokens' key' ve' future' past' clock' = Ok cs' ->
  token_text <$> last tokens = token_text <$> last tokens' ->
  (token_text <$> tokens = token_text <$> tokens' /\ cs = cs') \/
  collide sha256_hex (token_text <$> tokens) (token_text <$> tokens').
Proof.
  intros (Hl & Hn & Hd)%verify_chain_ok (Hl' & Hn' & Hd')%verify_chain_ok Hlast.
  assert (H1 : (zip (token_text <$> tokens) cs).*1 = token_text <$> tokens) by (apply fst_zip; rewrite length_fmap; lia).
  assert (H1' : (zip (token_text <$> tokens') cs').*1 = token_text <$> tokens') by (apply fst_zip; rewrite length_fmap; lia).
  destruct (linked_unique _ _ Hl Hl' Hd Hd') as [Ht|Hc].
  - by rewrite !option_fmap_compose, !last_zip.
  - left. rewrite !texts_zip in Ht by done. split; [by rewrite <- H1, Ht|].
    rewrite <- (snd_zip (token_text <$> tokens) cs), Ht, snd_zip; [done|rewrite length_fmap; lia..].
  - right. by rewrite !texts_zip, H1, H1' in Hc by done.
Qed.

(** *** The replay cache *)

Lemma cache_bounded value rc : (length (entries (cache_add value rc)) <= max_entries rc)%nat.
Proof. unfold cache_add. cbn [entries]. rewrite length_drop. lia. Qed.
(** [v] is in the cache with at most [n] newer entries. *)
Definition recent (v : string) (n : nat) (rc : replay_cache) : Prop :=
  exists older newer, entries rc = (older ++ v :: newer)%list /\ (length newer <= n)%nat.
Lemma filter_length_le {A} (p : A -> bool) l : (length (List.filter p l) <= length l)%nat.
Proof. induction l as [|x l IH]; cbn; [lia|]. destruct (p x); cbn; lia. Qed.
Lemma recent_drop v n rc k l : (n < max_entries rc)%nat ->
  (exists older newer, l = (older ++ v :: newer)%list /\ (length newer <= n)%nat) ->
  (k <= length l - max_entries rc)%nat ->
  recent v n (ReplayCache (max_entries rc) (drop k l)).
Proof.
  intros Hn (older & newer & -> & Hl) Hk. rewrite length_app in Hk. cbn in Hk.
  exists (drop k older), newer. split; [|done]. cbn [entries]. rewrite drop_app_le by lia. done.
Qed.
Lemma recent_add v n k rc : recent v n rc -> (S n < max_entries rc)%nat -> recent v (S n) (cache_add k rc).
Proof.
  intros (older & newer & He & Hl) Hn. apply recent_drop; [done| |lia]. rewrite He.
  destruct (decide (k = v)) as [->|Hk].
  - eexists _, []. split; [done|]. cbn. lia.
  - rewrite List.filter_app. cbn [List.filter]. rewrite (proj2 (String.eqb_neq v k)) by congruence. cbn [negb].
    rewrite <- app_assoc. cbn [app]. eexists _, _. split; [done|].
    rewrite length_app. cbn. pose proof (filter_length_le (fun x => negb (String.eqb x k)) newer). lia.
Qed.
Lemma recent_adds v ks n rc : recent v n rc -> (n + length ks < max_entries rc)%nat ->
  v ∈ entries (foldl (fun rc k => cache_add k rc) rc ks).
Proof.
  revert n rc. induction ks as [|k ks IH]; intros n rc Hr Hn; cbn in Hn |- *.
  - destruct Hr as (older & newer & -> & _). set_solver.
  - apply (IH (S n)); [apply recent_add; [done|lia]|cbn; lia].
Qed.

(** C28. A receipt is accepted once.  After a receipt was accepted with a
    replay cache of [max_entries] entries, fewer than that many further
    accepted receipts, whatever their keys, do not let it be accepted again,
    with any key, context and clock; and the cache never holds more than
    [max_entries] keys. *)
Theorem receipt_replay_refused t key x rc now now' c rc' ks key' x' m m' :
  verify_receipt t key x (Some rc) now now' = Ok (c, Some rc') ->
  (length ks < max_entries rc)%nat ->
  let later := foldl (fun rc k => cache_add k rc) rc' ks in
  is_ok (verify_receipt t key' x' (Some later) m m') = false /\
  (length (entries rc') <= max_entries rc)%nat.
Proof.
  intros (Hdec & _ & _ & Hm & _ & [= ->])%verify_receipt_ok Hks later. split; [|apply cache_bounded].
  destruct (verify_receipt _ _ _ _ _ _) as [[c' cc]|] eqn:E; [|done]. exfalso.
  apply verify_receipt_ok in E as (Hdec' & _ & _ & _ & Hin & _). apply Hin.
  assert (c = c') as <- by (by eapply jws_decode_text). apply (recent_adds _ _ 0); [|done].
  apply recent_drop; [lia| |lia]. by eexists _, [].
Qed.
End Props.

(** ** Two receipts *)

Module Demo.
(** A token that carries its header, claims and body: an instance of the
    interface for concrete evaluations. *)
Record tok := Tok { tk_header : claims; tk_claims : claims; tk_body : string }.
Definition tok_text (t : tok) : string := "h" ++ "." ++ b64url (Sha256.bytes (tk_body t)) ++ "." ++ "s".
(** A digest that is cheap to evaluate, of the right shape. *)
Definition light_hash (s : string) : Z := foldl (fun h b => Z.land (h * 31 + b) 65535) 7 (Sha256.bytes s).
#[export] Instance light_digests : Digests := {|
  Prelude.sha256_hex s := let h := light_hash s in Sha256.hexdigest [h; h; h; h; h; h; h; h];
  Prelude.canonical_json_bytes v :=
    match CanonicalJson.canonical_json_bytes v with Ok s => Some s | Raise _ => None end;
  Prelude.sha256_hex_shape s := Sha256.hexdigest_shape _
|}.
#[export] Instance tok_jwt : Jwt := {|
  token := tok;
  token_text := tok_text;
  private_key := unit;
  public_key := unit;
  public_of _ := tt;
  jwk_x _ := 5;
  jwk_y _ := 7;
  jwt_encode c _ := Tok [] c "";
  jwt_decode t := demo_decode (tk_claims t);
  jwt_payload := tk_claims;
  jwt_payload_encode _ _ := eq_refl;
  jwt_decode_payload t := demo_decode_payload (tk_claims t);
  jwt_decode_unexpired t := demo_decode_unexpired (tk_claims t);
  jwt_decode_encode c key := demo_decode_encode c tt
|}.
Definition tok_decode (t : tok) (_ : unit) (require : list string) (at_time : option Z) : option claims :=
  if CanonicalJson.float_free (PDict (tk_claims t))
     && match CanonicalJson.dump (PDict (tk_claims t)) with Ok b => String.eqb b (tk_body t) | Raise _ => false end
     && jws_claims_ok (wire (tk_claims t)) require at_time
  then Some (wire (tk_claims t)) else None.
Lemma tok_decode_ok t key require at_time c : tok_decode t key require at_time = Some c <->
  CanonicalJson.float_free (PDict (tk_claims t)) = true /\
  CanonicalJson.dump (PDict (tk_claims t)) = Ok (tk_body t) /\
  jws_claims_ok (wire (tk_claims t)) require at_time = true /\ c = wire (tk_claims t).
Proof.
  unfold tok_decode. destruct (CanonicalJson.float_free _) eqn:F; cbn [andb]; [|split; [done|by intros (? & _)]].
  destruct (CanonicalJson.dump _) as [b|] eqn:Hd; cbn [andb]; [|split; [done|by intros (_ & ? & _)]].
  destruct (String.eqb_spec b (tk_body t)) as [->|Hb]; cbn [andb]; [|split; [done|intros (_ & [= ?] & _); done]].
  destruct (jws_claims_ok _ _ _) eqn:Hj; split; try done; [by intros [= <-]|by intros (_ & _ & _ & ->)|by intros (_ & _ & ? & _)].
Qed.
Lemma tok_payload h c body : payload_bytes (J := tok_jwt) (Tok h c body) = Some (Sha256.bytes body).
Proof.
  unfold payload_bytes. cbn [token_text tok_jwt]. unfold tok_text. cbn [tk_body].
  destruct (payload_segment "h" (b64url (Sha256.bytes body)) "s") as [rest ->]; [done| |].
  - apply b64url_all; [by vm_compute|apply bytes_is_byte].
  - apply urlsafe_b64_roundtrip, bytes_is_byte.
Qed.
Lemma bytes_inj s s' : Sha256.bytes s = Sha256.bytes s' -> s = s'.
Proof.
  revert s'. induction s as [|a s IH]; intros [|a' s']; cbn; try done. intros [= Ha Hs].
  f_equal; [|by apply IH]. apply N2Z.inj in Ha. by rewrite <- (ascii_N_embedding a), Ha, ascii_N_embedding.
Qed.
Lemma tok_decode_text t t' key key' require require' at_time at_time' c c' :
  tok_text t = tok_text t' -> tok_decode t key require at_time = Some c ->
  tok_decode t' key' require' at_time' = Some c' -> c = c'.
Proof.
  intros Ht (F & Hd & _ & ->)%tok_decode_ok (F' & Hd' & _ & ->)%tok_decode_ok.
  destruct t as [h c b], t' as [h' c' b']. cbn [tk_claims tk_body] in *.
  assert (Hb : b = b').
  { apply bytes_inj. pose proof (tok_payload h c b) as Hp. pose proof (tok_payload h' c' b') as Hp'.
    unfold payload_bytes in Hp, Hp'. cbn [token_text tok_jwt] in Hp, Hp'. rewrite Ht in Hp. congruence. }
  subst b'. apply CanonicalJson.dump_emit in Hd, Hd'.
  destruct (CanonicalJson.emit_injective _ _ b b "" "" (CanonicalJson.float_free_norm _ F)
    (CanonicalJson.float_free_norm _ F') Hd Hd' I I eq_refl) as [Hn _].
  rewrite !norm_dict in Hn. by injection Hn.
Qed.
Lemma tok_text_segments h c body (key : unit) : exists hd sg,
  tok_text (Tok h c body) = hd ++ "." ++ b64url (Sha256.bytes body) ++ "." ++ sg /\
  str_all (fun a => negb (Ascii.eqb a ".")) hd = true.
Proof. by exists "h", "s". Qed.
Lemma tok_header_encode (h c : claims) (body : string) (key : unit) : exists hd,
  Some (("alg", PStr ALGORITHM) :: h) = Some hd /\ dget "alg" hd = Some (PStr ALGORITHM) /\
  (forall k v, k <> "alg" -> dget k h = Some v -> dget k hd = Some v).
Proof.
  eexists. split; [done|]. split; [done|]. intros k v Hk Hh. cbn [dget].
  by rewrite (proj2 (String.eqb_neq k "alg")).
Qed.
Lemma tok_decode_encode h body (key : unit) c c' require at_time :
  CanonicalJson.dump (PDict c) = Ok body -> CanonicalJson.float_free (PDict c) = true ->
  CanonicalJson.norm (PDict c) = PDict c' -> jws_claims_ok c' require at_time = true ->
  tok_decode (Tok (("alg", PStr ALGORITHM) :: h) c body) tt require at_time = Some c'.
Proof. intros Hd Hf Hn Hj. rewrite norm_dict in Hn. injection Hn as <-. by apply tok_decode_ok. Qed.
#[export] Instance tok_jws : Jws := {|
  spki_der _ := "spki";
  jws_encode h c body (_ : private_key) := Tok (("alg", PStr ALGORITHM) :: h) c body;
  jws_decode := tok_decode;
  jws_header t := Some (tk_header t);
  jws_unverified t := Some (wire (tk_claims t));
  jws_text h := tok_text_segments _;
  jws_header_encode := tok_header_encode;
  jws_decode_encode := tok_decode_encode;
  jws_decode_text := tok_decode_text
|}.
#[export] Instance plain_text : PyText :=
  {| isprintable := str_all (byte_in 32 126); iso_seconds _ := None; isprintable_ascii s H := H |}.

Definition read_event : event := {|
  timestamp := "2026-01-01T00:00:00Z"; step_id := "step:1"; actor := "agent"; verifier_id := "";
  tool_name := "read_file"; arguments := [("path", PStr "/w/a")]; action_class := "read"; target := "/w/a";
  resource_family := "filesystem"; side_effect_class := "none"; reason := "within scope";
  passport_jti := "p1"; trace_id := None; run_nonce := None; denial_reason := None; evidence_level := "";
  event_decisions := []; evidence_proof_ref := None; content_class := None; content_provenance := None;
  sensitivity := Some "internal"; instruction_bearing := None;
  budget_delta := Some [("operation", PStr "consume"); ("resource", PStr "tool_call"); ("amount", PInt 1);
                        ("unit", PStr "tool_call")];
  result_hash := None; measurements := None |}.
Definition first_receipt : res receipt_exc ExecutionReceipt :=
  build_receipt Session.PERMIT read_event None None None [("read", 4)] 1000.
Definition first_token : res receipt_exc token := r ← first_receipt; sign_receipt r tt.
Definition denied_event : event := {|
  timestamp := "2026-01-01T00:00:09Z"; step_id := ""; actor := "agent"; verifier_id := "proxy-1";
  tool_name := "send_mail"; arguments := []; action_class := "send"; target := "";
  resource_family := ""; side_effect_class := "external_send"; reason := "tool not allowed";
  passport_jti := "p1"; trace_id := Some "trace-1"; run_nonce := Some "0123456789abcdef";
  denial_reason := Some "policy_denied"; evidence_level := "self_signed"; event_decisions := [];
  evidence_proof_ref := None; content_class := None; content_provenance := None; sensitivity := None;
  instruction_bearing := None; budget_delta := None; result_hash := None; measurements := None |}.
Definition second_token : res receipt_exc token :=
  t ← first_token;
  r ← build_receipt Session.DENY denied_event (Some (sha256_hex (token_text t))) None None [] 1009;
  sign_receipt r tt.

Definition get {A} (d : A) (m : res receipt_exc A) : A := match m with Ok a => a | Raise _ => d end.
Lemma get_ok {A} (d : A) m : is_ok m = true -> m = Ok (get d m).
Proof. by destruct m. Qed.
Definition sec : @private_key tok_jwt := tt.
Definition pub : @public_key tok_jwt := tt.
Definition no_token : token := Tok [] [] "".
Definition t1 : token := Eval vm_compute in get no_token first_token.
Definition t2 : token := Eval vm_compute in get no_token second_token.
Definition at_second (s : Z) : nat -> Z * Z := fun _ => (s * TICKS, s * TICKS).

Definition no_receipt : ExecutionReceipt :=
  MkReceipt "" "" None None "" "" "" "" "" "" "" "" "" "" "" [] "" "" "" [] [] "" "" 0 0 "" None None None None None
    None None None None None.
Definition r1 : ExecutionReceipt := Eval vm_compute in get no_receipt first_receipt.
Lemma sound_read_event : sound_event Session.PERMIT read_event None None None [("read", 4)].
Proof.
  split; try reflexivity; try exact I.
  - repeat constructor.
  - repeat constructor; done.
Qed.

Lemma built_receipt_verifies_witness : exists c,
  verify_receipt t1 (public_of sec) default_context None (1100 * TICKS) (1100 * TICKS) = Ok (c, None) /\
  forall k, dget k c = CanonicalJson.norm <$> dget k (to_dict r1).
Proof.
  apply (@built_receipt_verifies light_digests tok_jwt tok_jws plain_text Session.PERMIT read_event None None None [("read", 4)] 1000).
  - exact sound_read_event.
  - lia.
  - vm_compute. reflexivity.
  - vm_compute. reflexivity.
  - vm_compute. reflexivity.
  - vm_compute. reflexivity.
  - split; by left.
  - split; right; by vm_compute.
  - intros _. by vm_compute.
Defined.

Lemma receipt_chain_commits_witness :
  let cs := get [] (verify_chain [t1; t2] pub true 300 86400 (at_second 1100)) in
  let cs' := get [] (verify_chain [t1; t2] pub false 0 0 (at_second 99999)) in
  (token_text <$> [t1; t2] = token_text <$> [t1; t2] /\ cs = cs') \/
  collide sha256_hex (token_text <$> [t1; t2]) (token_text <$> [t1; t2]).
Proof.
  intros cs cs'.
  apply (@receipt_chain_commits light_digests tok_jwt tok_jws plain_text [t1; t2] [t1; t2] pub pub true false 300 0 86400 0
    (at_second 1100) (at_second 99999)).
  - apply get_ok. vm_compute. reflexivity.
  - apply get_ok. vm_compute. reflexivity.
  - reflexivity.
Defined.

Definition cache2 : replay_cache := ReplayCache 2 [].
Definition accepted : res receipt_exc (claims * option replay_cache) :=
  verify_receipt t1 pub default_context (Some cache2) (1100 * TICKS) (1100 * TICKS).
Definition cache2' : replay_cache := Eval vm_compute in default cache2 (get ([], None) accepted).2.
Lemma receipt_replay_refused_witness :
  is_ok (verify_receipt t1 pub default_context (Some (cache_add "other" cache2')) (1200 * TICKS) (1200 * TICKS))
    = false /\ (length (entries cache2') <= 2)%nat.
Proof.
  apply (@receipt_replay_refused light_digests tok_jwt tok_jws plain_text t1 pub default_context cache2 (1100 * TICKS) (1100 * TICKS)
    (get ([], None) accepted).1 cache2' ["other"]).
  - vm_compute. reflexivity.
  - cbn. lia.
Defined.
End Demo.
