(* ===== verification/ReceiptLog.v ===== *)
(** * The receipts of a session

    What [GovernanceProxy] of [src/python/vibap/proxy.py] puts around
    [receipt.py]: [_build_receipt_log_entry] with the budget it reports, the
    anchor of the chain in the session, its integrity tag in the session file,
    and the receipts log.  A log entry is the receipt with its signed text; the
    log is the list of entries in file order.  A session's events carry texts
    here, as they do when they reach the receipt. *)

From S2P Require Import Prelude Sha256 CanonicalJson SpendPolicy SpendLedger Passport PassportPop PyJson Policy Session.
From S2P Require Import PassportState Receipt.
Import Passport PyJson Receipt.
Open Scope string_scope.
Open Scope Z_scope.

Module ReceiptLog.

(** An item of [PolicyEvent.policy_decisions]. *)
Record note := Note { n_backend : string; n_label : string; n_decision : string; n_reasons : list string }.
(** A [PolicyEvent] before its receipt is built. *)
Record proxy_event := ProxyEvent {
  pe_event : event;
  pe_decisions : list note;
  pe_risk_remaining : list (string * Z)
}.

(** The session with the anchor of its receipt chain. *)
Record chain_state := ChainState {
  cs_session : Session.GovernanceSession;
  last_receipt_id : option string;
  last_receipt_full_hash : option string
}.

(** [GovernanceProxy._signed_policy_decisions]. *)
Definition signed_note (n : note) : claims :=
  let rule_id := py_strip (n_label n) in
  ([("backend", PStr (if String.eqb (n_backend n) "native_claims" then "native" else n_backend n));
    ("decision", PStr (n_decision n));
    ("reason", match n_reasons n with [] => PNone | l => PStr (join "; " l) end)]
   ++ (if non_empty rule_id then [("rule_id", PStr rule_id)] else []))%list.
Definition proxy_signed_decisions (e : proxy_event) (d : Session.Decision) (audit_reason : string) : list claims :=
  match pe_decisions e with
  | [] => [[("backend", PStr "native");
            ("decision", PStr (if bool_decide (d = Session.PERMIT) then "Allow" else "Deny"));
            ("reason", if non_empty audit_reason then PStr audit_reason else PNone);
            ("rule_id", PStr "ardur_builtin")]]
  | l => signed_note <$> l
  end.

(** [dict.update]. *)
Definition dupdate {A} (d d' : list (string * A)) : list (string * A) :=
  foldl (fun acc kv => dset kv.1 kv.2 acc) d d'.

(** [_receipt_budget_remaining]; a cap that is no integer is passed over. *)
Definition class_remaining (s : Session.GovernanceSession) (caps : claims) : list (string * Z) :=
  foldl (fun acc kv =>
    match py_int kv.2 with
    | None => acc
    | Some cap => dset kv.1
        (Z.max 0 (cap - default 0 (dget kv.1 (Session.tool_call_count_by_class s)))) acc
    end) [] caps.
Definition receipt_budget_remaining (s : Session.GovernanceSession) (policy_claims : claims) (e : proxy_event)
    : rx (list (string * Z)) :=
  match Policy.py_dict (Policy.or_else (get_or "max_tool_calls_per_class" (PDict []) policy_claims) (PDict [])) with
  | Raise _ => Raise TypeErr
  | Ok caps => Ok (dupdate (class_remaining s caps) (pe_risk_remaining e))
  end.

(** [_is_internal_risk_event]. *)
Definition is_internal_risk_event (e : event) : bool :=
  String.eqb (tool_name e) "risk_budget_lifecycle" && String.eqb (action_class e) "observe"
  && String.eqb (resource_family e) "governance" && String.eqb (side_effect_class e) "none"
  && match arguments e with [] => true | _ => false end.

(** [_receipt_budget_delta]. *)
Definition receipt_budget_delta (s : Session.GovernanceSession) (e : event) (d : Session.Decision)
    (policy_claims : claims) : claims :=
  let ceiling := default 0 (py_int (get_or "max_tool_calls" (PInt 0) policy_claims)) in
  let count := Session.tool_call_count s in
  let delegated := Session.delegated_budget_reserved s in
  let '(op, amount, used_before) :=
    if bool_decide (d = Session.PERMIT) then ("consume", 1, Z.max 0 (count - 1)) else ("reject", 0, count) in
  let remaining_before := if 0 <? ceiling then Z.max 0 (ceiling - used_before - delegated) else 0 in
  let remaining_after := if 0 <? ceiling then Z.max 0 (ceiling - count - delegated) else 0 in
  [("operation", PStr op);
   ("resource", PStr "tool_call");
   ("amount", PInt amount);
   ("unit", PStr "tool_call");
   ("remaining_for_parent", PInt remaining_before);
   ("remaining_after", PInt remaining_after);
   ("used_total", PInt used_before);
   ("reserved_total", PInt delegated);
   ("side_effect_class", PStr (side_effect_class e))].

(** [_zero_spend_amounts], [_spend_reservation_delta], [_spend_close_delta]
    and [_spend_budget_remaining]. *)
Definition amounts_dict (a : amounts) : pyval :=
  PDict [("tokens", PInt (tokens a)); ("currency_micros", PInt (currency_micros a))].
Definition remaining_dict (r : per_scope amounts) : pyval :=
  PDict [("session", amounts_dict (session r)); ("agent", amounts_dict (agent r));
         ("lineage", amounts_dict (lineage r))].
Definition spend_reservation_delta (r : SpendReservationResult) : claims :=
  [("operation", PStr (if accepted r then "reserve" else "reject"));
   ("resource", PStr "spend");
   ("requested", amounts_dict (res_reserved r));
   ("reserved", amounts_dict (if accepted r then res_reserved r else amt0));
   ("actual", amounts_dict amt0);
   ("refunded", amounts_dict amt0);
   ("remaining", remaining_dict (res_remaining r));
   ("currency", PStr (res_currency r));
   ("quote_digest", PStr (res_quote_digest r));
   ("reservation_hash", PStr (res_reservation_hash r));
   ("reason_code", PStr (res_reason_code r));
   ("idempotent", PBool (res_idempotent r))].
Definition operation_name (o : operation) : string :=
  match o with OpReject => "reject" | OpRelease => "release" | OpSettle => "settle" | OpQuarantine => "quarantine" end.
Definition spend_close_delta (r : SpendCloseResult) : claims :=
  [("operation", PStr (operation_name (cl_operation r)));
   ("resource", PStr "spend");
   ("requested", amounts_dict (cl_reserved r));
   ("reserved", amounts_dict (if bool_decide (cl_operation r = OpQuarantine) then cl_reserved r else amt0));
   ("actual", amounts_dict (cl_actual r));
   ("refunded", amounts_dict (cl_refunded r));
   ("remaining", remaining_dict (cl_remaining r));
   ("currency", PStr (cl_currency r));
   ("quote_digest", PStr (cl_quote_digest r));
   ("reservation_hash", PStr (cl_reservation_hash r));
   ("reason_code", PStr (cl_reason_code r));
   ("idempotent", PBool (cl_idempotent r));
   ("reconciled", PBool (cl_reconciled r))].
Definition scope_remaining (currency scope : string) (v : pyval) : list (string * Z) :=
  match v with
  | PDict amounts =>
      concat ((fun '(dimension, bucket) =>
        match py_get dimension amounts with
        | PInt n => [("spend." ++ scope ++ "." ++ bucket, Z.max 0 n)]
        | _ => []
        end) <$> [("tokens", "tokens"); ("currency_micros", currency ++ "_micros")])
  | _ => []
  end.
Definition spend_budget_remaining `{PyRepr} (delta : claims) : list (string * Z) :=
  let currency := py_lower (py_str (get_or "currency" (PStr "") delta)) in
  match py_get "remaining" delta with
  | PDict remaining =>
      if non_empty currency
      then concat ((fun k => scope_remaining currency k (py_get k remaining)) <$> ["session"; "agent"; "lineage"])
      else []
  | _ => []
  end.

Section Log.
Context {D : Digests} {J : Jwt} {W : Jws} {P : PyText} {R : PyRepr}.

Definition session_jti (s : Session.GovernanceSession) : string :=
  py_str (py_get "jti" (Session.passport_claims s)).

Definition set_budget_delta (d : option claims) (e : event) : event :=
  Event (timestamp e) (step_id e) (actor e) (verifier_id e) (tool_name e) (arguments e) (action_class e) (target e)
    (resource_family e) (side_effect_class e) (reason e) (passport_jti e) (trace_id e) (run_nonce e)
    (denial_reason e) (evidence_level e) (event_decisions e) (evidence_proof_ref e) (content_class e)
    (content_provenance e) (sensitivity e) (instruction_bearing e) d (result_hash e) (measurements e).
Definition set_proof_ref (v : option pyval) (e : event) : event :=
  Event (timestamp e) (step_id e) (actor e) (verifier_id e) (tool_name e) (arguments e) (action_class e) (target e)
    (resource_family e) (side_effect_class e) (reason e) (passport_jti e) (trace_id e) (run_nonce e)
    (denial_reason e) (evidence_level e) (event_decisions e) v (content_class e)
    (content_provenance e) (sensitivity e) (instruction_bearing e) (budget_delta e) (result_hash e) (measurements e).

(** The event with the budget delta and the mission binding that
    [_build_receipt_log_entry] adds to it. *)
Definition mission_binding (policy_claims : claims) : option pyval :=
  match py_get "mission_digest" policy_claims with
  | PNone => None
  | digest => Some (PDict [("type", PStr "mission_binding");
                           ("mission_ref", py_get "mission_ref" policy_claims);
                           ("mission_digest", digest)])
  end.
Definition complete_event (s : Session.GovernanceSession) (e : event) (d : Session.Decision) (policy_claims : claims)
    : event :=
  let e := match budget_delta e with
           | None => if is_internal_risk_event e then e
                     else set_budget_delta (Some (receipt_budget_delta s e d policy_claims)) e
           | Some _ => e
           end in
  match evidence_proof_ref e with
  | None => set_proof_ref (mission_binding policy_claims) e
  | Some _ => e
  end.
(** The budget a receipt reports: what is left per class, the risk budgets,
    and the spend budgets when the event is about spend. *)
Definition entry_budget (s : Session.GovernanceSession) (policy_claims : claims) (e : proxy_event) (completed : event)
    : rx (list (string * Z)) :=
  budget ← receipt_budget_remaining s policy_claims e;
  Ok match budget_delta completed with
     | Some delta => if py_eq_str (py_get "resource" delta) "spend"
                     then dupdate budget (spend_budget_remaining delta) else budget
     | None => budget
     end.

(** An entry of the receipts log. *)
Record entry := Entry {
  en_session_id : string;
  en_receipt : ExecutionReceipt;
  en_jwt : token;
  en_audit_reason : string
}.
Definition en_receipt_id (x : entry) : string := receipt_id (en_receipt x).

(** [_build_receipt_log_entry]. *)
Definition build_receipt_log_entry (key : private_key) (s : chain_state) (e : proxy_event) (d : Session.Decision)
    (audit_reason : string) (policy_claims : claims) (now : Z) : rx (chain_state * proxy_event * entry) :=
  let session := cs_session s in
  let completed := complete_event session (pe_event e) d policy_claims in
  budget ← entry_budget session policy_claims e completed;
  receipt ← build_receipt d completed (last_receipt_full_hash s) (Some (proxy_signed_decisions e d audit_reason))
    (Some audit_reason) budget now;
  signed_jwt ← sign_receipt receipt key;
  Ok (ChainState session (Some (receipt_id receipt)) (Some (sha256_hex (token_text signed_jwt))),
      ProxyEvent completed (pe_decisions e) (pe_risk_remaining e),
      Entry (session_jti session) receipt signed_jwt audit_reason).

(** ** The receipts log *)

(** [_log_receipt] and [_log_receipt_once]; lines that are no JSON are
    passed over. *)
Inductive line := LEntry (x : entry) | LGarbage (text : string).
Definition log_receipt (x : entry) (log : list line) : list line := (log ++ [LEntry x])%list.
Definition logged (id : string) (log : list line) : bool :=
  existsb (fun l => match l with LEntry x => String.eqb (en_receipt_id x) id | LGarbage _ => false end) log.
Definition log_receipt_once (x : entry) (log : list line) : list line :=
  if logged (en_receipt_id x) log then log else log_receipt x log.

(** ** The anchor in the session file *)

Inductive anchor_exc := AnchorMalformed | IntegrityMissing | VersionMismatch | TagMalformed | IntegrityFailed.
Definition SESSION_RECEIPT_INTEGRITY_VERSION : Z := 1.
(** [_session_receipt_integrity_mac]. *)
Definition integrity_mac (key session_id last_id last_hash : string) : string :=
  hmac_sha256 key (dumps compact_style
    (PDict [("session_id", PStr session_id); ("last_receipt_id", PStr last_id);
            ("last_receipt_full_hash", PStr last_hash)])).
(** Both members absent or null, or both non-empty strings. *)
Definition anchor_of (payload : claims) : res anchor_exc (option (string * string)) :=
  match py_get "last_receipt_id" payload, py_get "last_receipt_full_hash" payload with
  | PNone, PNone => Ok None
  | PStr i, PStr h => raise_if negb (non_empty i && non_empty h) with AnchorMalformed ;; Ok (Some (i, h))
  | _, _ => Raise AnchorMalformed
  end.
(** [d.pop(k, None)]. *)
Definition dpop {A} (k : string) (d : list (string * A)) : list (string * A) :=
  List.filter (fun kv => negb (String.eqb kv.1 k)) d.
(** [_add_session_receipt_integrity]. *)
Definition add_integrity (key session_id : string) (payload : claims) : res anchor_exc claims :=
  anchor ← anchor_of payload;
  Ok match anchor with
     | None => dpop "receipt_chain_integrity" payload
     | Some (i, h) => dset "receipt_chain_integrity"
         (PDict [("version", PInt SESSION_RECEIPT_INTEGRITY_VERSION); ("mac", PStr (integrity_mac key session_id i h))])
         payload
     end.
(** [_validate_session_receipt_integrity]. *)
Definition validate_integrity (key session_id : string) (payload : claims) : res anchor_exc claims :=
  let integrity := py_get "receipt_chain_integrity" payload in
  let validated := dpop "receipt_chain_integrity" payload in
  anchor ← anchor_of payload;
  match anchor with
  | None => Ok validated
  | Some (i, h) =>
      match integrity with
      | PDict d =>
          raise_if negb (py_eq_int (py_get "version" d) SESSION_RECEIPT_INTEGRITY_VERSION) with VersionMismatch ;;
          match py_get "mac" d with
          | PStr mac =>
              raise_if negb (non_empty mac) with TagMalformed ;;
              raise_if negb (String.eqb mac (integrity_mac key session_id i h)) with IntegrityFailed ;;
              Ok validated
          | _ => Raise TagMalformed
          end
      | _ => Raise IntegrityMissing
      end
  end.
End Log.
End ReceiptLog.
