(* ===== verification/ReceiptLogProps.v ===== *)
(** * The receipts of a session: properties

    Every budget the proxy reports fits the receipt schema, the receipts a
    session issues verify as one chain, the anchor in the session file is
    bound to its tag, and what one more entry adds to a chain. *)

From S2P Require Import Prelude Sha256 CanonicalJson SpendPolicy SpendLedger SpendInv SpendSafety SpendProps.
From S2P Require Import Passport PassportPop PyJson Policy Session PassportState Receipt ReceiptProps ReceiptLog.
Import Passport PyJson Receipt ReceiptLog.
Open Scope string_scope.
Open Scope Z_scope.

Definition delta_ok (d : claims) : Prop := validate_budget_delta (PDict (wire d)) = Ok tt.

(** ** Reported budgets fit the schema *)

Lemma demand_in_ok s allowed : str_in s allowed = true -> demand_in (PStr s) allowed = Ok tt.
Proof. intros Hs. unfold demand_in. cbn. by rewrite Hs. Qed.

Lemma lineage_delta_ok op eff amount rp ra ut rt :
  str_in op ["consume"; "reserve"; "reject"; "release"] = true -> str_in eff SIDE_EFFECT_CLASSES = true ->
  0 <= amount -> 0 <= rp -> 0 <= ra -> 0 <= ut -> 0 <= rt ->
  delta_ok [("operation", PStr op); ("resource", PStr "tool_call"); ("amount", PInt amount);
    ("unit", PStr "tool_call"); ("remaining_for_parent", PInt rp); ("remaining_after", PInt ra);
    ("used_total", PInt ut); ("reserved_total", PInt rt); ("side_effect_class", PStr eff)].
Proof.
  intros Hop Heff Ha Hrp Hra Hut Hrt. unfold delta_ok.
  match goal with |- context [wire ?d] => assert (Hw : exists d', wire d = d' /\ d' =
    [("amount", PInt amount); ("operation", PStr op); ("remaining_after", PInt ra);
     ("remaining_for_parent", PInt rp); ("reserved_total", PInt rt); ("resource", PStr "tool_call");
     ("side_effect_class", PStr eff); ("unit", PStr "tool_call"); ("used_total", PInt ut)]) end.
  { eexists. split; [vm_compute; reflexivity|reflexivity]. }
  destruct Hw as (d' & -> & ->). apply Z.leb_le in Ha, Hrp, Hra, Hut, Hrt.
  match goal with |- validate_budget_delta (PDict ?d) = _ => transitivity (lineage_delta d); [reflexivity|] end.
  unfold lineage_delta. eapply then_ok; [reflexivity|]. eapply then_ok; [by apply demand_in_ok|].
  eapply then_ok; [reflexivity|]. eapply then_ok; [reflexivity|].
  eapply then_ok; [cbn -[Z.leb]; by rewrite Ha, Hrp, Hra, Hut, Hrt|].
  eapply then_ok; [by apply demand_in_ok|]. reflexivity.
Qed.

Definition wire_amounts (a : amounts) : pyval :=
  PDict [("currency_micros", PInt (currency_micros a)); ("tokens", PInt (tokens a))].
Definition wire_remaining (r : per_scope amounts) : pyval :=
  PDict [("agent", wire_amounts (agent r)); ("lineage", wire_amounts (lineage r)); ("session", wire_amounts (session r))].
Lemma spend_amounts_ok a : amounts_int a = true -> validate_spend_amounts (wire_amounts a) = Ok tt.
Proof.
  unfold amounts_int, ledger_int, MAX_SAFE_INTEGER. intros [Ht Hc]%andb_true_iff.
  cbn -[Z.leb]. rewrite Ht. cbn -[Z.leb]. by rewrite Hc.
Qed.
Lemma digest_hex s : digest_match s = true -> hex_match s = true.
Proof.
  unfold digest_match, hex_match. intros [Hl Hs]%andb_true_iff. rewrite Hl. revert Hs. apply str_all_mono.
  intros a. unfold is_lower_hex. rewrite !orb_true_iff. tauto.
Qed.
Definition all_amounts (r : per_scope amounts) : Prop := forall s, amounts_int (at_scope r s) = true.

(** The values of a spend delta that the schema accepts. *)
Record spend_values (op cur qd rh rc : string) (req rsv act ref : amounts) (rem : per_scope amounts) : Prop := {
  sv_op : str_in op ["reserve"; "reject"; "release"; "settle"; "quarantine"] = true;
  sv_cur : currency_match cur = true;
  sv_quote : digest_match qd = true;
  sv_hash : digest_match rh = true;
  sv_code : (py_len rc <=? 128)%nat && token_field_match rc = true;
  sv_amounts : amounts_int req = true /\ amounts_int rsv = true /\ amounts_int act = true /\ amounts_int ref = true;
  sv_remaining : all_amounts rem
}.
Lemma spend_delta_ok op cur qd rh rc req rsv act ref rem idem (more : claims) :
  spend_values op cur qd rh rc req rsv act ref rem -> more = [] \/ (exists b, more = [("reconciled", PBool b)]) ->
  delta_ok ([("operation", PStr op); ("resource", PStr "spend"); ("requested", amounts_dict req);
    ("reserved", amounts_dict rsv); ("actual", amounts_dict act); ("refunded", amounts_dict ref);
    ("remaining", remaining_dict rem); ("currency", PStr cur); ("quote_digest", PStr qd);
    ("reservation_hash", PStr rh); ("reason_code", PStr rc); ("idempotent", PBool idem)] ++ more)%list.
Proof.
  intros [Hop Hcur Hqd Hrh Hrc (Hreq & Hrsv & Hact & Href) Hrem] Hmore. unfold delta_ok.
  match goal with |- context [wire ?d] => assert (Hw : exists d', wire d = d' /\ d' =
    ([("actual", wire_amounts act); ("currency", PStr cur); ("idempotent", PBool idem);
     ("operation", PStr op); ("quote_digest", PStr qd); ("reason_code", PStr rc)] ++ more ++
     [("refunded", wire_amounts ref); ("remaining", wire_remaining rem); ("requested", wire_amounts req);
     ("reservation_hash", PStr rh); ("reserved", wire_amounts rsv); ("resource", PStr "spend")])%list) end.
  { destruct Hmore as [->|[b ->]]; (eexists; split; [vm_compute; reflexivity|reflexivity]). }
  destruct Hw as (d' & -> & ->).
  match goal with |- validate_budget_delta (PDict ?d) = _ => transitivity (spend_delta d);
    [destruct Hmore as [->|[b ->]]; reflexivity|] end.
  pose proof (spend_amounts_ok _ Hreq) as Oreq. pose proof (spend_amounts_ok _ Hrsv) as Orsv.
  pose proof (spend_amounts_ok _ Hact) as Oact. pose proof (spend_amounts_ok _ Href) as Oref.
  pose proof (spend_amounts_ok _ (Hrem Session)) as Os. pose proof (spend_amounts_ok _ (Hrem Agent)) as Oa.
  pose proof (spend_amounts_ok _ (Hrem Lineage)) as Ol. cbn [at_scope] in *.
  apply digest_hex in Hqd, Hrh. unfold spend_delta.
  destruct Hmore as [->|[b ->]];
    (eapply then_ok; [reflexivity|]; eapply then_ok; [by apply demand_in_ok|]; eapply then_ok; [reflexivity|];
     eapply then_ok; [cbn -[validate_spend_amounts]; by rewrite Oreq, Orsv, Oact, Oref|];
     eapply then_ok; [cbn -[validate_spend_amounts]; by rewrite Os, Oa, Ol|];
     eapply then_ok; [by apply demand_true|];
     eapply then_ok; [cbn -[hex_match]; by rewrite Hqd, Hrh|];
     eapply then_ok; [by apply demand_true|]; reflexivity).
Qed.

Section Spend.
Context {D : Digests}.

Definition code_ok (code : string) : Prop := (py_len code <=? 128)%nat && token_field_match code = true.
Lemma record_fields c k r : validate_record c k r = Ok tt ->
  digest_match (reservation_hash r) = true /\ digest_match (quote_digest r) = true /\
  currency_match (rec_currency r) = true /\ amounts_int (reserved r) = true /\
  (forall d s, 0 <= ceil_at (rec_ceilings r) d s <= MAX_SAFE_INTEGER).
Proof.
  unfold validate_record. cbn [iterR SCOPES DIMENSIONS forallb].
  rewrite !guard_ok, !bind_unit_ok, !guard_ok, !bind_unit_ok, !negb_false_iff, !andb_true_iff.
  intros (_ & (_ & Hh & Hq & _) & _ & Hc & Ha & _ & _ & _ & Hcl & _). apply validate_amounts_ok in Ha.
  destruct Hcl as ((H1 & H2 & H3 & _) & (H4 & H5 & H6 & _) & _).
  rewrite validate_ledger_int_ok in *. repeat apply conj; try done. intros [] []; lia.
Qed.
Lemma headroom_int c s t : (forall d s, 0 <= ceil_at c d s <= MAX_SAFE_INTEGER) -> totals_valid t ->
  amounts_int (headroom c s t) = true.
Proof.
  intros Hc [Hs Hh]. rewrite amounts_int_spec in *. intros d.
  pose proof (Hc d s). pose proof (Hs d). pose proof (Hh d). destruct d; cbn in *; lia.
Qed.
Lemma scope_totals_valid p ref p' t : scope_totals p ref = Ok (p', t) -> totals_valid t.
Proof.
  unfold scope_totals. destruct (scopes p !! ref) as [t'|].
  - intros ([] & Hv & [= _ <-])%bind_ok. by apply validate_scope_totals_ok in Hv.
  - intros [= _ <-]. apply zero_totals_valid.
Qed.
Lemma remaining_int p c refs p' rem : (forall d s, 0 <= ceil_at c d s <= MAX_SAFE_INTEGER) ->
  remaining p c refs = Ok (p', rem) -> all_amounts rem.
Proof.
  intros Hc Hr. unfold remaining in Hr.
  apply bind_ok in Hr as ([p1 ts] & Ts%scope_totals_valid & Hr). apply bind_ok in Hr as ([p2 ta] & Ta%scope_totals_valid & Hr).
  apply bind_ok in Hr as ([p3 tl] & Tl%scope_totals_valid & [= _ <-]). intros []; by apply headroom_int.
Qed.
Lemma reservation_delta_ok c k rec acc code p idem r :
  validate_record c k rec = Ok tt -> result_from_record rec acc code p idem = Ok r -> code_ok code ->
  delta_ok (spend_reservation_delta r).
Proof.
  intros (Hh & Hq & Hc & Ha & Hb)%record_fields Hr Hcode. unfold result_from_record in Hr.
  apply bind_ok in Hr as ([p' rem] & Hrem & [= <-]). unfold spend_reservation_delta.
  rewrite <- (app_nil_r [_; _; _; _; _; _; _; _; _; _; _; _]). apply spend_delta_ok; [|by left].
  split; cbn [accepted res_reserved res_currency res_quote_digest res_reservation_hash res_reason_code res_remaining];
    try done; [by destruct acc|split_and!; [done|by destruct acc|done..]|by eapply remaining_int].
Qed.
Definition optional_int (a : option amounts) : Prop := match a with Some a => amounts_int a = true | None => True end.
Lemma close_delta_ok c k rec p idem rcl p' r :
  validate_record c k rec = Ok tt -> optional_int (actual rec) -> optional_int (refunded rec) ->
  close_result rec p idem rcl = Ok (p', r) -> code_ok (cl_reason_code r) -> delta_ok (spend_close_delta r).
Proof.
  intros (Hh & Hq & Hc & Ha & Hb)%record_fields Hact Href Hr Hcode. unfold close_result in Hr.
  apply bind_ok in Hr as ([q rem] & Hrem & [= _ <-]). cbn [cl_reason_code] in Hcode. unfold spend_close_delta.
  change [?a; ?b; ?c; ?d; ?e; ?f; ?g; ?h; ?i; ?j; ?k; ?l; ?m] with ([a; b; c; d; e; f; g; h; i; j; k; l] ++ [m])%list.
  apply spend_delta_ok; [|right; by eexists].
  split; cbn [cl_operation cl_reserved cl_actual cl_refunded cl_remaining cl_currency cl_quote_digest
    cl_reservation_hash cl_reason_code]; try done; [by destruct (op rec) as [[]|]| |by eapply remaining_int].
  split_and!; [done|by case_bool_decide| |by destruct (refunded rec)].
  destruct (op rec) as [[]|]; try done. by destruct (actual rec).
Qed.

Lemma result_fields rec acc code p idem r : result_from_record rec acc code p idem = Ok r ->
  res_reason_code r = code /\ res_idempotent r = idem.
Proof. unfold result_from_record. by intros ([p' rem] & _ & [= <-])%bind_ok. Qed.
(** Every answer is made from a valid record, and only a repeated one can
    carry a stored code. *)
Lemma reserve_locked_result lin rec observed p out :
  ledger_inv lin p -> validate_record CReservations (reservation_hash rec) rec = Ok tt ->
  reserve_locked rec observed p = Ok out ->
  exists c k rec' acc p', validate_record c k rec' = Ok tt /\
    result_from_record rec' acc (res_reason_code out.2) p' (res_idempotent out.2) = Ok out.2 /\
    (res_idempotent out.2 = false -> code_ok (res_reason_code out.2)).
Proof.
  intros Hi%(inv_prune _ _ observed) Hv Ho. unfold reserve_locked in Ho. set (p1 := prune_terminal_records _ _) in *.
  assert (Hprior : forall c prior code, recs c p1 !! reservation_hash rec = Some prior ->
    (_ ← require_fingerprint prior (fingerprint rec); r ← result_from_record prior false code p1 true; Ok (None, r)) = Ok out ->
    exists c k rec' acc p', validate_record c k rec' = Ok tt /\
      result_from_record rec' acc (res_reason_code out.2) p' (res_idempotent out.2) = Ok out.2 /\
      (res_idempotent out.2 = false -> code_ok (res_reason_code out.2))).
  { intros c prior code Hl (r & _ & (r' & Hr & [= <-])%bind_ok)%bind_ok.
    destruct (li_records _ _ Hi c _ _ Hl) as [Hval _]. destruct (result_fields _ _ _ _ _ _ Hr) as [E1 E2].
    exists c, (reservation_hash rec), prior, false, p1. cbn [snd]. rewrite E1, E2. done. }
  destruct (reservations p1 !! _) as [prior|] eqn:E1; [by apply (Hprior CReservations prior) in Ho|].
  destruct (quarantined_reservations p1 !! _) as [prior|] eqn:E2; [by apply (Hprior CQuarantined prior) in Ho|].
  destruct (closed_reservations p1 !! _) as [prior|] eqn:E3; [by apply (Hprior CClosed prior) in Ho|]. clear Hprior.
  apply guard_ok in Ho as [_ Ho]. apply bind_ok in Ho as ([p2 rem] & Hrem & Ho).
  destruct (first_breach _ _) as [[s d]|].
  - apply bind_ok in Ho as (r & Hr & [= <-]). cbn [snd]. destruct (result_fields _ _ _ _ _ _ Hr) as [E4 E5].
    rewrite E4, E5. do 5 eexists. split; [|split; [exact Hr|by destruct s, d]].
    by apply (validate_record_move CReservations CClosed _ rec); [..|].
  - apply bind_ok in Ho as (p3 & _ & Ho). apply bind_ok in Ho as (r & Hr & [= <-]). cbn [snd].
    destruct (result_fields _ _ _ _ _ _ Hr) as [E4 E5]. rewrite E4, E5. do 5 eexists. by split.
Qed.

(** A reservation's receipt fits the schema.  Whatever [reserve] of the
    spend ledger answers on a consistent directory, the delta the proxy signs
    for it is one [verify_receipt] accepts, unless the answer repeats a stored
    reason code that is no audit token. *)
Theorem reservation_receipt_fits dir policy sid aid request quote observed ret dir' r :
  dir_inv dir -> quote_wf quote ->
  reserve dir policy sid aid request quote observed ret = Ok (dir', r) ->
  res_idempotent r = false \/ code_ok (res_reason_code r) ->
  validate_budget_delta (PDict (wire (spend_reservation_delta r))) = Ok tt.
Proof.
  intros Hd Hq Hr Hcode. unfold reserve in Hr. apply bind_ok in Hr as (inp & Hp & Hr).
  pose proof (prepare_reserve_ok _ _ _ _ _ _ _ _ Hq Hp) as [Hv _ _ _ _ _].
  rewrite load_ok in Hr by done. cbn [mbind res_bind] in Hr. apply bind_ok in Hr as (out & Ho & Hr).
  assert (r = out.2) as ->.
  { unfold commit in Hr. destruct out as [[p|] r']; [by apply bind_ok in Hr as (? & _ & [= _ <-])|by injection Hr]. }
  destruct (reserve_locked_result _ _ _ _ _ (dir_inv_file dir (ri_lineage_id inp) Hd) Hv Ho)
    as (c & k & rec' & acc & p' & Hval & Hres & Hfresh).
  eapply reservation_delta_ok; [done|done|]. destruct Hcode as [Hi|]; [by apply Hfresh|done].
Qed.
End Spend.

Section Chain.
Context {D : Digests} {J : Jwt} {W : Jws} {P : PyText} {R : PyRepr}.

(** ** A receipt of the proxy is sound *)

Definition budget_entry_ok (kv : string * Z) : Prop := token_field_match kv.1 = true /\ 0 <= kv.2.
Lemma dset_Forall {A} (Q : string * A -> Prop) k v d : Q (k, v) -> Forall Q d -> Forall Q (dset k v d).
Proof.
  intros Hk. induction 1 as [|kv d Hkv Hd IH]; cbn; [by constructor|].
  destruct (String.eqb kv.1 k); by constructor.
Qed.
Lemma dupdate_Forall {A} (Q : string * A -> Prop) d d' : Forall Q d -> Forall Q d' -> Forall Q (dupdate d d').
Proof.
  intros Hd Hd'. revert d Hd. unfold dupdate. induction Hd' as [|kv d' Hkv Hd' IH]; intros d Hd; cbn; [done|].
  apply IH, dset_Forall; [by destruct kv|done].
Qed.
Lemma class_remaining_ok s caps : Forall (fun kv => token_field_match kv.1 = true) caps ->
  Forall budget_entry_ok (class_remaining s caps).
Proof.
  unfold class_remaining. assert (Hg : forall caps acc, Forall (fun kv : string * pyval => token_field_match kv.1 = true) caps ->
    Forall budget_entry_ok acc -> Forall budget_entry_ok (foldl (fun acc kv =>
      match py_int kv.2 with
      | None => acc
      | Some cap => dset kv.1
          (Z.max 0 (cap - default 0 (dget kv.1 (Session.tool_call_count_by_class s)))) acc
      end) acc caps)); [|intros Hc; apply Hg; [done|constructor]].
  intros l. induction l as [|kv l IH]; intros acc Hl Ha; [done|]. apply Forall_cons in Hl as [Hk Hl]. cbn [foldl].
  apply IH; [done|]. destruct (py_int kv.2); [|done]. apply dset_Forall; [|done]. split; cbn; [done|lia].
Qed.
Lemma token_field_app a b : token_field_match a = true -> token_field_match b = true -> token_field_match (a ++ b) = true.
Proof.
  unfold token_field_match. rewrite !andb_true_iff, str_all_app, andb_true_iff. intros [Ha ?] [Hb ?].
  split; [|done]. by destruct a.
Qed.
(** A currency code in lower case. *)
Lemma lower_currency c : currency_match c = true -> token_field_match (py_lower c) = true.
Proof.
  unfold currency_match. intros [Hl%Nat.eqb_eq Hc]%andb_true_iff.
  destruct c as [|a [|b [|d [|]]]]; try done. cbn [str_all] in Hc. rewrite !andb_true_iff in Hc.
  destruct Hc as (Ha & Hb & Hd & _). clear Hl.
  assert (Hlow : forall a t, is_upper a = true -> py_lower (String a t) = String (ascii_lower a) (py_lower t)).
  { intros x t Hx. destruct t as [|y [|z t]];
      destruct x as [[] [] [] [] [] [] [] []]; vm_compute in Hx; try discriminate; reflexivity. }
  rewrite !Hlow by done. unfold token_field_match. cbn [non_empty str_all andb].
  assert (Hok : forall x, is_upper x = true -> is_alnum (ascii_lower x) = true).
  { intros x Hx. destruct x as [[] [] [] [] [] [] [] []]; vm_compute in Hx; try discriminate; reflexivity. }
  by rewrite !Hok.
Qed.

Lemma scope_remaining_ok cur k v : token_field_match cur = true -> token_field_match k = true ->
  Forall budget_entry_ok (scope_remaining cur k v).
Proof.
  intros Hc Hk. destruct v as [| | | | | |d]; try constructor. cbn [scope_remaining fmap list_fmap concat].
  apply Forall_app. split; [|apply Forall_app; split; [|constructor]].
  - destruct (py_get "tokens" d); constructor; [|constructor]. split; [|cbn; lia]. cbn [fst].
    repeat apply token_field_app; done.
  - destruct (py_get "currency_micros" d); constructor; [|constructor]. split; [|cbn; lia]. cbn [fst].
    repeat apply token_field_app; done.
Qed.
Lemma spend_remaining_ok delta :
  match py_get "currency" delta with PNone => True | PStr c => currency_match c = true | _ => False end ->
  dget "currency" delta <> Some PNone -> Forall budget_entry_ok (spend_budget_remaining delta).
Proof.
  intros Hc Hn. unfold spend_budget_remaining. destruct (py_get "remaining" delta) as [| | | | | |d]; try constructor.
  destruct (non_empty _) eqn:E; [|constructor]. unfold py_get, get_or in *.
  destruct (dget "currency" delta) as [[]|]; try done. cbn [default from_option id py_str] in *.
  pose proof (lower_currency _ Hc) as Hlow. cbn [fmap list_fmap concat].
  rewrite !Forall_app. split_and!; try (by apply scope_remaining_ok). constructor.
Qed.

(** What an event must have for its receipt to fit the schema. *)
Record sound_entry (s : Session.GovernanceSession) (e : proxy_event) (d : Session.Decision) (pc : claims) : Prop := {
  sn_jti : non_empty (passport_jti (pe_event e)) = true;
  sn_actor : non_empty (actor (pe_event e)) = true;
  sn_tool : non_empty (tool_name (pe_event e)) = true;
  sn_action : str_in (str_or (action_class (pe_event e)) "observe") ACTION_CLASSES = true;
  sn_effect : str_in (side_effect_class (pe_event e)) SIDE_EFFECT_CLASSES = true;
  sn_level : str_in (str_or (evidence_level (pe_event e)) DEFAULT_EVIDENCE_LEVEL) EVIDENCE_LEVELS = true;
  sn_nonce : match run_nonce (pe_event e) with
    | Some s => s = "" \/ base64url_match s && (16 <=? py_len s)%nat = true | None => True end;
  sn_code : d <> Session.PERMIT ->
    token_field_match (str_or (default "" (denial_reason (pe_event e))) "unknown") = true;
  sn_sensitivity : match sensitivity (pe_event e) with
    | Some s => str_in s SENSITIVITY_LEVELS = true | None => True end;
  sn_result : match result_hash (pe_event e) with
    | Some d => validate_digest_object (PDict (wire d)) = Ok tt | None => True end;
  sn_notes : Forall (fun n => non_empty (n_backend n) = true /\ non_empty (n_decision n) = true /\
    (py_len (py_strip (n_label n)) <= 256)%nat /\ isprintable (py_strip (n_label n)) = true) (pe_decisions e);
  sn_counts : 0 <= Session.tool_call_count s /\ 0 <= Session.delegated_budget_reserved s;
  sn_caps : forall caps, Policy.py_dict (Policy.or_else (get_or "max_tool_calls_per_class" (PDict []) pc) (PDict []))
    = Ok caps -> Forall (fun kv => token_field_match kv.1 = true) caps;
  sn_risk : Forall budget_entry_ok (pe_risk_remaining e);
  sn_delta : match budget_delta (pe_event e) with
    | Some delta => delta_ok delta /\ dget "currency" delta <> Some PNone /\
        match py_get "currency" delta with PNone => True | PStr c => currency_match c = true | _ => False end
    | None => True end
}.

Lemma decision_item_ok b d r rule : non_empty b = true -> non_empty d = true ->
  match r with PNone | PStr _ => True | _ => False end ->
  match rule with
  | Some s => non_empty s = true /\ (py_len s <= 256)%nat /\ isprintable s = true | None => True end ->
  validate_decision_item (PDict (wire ([("backend", PStr b); ("decision", PStr d); ("reason", r)]
    ++ match rule with Some s => [("rule_id", PStr s)] | None => [] end)%list)) = Ok tt.
Proof.
  intros Hb Hd Hr Hrule.
  assert (Hw : wire ([("backend", PStr b); ("decision", PStr d); ("reason", r)]
      ++ match rule with Some s => [("rule_id", PStr s)] | None => [] end)%list
    = ([("backend", PStr b); ("decision", PStr d); ("reason", r)]
      ++ match rule with Some s => [("rule_id", PStr s)] | None => [] end)%list)
    by (destruct r, rule; try done; vm_compute; reflexivity).
  rewrite Hw. unfold validate_decision_item.
  eapply then_ok; [by destruct rule|]. eapply then_ok; [unfold require_string; cbn; by rewrite Hb|].
  eapply then_ok; [unfold require_string; cbn; by rewrite Hd|]. eapply then_ok; [by destruct r|].
  destruct rule as [s|]; [|done]. destruct Hrule as (Hs & Hl & Hp). apply Nat.leb_le in Hl.
  eapply then_ok; [|done]. unfold if_present, require_string. cbn -[Nat.leb py_len]. rewrite Hs.
  cbn -[Nat.leb py_len]. by rewrite Hl, Hp.
Qed.
Lemma signed_notes_ok s e d pc audit : sound_entry s e d pc ->
  Forall (fun c => validate_decision_item (PDict (wire c)) = Ok tt) (proxy_signed_decisions e d audit).
Proof.
  intros Hs. pose proof (sn_notes _ _ _ _ Hs) as Hn. unfold proxy_signed_decisions.
  destruct (pe_decisions e) as [|n l].
  - constructor; [|constructor].
    apply (decision_item_ok "native" _ _ (Some "ardur_builtin")); [done|by case_bool_decide|by destruct (non_empty audit)|].
    split; [done|]. split; [by apply Nat.leb_le|by apply isprintable_ascii].
  - apply Forall_fmap. eapply Forall_impl; [exact Hn|]. intros x (Hb & Hd & Hl & Hp). unfold signed_note; cbn.
    set (rule := py_strip (n_label x)) in *.
    assert (Hr : (if non_empty rule then [("rule_id", PStr rule)] else []) =
      match (if non_empty rule then Some rule else None) with Some s => [("rule_id", PStr s)] | None => [] end)
      by by destruct (non_empty rule).
    change (validate_decision_item (PDict (wire ([("backend", PStr (if String.eqb (n_backend x) "native_claims" then "native" else n_backend x));
      ("decision", PStr (n_decision x)); ("reason", match n_reasons x with [] => PNone | l => PStr (join "; " l) end)] ++
      (if non_empty rule then [("rule_id", PStr rule)] else []))%list)) = Ok tt).
    rewrite Hr. apply decision_item_ok; [by destruct (String.eqb (n_backend x) _)|done|by destruct (n_reasons x)|].
    by destruct (non_empty rule) eqn:E.
Qed.

(** What completing an event changes. *)
Lemma complete_delta s e d pc : sound_entry s e d pc ->
  match budget_delta (complete_event s (pe_event e) d pc) with
  | Some delta => delta_ok delta /\ (py_eq_str (py_get "resource" delta) "spend" = true -> Forall budget_entry_ok (spend_budget_remaining delta))
  | None => True
  end.
Proof.
  intros Hs. pose proof (sn_delta _ _ _ _ Hs) as Hd. destruct (sn_counts _ _ _ _ Hs) as [Hc Hdel].
  assert (Hbd : budget_delta (complete_event s (pe_event e) d pc) =
    match budget_delta (pe_event e) with
    | Some x => Some x
    | None => if is_internal_risk_event (pe_event e) then None
              else Some (receipt_budget_delta s (pe_event e) d pc) end).
  { unfold complete_event. destruct (budget_delta (pe_event e)) eqn:E; [by destruct (evidence_proof_ref _)|].
    destruct (is_internal_risk_event _); cbn; by destruct (evidence_proof_ref _). }
  rewrite Hbd. destruct (budget_delta (pe_event e)) as [delta|].
  - destruct Hd as (Hok & Hn & Hcur). split; [done|]. intros _. by apply spend_remaining_ok.
  - destruct (is_internal_risk_event _); [done|]. unfold receipt_budget_delta.
    destruct (bool_decide _); (split; [|done]);
      (apply lineage_delta_ok; [done|apply (sn_effect _ _ _ _ Hs)|try lia..]);
      try (destruct (0 <? _); lia).
Qed.
Lemma entry_budget_ok s e d pc budget : sound_entry s e d pc ->
  entry_budget s pc e (complete_event s (pe_event e) d pc) = Ok budget -> Forall budget_entry_ok budget.
Proof.
  intros Hs Hb. pose proof (complete_delta s e d pc Hs) as Hd. unfold entry_budget, receipt_budget_remaining in Hb.
  destruct (Policy.py_dict _) as [caps|] eqn:E; [|done]. cbn [mbind res_bind] in Hb.
  assert (Hbase : Forall budget_entry_ok (dupdate (class_remaining s caps) (pe_risk_remaining e)))
    by (apply dupdate_Forall; [by apply class_remaining_ok, (sn_caps _ _ _ _ Hs)|apply (sn_risk _ _ _ _ Hs)]).
  destruct (budget_delta _) as [delta|]; [|by injection Hb as <-].
  destruct (py_eq_str _ _) eqn:Es; injection Hb as <-; [|done]. destruct Hd as [_ Hd]. by apply dupdate_Forall; [|apply Hd].
Qed.
Lemma completed_sound s e d pc audit parent budget : sound_entry s e d pc ->
  match parent with Some h => hex_match h = true | None => True end ->
  entry_budget s pc e (complete_event s (pe_event e) d pc) = Ok budget ->
  sound_event d (complete_event s (pe_event e) d pc) parent (Some (proxy_signed_decisions e d audit)) (Some audit) budget.
Proof.
  intros Hs Hp Hb. pose proof (complete_delta s e d pc Hs) as Hd. pose proof (entry_budget_ok _ _ _ _ _ Hs Hb) as Hbud.
  pose proof (signed_notes_ok _ _ _ _ audit Hs) as Hnotes.
  assert (Heff : str_in (str_or (side_effect_class (pe_event e)) "none") SIDE_EFFECT_CLASSES = true).
  { pose proof (sn_effect _ _ _ _ Hs) as He. by destruct (side_effect_class (pe_event e)). }
  destruct Hs. unfold complete_event in *.
  destruct (budget_delta (pe_event e)) eqn:Ed; [|destruct (is_internal_risk_event (pe_event e))];
    cbn [set_budget_delta evidence_proof_ref] in *; destruct (evidence_proof_ref (pe_event e)); split; try done;
    cbn [set_proof_ref set_budget_delta budget_delta] in *; rewrite ?Ed in *; try done; try (by destruct Hd); try exact I.
Qed.

(** ** A session's receipts are one chain *)

(** A call of [_build_receipt_log_entry], with the session as it is then. *)
Record call := Call {
  c_session : Session.GovernanceSession;
  c_event : proxy_event;
  c_decision : Session.Decision;
  c_audit : string;
  c_policy : claims;
  c_now : Z
}.
Fixpoint issue (key : private_key) (s : chain_state) (l : list call) : res receipt_exc (chain_state * list entry) :=
  match l with
  | [] => Ok (s, [])
  | c :: l =>
      '(s, _, x) ← build_receipt_log_entry key
        (ChainState (c_session c) (last_receipt_id s) (last_receipt_full_hash s))
        (c_event c) (c_decision c) (c_audit c) (c_policy c) (c_now c);
      '(s, xs) ← issue key s l;
      Ok (s, x :: xs)
  end.
Definition sound_call (c : call) : Prop :=
  sound_entry (c_session c) (c_event c) (c_decision c) (c_policy c) /\ 0 <= c_now c.
Definition plain_receipt (x : entry) : Prop :=
  distinct_keys (PDict (to_dict (en_receipt x))) = true /\
  CanonicalJson.float_free (PDict (to_dict (en_receipt x))) = true.
Definition token_hash (t : token) : string := sha256_hex (token_text t).

(** Entries whose receipts are signed, sound, and name the one before. *)
Fixpoint issued (key : private_key) (prev : option token) (xs : list entry) : Prop :=
  match xs with
  | [] => True
  | x :: xs => sign_receipt (en_receipt x) key = Ok (en_jwt x) /\ receipt_ok (en_receipt x) /\
      parent_receipt_hash (en_receipt x) = token_hash <$> prev /\ issued key (Some (en_jwt x)) xs
  end.
Lemma build_parent decision e parent pd reason_arg budget at_ r :
  build_receipt decision e parent pd reason_arg budget at_ = Ok r -> parent_receipt_hash r = parent.
Proof.
  unfold build_receipt. intros (? & _ & (? & _ & (? & _ & (? & _ & (? & _ & [= <-])%bind_ok)%bind_ok)%bind_ok)%bind_ok)%bind_ok.
  done.
Qed.
Lemma entry_ok key s e d audit pc now s' e' x : sound_entry (cs_session s) e d pc -> 0 <= now ->
  match last_receipt_full_hash s with Some h => hex_match h = true | None => True end ->
  build_receipt_log_entry key s e d audit pc now = Ok (s', e', x) ->
  sign_receipt (en_receipt x) key = Ok (en_jwt x) /\ receipt_ok (en_receipt x) /\
  parent_receipt_hash (en_receipt x) = last_receipt_full_hash s /\
  last_receipt_full_hash s' = Some (token_hash (en_jwt x)).
Proof.
  intros Hs Hn Hp (budget & Hb & (r & Hr & (t & Ht & [= <- _ <-])%bind_ok)%bind_ok)%bind_ok.
  cbn [en_receipt en_jwt last_receipt_full_hash]. split; [done|]. split; [|split; [by eapply build_parent|done]].
  eapply build_receipt_ok; [|done|exact Hr]. by apply completed_sound.
Qed.
Lemma issue_issued key calls : forall s prev s' xs, last_receipt_full_hash s = token_hash <$> prev ->
  Forall sound_call calls -> issue key s calls = Ok (s', xs) ->
  issued key prev xs /\ last_receipt_full_hash s' = token_hash <$> default prev (Some <$> last (en_jwt <$> xs)).
Proof.
  induction calls as [|c calls IH]; intros s prev s' xs Hh Hc Hi.
  - injection Hi as <- <-. by split.
  - apply Forall_cons in Hc as [[Hs Hn] Hc]. cbn [issue] in Hi. apply bind_ok in Hi as ([[s1 e1] x] & Hx & Hi).
    apply bind_ok in Hi as ([s2 xs'] & Hi & [= <- <-]).
    apply entry_ok in Hx as (Hsig & Hok & Hpar & Hlast); [|done|done|].
    2: { cbn. rewrite Hh. destruct prev; [apply sha256_hex_ok|done]. }
    destruct (IH s1 (Some (en_jwt x)) s2 xs') as [Hiss Hl]; [by rewrite Hlast|done|done|].
    cbn [issued]. rewrite Hpar. cbn [last_receipt_full_hash]. split; [done|].
    rewrite Hl. cbn [fmap list_fmap]. rewrite last_cons. by destruct (last _).
Qed.

Lemma archival_verifies key x clock : sign_receipt (en_receipt x) key = Ok (en_jwt x) -> receipt_ok (en_receipt x) ->
  plain_receipt x -> forall i, verify_indexed (public_of key) (chain_context false 0 0) clock (i, en_jwt x)
    = Ok (read_back (en_receipt x)).
Proof.
  intros Hs Hr [Hd Hf] i. unfold verify_indexed. cbn [fst snd].
  rewrite (signed_verifies (en_receipt x) key); try done; [|split; by left].
  split; by left.
Qed.
Lemma links_ok key prev xs i : issued key prev xs ->
  check_links i prev (zip (en_jwt <$> xs) ((read_back ∘ en_receipt) <$> xs)) = Ok tt.
Proof.
  revert i prev. induction xs as [|x xs IH]; intros i prev; [done|]. intros (Hs & Hr & Hp & Hi).
  cbn [fmap list_fmap zip zip_with check_links]. eapply then_ok; [|by apply IH].
  pose proof (ok_parent_id _ Hr) as Hid. unfold compose.
  destruct prev as [p|]; cbn [fmap option_fmap option_map] in Hp.
  - unfold check_link. rewrite !read_key.
    change (py_get "parent_receipt_hash" (to_dict (en_receipt x))) with (opt_str (parent_receipt_hash (en_receipt x))).
    change (py_get "parent_receipt_id" (to_dict (en_receipt x))) with (opt_str (parent_receipt_id (en_receipt x))).
    rewrite Hid, Hp. cbn -[String.eqb String.substring]. unfold token_hash. by rewrite !String.eqb_refl.
  - unfold check_root. rewrite !read_key.
    change (py_get "parent_receipt_hash" (to_dict (en_receipt x))) with (opt_str (parent_receipt_hash (en_receipt x))).
    change (py_get "parent_receipt_id" (to_dict (en_receipt x))) with (opt_str (parent_receipt_id (en_receipt x))).
    by rewrite Hid, Hp.
Qed.
Lemma verified_ok key clock prev xs (f : nat -> token -> nat * token) : (forall i t, (f i t).2 = t) ->
  issued key prev xs -> Forall plain_receipt xs ->
  mapR (verify_indexed (public_of key) (chain_context false 0 0) clock) (imap f (en_jwt <$> xs))
    = Ok ((read_back ∘ en_receipt) <$> xs).
Proof.
  revert prev f. induction xs as [|x xs IH]; intros prev f Hf; [done|].
  intros (Hs & Hr & _ & Hi) [Hp Hps]%Forall_cons. cbn [fmap list_fmap]. rewrite imap_cons. cbn [mapR].
  eapply then_ok.
  { destruct (f 0%nat (en_jwt x)) as [n t'] eqn:E. pose proof (Hf 0%nat (en_jwt x)) as Ht. rewrite E in Ht. cbn in Ht. subst t'.
    by apply archival_verifies. }
  eapply then_ok; [|done]. by apply (IH (Some (en_jwt x)) (f ∘ S)); [intros; apply Hf|..].
Qed.

Lemma chain_verifies key xs clock : issued key None xs -> Forall plain_receipt xs ->
  verify_chain (en_jwt <$> xs) (public_of key) false 0 0 clock = Ok ((read_back ∘ en_receipt) <$> xs).
Proof.
  intros Hi Hp. unfold verify_chain. eapply then_ok; [by eapply (verified_ok key clock None)|].
  eapply then_ok; [by apply (links_ok key None)|done].
Qed.

(** C14. The receipts of a session are one verifiable chain.  Starting from a
    session without receipts, however many entries are built from sound
    events, the signed receipts in the order they were built pass
    [verify_chain] at any later time (expiry and the issue-time window off, as
    for an archive), each is read back as it was built, and the session's
    anchor is the digest of the last. *)
Theorem session_receipts_verify key s calls s' xs clock :
  last_receipt_full_hash s = None -> Forall sound_call calls -> issue key s calls = Ok (s', xs) ->
  Forall plain_receipt xs ->
  verify_chain (en_jwt <$> xs) (public_of key) false 0 0 clock = Ok ((read_back ∘ en_receipt) <$> xs) /\
  last_receipt_full_hash s' = token_hash <$> last (en_jwt <$> xs).
Proof.
  intros Hh Hc Hi Hp. destruct (issue_issued key calls s None s' xs Hh Hc Hi) as [Hiss Hl].
  split; [by apply chain_verifies|]. rewrite Hl. by destruct (last _).
Qed.

(** ** Signed links

    Entries that are signed and name the one before, whatever their receipts
    say otherwise. *)
Fixpoint linked (key : private_key) (prev : option token) (xs : list entry) : Prop :=
  match xs with
  | [] => True
  | x :: xs => sign_receipt (en_receipt x) key = Ok (en_jwt x) /\
      parent_receipt_hash (en_receipt x) = token_hash <$> prev /\ linked key (Some (en_jwt x)) xs
  end.
Definition anchor (xs : list entry) : option string := token_hash <$> last (en_jwt <$> xs).

Lemma anchor_snoc xs x : anchor (xs ++ [x]) = Some (token_hash (en_jwt x)).
Proof. unfold anchor. rewrite fmap_app. change (en_jwt <$> [x]) with [en_jwt x]. by rewrite last_snoc. Qed.
Lemma linked_snoc key prev xs x : linked key prev xs -> sign_receipt (en_receipt x) key = Ok (en_jwt x) ->
  parent_receipt_hash (en_receipt x) = token_hash <$> default prev (Some <$> last (en_jwt <$> xs)) ->
  linked key prev (xs ++ [x]).
Proof.
  revert prev. induction xs as [|y xs IH]; intros prev Hi Hs Hp; [by cbn in *|].
  destruct Hi as (Hy & Hyp & Hi). cbn [app linked]. split; [done|]. split; [done|].
  apply IH; [done..|]. rewrite Hp. cbn [fmap list_fmap]. rewrite last_cons. by destruct (last _).
Qed.
Lemma linked_issued key prev xs : linked key prev xs -> Forall (fun x => receipt_ok (en_receipt x)) xs -> issued key prev xs.
Proof.
  revert prev. induction xs as [|x xs IH]; intros prev; [done|]. intros (Hs & Hp & Hl) [Hx Hxs]%Forall_cons.
  cbn [issued]. auto.
Qed.
(** What [_build_receipt_log_entry] adds to a chain. *)
Lemma entry_links key s e d audit pc now s' e' x : build_receipt_log_entry key s e d audit pc now = Ok (s', e', x) ->
  sign_receipt (en_receipt x) key = Ok (en_jwt x) /\
  parent_receipt_hash (en_receipt x) = last_receipt_full_hash s /\
  last_receipt_full_hash s' = Some (token_hash (en_jwt x)) /\ en_session_id x = session_jti (cs_session s).
Proof.
  intros (budget & Hb & (r & Hr & (t & Ht & [= <- _ <-])%bind_ok)%bind_ok)%bind_ok. cbn.
  split; [done|]. split; [by eapply build_parent|done].
Qed.

(** ** The anchor's tag *)

Lemma dpop_dset {A} k (v : A) d : dpop k (dset k v d) = dpop k d.
Proof.
  induction d as [|[k0 v0] d IH]; cbn; [by rewrite String.eqb_refl|].
  destruct (String.eqb_spec k0 k) as [->|Hk0]; cbn; [by rewrite String.eqb_refl|].
  rewrite (proj2 (String.eqb_neq k0 k)) by done. cbn. f_equal. exact IH.
Qed.
Lemma mac_non_empty key sid i h : non_empty (integrity_mac key sid i h) = true.
Proof.
  unfold integrity_mac, hmac_sha256. match goal with |- context [sha256_hex ?x] => pose proof (sha_shape x) as [Hl _] end.
  by destruct (sha256_hex _).
Qed.
(** A session file as it is written is read back without its tag. *)
Lemma anchor_roundtrip key sid payload i h p' : anchor_of payload = Ok (Some (i, h)) ->
  add_integrity key sid payload = Ok p' -> validate_integrity key sid p' = Ok (dpop "receipt_chain_integrity" payload).
Proof.
  intros Ha Hp. unfold add_integrity in Hp. rewrite Ha in Hp. injection Hp as <-.
  unfold validate_integrity. rewrite dpop_dset.
  assert (Han : forall v, anchor_of (dset "receipt_chain_integrity" v payload) = anchor_of payload)
    by (intros v; unfold anchor_of, py_get; by rewrite !dget_dset_ne).
  rewrite Han, Ha. cbn [mbind res_bind]. unfold py_get at 1. rewrite dget_dset. cbn.
  by rewrite mac_non_empty, String.eqb_refl.
Qed.
(** The tag only matters when there is an anchor: a file without the two
    members is accepted whatever tag it carries. *)
Lemma anchor_stripped_accepted key sid payload :
  py_get "last_receipt_id" payload = PNone -> py_get "last_receipt_full_hash" payload = PNone ->
  validate_integrity key sid payload = Ok (dpop "receipt_chain_integrity" payload).
Proof. intros Hi Hh. unfold validate_integrity, anchor_of. by rewrite Hi, Hh. Qed.
End Chain.

(** ** A session with two calls *)

Module Demo.
Import ReceiptProps.Demo.
#[local] Existing Instances light_digests tok_jwt tok_jws plain_text.
#[local] Instance plain_repr : PyRepr := {| repr_container := fun _ => "{}" |}.

Definition session0 (count : Z) : Session.GovernanceSession :=
  Session.MkSession [("jti", PStr "p1")] [] count [("none", count)] 0 0 None "nonce".
Definition policy0 : claims := [("max_tool_calls", PInt 5); ("max_tool_calls_per_class", PDict [("none", PInt 3)])].
Definition plain_event (stamp tool reason : string) (denial : option string) : proxy_event :=
  ProxyEvent
    {| timestamp := stamp; step_id := ""; actor := "agent"; verifier_id := ""; tool_name := tool; arguments := [];
       action_class := "read"; target := ""; resource_family := ""; side_effect_class := "none"; reason := reason;
       passport_jti := "p1"; trace_id := Some "p1"; run_nonce := Some "0123456789abcdef"; denial_reason := denial;
       evidence_level := ""; event_decisions := []; evidence_proof_ref := None; content_class := None;
       content_provenance := None; sensitivity := None; instruction_bearing := None; budget_delta := None;
       result_hash := None; measurements := None |}
    [Note "native_claims" "ardur_builtin" "Allow" []] [("risk.session.writes", 2)].
Definition call1 : call :=
  Call (session0 1) (plain_event "2026-01-01T00:00:00Z" "read_file" "within scope" None) Session.PERMIT "within scope" policy0 1000.
Definition call2 : call :=
  Call (session0 1) (plain_event "2026-01-01T00:00:05Z" "send_mail" "denied" (Some "policy_denied")) Session.DENY "denied" policy0 1005.
Lemma sound1 : sound_call call1.
Proof.
  split; [|done]. split; try reflexivity; try exact I; try (right; reflexivity); try done.
  - repeat constructor; apply Nat.leb_le; reflexivity.
  - intros caps [= <-]. by repeat constructor.
  - by repeat constructor.
Qed.
Lemma sound2 : sound_call call2.
Proof.
  split; [|done]. split; try reflexivity; try exact I; try (right; reflexivity); try done.
  - repeat constructor; apply Nat.leb_le; reflexivity.
  - intros caps [= <-]. by repeat constructor.
  - by repeat constructor.
Qed.
Definition start : chain_state := ChainState (session0 0) None None.
Definition build (s : chain_state) (c : call) : res receipt_exc (chain_state * proxy_event * entry) :=
  build_receipt_log_entry sec (ChainState (c_session c) (last_receipt_id s) (last_receipt_full_hash s))
    (c_event c) (c_decision c) (c_audit c) (c_policy c) (c_now c).
Definition x0 : entry := Entry "" no_receipt no_token "".
Definition out1 : chain_state * proxy_event * entry := Eval vm_compute in get (start, c_event call1, x0) (build start call1).
Definition out2 : chain_state * proxy_event * entry := Eval vm_compute in get (start, c_event call2, x0) (build out1.1.1 call2).
Lemma out1_ok : build_receipt_log_entry sec
    (ChainState (c_session call1) (last_receipt_id start) (last_receipt_full_hash start))
    (c_event call1) (c_decision call1) (c_audit call1) (c_policy call1) (c_now call1) = Ok (out1.1.1, out1.1.2, out1.2).
Proof. vm_cast_no_check (eq_refl (Ok out1 : res receipt_exc _)). Qed.
Lemma out2_ok : build_receipt_log_entry sec
    (ChainState (c_session call2) (last_receipt_id out1.1.1) (last_receipt_full_hash out1.1.1))
    (c_event call2) (c_decision call2) (c_audit call2) (c_policy call2) (c_now call2) = Ok (out2.1.1, out2.1.2, out2.2).
Proof. vm_cast_no_check (eq_refl (Ok out2 : res receipt_exc _)). Qed.
Definition both : chain_state * list entry := (out2.1.1, [out1.2; out2.2]).
Lemma both_ok : issue sec start [call1; call2] = Ok both.
Proof.
  cbn [issue]. eapply then_ok; [exact out1_ok|]. cbn beta iota.
  eapply (then_ok _ _ (out2.1.1, [out2.2])); [|reflexivity].
  eapply then_ok; [exact out2_ok|]. reflexivity.
Qed.
Lemma both_plain : Forall plain_receipt both.2.
Proof. repeat (constructor; [split; vm_compute; reflexivity|]). constructor. Qed.
Lemma session_receipts_verify_witness :
  verify_chain (en_jwt <$> both.2) (public_of sec) false 0 0 (at_second 99999) = Ok ((read_back ∘ en_receipt) <$> both.2) /\
  last_receipt_full_hash both.1 = token_hash <$> last (en_jwt <$> both.2).
Proof.
  apply (@session_receipts_verify light_digests tok_jwt tok_jws plain_text plain_repr sec start [call1; call2] both.1).
  - reflexivity.
  - constructor; [exact sound1|constructor; [exact sound2|constructor]].
  - exact both_ok.
  - exact both_plain.
Defined.

Definition fresh (r : SpendReservationResult) : bool := SpendLedger.accepted r && negb (res_idempotent r).
Lemma fresh_ok : exists r, reserve (H := demo_digests) ∅ SpendProps.Demo.policy "s1" "a1" SpendProps.Demo.request SpendProps.Demo.quote 500 None
  = Ok (SpendProps.Demo.dir1, r) /\ fresh r = true.
Proof. unfold SpendProps.Demo.dir1. apply (SpendProps.Demo.answered_ok fresh). vm_compute. reflexivity. Qed.
Lemma reservation_receipt_fits_witness : exists r,
  validate_budget_delta (PDict (wire (spend_reservation_delta r))) = Ok tt /\ SpendLedger.accepted r = true.
Proof.
  destruct fresh_ok as (r & Hr & Ha). apply andb_true_iff in Ha as [Ha Hf%negb_true_iff]. exists r. split; [|exact Ha].
  apply (@reservation_receipt_fits demo_digests ∅ SpendProps.Demo.policy "s1" "a1" SpendProps.Demo.request
    SpendProps.Demo.quote 500 None SpendProps.Demo.dir1).
  - exact dir_inv_empty.
  - exact SpendProps.Demo.quote_ok.
  - exact Hr.
  - left. exact Hf.
Defined.
End Demo.
