(* ===== verification/Urls.v ===== *)
(** * URLs and guarded fetches

    The network side of [src/python/vibap/mission.py]: [_assert_public_target],
    [_resolve_to_pinned_public_ip], [_pinned_urlopen], [_fetch_text] and
    [_parse_revocation_ref], over what they use of [urllib.parse].

    The network is the record [network]: what the resolver answers to the two
    lookups of one fetch, which need not agree, and what the pinned connection
    returns.  [ipaddress] is the class [IpAddress]. *)

From S2P Require Import Prelude CanonicalJson Passport ResourceScope.
Open Scope string_scope.
Open Scope Z_scope.

(** [ipaddress.ip_address] and the properties of an address the code reads. *)
Record ip_flags := IpFlags {
  ip_v4 : bool; is_private : bool; is_loopback : bool; is_link_local : bool; is_multicast : bool;
  is_reserved : bool; is_unspecified : bool
}.
Class IpAddress := { ip_address : string -> option ip_flags }.

(** What resolving and checking a mission raises: the two errors of
    [mission.py] with their reason, and what passes through every handler
    ([ValueError] of a malformed URL or body, errors of [http.client]). *)
Inductive mission_exc := MissionUnavailable (why : string) | MissionBinding (why : string) | MissionOther.

Module Urls.

(** ** Cutting text *)

(** The text before the first character in [p], that character and the rest. *)
Fixpoint cut (p : ascii -> bool) (s : string) : string * option (ascii * string) :=
  match s with
  | EmptyString => (EmptyString, None)
  | String a t => if p a then (EmptyString, Some (a, t)) else let '(x, r) := cut p t in (String a x, r)
  end.
(** [s.partition(c)] without the separator. *)
Definition partition (c : ascii) (s : string) : string * string :=
  match cut (Ascii.eqb c) s with (x, Some (_, t)) => (x, t) | (x, None) => (x, "") end.
Definition has (c : ascii) (s : string) : bool := negb (str_all (fun a => negb (Ascii.eqb c a)) s).
(** [s.rpartition(c)[2]]. *)
Fixpoint after_last (c : ascii) (s : string) : string :=
  match s with
  | EmptyString => EmptyString
  | String a t => if has c t then after_last c t else if Ascii.eqb a c then t else s
  end.
Fixpoint str_filter (p : ascii -> bool) (s : string) : string :=
  match s with EmptyString => EmptyString | String a t => if p a then String a (str_filter p t) else str_filter p t end.
Fixpoint lstrip (p : ascii -> bool) (s : string) : string :=
  match s with EmptyString => EmptyString | String a t => if p a then lstrip p t else s end.
Definition is_letter (a : ascii) : bool := byte_in 65 90 a || byte_in 97 122 a.
Definition is_digit (a : ascii) : bool := byte_in 48 57 a.

(** ** [urllib.parse.urlparse] *)

Record url := Url {
  u_scheme : string; u_netloc : string; u_path : string; u_params : string; u_query : string; u_fragment : string
}.

Definition scheme_char (a : ascii) : bool :=
  is_letter a || is_digit a || Ascii.eqb a "+" || Ascii.eqb a "-" || Ascii.eqb a ".".
Definition split_scheme (s : string) : string * string :=
  match cut (Ascii.eqb ":") s with
  | (String a x, Some (_, rest)) =>
      if is_letter a && str_all scheme_char x then (py_lower (String a x), rest) else ("", s)
  | _ => ("", s)
  end.
Definition split_netloc (s : string) : string * string :=
  match s with
  | String "/" (String "/" t) =>
      match cut (fun a => Ascii.eqb a "/" || Ascii.eqb a "?" || Ascii.eqb a "#") t with
      | (netloc, Some (d, rest)) => (netloc, String d rest)
      | (netloc, None) => (netloc, "")
      end
  | _ => ("", s)
  end.
(** The parameters of the last segment of a path. *)
Fixpoint split_params (s : string) : string * string :=
  match s with
  | EmptyString => ("", "")
  | String a t =>
      if Ascii.eqb a ";" && negb (has "/" t) then ("", t)
      else let '(x, y) := split_params t in (String a x, y)
  end.

Section Parse.
Context {U : ResourceScope.UnicodeData} {I : IpAddress}.

Definition future_host (s : string) : bool :=
  match s with
  | String "v" t =>
      match cut (Ascii.eqb ".") t with
      | (x, Some (_, y)) =>
          non_empty x && str_all (fun a => is_lower_hex a || byte_in 65 70 a) x
          && non_empty y && str_all (fun a => negb (Ascii.eqb a "010")) y
      | _ => false
      end
  | _ => false
  end.
(** [_check_bracketed_host] and [_check_bracketed_netloc]. *)
Definition bracketed_host_ok (h : string) : bool :=
  match h with
  | String "v" _ => future_host h
  | _ => match ip_address h with Some i => negb (ip_v4 i) | None => false end
  end.
Definition brackets_ok (netloc : string) : bool :=
  if has "[" netloc || has "]" netloc then
    has "[" netloc && has "]" netloc
    && let info := after_last "@" netloc in
       match cut (Ascii.eqb "[") info with
       | (before, Some (_, rest)) =>
           let '(host, port) := partition "]" rest in
           negb (non_empty before)
           && match port with EmptyString => true | String a _ => Ascii.eqb a ":" end
           && bracketed_host_ok host
       | (host, None) => bracketed_host_ok (partition ":" host).1
       end
  else true.
(** [_checknetloc]. *)
Definition checknetloc (netloc : string) : bool :=
  if str_all (byte_in 0 127) netloc then true
  else
    let n := List.filter (fun c => negb (existsb (Z.eqb c) [64; 58; 35; 63])) (ResourceScope.chars netloc) in
    let n' := ResourceScope.nfkc n in
    bool_decide (n = n') || negb (existsb (fun c => existsb (Z.eqb c) [47; 63; 35; 64; 58]) n').
(** [None] is [ValueError]. *)
Definition urlparse (s : string) : option url :=
  let s := lstrip (byte_in 0 32) s in
  let s := str_filter (fun a => negb (byte_in 9 10 a || byte_in 13 13 a)) s in
  let '(scheme, s) := split_scheme s in
  let '(netloc, s) := split_netloc s in
  if negb (brackets_ok netloc) then None else
  let '(s, fragment) := partition "#" s in
  let '(s, query) := partition "?" s in
  if negb (checknetloc netloc) then None else
  let '(path, params) := if str_in scheme ["https"; "http"; "ftp"; "hdl"; "prospero"; "rtsp"; "rtsps"; "rtspu"; "sip";
      "sips"; "mms"; "sftp"; "tel"; "imap"; "shttp"; ""] then split_params s else (s, "") in
  Some (Url scheme netloc path params query fragment).

(** [parsed.hostname] and the text of the port. *)
Definition hostinfo (u : url) : string * string :=
  let info := after_last "@" (u_netloc u) in
  match cut (Ascii.eqb "[") info with
  | (_, Some (_, rest)) => let '(host, port) := partition "]" rest in (host, (partition ":" port).2)
  | (_, None) => partition ":" info
  end.
Definition hostname (u : url) : string :=
  match cut (Ascii.eqb "%") (hostinfo u).1 with
  | (h, z) => CanonicalJson.utf8_encode (ResourceScope.lower (ResourceScope.chars h))
      ++ match z with Some (p, z) => String p z | None => "" end
  end.
(** [parsed.port]: absent, a number, or [ValueError]. *)
Definition port (u : url) : option (option Z) :=
  match (hostinfo u).2 with
  | EmptyString => Some None
  | p => if str_all is_digit p
         then match Passport.int_of_str p with Some n => if n <=? 65535 then Some (Some n) else None | None => None end
         else None
  end.
(** [urlunparse(parsed._replace(fragment=""))] of a URL with the scheme https. *)
Definition unparse (u : url) : string :=
  let path := if non_empty (u_params u) then u_path u ++ ";" ++ u_params u else u_path u in
  let rest :=
    if non_empty (u_netloc u)
    then "//" ++ u_netloc u ++ match path with EmptyString => "" | String "/" _ => path | _ => "/" ++ path end
    else match path with EmptyString | String "/" _ => "//" ++ path | _ => path end in
  "https:" ++ rest ++ (if non_empty (u_query u) then "?" ++ u_query u else "").

(** [urllib.parse.parse_qs(fragment, strict_parsing=True).get(key)]; the outer
    [None] is [ValueError]. *)
Definition unquote_plus (s : string) : string :=
  CanonicalJson.utf8_encode (ResourceScope.unquote ((fun c => if c =? 43 then 32 else c) <$> ResourceScope.chars s)).
Definition qs_pair (s : string) : option (string * string) :=
  match cut (Ascii.eqb "=") s with (n, Some (_, v)) => Some (n, v) | (_, None) => None end.
Definition qs_values (key fragment : string) : option (list string) :=
  match mapM qs_pair (split_on "&" fragment) with
  | None => None
  | Some l => Some (omap (fun nv => if non_empty nv.2 && String.eqb (unquote_plus nv.1) key
                                    then Some (unquote_plus nv.2) else None) l)
  end.

(** ** Fetching *)

Inductive lookup := Resolved (l : list string) | NoName | BadName.
Inductive response := ConnectionFailed | ProtocolError | Response (status : Z) (body : string).
Record network := Network {
  getaddrinfo : string -> lookup;              (* before the connection *)
  getaddrinfo_port : string -> Z -> lookup;    (* by the connection *)
  https_get : string -> string -> Z -> string -> response
}.

Definition MAX_STATUS_LIST_BYTES : Z := 2 ^ 20.

Definition non_public (i : ip_flags) : bool :=
  is_private i || is_loopback i || is_link_local i || is_multicast i || is_reserved i || is_unspecified i.
Definition public_ip (s : string) : bool := match ip_address s with Some i => negb (non_public i) | None => false end.

(** [_assert_public_target]. *)
Definition assert_public_target (n : network) (s : string) : res mission_exc unit :=
  match urlparse s with
  | None => Raise MissionOther
  | Some u =>
      raise_if negb (non_empty (hostname u)) with MissionBinding "chain_invalid" ;;
      match getaddrinfo n (hostname u) with
      | NoName => Ok tt
      | BadName => Raise MissionOther
      | Resolved l =>
          raise_if existsb (fun s => match ip_address s with Some i => non_public i | None => false end) l
            with MissionBinding "chain_invalid" ;; Ok tt
      end
  end.
(** [_resolve_to_pinned_public_ip]. *)
Definition resolve_to_pinned_public_ip (n : network) (host : string) (p : Z) : res mission_exc string :=
  match getaddrinfo_port n host p with
  | NoName => Raise (MissionUnavailable "revocation_unavailable")
  | BadName => Raise MissionOther
  | Resolved l => match List.find public_ip l with Some s => Ok s | None => Raise (MissionBinding "chain_invalid") end
  end.

(** The connection [_pinned_urlopen] makes: address, host, port and path.
    [http.client] refuses a host or a path with a control character or a
    space, and a path that is not ASCII. *)
Record connection := Connection { c_ip : string; c_host : string; c_port : Z; c_path : string }.
Definition pinned_connection (n : network) (s : string) : res mission_exc connection :=
  match urlparse (py_strip s) with
  | None => Raise MissionOther
  | Some u =>
      raise_if negb (String.eqb (u_scheme u) "https") with MissionUnavailable "revocation_unavailable" ;;
      let host := hostname u in
      raise_if negb (non_empty host) with MissionUnavailable "revocation_unavailable" ;;
      match port u with
      | None => Raise MissionOther
      | Some p =>
          let p := match p with Some n => if n =? 0 then 443 else n | None => 443 end in
          ip ← resolve_to_pinned_public_ip n host p;
          let path := (if non_empty (u_path u) then u_path u else "/")
            ++ (if non_empty (u_query u) then "?" ++ u_query u else "") in
          raise_if negb (str_all (fun a => negb (byte_in 0 32 a || byte_in 127 127 a)) host
                         && str_all (byte_in 33 126) path) with MissionOther ;;
          Ok (Connection ip host p path)
      end
  end.
(** [_pinned_urlopen] and the handlers of [_fetch_text]. *)
Definition fetch_text (n : network) (s : string) : res mission_exc string :=
  _ ← assert_public_target n s;
  c ← pinned_connection n s;
  match https_get n (c_ip c) (c_host c) (c_port c) (c_path c) with
  | ConnectionFailed => Raise (MissionUnavailable "revocation_unavailable")
  | ProtocolError => Raise MissionOther
  | Response status body =>
      raise_if (300 <=? status) with MissionUnavailable "revocation_unavailable" ;;
      raise_if MAX_STATUS_LIST_BYTES <? byte_len body with MissionUnavailable "status_list_too_large" ;;
      match CanonicalJson.utf8_decode body with
      | None => Raise MissionOther
      | Some _ => Ok (py_strip body)
      end
  end.

(** [_parse_revocation_ref]. *)
Definition parse_revocation_ref (s : string) : res mission_exc (string * Z) :=
  match urlparse s with
  | None => Raise MissionOther
  | Some u =>
      raise_if negb (String.eqb (u_scheme u) "https") with MissionBinding "chain_invalid" ;;
      raise_if negb (non_empty (u_fragment u)) with MissionBinding "chain_invalid" ;;
      match qs_values "idx" (u_fragment u) with
      | Some [v] =>
          match Passport.int_of_str v with
          | Some idx =>
              raise_if idx <? 0 with MissionBinding "chain_invalid" ;;
              Ok (unparse u, idx)
          | None => Raise (MissionBinding "chain_invalid")
          end
      | _ => Raise (MissionBinding "chain_invalid")
      end
  end.
End Parse.
End Urls.
