(* ===== verification/Mission.v ===== *)
(** * Mission declarations

    [src/python/vibap/mission.py]: reading a mission reference, verifying and
    parsing a declaration, the policy claims it stands for, the cache of
    declarations and the check of the revocation list; with the two functions
    of [src/go/pkg/credential/status.go] that write and read the same kind of
    list.

    A declaration is whatever its issuer signed: fields that the code does not
    read are kept as the JSON values they are.  A token is the text that is
    fetched (class [TokenText]); [zlib.decompressobj] is the class [Zlib]. *)

From S2P Require Import Prelude Sha256 CanonicalJson RiskPolicy Passport ResourceScope PyJson Policy Receipt Urls.
Import Passport PyJson Policy.
Open Scope string_scope.
Open Scope Z_scope.

(** The token with a text, as [jwt.decode] is given it; [None] is a text that
    is no token. *)
Class TokenText {J : Jwt} := {
  read_token : string -> option token;
  token_text_read : forall s t, read_token s = Some t -> token_text t = s
}.
(** [decompressobj().decompress(data, max)]: the bytes and whether input is
    left over; [None] is [zlib.error]. *)
Class Zlib := { decompress : list Z -> Z -> option (list Z * bool) }.

Module Mission.

Notation mx := (res mission_exc).
Definition chain_invalid : mission_exc := MissionBinding "chain_invalid".
Definition schema_invalid : mission_exc := MissionBinding "schema_invalid".

(** ** References *)

Record MissionReference := Ref { ref_uri : string; ref_mission_id : option string; ref_mission_digest : option string }.
Definition cache_key (r : MissionReference) : string :=
  ref_uri r ++ "|" ++ default "" (ref_mission_id r) ++ "|" ++ default "" (ref_mission_digest r).

(** [parse_mission_ref]. *)
Definition parse_mission_ref (v : pyval) : mx MissionReference :=
  match v with
  | PStr s => raise_if negb (non_empty (py_strip s)) with chain_invalid ;; Ok (Ref (py_strip s) None None)
  | PDict d =>
      match default (py_get "url" d) (dget "uri" d) with
      | PStr uri =>
          raise_if negb (non_empty (py_strip uri)) with chain_invalid ;;
          mission_id ← match py_get "mission_id" d with
                       | PNone => Ok None
                       | PStr i => raise_if negb (non_empty (py_strip i)) with chain_invalid ;; Ok (Some (py_strip i))
                       | _ => Raise chain_invalid
                       end;
          digest ← match py_get "mission_digest" d with
                   | PNone => Ok None
                   | PStr s => raise_if negb (String.prefix "sha-256:" s) with chain_invalid ;; Ok (Some s)
                   | _ => Raise chain_invalid
                   end;
          Ok (Ref (py_strip uri) mission_id digest)
      | _ => Raise chain_invalid
      end
  | _ => Raise chain_invalid
  end.

(** ** Declarations *)

(** The fields of the declaration's [MissionPassport] that the policy claims
    are made of. *)
Record mission_passport := MissionPassport {
  mp_mission : string;
  mp_allowed_tools : list pyval;
  mp_forbidden_tools : list pyval;
  mp_resource_scope : list pyval;
  mp_max_tool_calls : Z;
  mp_max_duration_s : Z;
  mp_delegation_allowed : bool;
  mp_max_delegation_depth : Z;
  mp_parent_jti : pyval;
  mp_cwd : option string;
  mp_risk_budget : option claims
}.
Record MissionDeclaration := Declaration {
  md_mission_id : string;
  md_issuer : string;
  md_subject : string;
  md_audience : pyval;
  md_issued_at : Z;
  md_expires_at : Z;
  md_jwt_id : string;
  md_passport : mission_passport;
  md_resource_policies : list pyval;
  md_effect_policies : list pyval;
  md_lineage_budgets : claims;
  md_delegation_policy : claims;
  md_flow_policies : list pyval;
  md_required_telemetry : list string;
  md_receipt_policy : claims;
  md_conformance_profile : option string;
  md_tool_manifest_digest : option string;
  md_revocation_ref : option string;
  md_approval_policy : claims;
  md_governed_memory_stores : list pyval;
  md_probing_rate_limit : option Z;
  md_payload_digest : string
}.

(** A member is left out when it is [None] or empty. *)
Definition list_member (k : string) (l : list pyval) : claims := match l with [] => [] | _ => [(k, PList l)] end.
Definition dict_member (k : string) (d : claims) : claims := match d with [] => [] | _ => [(k, PDict d)] end.
Definition str_member (k : string) (o : option string) : claims := match o with Some s => [(k, PStr s)] | None => [] end.
(** [MissionDeclaration.policy_claims]. *)
Definition policy_claims (m : MissionDeclaration) : claims :=
  let p := md_passport m in
  ([("iss", PStr (md_issuer m)); ("sub", PStr (md_subject m)); ("aud", md_audience m);
    ("iat", PInt (md_issued_at m)); ("exp", PInt (md_expires_at m)); ("jti", PStr (md_jwt_id m));
    ("mission_id", PStr (md_mission_id m)); ("mission", PStr (mp_mission p));
    ("allowed_tools", PList (mp_allowed_tools p)); ("forbidden_tools", PList (mp_forbidden_tools p));
    ("resource_scope", PList (mp_resource_scope p)); ("max_tool_calls", PInt (mp_max_tool_calls p));
    ("max_duration_s", PInt (mp_max_duration_s p)); ("delegation_allowed", PBool (mp_delegation_allowed p));
    ("max_delegation_depth", PInt (mp_max_delegation_depth p))]
   ++ match mp_parent_jti p with PNone => [] | v => [("parent_jti", v)] end
   ++ str_member "cwd" (mp_cwd p)
   ++ match mp_risk_budget p with Some d => [("risk_budget", PDict d)] | None => [] end
   ++ dict_member "approval_policy" (md_approval_policy m)
   ++ list_member "resource_policies" (md_resource_policies m)
   ++ list_member "effect_policies" (md_effect_policies m)
   ++ dict_member "lineage_budgets" (md_lineage_budgets m)
   ++ dict_member "delegation_policy" (md_delegation_policy m)
   ++ list_member "flow_policies" (md_flow_policies m)
   ++ list_member "required_telemetry" (PStr <$> md_required_telemetry m)
   ++ dict_member "receipt_policy" (md_receipt_policy m)
   ++ str_member "conformance_profile" (md_conformance_profile m)
   ++ str_member "tool_manifest_digest" (md_tool_manifest_digest m)
   ++ str_member "revocation_ref" (md_revocation_ref m)
   ++ list_member "governed_memory_stores" (md_governed_memory_stores m)
   ++ match md_probing_rate_limit m with Some z => [("probing_rate_limit", PInt z)] | None => [] end)%list.

(** ** Members of version 0.1 *)

Definition VALID_CONFORMANCE_PROFILES : list string := ["Delegation-Core"; "MIC-State"; "MIC-Evidence"].
Definition VALID_RECEIPT_LEVELS : list string := ["minimal"; "counter_signed"; "transparency_logged"].
(** [_validate_required_v01_members].  A level that is a container cannot be
    looked up in a set. *)
Definition validate_required_v01_members (c : claims) : mx unit :=
  match dget "receipt_policy" c, dget "conformance_profile" c, dget "tool_manifest_digest" c, dget "revocation_ref" c,
        dget "governed_memory_stores" c with
  | Some (PDict rp), Some (PStr profile), Some (PStr tmd), Some (PStr _), Some (PList _) =>
      raise_if negb (str_in profile VALID_CONFORMANCE_PROFILES) with schema_invalid ;;
      let level := py_get "level" rp in
      raise_if match level with PList _ | PDict _ => true | _ => false end with MissionOther ;;
      raise_if negb (match level with PStr s => str_in s VALID_RECEIPT_LEVELS | _ => false end) with schema_invalid ;;
      raise_if negb (String.prefix "sha-256:" tmd && digest_match (String.substring 8 (String.length tmd) tmd))
        with schema_invalid ;;
      raise_if match dget "probing_rate_limit" c with
               | None => false
               | Some (PInt n) => n <? 1
               | Some _ => true
               end with schema_invalid ;;
      raise_if String.eqb profile "MIC-Evidence" && py_eq_str level "minimal" with schema_invalid ;;
      Ok tt
  | _, _, _, _, _ => Raise schema_invalid
  end.

(** ** Reading fields *)

(** [int(v)]; [OverflowError] of an infinity is caught nowhere. *)
Definition int_or (e : mission_exc) (v : pyval) : mx Z :=
  match py_int v, v with
  | Some z, _ => Ok z
  | None, PFloat (SpecFloat.S754_infinity _) => Raise MissionOther
  | None, _ => Raise e
  end.
(** [list(v)]. *)
Definition list_of (v : pyval) : mx (list pyval) :=
  match py_iter v with Ok l => Ok l | Raise _ => Raise chain_invalid end.
(** [_tuple_of_dicts], [_tuple_of_strs], [_dict_or_empty], [_optional_str] and
    [_optional_int]. *)
Definition tuple_of_dicts (v : pyval) : mx (list pyval) :=
  match v with
  | PNone => Ok []
  | PList l => raise_if negb (forallb (fun x => match x with PDict _ => true | _ => false end) l) with chain_invalid ;; Ok l
  | _ => Raise chain_invalid
  end.
Definition tuple_of_strs (v : pyval) : mx (list string) :=
  match v with
  | PNone => Ok []
  | PList l =>
      match mapM as_str l with
      | Some l => raise_if negb (forallb non_empty l) with chain_invalid ;; Ok l
      | None => Raise chain_invalid
      end
  | _ => Raise chain_invalid
  end.
Definition dict_or_empty (v : pyval) : mx claims :=
  match v with PNone => Ok [] | PDict d => Ok d | _ => Raise chain_invalid end.
Definition optional_str (v : pyval) : mx (option string) :=
  match v with
  | PNone => Ok None
  | PStr s => raise_if negb (non_empty s) with chain_invalid ;; Ok (Some s)
  | _ => Raise chain_invalid
  end.
Definition optional_int (v : pyval) : mx (option Z) :=
  match v with PNone => Ok None | _ => z ← int_or chain_invalid v; Ok (Some z) end.

(** [_legacy_resource_scope]. *)
Definition scope_pattern (v : pyval) : mx pyval :=
  match v with
  | PDict d =>
      match py_get "pattern" d with
      | PStr p =>
          raise_if negb (non_empty p) with chain_invalid ;;
          Ok (PStr (if String.prefix "glob:" p then String.substring 5 (String.length p) p
                    else if String.prefix "exact:" p then String.substring 6 (String.length p) p else p))
      | _ => Raise chain_invalid
      end
  | _ => Raise chain_invalid
  end.
Definition legacy_resource_scope (resource_scope resource_policies : pyval) : mx (list pyval) :=
  match resource_scope, resource_policies with
  | PNone, PList l => mapR scope_pattern l
  | PNone, _ => Ok []
  | v, _ => list_of v
  end.

Section Loading.
Context {D : Digests} {J : Jwt} {R : PyRepr} {K : TokenText}.

(** [json.dumps(..., ensure_ascii=False)] with sorted members, and
    [_payload_digest]. *)
Definition utf8_quoted (s : string) : string :=
  String CanonicalJson.QUOTE (CanonicalJson.escape s ++ CanonicalJson.one CanonicalJson.QUOTE).
Fixpoint dumps_utf8 (v : pyval) : string :=
  match v with
  | PNone => "null"
  | PBool b => if b then "true" else "false"
  | PInt n => CanonicalJson.str_int n
  | PFloat f => json_float f
  | PStr s => utf8_quoted s
  | PList l => "[" ++ separated "," (List.map dumps_utf8 l) ++ "]"
  | PDict d =>
      "{" ++ separated "," (merge_sort member_le
        (List.map (fun kv => (kv.1, utf8_quoted kv.1 ++ ":" ++ dumps_utf8 kv.2)) d)).*2 ++ "}"
  end.
Definition payload_digest (c : claims) : string := "sha-256:" ++ sha256_hex (dumps_utf8 (PDict c)).

(** The [MissionPassport.from_dict] call of the loader, with [__post_init__];
    [_normalize_cwd] is that of the passport. *)
Definition passport_of (c : claims) : mx mission_passport :=
  let mission := py_str (get_or "mission" (get_or "mission_id" (py_get "jti" c) c) c) in
  allowed ← list_of (get_or "allowed_tools" (get_or "allowed_tool_classes" (PList []) c) c);
  forbidden ← list_of (get_or "forbidden_tools" (PList []) c);
  scope ← legacy_resource_scope (py_get "resource_scope" c) (py_get "resource_policies" c);
  calls ← int_or chain_invalid (get_or "max_tool_calls" (PInt 50) c);
  e ← int_or chain_invalid (py_get "exp" c);
  i ← int_or chain_invalid (py_get "iat" c);
  duration ← int_or chain_invalid (get_or "max_duration_s" (PInt (Z.max 1 (e - i))) c);
  (* a policy that is neither empty nor a dict has no [get] *)
  depth0 ← match or_else (py_get "delegation_policy" c) (PDict []) with
           | PDict d => Ok (get_or "max_depth" (PInt 0) d)
           | _ => Raise MissionOther
           end;
  let delegation := truthy (get_or "delegation_allowed" (PBool (truthy depth0)) c) in
  depth ← int_or chain_invalid (get_or "max_delegation_depth" depth0 c);
  risk ← match dget "risk_budget" c with
         | None => Ok None
         | Some (PDict d) => Ok (Some d)
         | Some _ => Raise chain_invalid
         end;
  cwd ← match py_get "cwd" c with
        | PNone => Ok None
        | PStr s => match normalize_cwd (Some s) with Ok o => Ok o | Raise _ => Raise chain_invalid end
        | _ => Raise chain_invalid
        end;
  raise_if existsb (fun v => py_eq_str v UNRESTRICTED_RESOURCE_SCOPE_PATTERN) scope
           && negb (match scope with [v] => py_eq_str v UNRESTRICTED_RESOURCE_SCOPE_PATTERN | _ => false end) with chain_invalid ;;
  Ok (MissionPassport mission allowed forbidden scope calls duration delegation depth (py_get "parent_jti" c) cwd risk).

(** The record built from verified claims. *)
Definition declaration_of (c : claims) : mx MissionDeclaration :=
  p ← passport_of c;
  iat ← int_or MissionOther (py_get "iat" c);
  exp ← int_or MissionOther (py_get "exp" c);
  resources ← tuple_of_dicts (py_get "resource_policies" c);
  effects ← tuple_of_dicts (py_get "effect_policies" c);
  budgets ← dict_or_empty (py_get "lineage_budgets" c);
  delegation ← dict_or_empty (py_get "delegation_policy" c);
  flows ← tuple_of_dicts (py_get "flow_policies" c);
  telemetry ← tuple_of_strs (py_get "required_telemetry" c);
  receipts ← dict_or_empty (py_get "receipt_policy" c);
  profile ← optional_str (py_get "conformance_profile" c);
  manifest ← optional_str (py_get "tool_manifest_digest" c);
  revocation ← optional_str (py_get "revocation_ref" c);
  approvals ← dict_or_empty (py_get "approval_policy" c);
  stores ← tuple_of_dicts (py_get "governed_memory_stores" c);
  probing ← optional_int (py_get "probing_rate_limit" c);
  Ok (Declaration (py_str (py_get "mission_id" c)) (py_str (py_get "iss" c)) (py_str (py_get "sub" c)) (py_get "aud" c)
        iat exp (py_str (py_get "jti" c)) p resources effects budgets delegation flows telemetry receipts profile manifest
        revocation approvals stores probing (payload_digest c)).

Definition MD_REQUIRED : list string := ["iss"; "sub"; "aud"; "iat"; "exp"; "jti"; "mission_id"].
(** [load_mission_declaration]; [now] in ticks. *)
Definition load_mission_declaration (md_jwt : string) (key : public_key) (now : Z) : mx MissionDeclaration :=
  match t ← read_token md_jwt; jwt_decode t key (Some DEFAULT_AUDIENCE) MD_REQUIRED now with
  | None => Raise chain_invalid
  | Some c =>
      match assert_iat_in_window (py_get "iat" c) DEFAULT_IAT_FUTURE_SKEW_S DEFAULT_IAT_PAST_SKEW_S now with
      | Raise _ => Raise chain_invalid
      | Ok _ => _ ← validate_required_v01_members c; declaration_of c
      end
  end.

Context {U : ResourceScope.UnicodeData} {I : IpAddress} {Z0 : Zlib}.

(** [fetch_mission_declaration]. *)
Definition fetch_mission_declaration (r : MissionReference) (key : public_key) (n : Urls.network) (now : Z)
    : mx MissionDeclaration :=
  match Urls.urlparse (ref_uri r) with
  | None => Raise MissionOther
  | Some u =>
      raise_if negb (String.eqb (Urls.u_scheme u) "https") with chain_invalid ;;
      text ← Urls.fetch_text n (ref_uri r);
      m ← load_mission_declaration text key now;
      raise_if match ref_mission_id r with Some i => non_empty i && negb (String.eqb i (md_mission_id m)) | None => false end
        with chain_invalid ;;
      raise_if match ref_mission_digest r with
               | Some d => non_empty d && negb (String.eqb d (md_payload_digest m)) | None => false end with chain_invalid ;;
      Ok m
  end.

(** ** Revocation *)

Definition MAX_DECOMPRESSED_BYTES : Z := 16 * 2 ^ 20.
(** [_status_value]: the field at [idx], most significant bit first. *)
Definition status_bit (raw : list Z) (i : nat) : Z :=
  Z.land (Z.shiftr (nth (i / 8) raw 0) (7 - Z.of_nat (i mod 8))) 1.
Definition status_value (raw : list Z) (idx : Z) (bits : nat) : mx Z :=
  let start := idx * Z.of_nat bits in
  raise_if Z.of_nat (length raw) * 8 <? start + Z.of_nat bits with chain_invalid ;;
  Ok (foldl (fun value i => Z.lor (Z.shiftl value 1) (status_bit raw i)) 0 (seq (Z.to_nat start) bits)).

(** [mission_is_revoked]. *)
Definition mission_is_revoked (m : MissionDeclaration) (key : public_key) (n : Urls.network) (now : Z) : mx bool :=
  match md_revocation_ref m with
  | None => Ok false
  | Some reference =>
      '(uri, idx) ← Urls.parse_revocation_ref reference;
      text ← Urls.fetch_text n uri;
      match t ← read_token text; jwt_decode t key None ["iat"; "exp"] now with
      | None => Raise chain_invalid
      | Some c =>
          match assert_iat_in_window (py_get "iat" c) DEFAULT_IAT_FUTURE_SKEW_S DEFAULT_IAT_PAST_SKEW_S now with
          | Raise _ => Raise chain_invalid
          | Ok _ =>
              match get_or "status_list" (py_get "status" c) c with
              | PDict container =>
                  bits ← int_or chain_invalid (get_or "bits" (PInt 1) container);
                  raise_if negb (existsb (Z.eqb bits) [1; 2; 4; 8]) with chain_invalid ;;
                  match py_get "lst" container with
                  | PStr lst =>
                      raise_if negb (non_empty lst) with chain_invalid ;;
                      match Receipt.urlsafe_b64decode (lst ++ Receipt.padding lst) with
                      | None => Raise chain_invalid
                      | Some data =>
                          match decompress data MAX_DECOMPRESSED_BYTES with
                          | None => Raise chain_invalid
                          | Some (raw, left_over) =>
                              raise_if left_over with MissionUnavailable "status_list_too_large" ;;
                              v ← status_value raw idx (Z.to_nat bits);
                              Ok (negb (v =? 0))
                          end
                      end
                  | _ => Raise chain_invalid
                  end
              | _ => Raise chain_invalid
              end
          end
      end
  end.
End Loading.

(** ** The cache

    Two [OrderedDict]s, oldest entry first. *)

Record MissionCache := Cache { by_id : list (string * MissionDeclaration); ref_to_id : list (string * string) }.
Definition empty_cache : MissionCache := Cache [] [].
Definition MAX_ENTRIES : nat := 256.

Definition od_pop {A} (k : string) (d : list (string * A)) : list (string * A) :=
  List.filter (fun kv => negb (String.eqb k kv.1)) d.
(** [d[k] = v] and [d.move_to_end(k)]. *)
Definition od_put {A} (k : string) (v : A) (d : list (string * A)) : list (string * A) := (od_pop k d ++ [(k, v)])%list.

(** [get_by_ref]. *)
Definition get_by_ref (r : MissionReference) (c : MissionCache) : MissionCache * option MissionDeclaration :=
  let key := cache_key r in
  let found := match dget key (ref_to_id c) with
               | Some i => if non_empty i then Some i else ref_mission_id r
               | None => ref_mission_id r
               end in
  match found with
  | None => (c, None)
  | Some mission_id =>
      match dget mission_id (by_id c) with
      | None => (Cache (by_id c) (od_pop key (ref_to_id c)), None)
      | Some m =>
          if match ref_mission_digest r with
             | Some d => non_empty d && negb (String.eqb (md_payload_digest m) d) | None => false end
          then (c, None)
          else (Cache (od_put mission_id m (by_id c)) (od_put key mission_id (ref_to_id c)), Some m)
      end
  end.

(** The two eviction loops of [put], each bounded by the entries there are. *)
Fixpoint evict (fuel max : nat) (ids : list (string * MissionDeclaration)) (refs : list (string * string))
    : list (string * MissionDeclaration) * list (string * string) :=
  match fuel, ids with
  | S fuel, (evicted, _) :: ids' =>
      if (max <? length ids)%nat
      then evict fuel max ids' (List.filter (fun kv => negb (String.eqb kv.2 evicted)) refs)
      else (ids, refs)
  | _, _ => (ids, refs)
  end.
Definition put (max : nat) (m : MissionDeclaration) (r : MissionReference) (c : MissionCache) : MissionCache :=
  let ids := od_put (md_mission_id m) m (by_id c) in
  let refs := od_put (cache_key r) (md_mission_id m) (ref_to_id c) in
  let '(ids, refs) := evict (length ids) max ids refs in
  Cache ids (drop (length refs - 2 * max) refs).

(** [resolve] with the loader the proxy passes. *)
Definition resolve `{Digests} `{TokenText} `{PyRepr} `{ResourceScope.UnicodeData} `{IpAddress} (r : MissionReference)
    (key : public_key) (n : Urls.network) (now : Z) (c : MissionCache) : MissionCache * mx MissionDeclaration :=
  let '(c, found) := get_by_ref r c in
  match found with
  | Some m => (c, Ok m)
  | None =>
      match fetch_mission_declaration r key n now with
      | Raise e => (c, Raise e)
      | Ok m => (put MAX_ENTRIES m r c, Ok m)
      end
  end.

(** ** The Go implementation of status lists *)

(** [extractStatus]; [None] is its error. *)
Definition extractStatus (bits : list Z) (index bitsPerStatus : nat) : option Z :=
  if ((bitsPerStatus =? 0) || (8 <? bitsPerStatus))%nat then None
  else
    let entriesPerByte := (8 / bitsPerStatus)%nat in
    let byteIndex := (index / entriesPerByte)%nat in
    let bitOffset := ((index mod entriesPerByte) * bitsPerStatus)%nat in
    if (length bits <=? byteIndex)%nat then None
    else Some (Z.land (Z.shiftr (nth byteIndex bits 0) (Z.of_nat bitOffset)) (Z.shiftl 1 (Z.of_nat bitsPerStatus) - 1)).
(** The bytes [CompressStatusList] compresses. *)
Fixpoint pack_from (i : nat) (statuses : list Z) (bitsPerStatus : nat) (bits : list Z) : option (list Z) :=
  match statuses with
  | [] => Some bits
  | status :: statuses =>
      if Z.shiftl 1 (Z.of_nat bitsPerStatus) - 1 <? status then None
      else
        let entriesPerByte := (8 / bitsPerStatus)%nat in
        let byteIndex := (i / entriesPerByte)%nat in
        let bitOffset := ((i mod entriesPerByte) * bitsPerStatus)%nat in
        pack_from (S i) statuses bitsPerStatus
          (alter (fun b => Z.lor b (Z.shiftl status (Z.of_nat bitOffset) mod 256)) byteIndex bits)
  end.
Definition packStatusList (statuses : list Z) (bitsPerStatus : nat) : option (list Z) :=
  if negb (existsb (Nat.eqb bitsPerStatus) [1; 2; 4; 8]%nat) then None
  else
    let entriesPerByte := (8 / bitsPerStatus)%nat in
    pack_from 0 statuses bitsPerStatus
      (replicate ((length statuses + entriesPerByte - 1) / entriesPerByte) 0).
End Mission.
