(* ===== verification/SessionStore.v ===== *)
(** * Live sessions, their files and their receipts

    The session part of [GovernanceProxy] in [src/python/vibap/proxy.py]: the
    table of live sessions, the session files and the refresh of one from the
    other, the events of a session with what is attached to them later, the
    receipt of an event, and the outbox that delivers the receipts of risk
    reservations.  [gate] is the proxy with the ledgers it calls; an operation
    is a function of the monad [G], which keeps the state when it raises.  The
    locks make an operation on one session a transition of [gate].

    A session file is the session without its memory stores, together with the
    anchor of its receipts and the tag over it; JSON gives back what it was
    given.  The text of a policy message is the class [Wording], every message
    being a value of [Policy.reason].  Clock readings and new identifiers are
    arguments.  Metrics, and the local queue of receipts to anchor, are not
    kept. *)

From S2P Require Import Prelude Sha256 CanonicalJson SpendPolicy SpendLedger Merkle RiskPolicy Passport PassportPop.
From S2P Require Import ResourceScope PyJson Policy Session RiskLedger Approvals MemoryStore PassportState.
From S2P Require Import Receipt ReceiptLog Urls Mission.
Import Passport PyJson Policy.
Open Scope string_scope.
Open Scope Z_scope.

(** The texts of policy messages and of the [ValueError] of [int]. *)
Class Wording := {
  wording : reason -> string;
  int_error_text : pyval -> string
}.

Module SessionStore.

(** What an operation raises. *)
Inductive gate_exc :=
| EState (e : PassportState.state_exc)
| ERisk (e : RiskPolicy.risk_exc)
| ESpend (e : spend_exc)
| EPolicy
| EReceipt (e : Receipt.receipt_exc)
| EAnchor (e : ReceiptLog.anchor_exc)
| EMission (d : Session.Decision) (why : string) (denial : Session.DenialReason)
| EMemory
| EValue (text : string)
| EPermission
| EKey
| EType
| EOverflow.

Section Store.
Context {D : Digests} {J : Jwt} {W : Receipt.Jws} {P : Receipt.PyText} {R : PyRepr} {T : Wording}.

(** ** Sessions *)

(** What the gate attaches to an event once it is recorded. *)
Record details := Details {
  d_budget_delta : option claims;
  d_proof_ref : option pyval;
  d_measurements : option claims;
  d_risk_remaining : list (string * Z);
  d_lifecycle_id : option string;
  d_receipt : option ReceiptLog.entry;
  d_response : option string;
  d_duration_ms : pyval
}.
Definition no_details : details := Details None None None [] None None None (PInt 0).
Definition set_response (text : string) (ms : pyval) (d : details) : details :=
  Details (d_budget_delta d) (d_proof_ref d) (d_measurements d) (d_risk_remaining d) (d_lifecycle_id d)
    (d_receipt d) (Some text) ms.

(** The summary of an ended session, its elapsed time in ticks. *)
Record session_summary := Summary {
  sm_jti : string;
  sm_agent : pyval;
  sm_mission : pyval;
  sm_total_events : Z;
  sm_permits : Z;
  sm_denials : Z;
  sm_unknowns : Z;
  sm_insufficient_evidence : Z;
  sm_violations : Z;
  sm_denied_tools : list string;
  sm_elapsed : Z;
  sm_compliant : bool;
  sm_delegation_count : Z;
  sm_children_spawned : Z;
  sm_child_jtis : list string;
  sm_delegated_budget_reserved : Z
}.

(** [GovernanceSession]; [attached] has one item for every event. *)
Record live := Live {
  core : Session.GovernanceSession;
  passport_token : token;
  attached : list details;
  delegated_children : list claims;
  summary : option session_summary;
  attestation_token : option string;
  memory_stores : gmap string MemoryStore.store;
  memory_compromised_stores : gset string;
  last_memory_record_id : option string;
  last_receipt_id : option string;
  last_receipt_full_hash : option string;
  risk_policy_snapshot : option RiskPolicy.risk_policy
}.
Definition jti_of (s : live) : string := ReceiptLog.session_jti (core s).
Definition claims_of (s : live) : claims := Session.passport_claims (core s).

(** A session as [start_session] makes it. *)
Definition new_live (t : token) (s : Session.GovernanceSession) : live :=
  Live s t [] [] None None ∅ ∅ None None None None.

Definition set_core (c : Session.GovernanceSession) (a : list details) (s : live) : live :=
  Live c (passport_token s) a (delegated_children s) (summary s) (attestation_token s) (memory_stores s)
    (memory_compromised_stores s) (last_memory_record_id s) (last_receipt_id s) (last_receipt_full_hash s)
    (risk_policy_snapshot s).
Definition set_memory (m : gmap string MemoryStore.store) (last : option string) (s : live) : live :=
  Live (core s) (passport_token s) (attached s) (delegated_children s) (summary s) (attestation_token s) m
    (memory_compromised_stores s) last (last_receipt_id s) (last_receipt_full_hash s) (risk_policy_snapshot s).
Definition set_compromised (m : gset string) (s : live) : live :=
  Live (core s) (passport_token s) (attached s) (delegated_children s) (summary s) (attestation_token s)
    (memory_stores s) m (last_memory_record_id s) (last_receipt_id s) (last_receipt_full_hash s)
    (risk_policy_snapshot s).
Definition set_anchor (i h : option string) (s : live) : live :=
  Live (core s) (passport_token s) (attached s) (delegated_children s) (summary s) (attestation_token s)
    (memory_stores s) (memory_compromised_stores s) (last_memory_record_id s) i h (risk_policy_snapshot s).
Definition set_snapshot (p : option RiskPolicy.risk_policy) (s : live) : live :=
  Live (core s) (passport_token s) (attached s) (delegated_children s) (summary s) (attestation_token s)
    (memory_stores s) (memory_compromised_stores s) (last_memory_record_id s) (last_receipt_id s)
    (last_receipt_full_hash s) p.
Definition set_summary (m : option session_summary) (s : live) : live :=
  Live (core s) (passport_token s) (attached s) (delegated_children s) m (attestation_token s)
    (memory_stores s) (memory_compromised_stores s) (last_memory_record_id s) (last_receipt_id s)
    (last_receipt_full_hash s) (risk_policy_snapshot s).

(** [to_dict] and [from_dict]: the memory stores and the last record stay
    behind. *)
Definition image (s : live) : live := set_memory ∅ None s.

(** [_copy_session_state]. *)
Definition copy_session_state (target source : live) : live :=
  Live (core source) (passport_token source) (attached source) (delegated_children source) (summary source)
    (attestation_token source)
    (if bool_decide (memory_stores target = ∅) then memory_stores source else memory_stores target)
    (memory_compromised_stores target ∪ memory_compromised_stores source)
    (match last_memory_record_id target with
     | Some i => Some i | None => last_memory_record_id source end)
    (last_receipt_id source) (last_receipt_full_hash source) (risk_policy_snapshot source).

(** ** The proxy *)

(** [_pre_action_reservations]: the accepted reservations of a call. *)
Record held := Held {
  h_lineage : string; h_session : string; h_request : string; h_closed : bool
}.
Record pending := Pending { p_spend : option held; p_risk : option held }.
Definition no_pending : pending := Pending None None.

Record gate := Gate {
  g_world : PassportState.world;
  g_risk : RiskLedger.store;
  g_spend : SpendLedger.ledger_dir;
  g_registry : registry;
  g_trackers : gmap (Z * Z) Approvals.tracker;
  g_seen : gmap string string;                    (* [_last_seen_receipts] *)
  g_live : gmap string live;                      (* [sessions] *)
  g_files : gmap string (live * claims);          (* session files *)
  g_log : list ReceiptLog.line;                   (* the receipts log *)
  g_pending : pending;
  g_missions : Mission.MissionCache
}.
Definition set_world (w : PassportState.world) (g : gate) : gate :=
  Gate w (g_risk g) (g_spend g) (g_registry g) (g_trackers g) (g_seen g) (g_live g) (g_files g) (g_log g)
    (g_pending g) (g_missions g).
Definition set_risk (d : RiskLedger.store) (g : gate) : gate :=
  Gate (g_world g) d (g_spend g) (g_registry g) (g_trackers g) (g_seen g) (g_live g) (g_files g) (g_log g)
    (g_pending g) (g_missions g).
Definition set_spend (d : SpendLedger.ledger_dir) (g : gate) : gate :=
  Gate (g_world g) (g_risk g) d (g_registry g) (g_trackers g) (g_seen g) (g_live g) (g_files g) (g_log g)
    (g_pending g) (g_missions g).
Definition set_registry (r : registry) (g : gate) : gate :=
  Gate (g_world g) (g_risk g) (g_spend g) r (g_trackers g) (g_seen g) (g_live g) (g_files g) (g_log g)
    (g_pending g) (g_missions g).
Definition set_trackers (t : gmap (Z * Z) Approvals.tracker) (g : gate) : gate :=
  Gate (g_world g) (g_risk g) (g_spend g) (g_registry g) t (g_seen g) (g_live g) (g_files g) (g_log g)
    (g_pending g) (g_missions g).
Definition set_log (seen : gmap string string) (l : list ReceiptLog.line) (g : gate) : gate :=
  Gate (g_world g) (g_risk g) (g_spend g) (g_registry g) (g_trackers g) seen (g_live g) (g_files g) l
    (g_pending g) (g_missions g).
Definition set_live (m : gmap string live) (g : gate) : gate :=
  Gate (g_world g) (g_risk g) (g_spend g) (g_registry g) (g_trackers g) (g_seen g) m (g_files g) (g_log g)
    (g_pending g) (g_missions g).
Definition set_files (m : gmap string (live * claims)) (g : gate) : gate :=
  Gate (g_world g) (g_risk g) (g_spend g) (g_registry g) (g_trackers g) (g_seen g) (g_live g) m (g_log g)
    (g_pending g) (g_missions g).
Definition set_pending (p : pending) (g : gate) : gate :=
  Gate (g_world g) (g_risk g) (g_spend g) (g_registry g) (g_trackers g) (g_seen g) (g_live g) (g_files g)
    (g_log g) p (g_missions g).
Definition set_missions (c : Mission.MissionCache) (g : gate) : gate :=
  Gate (g_world g) (g_risk g) (g_spend g) (g_registry g) (g_trackers g) (g_seen g) (g_live g) (g_files g)
    (g_log g) (g_pending g) c.

(** ** The monad *)

Definition G (A : Type) : Type := gate -> gate * res gate_exc A.
#[export] Instance G_ret : MRet G := fun A a g => (g, Ok a).
#[export] Instance G_bind : MBind G := fun A B f m g =>
  match m g with
  | (g', Ok a) => f a g'
  | (g', Raise e) => (g', Raise e)
  end.
Definition throw {A} (e : gate_exc) : G A := fun g => (g, Raise e).
Definition demand (b : bool) (e : gate_exc) : G unit := if b then mret tt else throw e.
Definition lift {E A} (f : E -> gate_exc) (m : res E A) : G A := fun g =>
  (g, match m with Ok a => Ok a | Raise e => Raise (f e) end).
Definition raises {A} (m : res gate_exc A) : G A := fun g => (g, m).
Definition gets {A} (f : gate -> A) : G A := fun g => (g, Ok (f g)).
Definition modify (f : gate -> gate) : G unit := fun g => (f g, Ok tt).
(** The body of a [try]: its result or what it raises. *)
Definition attempt {A} (m : G A) : G (res gate_exc A) := fun g => let '(g', r) := m g in (g', Ok r).
Definition on_world {A} (m : PassportState.M A) : G A := fun g =>
  let '(w, r) := m (g_world g) in
  (set_world w g, match r with Ok a => Ok a | Raise e => Raise (EState e) end).
Definition on_risk {A} (m : RiskLedger.store -> RiskLedger.store * res RiskPolicy.risk_exc A) : G A := fun g =>
  let '(d, r) := m (g_risk g) in
  (set_risk d g, match r with Ok a => Ok a | Raise e => Raise (ERisk e) end).
Definition on_spend {A} (m : SpendLedger.ledger_dir -> res spend_exc (SpendLedger.ledger_dir * A)) : G A := fun g =>
  match m (g_spend g) with
  | Ok (d, a) => (set_spend d g, Ok a)
  | Raise e => (g, Raise (ESpend e))
  end.

(** The session [id], and a change of it. *)
Definition target (id : string) : G live :=
  m ← gets g_live;
  match m !! id with Some s => mret s | None => throw EKey end.
Definition update (id : string) (f : live -> live) : G unit :=
  modify (fun g => set_live (alter f id (g_live g)) g).

(** ** Session files *)

(** What the proxy is configured with. *)
Record config := Config {
  cf_verifier_id : string;
  cf_receipt_key : private_key;
  cf_public_key : public_key;
  cf_memory_key : private_key;                    (* [load_private_key(self._keys_dir)] *)
  cf_integrity_key : string;
  cf_env : ResourceScope.scope_env;
  cf_cedar : option backend;
  cf_contracts : RiskPolicy.ToolRiskRegistry;
  cf_quotes : option (gmap string SpendQuote);
  cf_policy_store : option (string -> string -> option (list pyval))
}.
Variable cf : config.

Definition anchor_claims (s : live) : claims :=
  (Receipt.opt_claim "last_receipt_id" (PStr <$> last_receipt_id s)
   ++ Receipt.opt_claim "last_receipt_full_hash" (PStr <$> last_receipt_full_hash s))%list.
(** [_persist_session]; the admission checks see the token and the claims of
    the file. *)
Definition persist_session (id : string) : G unit :=
  s ← target id;
  let jti := jti_of s in
  payload ← lift EAnchor (ReceiptLog.add_integrity (cf_integrity_key cf) jti (anchor_claims s));
  _ ← on_world (PassportState.put_disk (PassportState.set_session_file jti
        (Some (token_text (passport_token s), claims_of s))));
  modify (fun g => set_files (<[jti := (image s, payload)]> (g_files g)) g).

(** [_load_session_from_disk]. *)
Definition load_session_from_disk (id : string) : G live :=
  _ ← demand (PassportState.session_id_match id) (EValue "invalid session ID format: must be UUID");
  files ← gets g_files;
  match files !! id with
  | None => throw (EValue ("unknown session '" ++ id ++ "'"))
  | Some (s, payload) =>
      _ ← lift EAnchor (ReceiptLog.validate_integrity (cf_integrity_key cf) id payload);
      mret s
  end.

Definition install (id : string) (s : live) : G unit :=
  _ ← on_world (PassportState.put_mem (fun p =>
        PassportState.set_sessions (<[id := (passport_token s, claims_of s)]> (PassportState.sessions p)) p));
  modify (fun g => set_live (<[id := s]> (g_live g)) g).
(** [_install_or_refresh_session]. *)
Definition install_or_refresh_session (id : string) (fresh : live) (preferred : option live) : G unit :=
  m ← gets g_live;
  match m !! id, preferred with
  | Some s, _ | None, Some s => install id (copy_session_state s fresh)
  | None, None => install id fresh
  end.
(** The argument of an operation: a session, or its identifier. *)
Inductive session_arg := ById (id : string) | BySession (s : live).
Definition arg_id (a : session_arg) : string := match a with ById id => id | BySession s => jti_of s end.
(** [_locked_persisted_session]. *)
Definition locked_persisted_session (a : session_arg) : G string :=
  let id := arg_id a in
  fresh ← load_session_from_disk id;
  _ ← install_or_refresh_session id fresh (match a with ById _ => None | BySession s => Some s end);
  mret id.

(** [start_session]: what admission makes becomes a live session with a file. *)
Definition start_session (t : token) (holder : option public_key) (kb : option token) (fresh run_nonce : string)
    (public : public_key) (audience : string) (r : PassportState.readings) : G string :=
  s ← on_world (PassportState.start_session public audience (cf_policy_store cf) t holder kb fresh run_nonce r);
  let id := ReceiptLog.session_jti s in
  _ ← modify (fun g => set_live (<[id := new_live t s]> (g_live g)) g);
  _ ← persist_session id;
  mret id.

(** ** Events *)

(** [session.events.append(event)]. *)
Definition add_event (e : Session.PolicyEvent) (d : details) (s : live) : live :=
  let c := core s in
  set_core (Session.MkSession (Session.passport_claims c) (Session.events c ++ [e]) (Session.tool_call_count c)
    (Session.tool_call_count_by_class c) (Session.delegated_budget_reserved c) (Session.start_time c)
    (Session.end_time c) (Session.run_nonce c))%list (attached s ++ [d])%list s.

(** The event [_record_tool_policy_event] appends and the one
    [_synthetic_policy_event] returns. *)
Definition policy_event (s : live) (tool_name : string) (arguments : claims) (d : Session.Decision) (why : string)
    (denial : option Session.DenialReason) (verifier_id timestamp : string) : Session.PolicyEvent :=
  let tgt := policy_event_target tool_name arguments in
  let action := policy_action_class tool_name in
  let family := policy_resource_family tool_name arguments tgt action in
  Session.Event timestamp (Session.receipt_step_id (jti_of s) timestamp tool_name arguments)
    (py_str (get_or "sub" (PStr "unknown") (claims_of s))) verifier_id tool_name arguments action tgt family
    (policy_side_effect_class tool_name action family) d (Session.Text why) (jti_of s)
    (Session.run_nonce (core s)) denial [].
Definition record_tool_policy_event (id tool_name : string) (arguments : claims) (d : Session.Decision) (why : string)
    (denial : option Session.DenialReason) (timestamp : string) : G unit :=
  s ← target id;
  update id (add_event (policy_event s tool_name arguments d why denial (cf_verifier_id cf) timestamp) no_details).

(** [_downgrade_last_permit]. *)
Definition set_decision (d : Session.Decision) (why : string) (denial : option Session.DenialReason)
    (e : Session.PolicyEvent) : Session.PolicyEvent :=
  Session.Event (Session.ev_timestamp e) (Session.ev_step_id e) (Session.ev_actor e) (Session.ev_verifier_id e)
    (Session.ev_tool_name e) (Session.ev_arguments e) (Session.ev_action_class e) (Session.ev_target e)
    (Session.ev_resource_family e) (Session.ev_side_effect_class e) d (Session.Text why) (Session.ev_passport_jti e)
    (Session.ev_run_nonce e) denial (Session.ev_policy_decisions e).
Fixpoint alter_last {A} (f : A -> A) (l : list A) : list A :=
  match l with [] => [] | [x] => [f x] | x :: l => x :: alter_last f l end.
Definition downgrade_last_permit (d : Session.Decision) (why : string) (denial : option Session.DenialReason)
    (s : live) : live :=
  let c := core s in
  match last (Session.events c) with
  | None => s
  | Some e =>
      if bool_decide (Session.ev_decision e = Session.PERMIT)
      then set_core (Session.MkSession (Session.passport_claims c)
             (alter_last (set_decision d why denial) (Session.events c)) (Session.tool_call_count c - 1)
             (Session.tool_call_count_by_class c) (Session.delegated_budget_reserved c) (Session.start_time c)
             (Session.end_time c) (Session.run_nonce c)) (attached s) s
      else s
  end.

(** ** The receipt of an event *)

Definition denial_value (d : Session.DenialReason) : string :=
  match d with
  | Session.POLICY_DENIED => "policy_denied"
  | Session.BUDGET_EXHAUSTED => "budget_exhausted"
  | Session.TELEMETRY_MISSING => "telemetry_missing"
  | Session.REVOKED => "revoked"
  | Session.CHAIN_INVALID => "chain_invalid"
  | Session.MANIFEST_DRIFT => "manifest_drift"
  | Session.ENVELOPE_TAMPERED => "envelope_tampered"
  | Session.MEMORY_INTEGRITY_FAILURE => "memory_integrity_failure"
  | Session.PROBING_RATE_EXCEEDED => "probing_rate_exceeded"
  | Session.APPROVAL_FATIGUE_THRESHOLD => "approval_fatigue_threshold"
  | Session.REVOCATION_UNAVAILABLE => "revocation_unavailable"
  | Session.MEMORY_COMPROMISE_BOUNDARY => "memory_compromise_boundary"
  | Session.APPROVAL_OPERATOR_UNAVAILABLE => "approval_operator_unavailable"
  | Session.RISK_ACTION_CAP_EXCEEDED => "risk_action_cap_exceeded"
  | Session.RISK_BUDGET_EXHAUSTED => "risk_budget_exhausted"
  | Session.RISK_CONTRACT_INVALID => "risk_contract_invalid"
  | Session.RISK_FACT_INVALID => "risk_fact_invalid"
  | Session.RISK_POLICY_INVALID => "risk_policy_invalid"
  | Session.RISK_REQUEST_ID_INVALID => "risk_request_id_invalid"
  | Session.RISK_REPLAY => "risk_replay"
  | Session.RISK_STATE_UNAVAILABLE => "risk_state_unavailable"
  | Session.OBSERVATION_GAP => "observation_gap"
  end.

Definition decision_text (d : DecisionType) : string :=
  match d with Allow => "Allow" | Deny => "Deny" | Abstain => "Abstain" end.
(** The text of a reason. *)
Definition reason_text (r : Session.event_reason) : string :=
  match r with
  | Session.InScope => "within scope"
  | Session.AllAbstained => "composition fail-closed: all backends abstained"
  | Session.NativeReasons [] => "native policy denied"
  | Session.NativeReasons l => join "; " (wording <$> l)
  | Session.UnknownBackendReason r => wording r
  | Session.BackendReasons label backend l =>
      label ++ " (" ++ backend ++ "): " ++ (match l with [] => "denied" | _ => join ", " (wording <$> l) end)
  | Session.Text s => s
  end.
Definition note_of (n : Session.decision_entry) : ReceiptLog.note :=
  ReceiptLog.Note (Session.de_backend n) (Session.de_label n) (decision_text (Session.de_decision n))
    (wording <$> Session.de_reasons n).
(** A recorded event as its receipt is built from it. *)
Definition proxy_event_of (e : Session.PolicyEvent) (d : details) : ReceiptLog.proxy_event :=
  ReceiptLog.ProxyEvent
    (Receipt.Event (Session.ev_timestamp e) (Session.ev_step_id e) (Session.ev_actor e) (Session.ev_verifier_id e)
       (Session.ev_tool_name e) (Session.ev_arguments e) (Session.ev_action_class e) (Session.ev_target e)
       (Session.ev_resource_family e) (Session.ev_side_effect_class e) (reason_text (Session.ev_reason e))
       (Session.ev_passport_jti e) (Some (Session.ev_passport_jti e)) (Some (Session.ev_run_nonce e))
       (denial_value <$> Session.ev_denial_reason e) ""
       ((fun n => Receipt.DecisionNote (Session.de_backend n) (decision_text (Session.de_decision n))
                    (wording <$> Session.de_reasons n)) <$> Session.ev_policy_decisions e)
       (d_proof_ref d) None None None None (d_budget_delta d) None (d_measurements d))
    (note_of <$> Session.ev_policy_decisions e) (d_risk_remaining d).

(** The event an operation works on: the last of the session, or one that is
    in no list. *)
Inductive handle := LastEvent | LooseEvent (e : Session.PolicyEvent).
Definition event_at (h : handle) (s : live) : option (Session.PolicyEvent * details) :=
  match h with
  | LooseEvent e => Some (e, no_details)
  | LastEvent =>
      match last (Session.events (core s)), last (attached s) with
      | Some e, Some d => Some (e, d)
      | _, _ => None
      end
  end.
Definition set_details (h : handle) (f : details -> details) (s : live) : live :=
  match h with
  | LooseEvent _ => s
  | LastEvent => set_core (core s) (alter_last f (attached s)) s
  end.
(** What [_build_receipt_log_entry] leaves in the event. *)
Definition completed (e : ReceiptLog.proxy_event) (d : details) : details :=
  Details (Receipt.budget_delta (ReceiptLog.pe_event e)) (Receipt.evidence_proof_ref (ReceiptLog.pe_event e))
    (d_measurements d) (d_risk_remaining d) (d_lifecycle_id d) (d_receipt d) (d_response d) (d_duration_ms d).

(** [_build_receipt_log_entry] for an event of the session, at second [now]. *)
Definition build_entry (id : string) (h : handle) (d : Session.Decision) (audit_reason : string)
    (policy_claims : claims) (now : Z) : G ReceiptLog.entry :=
  s ← target id;
  match event_at h s with
  | None => throw EKey
  | Some (e, x) =>
      '(cs, pe, entry) ← lift EReceipt (ReceiptLog.build_receipt_log_entry (cf_receipt_key cf)
        (ReceiptLog.ChainState (core s) (last_receipt_id s) (last_receipt_full_hash s))
        (proxy_event_of e x) d audit_reason policy_claims now);
      _ ← update id (fun s => set_anchor (ReceiptLog.last_receipt_id cs) (ReceiptLog.last_receipt_full_hash cs)
            (set_details h (completed pe) s));
      mret entry
  end.

(** [_log_receipt] and [_log_receipt_once]. *)
Definition saw (x : ReceiptLog.entry) (seen : gmap string string) : gmap string string :=
  let grant := Receipt.grant_id (ReceiptLog.en_receipt x) in
  if non_empty grant then <[grant := ReceiptLog.en_receipt_id x]> seen else seen.
Definition log_receipt (x : ReceiptLog.entry) : G unit :=
  modify (fun g => set_log
    (if non_empty (ReceiptLog.en_receipt_id x) then saw x (g_seen g) else g_seen g)
    (ReceiptLog.log_receipt x (g_log g)) g).
Definition log_receipt_once (x : ReceiptLog.entry) : G unit :=
  _ ← demand (non_empty (ReceiptLog.en_receipt_id x)) (EValue "receipt entry requires a non-empty receipt_id");
  modify (fun g => set_log (saw x (g_seen g)) (ReceiptLog.log_receipt_once x (g_log g)) g).

(** ** The outbox of risk lifecycles *)

(** [_risk_measurements] of the facts, and the digest object alone for the
    digest of facts. *)
Definition measurements_of (digest : list Z) : claims :=
  [("risk_facts", PDict [("alg", PStr "sha-256"); ("canonicalization", PStr "jcs-rfc8785");
                         ("scope", PStr "measurement"); ("value", PStr (b64url digest))])].
Definition measurements_of_facts (facts : list (string * RiskPolicy.fact_value))
    : res RiskPolicy.risk_exc (string * claims) :=
  match CanonicalJson.canonical_json_bytes (PDict (prod_map id RiskPolicy.fact_pyval <$> facts)) with
  | Raise _ => Raise RiskPolicy.CanonicalizationError
  | Ok bytes => Ok ("sha256:" ++ sha256_hex bytes, measurements_of (sha256_digest bytes))
  end.
Definition measurements_of_digest (fact_digest : string) : res RiskPolicy.risk_exc claims :=
  let rest := substring 7 (String.length fact_digest) fact_digest in
  raise_if negb (String.prefix "sha256:" fact_digest) || negb (py_len fact_digest =? 71)%nat
           || negb (String.eqb rest (py_lower rest)) with RiskPolicy.risk_invalid ;;
  match Merkle.from_hex rest with
  | None => Raise RiskPolicy.risk_invalid
  | Some digest => Ok (measurements_of (Sha256.bytes digest))
  end.
(** The keys [fact.scope] of [_remaining]. *)
Definition flat_remaining (m : gmap string (per_scope Z)) : list (string * Z) :=
  concat ((fun fr => (fun s => (fr.1 ++ "." ++ scope_name s, at_scope fr.2 s)) <$> SCOPES) <$> items m).

Definition status_text (s : RiskLedger.status) : string :=
  match s with
  | RiskLedger.Active => "active" | RiskLedger.Quarantined => "quarantined"
  | RiskLedger.Committed => "committed" | RiskLedger.Released => "released"
  end.
(** The event of [_ensure_risk_lifecycle_event]. *)
Definition lifecycle_event (s : live) (r : RiskLedger.RiskOutcomeResult) (timestamp : string) : Session.PolicyEvent :=
  Session.Event timestamp (Session.receipt_step_id (jti_of s) timestamp "risk_budget_lifecycle" [])
    (py_str (get_or "sub" (PStr "unknown") (claims_of s))) (cf_verifier_id cf) "risk_budget_lifecycle" [] "observe"
    "risk_budget" "governance" "none" Session.PERMIT
    (Session.Text ("risk_outcome_" ++ status_text (RiskLedger.ro_status r))) (jti_of s)
    (Session.run_nonce (core s)) None [].
Definition lifecycle_id (r : RiskLedger.RiskOutcomeResult) : string := RiskLedger.lc_id (RiskLedger.ro_lifecycle r).
Definition set_receipt (x : option ReceiptLog.entry) (d : details) : details :=
  Details (d_budget_delta d) (d_proof_ref d) (d_measurements d) (d_risk_remaining d) (d_lifecycle_id d) x
    (d_response d) (d_duration_ms d).

(** [_ensure_risk_lifecycle_event]; [ts] and [now] are the readings of its
    clock. *)
Definition ensure_risk_lifecycle_event (id : string) (r : RiskLedger.RiskOutcomeResult) (ts : string) (now : Z)
    : G ReceiptLog.entry :=
  s ← target id;
  match find (fun d => bool_decide (d_lifecycle_id d = Some (lifecycle_id r))) (attached s) with
  | Some d =>
      match d_receipt d with
      | Some x => mret x
      | None => throw (ERisk RiskPolicy.risk_invalid)
      end
  | None =>
      m ← lift ERisk (measurements_of_digest (RiskLedger.ro_fact_digest r));
      let e := lifecycle_event s r ts in
      _ ← update id (add_event e
            (Details None None (Some m) (flat_remaining (RiskLedger.ro_remaining r)) (Some (lifecycle_id r)) None
               None (PInt 0)));
      x ← build_entry id LastEvent Session.PERMIT (reason_text (Session.ev_reason e)) (claims_of s) now;
      _ ← update id (set_details LastEvent (set_receipt (Some x)));
      mret x
  end.

Definition mark_delivered (lineage_id id : string) (r : RiskLedger.RiskOutcomeResult) (x : ReceiptLog.entry) : G unit :=
  s ← target id;
  on_risk (fun d => RiskLedger.mark_lifecycle_delivered d lineage_id (jti_of s) (RiskLedger.ro_request_hash r)
    (lifecycle_id r) (ReceiptLog.en_receipt_id x)).
(** [_log_receipt_once] and [mark_lifecycle_delivered] of one lifecycle. *)
Definition deliver_one (lineage_id id : string) (rx : RiskLedger.RiskOutcomeResult * ReceiptLog.entry) : G unit :=
  _ ← log_receipt_once rx.2;
  mark_delivered lineage_id id rx.1 rx.2.

Fixpoint each {A B} (f : nat -> A -> G B) (i : nat) (l : list A) : G (list B) :=
  match l with
  | [] => mret []
  | a :: l => b ← f i a; bs ← each f (S i) l; mret (b :: bs)
  end.
Definition for_each {A} (f : A -> G unit) (l : list A) : G unit := _ ← each (fun _ => f) 0 l; mret tt.

(** The snapshot of the risk policy, taken from the passport when there is
    none yet. *)
Definition ensure_snapshot (id : string) : G (option RiskPolicy.risk_policy) :=
  s ← target id;
  match risk_policy_snapshot s, py_get "risk_budget" (claims_of s) with
  | Some p, _ => mret (Some p)
  | None, PNone => mret None
  | None, raw =>
      p ← lift ERisk (RiskPolicy.normalize_risk_budget raw None);
      _ ← update id (set_snapshot (Some p));
      mret (Some p)
  end.
(** The receipts of the lifecycles, then their delivery. *)
Definition deliver_lifecycles (id lineage_id : string) (l : list RiskLedger.RiskOutcomeResult)
    (clock : nat -> string * Z) : G nat :=
  xs ← each (fun i r => x ← ensure_risk_lifecycle_event id r (clock i).1 (clock i).2; mret (r, x)) 0 l;
  _ ← (match xs with
       | [] => mret tt
       | _ => _ ← persist_session id; for_each (deliver_one lineage_id id) xs
       end : G unit);
  mret (length xs).
(** [flush_risk_lifecycle_outbox]. *)
Definition flush_risk_lifecycle_outbox (a : session_arg) (clock : nat -> string * Z) : G nat :=
  id ← locked_persisted_session a;
  p ← ensure_snapshot id;
  match p with
  | None => mret 0%nat
  | Some p =>
      s ← target id;
      d ← gets g_risk;
      l ← lift ERisk (RiskLedger.pending_lifecycles_for_session d (RiskPolicy.rp_lineage_id p) (jti_of s));
      deliver_lifecycles id (RiskPolicy.rp_lineage_id p) l clock
  end.

End Store.
End SessionStore.
