(* ===== verification/Gate.v ===== *)
(** * The gate: deciding a tool call

    [GovernanceProxy.evaluate_tool_call] of [src/python/vibap/proxy.py] with
    everything it consults, in the order of the code: the outbox of risk
    lifecycles, the state of the session, declared telemetry, the mission, the
    risk and spend reservations, the conformance profile, approvals, the policy
    backends and the governed memory; then the release of reservations when the
    call is not permitted, the receipt and the log.

    [readings] are what one call reads of the clock, of fresh identifiers and
    of the network, from which missions and their status lists are fetched.
    The activity log and the callback of the caller are not kept. *)

From S2P Require Import Prelude Sha256 CanonicalJson SpendPolicy SpendLedger Merkle RiskPolicy Passport PassportPop.
From S2P Require Import ResourceScope PyJson Policy Session RiskLedger Approvals MemoryStore PassportState.
From S2P Require Import Receipt ReceiptLog Urls Mission SessionStore.
Import Passport ResourceScope PyJson Policy SessionStore.
Open Scope string_scope.
Open Scope Z_scope.

(** [float] of a text. *)
Class FloatText := { float_text : string -> option SpecFloat.spec_float }.

Module Gate.

(** ** Declared telemetry *)

Definition DECLARED_TELEMETRY_FIELDS : list string :=
  ["action_class"; "tool_name"; "target"; "resource_family"; "content_class"; "content_provenance";
   "side_effect_class"; "visibility"; "sensitivity"; "instruction_bearing"; "budget_delta";
   "envelope_signature_valid"; "observed_manifest_digest"].
(** [value.strip().lower() == "full"] of a string. *)
Definition is_full (v : pyval) : bool :=
  match v with PStr s => String.eqb (py_lower (py_strip s)) "full" | _ => false end.
Definition telemetry_missing (arguments : claims) (field : string) : bool :=
  match dget field arguments with
  | None | Some PNone => true
  | Some v =>
      match v with PStr s => negb (non_empty (py_strip s)) | _ => false end
      || (String.eqb field "visibility" && negb (is_full v))
  end.
(** [_missing_declared_telemetry] and [_declared_required_telemetry]. *)
Definition missing_declared_telemetry (arguments : claims) (required : list string) : list string :=
  List.filter (telemetry_missing arguments) required.
Definition declared_required_telemetry (passport_claims : claims) : list string :=
  match py_get "required_telemetry" passport_claims with
  | PList l => omap (fun v => match v with
      | PStr f => if str_in f DECLARED_TELEMETRY_FIELDS then Some f else None
      | _ => None end) l
  | _ => []
  end.

(** ** What a call reads *)

Record readings := Readings {
  rd_fresh : string;                        (* a new sentinel *)
  rd_lifecycle : nat -> string * Z;         (* the receipts of the outbox *)
  rd_registry : Urls.network; rd_registry_time : Z;   (* fetching a declaration, ticks *)
  rd_status : Urls.network; rd_status_time : Z;       (* fetching its status list *)
  rd_timestamp : string;                    (* of the event *)
  rd_risk : Z;                              (* ticks: the risk reservation *)
  rd_quote : Z; rd_spend : Z;               (* seconds: the quote and the spend reservation *)
  rd_approval : Z;                          (* ticks *)
  rd_elapsed : Z; rd_elapsed' : Z;          (* ticks: the policy check *)
  rd_record_id : string; rd_write : Z;      (* a memory record, in seconds *)
  rd_read : Z; rd_read' : Z;                (* ticks: its verification *)
  rd_cancel : Z; rd_release : Z;            (* the release of a refused call, seconds and ticks *)
  rd_receipt : Z;                           (* seconds *)
  rd_cancel' : Z; rd_release' : Z           (* the release of a failed call *)
}.

(** [int(v)] with the exception it raises. *)
Definition int_of `{Wording} (v : pyval) : res gate_exc Z :=
  match py_int v, v with
  | Some z, _ => Ok z
  | None, PStr _ | None, PFloat SpecFloat.S754_nan => Raise (EValue (int_error_text v))
  | None, PFloat _ => Raise EOverflow
  | None, _ => Raise EType
  end.

(** [float(v)] of a window, in ticks; a fraction of a tick counts as a whole
    one, and an infinite window as one no time span reaches. *)
Inductive window := Ticks (n : Z) | NotANumber.
Definition FOREVER : Z := 2 ^ 1100.
Definition float_window (f : SpecFloat.spec_float) : window :=
  match f with
  | SpecFloat.S754_zero _ => Ticks 0
  | SpecFloat.S754_infinity s => Ticks (if s then - FOREVER else FOREVER)
  | SpecFloat.S754_nan => NotANumber
  | SpecFloat.S754_finite s m e =>
      let e := e + 22 in
      let z := if s then Z.neg m else Z.pos m in
      Ticks (if 0 <=? e then z * 2 ^ e else - (- z / 2 ^ (- e)))
  end.
Definition window_of `{Wording, FloatText} (v : pyval) : res gate_exc window :=
  match v with
  | PInt n => raise_if 2 ^ 1024 <=? Z.abs n with EOverflow ;; Ok (Ticks (n * TICKS))
  | PBool b => Ok (Ticks (if b then TICKS else 0))
  | PFloat f => Ok (float_window f)
  | PStr s => match float_text s with Some f => Ok (float_window f) | None => Raise (EValue "") end
  | _ => Raise EType
  end.

(** [type(v).__name__]. *)
Definition type_name (v : pyval) : string :=
  match v with
  | PNone => "NoneType" | PBool _ => "bool" | PInt _ => "int" | PFloat _ => "float" | PStr _ => "str"
  | PList _ => "list" | PDict _ => "dict"
  end.

Section Gate.
Context {D : Digests} {J : Jwt} {W : Receipt.Jws} {P : Receipt.PyText} {R : PyRepr} {T : Wording}.
Context {U : UnicodeData} {F : Filesystem} {X : Regex} {S : RiskPolicy.JsonSchema} {FT : FloatText}.
Context {TT : TokenText} {I : IpAddress} {Zl : Zlib}.
Variable cf : config.

(** A decision with its reason, the event and the risk reservation. *)
Definition verdict : Type := Session.Decision * string * handle.
(** Record a refusal. *)
Definition refuse (id tool_name : string) (arguments : claims) (d : Session.Decision) (why : string)
    (denial : option Session.DenialReason) (ts : string) : G verdict :=
  _ ← record_tool_policy_event cf id tool_name arguments d why denial ts;
  mret (d, why, LastEvent).

(** ** The mission *)

Definition mission_error (e : mission_exc) : gate_exc :=
  match e with
  | MissionUnavailable why => EMission Session.INSUFFICIENT_EVIDENCE why Session.REVOCATION_UNAVAILABLE
  | MissionBinding why => EMission Session.VIOLATION why Session.CHAIN_INVALID
  | MissionOther => EPolicy
  end.
Definition risk_policy_mismatch : gate_exc :=
  EMission Session.VIOLATION "risk_policy_invalid" Session.RISK_POLICY_INVALID.
(** [except (PermissionError, RiskBudgetError)]. *)
Definition budget_error (e : RiskPolicy.risk_exc) : bool :=
  match e with
  | RiskPolicy.RiskBudgetError _ | RiskPolicy.RiskFactError | RiskPolicy.RiskBudgetConflictError
  | RiskPolicy.RiskBudgetReplayError => true
  | _ => false
  end.
Definition attenuation_error (e : RiskPolicy.risk_exc) : bool :=
  budget_error e || bool_decide (e = RiskPolicy.PermissionError).
(** The narrower of the two risk budgets, whichever it is. *)
Definition narrower_risk (authoritative presented : claims) : res gate_exc RiskPolicy.risk_policy :=
  match RiskPolicy.attenuate_risk_budget (PDict authoritative) (Some presented) with
  | Ok p => Ok p
  | Raise e =>
      if attenuation_error e then
        match RiskPolicy.attenuate_risk_budget (PDict presented) (Some authoritative) with
        | Ok p => Ok p
        | Raise e => if attenuation_error e then Raise risk_policy_mismatch else Raise (ERisk e)
        end
      else Raise (ERisk e)
  end.
(** [a or b or c]. *)
Definition first_truthy (l : list pyval) : pyval := foldr or_else PNone l.
(** The claims a resolved mission gives the session. *)
Definition mission_claims (passport : claims) (raw : pyval) (mission : Mission.MissionDeclaration) : res gate_exc claims :=
  let c := Mission.policy_claims mission in
  c ← (match py_get "risk_budget" passport, py_get "risk_budget" c with
       | PNone, _ => Ok c
       | PDict presented, PDict authoritative =>
           p ← narrower_risk authoritative presented;
           Ok (dset "risk_budget" (PDict (RiskPolicy.risk_policy_dict p)) c)
       | _, _ => Raise risk_policy_mismatch
       end);
  let c := dset "mission_digest" (PStr (Mission.md_payload_digest mission)) (dset "mission_ref" raw c) in
  let mission_id := first_truthy [py_get "mission_id" passport; py_get "mission_id" c; py_get "sub" passport] in
  if truthy mission_id then
    let c := dset "mission_id" (PStr (py_str mission_id)) c in
    match cf_policy_store cf with
    | None => Ok c
    | Some get_policies =>
        match get_policies (py_str mission_id) (py_str (get_or "sub" (PStr "") passport)) with
        | None => Ok c
        | Some specs => Ok (dset "additional_policies" (PList specs) c)
        end
    end
  else Ok c.
Definition on_missions {A} (m : Mission.MissionCache -> Mission.MissionCache * res mission_exc A) : G A := fun g =>
  let '(c, r) := m (g_missions g) in
  (set_missions c g, match r with Ok a => Ok a | Raise e => Raise (mission_error e) end).
(** [_resolve_authoritative_policy_claims]. *)
Definition resolve_authoritative_policy_claims (passport : claims) (r : readings) : G claims :=
  match py_get "mission_ref" passport with
  | PNone => mret passport
  | raw =>
      reference ← lift mission_error (Mission.parse_mission_ref raw);
      mission ← on_missions (Mission.resolve reference (cf_public_key cf) (rd_registry r) (rd_registry_time r));
      revoked ← lift mission_error (Mission.mission_is_revoked mission (cf_public_key cf) (rd_status r) (rd_status_time r));
      _ ← demand (negb revoked) (EMission Session.VIOLATION "revoked" Session.REVOKED);
      raises (mission_claims passport raw mission)
  end.

(** ** The risk reservation *)

Record preflight := Preflight {
  pf_accepted : bool;
  pf_reason : string;
  pf_denial : option Session.DenialReason;
  pf_measurements : option claims;
  pf_remaining : list (string * Z)
}.
Definition ungoverned : preflight := Preflight true "" None None [].
Definition risk_denied (why : string) (denial : Session.DenialReason) (m : option claims) : preflight :=
  Preflight false why (Some denial) m [].

(** Equality of normalised policies as dicts. *)
Definition policy_maps (p : RiskPolicy.risk_policy)
    : string * gmap string (string * gmap string RiskPolicy.fact_value) * gmap string (per_scope Z) :=
  (RiskPolicy.rp_lineage_id p,
   list_to_map (prod_map id (fun t => (RiskPolicy.contract_digest t, list_to_map (RiskPolicy.max_facts t)))
                  <$> RiskPolicy.rp_tools p),
   list_to_map (RiskPolicy.rp_ceilings p)).
Definition same_policy (p q : RiskPolicy.risk_policy) : bool := bool_decide (policy_maps p = policy_maps q).

(** The policy in force: the snapshot of the session, which the current claims
    must still agree with; [None] for a policy that is not valid. *)
Definition pinned_policy (id : string) (policy_claims : claims) : G (option RiskPolicy.risk_policy) :=
  s ← target id;
  match py_get "risk_budget" policy_claims with
  | PNone => mret None
  | raw =>
      match RiskPolicy.normalize_risk_budget raw None with
      | Raise e => if budget_error e then mret None else throw (ERisk e)
      | Ok current =>
          match risk_policy_snapshot s with
          | None => _ ← update id (set_snapshot (Some current)); mret (Some current)
          | Some p => mret (if same_policy current p then Some p else None)
          end
      end
  end.

Definition request_id_ok (risk_request_id : option string) : option string :=
  match risk_request_id with
  | Some i => if non_empty (py_strip i) && (Z.of_nat (String.length i) <=? 1024) then Some i else None
  | None => None
  end.
Definition canonical_hash (v : pyval) : res RiskPolicy.risk_exc string :=
  match CanonicalJson.canonical_json_bytes v with
  | Ok bytes => Ok (sha256_hex bytes)
  | Raise _ => Raise RiskPolicy.CanonicalizationError
  end.
(** [int(session.passport_claims["exp"])]. *)
Definition expiry (s : live) : res gate_exc Z :=
  match dget "exp" (claims_of s) with Some v => int_of v | None => Raise EKey end.
Definition agent_of (s : live) : string := py_str (get_or "sub" (PStr "unknown") (claims_of s)).

Definition action_denial (e : RiskPolicy.risk_exc) (m : claims) : preflight :=
  match e with
  | RiskPolicy.RiskBudgetError "risk_action_cap_exceeded" =>
      risk_denied "risk_action_cap_exceeded" Session.RISK_ACTION_CAP_EXCEEDED (Some m)
  | RiskPolicy.RiskBudgetError "risk_contract_digest_mismatch" =>
      risk_denied "risk_contract_invalid" Session.RISK_CONTRACT_INVALID (Some m)
  | _ => risk_denied "risk_policy_invalid" Session.RISK_POLICY_INVALID (Some m)
  end.

(** The call of the ledger that [_risk_preflight] makes. *)
Definition risk_call (s : live) (p : RiskPolicy.risk_policy) (c : RiskPolicy.ToolRiskContract) (tool_name : string)
    (arguments : claims) (request_id fact_digest : string) (numeric : list (string * Z))
    : res gate_exc RiskLedger.reserve_call :=
  match policy_hash ← canonical_hash (PDict (RiskPolicy.risk_policy_dict p));
        fingerprint ← canonical_hash (PDict [("session", PStr (jti_of s)); ("tool", PStr tool_name);
          ("arguments", PDict arguments); ("risk_request_id", PStr request_id)]);
        Ok (policy_hash, fingerprint)
  with
  | Raise e => Raise (ERisk e)
  | Ok (policy_hash, fingerprint) =>
      exp ← expiry s;
      Ok (RiskLedger.ReserveCall (RiskPolicy.rp_lineage_id p) (jti_of s) (agent_of s) request_id fingerprint numeric
            (list_to_map (RiskPolicy.rp_ceilings p)) ("sha256:" ++ policy_hash) (RiskPolicy.digest c) fact_digest exp)
  end.

(** The reservation of a governed action, from the facts on. *)
Definition reserve_risk (id : string) (p : RiskPolicy.risk_policy) (c : RiskPolicy.ToolRiskContract)
    (tool_name : string) (arguments : claims) (request_id : string) (now : Z) : G preflight :=
  s ← target id;
  match RiskPolicy.extract c (PDict arguments) with
  | Raise RiskPolicy.RiskFactError =>
      mret (risk_denied "risk_fact_invalid" Session.RISK_FACT_INVALID None)
  | Raise e => throw (ERisk e)
  | Ok facts =>
      '(fact_digest, m) ← lift ERisk (measurements_of_facts facts);
      match RiskPolicy.validate_action_risk (PDict (RiskPolicy.risk_policy_dict p)) c facts with
      | Raise e => if budget_error e then mret (action_denial e m) else throw (ERisk e)
      | Ok numeric =>
          call ← raises (risk_call s p c tool_name arguments request_id fact_digest numeric);
          r ← attempt (on_risk (fun d => RiskLedger.reserve d call now));
          match r with
          | Raise (ERisk RiskPolicy.RiskBudgetReplayError) =>
              mret (risk_denied "risk_request_replay" Session.RISK_REPLAY (Some m))
          | Raise (ERisk e) =>
              if budget_error e
              then mret (risk_denied "risk_state_unavailable" Session.RISK_STATE_UNAVAILABLE (Some m))
              else throw (ERisk e)
          | Raise e => throw e
          | Ok reservation =>
              if RiskLedger.rr_accepted reservation then
                _ ← modify (fun g => set_pending (Pending (p_spend (g_pending g))
                      (Some (Held (RiskPolicy.rp_lineage_id p) (jti_of s) request_id false))) g);
                mret (Preflight true "" None (Some m) (flat_remaining (RiskLedger.rr_remaining reservation)))
              else
                mret (Preflight false "risk_budget_exhausted" (Some Session.RISK_BUDGET_EXHAUSTED) (Some m)
                        (flat_remaining (RiskLedger.rr_remaining reservation)))
          end
      end
  end.

(** [_risk_preflight]. *)
Definition risk_preflight (id tool_name : string) (arguments policy_claims : claims)
    (risk_request_id : option string) (now : Z) : G preflight :=
  s ← target id;
  match py_get "risk_budget" policy_claims, risk_policy_snapshot s with
  | PNone, None => mret ungoverned
  | _, _ =>
      p ← pinned_policy id policy_claims;
      match p with
      | None => mret (risk_denied "risk_policy_invalid" Session.RISK_POLICY_INVALID None)
      | Some p =>
          match RiskPolicy.resolve tool_name (cf_contracts cf), dget tool_name (RiskPolicy.rp_tools p) with
          | None, None => mret ungoverned
          | Some c, Some _ =>
              if is_memory_store_tool tool_name
              then mret (risk_denied "risk_contract_invalid" Session.RISK_CONTRACT_INVALID None)
              else match request_id_ok risk_request_id with
                   | None => mret (risk_denied "risk_request_id_invalid" Session.RISK_REQUEST_ID_INVALID None)
                   | Some request_id => reserve_risk id p c tool_name arguments request_id now
                   end
          | _, _ => mret (risk_denied "risk_contract_invalid" Session.RISK_CONTRACT_INVALID None)
          end
      end
  end.

(** ** The spend reservation *)

(** [_reserve_spend_if_required]. *)
Definition reserve_spend_if_required (id tool_name : string) (policy_claims : claims)
    (spend_request : option SpendReservationRequest) (quote_now now : Z) : G (option SpendReservationResult) :=
  let unmetered := (match spend_request with
    | Some _ => throw (ESpend (SpendBudgetError "spend_request_unexpected")) | None => mret None end
    : G (option SpendReservationResult)) in
  match py_get "spend_budget" policy_claims with
  | PNone => unmetered
  | raw =>
      policy ← lift ESpend (normalize_spend_budget raw None true);
      if negb (str_in tool_name (sp_metered_tools policy)) then unmetered
      else match spend_request, cf_quotes cf with
      | None, _ => throw (ESpend (SpendBudgetError "spend_reservation_missing"))
      | Some _, None => throw (ESpend (SpendBudgetError "spend_quote_store_unavailable"))
      | Some request, Some quotes =>
          s ← target id;
          quote ← lift ESpend (resolve_quote quotes (r_quote_id request) tool_name (r_model request)
                    (sp_currency policy) quote_now);
          exp ← raises (expiry s);
          r ← on_spend (fun d => SpendLedger.reserve d (spend_policy_dict policy) (jti_of s) (agent_of s) request
                quote now (Some exp));
          _ ← (if SpendLedger.accepted r
               then modify (fun g => set_pending (Pending (Some (Held (default "" (sp_lineage_id policy)) (jti_of s)
                      (request_id request) false)) (p_risk (g_pending g))) g)
               else mret tt : G unit);
          mret (Some r)
      end
  end.

(** ** Releasing what a call reserved *)

Definition close (h : held) : held := Held (h_lineage h) (h_session h) (h_request h) true.
Definition close_spend (g : gate) : gate :=
  set_pending (Pending (close <$> p_spend (g_pending g)) (p_risk (g_pending g))) g.
Definition close_risk (g : gate) : gate :=
  set_pending (Pending (p_spend (g_pending g)) (close <$> p_risk (g_pending g))) g.
(** Release one reservation unless it is closed already; what the ledger
    raises is returned. *)
Definition release_one {A} (h : option held) (ledger : held -> G A) (closed : gate -> gate)
    : G (res gate_exc (option A)) :=
  match h with
  | None => mret (Ok None)
  | Some h =>
      if h_closed h then mret (Ok None)
      else
        r ← attempt (ledger h);
        match r with
        | Raise e => mret (Raise e)
        | Ok a => _ ← modify closed; mret (Ok (Some a))
        end
  end.
Definition cancel_spend (code : string) (now : Z) (h : held) : G SpendCloseResult :=
  on_spend (fun d => SpendLedger.cancel d (h_lineage h) (h_session h) (h_request h) (PStr code) now).
Definition release_risk (now : Z) (h : held) : G RiskLedger.RiskOutcomeResult :=
  on_risk (fun d => RiskLedger.record_outcome d (h_lineage h) (h_session h) (h_request h) RiskLedger.Release now).
(** [_release_pre_action_reservations]. *)
Definition release_pre_action_reservations (spend_code : string) (spend_now risk_now : Z)
    : G (option RiskLedger.RiskOutcomeResult * option SpendCloseResult) :=
  p ← gets g_pending;
  spend ← release_one (p_spend p) (cancel_spend spend_code spend_now) close_spend;
  risk ← release_one (p_risk p) (release_risk risk_now) close_risk;
  match spend, risk with
  | Raise _, _ => throw (ESpend (SpendBudgetError "spend_compensation_failed"))
  | Ok _, Raise _ => throw (ERisk (RiskPolicy.RiskBudgetError "risk_compensation_failed"))
  | Ok spend, Ok risk => mret (risk, spend)
  end.

(** ** Conformance profiles *)

Definition mic_failure : Type := Session.Decision * string * Session.DenialReason.
(** [x in self._last_seen_receipts]. *)
Definition seen (v : pyval) (m : gmap string string) : res gate_exc bool :=
  match v with
  | PStr s => Ok (bool_decide (is_Some (m !! s)))
  | PList _ | PDict _ => Raise EType
  | _ => Ok false
  end.
(** The manifest digest, the envelope signature and the visibility. *)
Definition manifest_check (arguments policy_claims : claims) : res gate_exc (option mic_failure) :=
  let expected := py_get "tool_manifest_digest" policy_claims in
  if negb (truthy expected) then Ok None
  else match py_get "observed_manifest_digest" arguments with
       | PStr observed =>
           if negb (non_empty observed)
           then Ok (Some (Session.VIOLATION, "manifest_drift:missing", Session.MANIFEST_DRIFT))
           else match expected with
                | PStr e =>
                    if String.eqb (py_strip observed) (py_strip e) then Ok None
                    else Ok (Some (Session.VIOLATION,
                               "manifest_drift:expected=" ++ e ++ " observed=" ++ py_strip observed,
                               Session.MANIFEST_DRIFT))
                | _ => Raise EType
                end
       | _ => Ok (Some (Session.VIOLATION, "manifest_drift:missing", Session.MANIFEST_DRIFT))
       end.
Definition envelope_check (arguments : claims) : option mic_failure :=
  match py_get "envelope_signature_valid" arguments with
  | PBool true => None
  | _ => Some (Session.VIOLATION, "envelope_tampered", Session.ENVELOPE_TAMPERED)
  end.
Definition visibility_check (arguments : claims) : option mic_failure :=
  let v := py_get "visibility" arguments in
  if is_full v then None
  else Some (Session.UNKNOWN,
         "visibility_insufficient:" ++ (match v with PStr s => s | _ => type_name v end), Session.OBSERVATION_GAP).
(** Hidden hops: the parent, then every ancestor of the chain, has a receipt. *)
Fixpoint chain_check (m : gmap string string) (chain : list pyval) : res gate_exc (option mic_failure) :=
  match chain with
  | [] => Ok None
  | entry :: chain =>
      let entry_jti := match entry with PDict d => py_get "jti" d | _ => PNone end in
      if negb (truthy entry_jti) then chain_check m chain
      else match seen entry_jti m with
           | Raise e => Raise e
           | Ok true => chain_check m chain
           | Ok false => Ok (Some (Session.INSUFFICIENT_EVIDENCE,
                           "delegation_chain_receipt_gap:" ++ py_str entry_jti, Session.TELEMETRY_MISSING))
           end
  end.
Definition hidden_hop_check (passport : claims) (m : gmap string string) : res gate_exc (option mic_failure) :=
  let parent_jti := py_get "parent_jti" passport in
  if negb (truthy parent_jti) then Ok None
  else match seen parent_jti m with
       | Raise e => Raise e
       | Ok false => Ok (Some (Session.INSUFFICIENT_EVIDENCE, "missing_parent_receipt:" ++ py_str parent_jti,
                       Session.TELEMETRY_MISSING))
       | Ok true => match py_iter (or_else (py_get "delegation_chain" passport) (PList [])) with
                    | Raise _ => Raise EType
                    | Ok chain => chain_check m chain
                    end
       end.
(** The first failing check. *)
Fixpoint first_failure (checks : list (res gate_exc (option mic_failure))) : res gate_exc (option mic_failure) :=
  match checks with
  | [] => Ok None
  | Ok None :: checks => first_failure checks
  | c :: _ => c
  end.
(** [_apply_mic_conformance_checks]. *)
Definition mic_checks (passport arguments policy_claims : claims) (m : gmap string string)
    : res gate_exc (option mic_failure) :=
  let profile := or_else (py_get "conformance_profile" policy_claims) (PStr "Delegation-Core") in
  if py_eq_str profile "Delegation-Core" then Ok None
  else first_failure
    ([manifest_check arguments policy_claims; Ok (envelope_check arguments); Ok (visibility_check arguments)]
     ++ (if py_eq_str profile "MIC-Evidence" then [hidden_hop_check passport m] else []))%list.

(** ** Approvals *)

(** [_approval_tracker]: the key of the tracker.  A window that is not a number
    is found under no key, so its tracker is new at every call. *)
Definition approval_tracker (max : Z) (w : window) : G (option (Z * Z)) :=
  match w with
  | NotANumber => _ ← demand (1 <=? max) (EValue ""); mret None
  | Ticks n =>
      m ← gets g_trackers;
      match m !! (max, n) with
      | Some _ => mret (Some (max, n))
      | None =>
          tr ← lift (fun _ => EValue "") (Approvals.new_tracker max n);
          _ ← modify (fun g => set_trackers (<[(max, n) := tr]> (g_trackers g)) g);
          mret (Some (max, n))
      end
  end.
Definition on_tracker {A} (k : Z * Z) (f : Approvals.tracker -> res Approvals.approval_exc (Approvals.tracker * A))
    : G A :=
  m ← gets g_trackers;
  match m !! k with
  | None => throw EKey
  | Some tr =>
      '(tr, a) ← lift (fun _ => EValue "") (f tr);
      _ ← modify (fun g => set_trackers (<[k := tr]> (g_trackers g)) g);
      mret a
  end.
Definition may_approve (k : option (Z * Z)) (operator : string) (ts : Z) : G bool :=
  match k with Some k => on_tracker k (Approvals.check operator ts) | None => mret true end.
Definition note_approval (k : option (Z * Z)) (operator : string) (ts : Z) : G unit :=
  match k with
  | Some k => on_tracker k (fun tr => tr ← Approvals.record_approval operator ts tr; Ok (tr, tt))
  | None => mret tt
  end.
(** [_approval_operator_id]. *)
Definition operator_text (v : pyval) : option string :=
  match v with
  | PStr s => let normalized := py_strip s in if non_empty normalized then Some normalized else None
  | _ => None
  end.
Definition approval_operator_id (policy_claims arguments : claims) : option string :=
  match operator_text (py_get "operator_id" policy_claims) with
  | Some o => Some o
  | None => operator_text (py_get "operator_id" arguments)
  end.
Definition MAX_APPROVALS : string := "max_approvals_per_hour_per_operator".
(** The rate the policy asks for, with its tracker: [None] for no rate, and
    [Some None] for a rate that is not valid. *)
Definition approval_rate (policy_claims : claims) : G (option (option (option (Z * Z)))) :=
  match py_get "approval_policy" policy_claims with
  | PDict pol =>
      match py_get MAX_APPROVALS pol with
      | PNone => mret None
      | raw =>
          r ← attempt (max ← raises (int_of raw);
                       w ← raises (window_of (get_or "window_s" (PInt 3600) pol));
                       approval_tracker max w : G (option (Z * Z)));
          match r with
          | Ok k => mret (Some (Some k))
          | Raise EType | Raise (EValue _) => mret (Some None)
          | Raise e => throw e
          end
      end
  | _ => mret None
  end.

(** ** Governed memory *)

(** [_get_or_create_memory_store]. *)
Definition get_or_create_memory_store (id store_id : string) (arguments : claims) : G MemoryStore.store :=
  s ← target id;
  match memory_stores s !! store_id with
  | Some st => mret st
  | None =>
      ttl ← raises (int_of (get_or "ttl_s" (PInt 3600) arguments));
      st ← lift (fun _ => EValue "ttl_s must be positive") (MemoryStore.new_store store_id
             (py_str (get_or "resource_family" (PStr "vibap.memory.generic") arguments)) ttl
             (get_or "integrity_policy" (PStr "default") arguments));
      _ ← update id (fun s => set_memory (<[store_id := st]> (memory_stores s)) (last_memory_record_id s) s);
      mret st
  end.
(** [isinstance(v, str) and v]. *)
Definition some_text (v : pyval) (e : gate_exc) : G string :=
  match v with PStr s => if non_empty s then mret s else throw e | _ => throw e end.
(** [_proxy_memory_write]. *)
Definition proxy_memory_write (id : string) (arguments : claims) (r : readings) : G unit :=
  store_id ← some_text (py_get "store_id" arguments) (EValue "memory_store_write requires store_id");
  content ← (match py_get "content" arguments with
             | PStr c => mret c
             | _ => throw (EValue "memory_store_write requires content (str)") end : G string);
  _ ← demand (negb (has_key "actor_private_key_pem" arguments))
        (EValue ("memory_store_write no longer accepts caller-supplied " ++
          "actor_private_key_pem; the proxy's session-bound key is " ++
          "the canonical signer (FIX-8, 2026-04-28). Remove the " ++
          "argument from your tool-call payload."));
  st ← get_or_create_memory_store id store_id arguments;
  let '(st, record_id) := MemoryStore.write st content (cf_memory_key cf) (rd_record_id r) (rd_write r) in
  update id (fun s => set_memory (<[store_id := st]> (memory_stores s)) (Some record_id) s).
(** [_proxy_memory_read]. *)
Definition proxy_memory_read (id : string) (arguments : claims) (r : readings) : G unit :=
  store_id ← some_text (py_get "store_id" arguments) (EValue "memory_store_read requires store_id");
  record_id ← some_text (py_get "record_id" arguments) (EValue "memory_store_read requires record_id");
  s ← target id;
  match memory_stores s !! store_id with
  | None => throw EMemory
  | Some st =>
      _ ← demand (negb (has_key "verifier_public_key_pem" arguments))
            (EValue ("memory_store_read no longer accepts caller-supplied " ++
              "verifier_public_key_pem; the proxy's session-bound public " ++
              "key is the canonical verifier (FIX-8, 2026-04-28). Remove " ++
              "the argument from your tool-call payload."));
      _ ← lift (fun _ => EMemory) (MemoryStore.read st record_id (cf_public_key cf) (rd_read r) (rd_read' r));
      mret tt
  end.
(** [_apply_memory_post_permit]. *)
Definition mark_compromised (arguments : claims) (s : live) : live :=
  match py_get "store_id" arguments with
  | PStr sid => if non_empty sid then set_compromised ({[sid]} ∪ memory_compromised_stores s) s else s
  | _ => s
  end.
Definition apply_memory_post_permit (id tool_name : string) (arguments : claims) (r : readings)
    : G (Session.Decision * string) :=
  if negb (is_memory_store_tool tool_name) then mret (Session.PERMIT, "within scope")
  else
    out ← attempt (if String.eqb tool_name MEMORY_STORE_WRITE_TOOL then proxy_memory_write id arguments r
                   else proxy_memory_read id arguments r);
    match out with
    | Ok _ => mret (Session.PERMIT, "within scope")
    | Raise (EValue text) =>
        _ ← update id (downgrade_last_permit Session.DENY text (Some Session.POLICY_DENIED));
        mret (Session.DENY, text)
    | Raise EMemory =>
        _ ← update id (fun s => downgrade_last_permit Session.VIOLATION "memory_integrity_failure"
              (Some Session.MEMORY_INTEGRITY_FAILURE) (mark_compromised arguments s));
        mret (Session.VIOLATION, "memory_integrity_failure")
    | Raise e => throw e
    end.

(** ** The policy check *)

(** [GovernanceSession.check_and_record] on the session. *)
Definition check_and_record (id tool_name : string) (arguments policy_claims : claims) (r : readings)
    : G (Session.Decision * string) :=
  s ← target id;
  reg ← gets g_registry;
  '(reg, c, e) ← lift (fun _ => EPolicy) (Session.check_and_record (cf_env cf) (cf_cedar cf) (core s) tool_name
      arguments (Some policy_claims) (cf_verifier_id cf) reg (rd_elapsed r) (rd_elapsed' r) (rd_timestamp r));
  _ ← modify (set_registry reg);
  _ ← update id (fun s => set_core c (attached s ++ [no_details])%list s);
  mret (Session.ev_decision e, reason_text (Session.ev_reason e)).

(** The check and what follows a permit. *)
Definition check_and_apply (id tool_name : string) (arguments policy_claims : claims) (r : readings) : G verdict :=
  '(d, why) ← check_and_record id tool_name arguments policy_claims r;
  if bool_decide (d = Session.PERMIT)
  then '(d, why) ← apply_memory_post_permit id tool_name arguments r; mret (d, why, LastEvent)
  else mret (d, why, LastEvent).
(** [_evaluate_ordinary_tool_policy]. *)
Definition evaluate_ordinary_tool_policy (id tool_name : string) (arguments policy_claims : claims) (r : readings)
    : G verdict :=
  let insufficient why denial :=
    refuse id tool_name arguments Session.INSUFFICIENT_EVIDENCE why (Some denial) (rd_timestamp r) in
  rate ← approval_rate policy_claims;
  match rate with
  | None => check_and_apply id tool_name arguments policy_claims r
  | Some None => insufficient "approval_policy_invalid" Session.TELEMETRY_MISSING
  | Some (Some k) =>
      match approval_operator_id policy_claims arguments with
      | None => insufficient "approval_operator_unavailable" Session.APPROVAL_OPERATOR_UNAVAILABLE
      | Some operator =>
          ok ← may_approve k operator (rd_approval r);
          if negb ok then insufficient "approval_fatigue_threshold" Session.APPROVAL_FATIGUE_THRESHOLD
          else
            '(d, why, h) ← check_and_apply id tool_name arguments policy_claims r;
            _ ← (if bool_decide (d = Session.PERMIT) then note_approval k operator (rd_approval r)
                 else mret tt : G unit);
            mret (d, why, h)
      end
  end.

(** ** The decision *)

Definition spend_code (e : gate_exc) : option string :=
  match e with
  | ESpend (SpendBudgetError code) | ESpend (SpendBudgetConflictError code) => Some code
  | _ => None
  end.
(** From the spend reservation to the verdict. *)
Definition decide_reserved (id tool_name : string) (arguments policy_claims : claims)
    (spend_request : option SpendReservationRequest) (r : readings)
    : G (verdict * option SpendReservationResult) :=
  spend ← attempt (reserve_spend_if_required id tool_name policy_claims spend_request (rd_quote r) (rd_spend r));
  match spend with
  | Raise e =>
      match spend_code e with
      | Some code =>
          v ← refuse id tool_name arguments Session.INSUFFICIENT_EVIDENCE code (Some Session.TELEMETRY_MISSING)
                (rd_timestamp r);
          mret (v, None)
      | None => throw e
      end
  | Ok reservation =>
      match reservation with
      | Some (SpendLedger.ReservationResult false code _ _ _ _ _ _) =>
          v ← refuse id tool_name arguments Session.DENY code (Some Session.BUDGET_EXHAUSTED) (rd_timestamp r);
          mret (v, reservation)
      | _ =>
          s ← target id;
          receipts ← gets g_seen;
          mic ← raises (mic_checks (claims_of s) arguments policy_claims receipts);
          v ← (match mic with
               | Some (d, why, denial) =>
                   refuse id tool_name arguments d why (Some denial) (rd_timestamp r)
               | None => evaluate_ordinary_tool_policy id tool_name arguments policy_claims r
               end : G verdict);
          mret (v, reservation)
      end
  end.

Definition set_budget_delta (c : claims) (d : details) : details :=
  Details (Some c) (d_proof_ref d) (d_measurements d) (d_risk_remaining d) (d_lifecycle_id d) (d_receipt d)
    (d_response d) (d_duration_ms d).
Definition set_lifecycle (i : string) (d : details) : details :=
  Details (d_budget_delta d) (d_proof_ref d) (d_measurements d) (d_risk_remaining d) (Some i) (d_receipt d)
    (d_response d) (d_duration_ms d).
Definition set_risk_details (m : option claims) (remaining : list (string * Z)) (d : details) : details :=
  Details (d_budget_delta d) (d_proof_ref d) m remaining (d_lifecycle_id d) (d_receipt d) (d_response d)
    (d_duration_ms d).

(** What follows the verdict of a reserved call: a call that is not permitted
    gives back what it holds, and the event gets its budget delta. *)
Definition settle_verdict (id : string) (v : verdict) (spend : option SpendReservationResult) (pf : preflight)
    (r : readings) : G (option RiskLedger.RiskOutcomeResult * preflight) :=
  let '(d, _, h) := v in
  '(released, spend_close) ← (if bool_decide (d = Session.PERMIT) then mret (None, None)
     else release_pre_action_reservations "spend_action_not_permitted" (rd_cancel r) (rd_release r)
     : G (option RiskLedger.RiskOutcomeResult * option SpendCloseResult));
  pf ← (match released with
        | None => mret pf
        | Some o =>
            _ ← update id (set_details h (set_lifecycle (lifecycle_id o)));
            mret (Preflight true "" None (pf_measurements pf) (flat_remaining (RiskLedger.ro_remaining o)))
        end : G preflight);
  _ ← (match spend with
       | None => mret tt
       | Some reservation =>
           update id (set_details h (set_budget_delta (match spend_close with
             | Some c => ReceiptLog.spend_close_delta c
             | None => ReceiptLog.spend_reservation_delta reservation end)))
       end : G unit);
  mret (released, pf).

Definition risk_refusal (denial : option Session.DenialReason) : Session.Decision :=
  match denial with
  | Some Session.RISK_ACTION_CAP_EXCEEDED | Some Session.RISK_BUDGET_EXHAUSTED | Some Session.RISK_REPLAY =>
      Session.DENY
  | _ => Session.INSUFFICIENT_EVIDENCE
  end.
(** The branch with resolved policy claims. *)
Definition decide_governed (id tool_name : string) (arguments policy_claims : claims) (risk_request_id : option string)
    (spend_request : option SpendReservationRequest) (r : readings)
    : G (verdict * option RiskLedger.RiskOutcomeResult) :=
  pf ← risk_preflight id tool_name arguments policy_claims risk_request_id (rd_risk r);
  '(v, released, pf) ← (
     if negb (pf_accepted pf) then
       v ← refuse id tool_name arguments (risk_refusal (pf_denial pf))
             (if non_empty (pf_reason pf) then pf_reason pf else "risk_policy_invalid") (pf_denial pf)
             (rd_timestamp r);
       mret (v, None, pf)
     else
       '(v, spend) ← decide_reserved id tool_name arguments policy_claims spend_request r;
       '(released, pf) ← settle_verdict id v spend pf r;
       mret (v, released, pf)
     : G (verdict * option RiskLedger.RiskOutcomeResult * preflight));
  _ ← update id (set_details v.2 (set_risk_details (pf_measurements pf) (pf_remaining pf)));
  _ ← persist_session cf id;
  mret (v, released).

Definition ended (s : live) : bool :=
  bool_decide (is_Some (summary s)) || bool_decide (is_Some (Session.end_time (core s))).
Definition compromised_read (tool_name : string) (arguments : claims) (s : live) : bool :=
  String.eqb tool_name MEMORY_STORE_READ_TOOL
  && match py_get "store_id" arguments with
     | PStr sid => bool_decide (sid ∈ memory_compromised_stores s)
     | _ => false
     end.
(** The verdict, the claims its receipt reports on, and the risk reservation it
    released. *)
Definition decide_call (id tool_name : string) (arguments : claims) (risk_request_id : option string)
    (spend_request : option SpendReservationRequest) (r : readings)
    : G (verdict * claims * option RiskLedger.RiskOutcomeResult) :=
  s ← target id;
  blocked ← on_world (PassportState.blocked_session_reason (ended s) (claims_of s) (rd_fresh r));
  let missing := missing_declared_telemetry arguments (declared_required_telemetry (claims_of s)) in
  let insufficient why denial :=
    v ← refuse id tool_name arguments Session.INSUFFICIENT_EVIDENCE why (Some denial) (rd_timestamp r);
    _ ← persist_session cf id;
    mret (v, claims_of s, None) in
  match blocked with
  | Some b =>
      let '(why, denial) := match b with
        | PassportState.AlreadyEnded => ("session already ended", Session.POLICY_DENIED)
        | PassportState.PassportRevoked => ("passport_revoked", Session.REVOKED) end in
      mret (Session.DENY, why, LooseEvent (policy_event s tool_name arguments Session.DENY why (Some denial)
              (cf_verifier_id cf) (rd_timestamp r)), claims_of s, None)
  | None =>
      match missing with
      | _ :: _ => insufficient ("declared_telemetry_missing:" ++ join "," missing) Session.TELEMETRY_MISSING
      | [] =>
          if compromised_read tool_name arguments s
          then insufficient "memory_compromise_boundary" Session.MEMORY_COMPROMISE_BOUNDARY
          else resolved ← attempt (resolve_authoritative_policy_claims (claims_of s) r);
          match resolved with
          | Raise (EMission d why denial) =>
              v ← refuse id tool_name arguments d why (Some denial) (rd_timestamp r);
              _ ← persist_session cf id;
              mret (v, claims_of s, None)
          | Raise e => throw e
          | Ok policy_claims =>
              '(v, released) ← decide_governed id tool_name arguments policy_claims risk_request_id spend_request r;
              mret (v, policy_claims, released)
          end
      end
  end.

(** ** The receipt of the decision *)

Definition lifecycle_at (h : handle) (s : live) : option string :=
  match event_at h s with Some (_, d) => d_lifecycle_id d | None => None end.
Definition issue_receipt (id : string) (v : verdict) (policy_claims : claims)
    (released : option RiskLedger.RiskOutcomeResult) (r : readings) : G unit :=
  let '(d, why, h) := v in
  x ← build_entry cf id h d why policy_claims (rd_receipt r);
  s ← target id;
  match lifecycle_at h s with
  | None => _ ← persist_session cf id; log_receipt x
  | Some _ =>
      _ ← update id (set_details h (set_receipt (Some x)));
      _ ← persist_session cf id;
      _ ← log_receipt_once x;
      match risk_policy_snapshot s, released with
      | Some p, Some o => mark_delivered (RiskPolicy.rp_lineage_id p) id o x
      | _, _ => throw (ERisk (RiskPolicy.RiskBudgetError "risk lifecycle delivery state is unavailable"))
      end
  end.

(** [_evaluate_tool_call]. *)
Definition evaluate_locked (a : session_arg) (tool_name : string) (arguments : claims)
    (risk_request_id : option string) (spend_request : option SpendReservationRequest) (r : readings)
    : G (Session.Decision * string) :=
  id ← locked_persisted_session cf a;
  '(v, policy_claims, released) ← decide_call id tool_name arguments risk_request_id spend_request r;
  _ ← issue_receipt id v policy_claims released r;
  mret v.1.
(** [evaluate_tool_call]: the outbox is delivered first, under a lock of its
    own; histories take the two together. *)
Definition evaluate_tool_call (a : session_arg) (tool_name : string) (arguments : claims)
    (risk_request_id : option string) (spend_request : option SpendReservationRequest) (r : readings)
    : G (Session.Decision * string) :=
  _ ← flush_risk_lifecycle_outbox cf a (rd_lifecycle r);
  _ ← modify (set_pending no_pending);
  out ← attempt (evaluate_locked a tool_name arguments risk_request_id spend_request r);
  match out with
  | Ok v => mret v
  | Raise e =>
      _ ← release_pre_action_reservations "spend_evaluation_failed" (rd_cancel' r) (rd_release' r);
      throw e
  end.

(** ** Closing reservations *)

(** [_assert_spend_lifecycle_open]. *)
Definition assert_spend_lifecycle_open (s : live) : G unit :=
  demand (negb (bool_decide (is_Some (summary s)) || bool_decide (is_Some (attestation_token s)))) EPermission.
(** [_spend_lifecycle_event]. *)
Definition spend_lifecycle_event (s : live) (c : SpendCloseResult) (d : Session.Decision) (ts : string)
    : Session.PolicyEvent :=
  let tool := "spend_" ++ ReceiptLog.operation_name (cl_operation c) in
  let arguments := [("reservation_hash", PStr (cl_reservation_hash c)); ("quote_digest", PStr (cl_quote_digest c))] in
  Session.Event ts (Session.receipt_step_id (jti_of s) ts tool arguments) (agent_of s) (cf_verifier_id cf) tool
    arguments "observe" "spend_budget" "budget" "none" d (Session.Text (cl_reason_code c)) (jti_of s)
    (Session.run_nonce (core s)) (if bool_decide (d = Session.PERMIT) then None else Some Session.TELEMETRY_MISSING) [].
(** The event and the receipt of a closed reservation. *)
Definition spend_receipt (id : string) (c : SpendCloseResult) (d : Session.Decision) (policy_claims : claims)
    (ts : string) (now : Z) : G ReceiptLog.entry :=
  s ← target id;
  _ ← update id (add_event (spend_lifecycle_event s c d ts)
        (Details (Some (ReceiptLog.spend_close_delta c)) None None [] None None None (PInt 0)));
  build_entry cf id LastEvent d (cl_reason_code c) policy_claims now.
(** The open session with its spend policy. *)
Definition spend_policy_of (id : string) (missing : gate_exc) (r : readings) : G (live * claims * spend_policy) :=
  s ← target id;
  _ ← assert_spend_lifecycle_open s;
  policy_claims ← resolve_authoritative_policy_claims (claims_of s) r;
  let raw := py_get "spend_budget" policy_claims in
  _ ← demand (match raw with PNone => false | _ => true end) missing;
  policy ← lift ESpend (normalize_spend_budget raw None true);
  mret (s, policy_claims, policy).
Definition lineage_of (policy : spend_policy) : string := default "" (sp_lineage_id policy).

(** [settle_spend]; the code logs the receipt once it has released the lock. *)
Definition settle_spend (a : session_arg) (request_id : string) (input output : pyval) (proof : option string)
    (clock : Z) (r : readings) : G SpendCloseResult :=
  id ← locked_persisted_session cf a;
  '(s, policy_claims, policy) ← spend_policy_of id (ESpend (SpendBudgetError "spend_policy_missing")) r;
  c ← on_spend (fun d => SpendLedger.settle d (lineage_of policy) (jti_of s) request_id input output proof clock);
  x ← spend_receipt id c (if bool_decide (cl_operation c = OpSettle) then Session.PERMIT
                          else Session.INSUFFICIENT_EVIDENCE) policy_claims (rd_timestamp r) (rd_receipt r);
  _ ← persist_session cf id;
  _ ← log_receipt x;
  mret c.
(** [quarantine_spend]. *)
Definition quarantine_spend (a : session_arg) (request_id reason_code : string) (clock : Z) (r : readings)
    : G SpendCloseResult :=
  id ← locked_persisted_session cf a;
  '(s, policy_claims, policy) ← spend_policy_of id (ESpend spend_invalid) r;
  c ← on_spend (fun d => SpendLedger.quarantine d (lineage_of policy) (jti_of s) request_id (PStr reason_code) clock);
  x ← spend_receipt id c Session.INSUFFICIENT_EVIDENCE policy_claims (rd_timestamp r) (rd_receipt r);
  _ ← persist_session cf id;
  _ ← log_receipt x;
  mret c.
(** [quarantine_stale_spend]; the [i]th receipt is made at [rd_lifecycle r i]. *)
Definition quarantine_stale_spend (a : session_arg) (older_than_s : pyval) (now : Z) (r : readings)
    : G (list SpendCloseResult) :=
  id ← locked_persisted_session cf a;
  '(s, policy_claims, policy) ← spend_policy_of id (ESpend spend_invalid) r;
  l ← on_spend (fun d => SpendLedger.quarantine_stale d (lineage_of policy) (jti_of s) older_than_s now);
  xs ← each (fun i c => spend_receipt id c Session.INSUFFICIENT_EVIDENCE policy_claims (rd_lifecycle r i).1
               (rd_lifecycle r i).2) 0 l;
  _ ← (match l with [] => mret tt | _ => persist_session cf id end : G unit);
  _ ← for_each log_receipt xs;
  mret l.

(** [record_tool_result]: the last event that is no risk lifecycle. *)
Definition internal_event (e : Session.PolicyEvent) : bool :=
  String.eqb (Session.ev_tool_name e) "risk_budget_lifecycle" && String.eqb (Session.ev_action_class e) "observe"
  && String.eqb (Session.ev_resource_family e) "governance" && String.eqb (Session.ev_side_effect_class e) "none"
  && match Session.ev_arguments e with [] => true | _ => false end.
Definition last_tool_event (l : list Session.PolicyEvent) : option nat :=
  last (omap (fun ie => if internal_event ie.2 then None else Some ie.1) (imap pair l)).
Definition record_tool_result (a : session_arg) (response : string) (duration_ms : pyval) : G unit :=
  id ← locked_persisted_session cf a;
  s ← target id;
  _ ← demand (negb (bool_decide (is_Some (summary s)))) EPermission;
  match last_tool_event (Session.events (core s)) with
  | Some i =>
      _ ← demand (match Session.events (core s) !! i with
                  | Some e => bool_decide (Session.ev_decision e = Session.PERMIT) | None => false end)
            (EValue "cannot record tool result without a prior permitted tool event");
      _ ← update id (fun s => set_core (core s) (alter (set_response response duration_ms) i (attached s)) s);
      persist_session cf id
  | None => throw (EValue "cannot record tool result without a prior permitted tool event")
  end.

(** [record_risk_outcome]. *)
Definition record_risk_outcome (a : session_arg) (risk_request_id : string) (o : RiskLedger.outcome) (now : Z)
    (r : readings) : G (RiskLedger.RiskOutcomeResult * string) :=
  id ← locked_persisted_session cf a;
  s ← target id;
  _ ← demand (negb (bool_decide (is_Some (summary s)))) EPermission;
  p ← ensure_snapshot id;
  match p with
  | None => throw (EValue "session has no risk_budget policy")
  | Some p =>
      let lineage_id := RiskPolicy.rp_lineage_id p in
      result ← on_risk (fun d => RiskLedger.record_outcome d lineage_id (jti_of s) risk_request_id o now);
      x ← ensure_risk_lifecycle_event cf id result (rd_lifecycle r 0).1 (rd_lifecycle r 0).2;
      _ ← persist_session cf id;
      _ ← deliver_one lineage_id id (result, x);
      mret (result, ReceiptLog.en_receipt_id x)
  end.
(** [quarantine_stale_risk_reservations], the age and the clock in ticks. *)
Definition quarantine_stale_risk_reservations (a : session_arg) (stale_after now now' : Z) (r : readings) : G nat :=
  _ ← demand (0 <=? stale_after) (EValue "stale_after_s must be non-negative");
  id ← locked_persisted_session cf a;
  p ← ensure_snapshot id;
  match p with
  | None => mret 0%nat
  | Some p =>
      s ← target id;
      l ← on_risk (fun d => RiskLedger.quarantine_stale d (RiskPolicy.rp_lineage_id p) (jti_of s)
            (now - stale_after) now');
      _ ← deliver_lifecycles cf id (RiskPolicy.rp_lineage_id p) l (rd_lifecycle r);
      mret (length (List.filter (fun x => negb (RiskLedger.ro_idempotent x)) l))
  end.

(** ** Ending a session *)

Definition is_denial (d : Session.Decision) : bool := negb (bool_decide (d = Session.PERMIT)).
Definition decided (d : Session.Decision) (e : Session.PolicyEvent) : bool := bool_decide (Session.ev_decision e = d).
Definition tally (p : Session.PolicyEvent -> bool) (l : list Session.PolicyEvent) : Z := Session.count_of p l.
(** The names in order of first occurrence. *)
Definition first_occurrences (l : list string) : list string :=
  foldl (fun acc x => if str_in x acc then acc else (acc ++ [x])%list) [] l.
(** [_build_summary] at a clock reading. *)
Definition build_summary (s : live) (now : Z) : res gate_exc session_summary :=
  let c := claims_of s in
  let events := List.filter (fun e => negb (internal_event e)) (Session.events (core s)) in
  let denials := tally (fun e => is_denial (Session.ev_decision e)) events in
  let children := omap (fun child => let v := py_get "child_jti" child in
                          if truthy v then Some (py_str v) else None) (delegated_children s) in
  match dget "sub" c, dget "mission" c with
  | Some agent, Some mission =>
      Ok (Summary (jti_of s) agent mission (Z.of_nat (length events)) (tally (decided Session.PERMIT) events) denials
            (tally (decided Session.UNKNOWN) events) (tally (decided Session.INSUFFICIENT_EVIDENCE) events)
            (tally (decided Session.VIOLATION) events)
            (first_occurrences (Session.ev_tool_name <$> List.filter (fun e => is_denial (Session.ev_decision e)) events))
            (Session.elapsed (core s) now) (denials =? 0) (Z.of_nat (length (delegated_children s)))
            (Z.of_nat (length (first_occurrences children))) children (Session.delegated_budget_reserved (core s)))
  | _, _ => Raise EKey
  end.
Definition set_end_time (t : Z) (s : live) : live :=
  let c := core s in
  set_core (Session.MkSession (Session.passport_claims c) (Session.events c) (Session.tool_call_count c)
    (Session.tool_call_count_by_class c) (Session.delegated_budget_reserved c) (Session.start_time c) (Some t)
    (Session.run_nonce c)) (attached s) s.
(** Nothing the session reserved is outstanding. *)
Definition assert_risk_resolved (s : live) : G unit :=
  let raw := match risk_policy_snapshot s with
             | Some p => PDict (RiskPolicy.risk_policy_dict p)
             | None => py_get "risk_budget" (claims_of s) end in
  match raw with
  | PNone => mret tt
  | _ =>
      match RiskPolicy.normalize_risk_budget raw None with
      | Raise e => throw (if budget_error e then EPermission else ERisk e)
      | Ok p =>
          d ← gets g_risk;
          unresolved ← lift ERisk (RiskLedger.unresolved_for_session d (RiskPolicy.rp_lineage_id p) (jti_of s));
          _ ← demand (match unresolved with [] => true | _ => false end) EPermission;
          outbox ← lift ERisk (RiskLedger.pending_lifecycles_for_session d (RiskPolicy.rp_lineage_id p) (jti_of s));
          demand (match outbox with [] => true | _ => false end) EPermission
      end
  end.
Definition assert_spend_resolved (s : live) (r : readings) : G unit :=
  policy_claims ← resolve_authoritative_policy_claims (claims_of s) r;
  match py_get "spend_budget" policy_claims with
  | PNone => mret tt
  | raw =>
      policy ← lift ESpend (normalize_spend_budget raw None true);
      d ← gets g_spend;
      active ← lift ESpend (SpendLedger.has_active_reservations d (lineage_of policy) (jti_of s));
      demand (negb active) EPermission
  end.
(** [_finalize_session_locked]: the summary and whether it is new. *)
Definition finalize_session (id : string) (now : Z) (r : readings) : G (session_summary * bool) :=
  s ← target id;
  _ ← assert_risk_resolved s;
  _ ← assert_spend_resolved s r;
  match summary s with
  | Some m => mret (m, false)
  | None =>
      _ ← update id (set_end_time now);
      s ← target id;
      m ← raises (build_summary s now);
      _ ← update id (set_summary (Some m));
      mret (m, true)
  end.
(** [end_session]. *)
Definition end_session (a : session_arg) (now : Z) (r : readings) : G session_summary :=
  _ ← flush_risk_lifecycle_outbox cf a (rd_lifecycle r);
  id ← locked_persisted_session cf a;
  '(m, created) ← finalize_session id now r;
  _ ← (if (created : bool) then persist_session cf id else mret tt : G unit);
  mret m.
(** [summarize_session]. *)
Definition summarize_session (a : session_arg) (now : Z) : G session_summary :=
  id ← locked_persisted_session cf a;
  s ← target id;
  raises (build_summary s now).

End Gate.
End Gate.
