(* ===== verification/Aat.v ===== *)
(** * Sessions from attenuating agent tokens

    [src/python/vibap/aat_adapter.py] and [start_session_from_aat] of
    [proxy.py]: a grant in the shape of an attenuating agent token is verified,
    compared with the mission declaration it refers to and with its parent
    grant, and turned into a passport the proxy admits.

    The tools and the resource scope of a declaration are taken to be strings;
    a declaration with others in them is rejected here as a type error. *)

From S2P Require Import Prelude Sha256 CanonicalJson SpendPolicy SpendLedger Merkle RiskPolicy Passport PassportPop.
From S2P Require Import ResourceScope PyJson Policy Session RiskLedger Approvals MemoryStore PassportState.
From S2P Require Import Receipt ReceiptLog Urls Mission SessionStore Gate.
Import Passport PyJson Policy SessionStore Gate.
Open Scope string_scope.
Open Scope Z_scope.

Module Aat.

Definition AAT_AUTHORIZATION_DETAIL_TYPE : string := "attenuating_agent_token".
Definition AAT_CREDENTIAL_FORMAT : string := "aat-compatible-jwt".
Definition AAT_SUPPORTED_REVISION : string := "draft-niyikiza-oauth-attenuating-agent-tokens-00".

(** [v == w] of JSON values. *)
Fixpoint py_equal (v w : pyval) {struct v} : bool :=
  match v, w with
  | PNone, PNone => true
  | PStr a, PStr b => String.eqb a b
  | PBool b, _ => py_eq_int w (if b then 1 else 0)
  | PInt n, _ => py_eq_int w n
  | PFloat f, PFloat g => SpecFloat.SFeqb f g
  | PFloat _, PInt n => py_eq_int v n
  | PFloat _, PBool b => py_eq_int v (if b then 1 else 0)
  | PList l, PList k =>
      (fix go (l k : list pyval) : bool :=
         match l, k with
         | [], [] => true
         | x :: l, y :: k => py_equal x y && go l k
         | _, _ => false
         end) l k
  | PDict d, PDict e =>
      (length d =? length e)%nat
      && (fix go (d : list (string * pyval)) : bool :=
            match d with
            | [] => true
            | (k, x) :: d => match dget k e with Some y => py_equal x y | None => false end && go d
            end) d
  | _, _ => false
  end.

(** ** Reading a grant *)

Notation ax := (res passport_exc).

(** [_authorization_details]: its one detail of the right type. *)
Definition detail_ok (v : pyval) : bool :=
  match v with PDict d => match py_get "type" d with PStr s => non_empty s | _ => false end | _ => false end.
Definition is_aat_detail (v : pyval) : bool :=
  match v with PDict d => py_eq_str (py_get "type" d) AAT_AUTHORIZATION_DETAIL_TYPE | _ => false end.
Definition authorization_details (c : claims) : ax claims :=
  match py_get "authorization_details" c with
  | PList l =>
      raise_if negb (forallb detail_ok l) with PermissionErr ;;
      match List.filter is_aat_detail l with
      | [PDict d] => Ok d
      | _ => Raise PermissionErr
      end
  | _ => Raise PermissionErr
  end.

(** [_extract_tools], of a dict and of a list of tools. *)
Fixpoint dict_tools (d : claims) : ax (list string) :=
  match d with
  | [] => Ok []
  | (name, constraints) :: d =>
      if negb (non_empty (py_strip name)) then dict_tools d
      else
        raise_if match constraints with PDict [] => false | _ => true end with PermissionErr ;;
        rest ← dict_tools d; Ok (name :: rest)
  end.
Fixpoint list_tools (l : list pyval) : ax (list string) :=
  match l with
  | [] => Ok []
  | PStr s :: l => rest ← list_tools l; Ok (if non_empty (py_strip s) then s :: rest else rest)
  | PDict d :: l =>
      match py_get "name" d with
      | PStr name =>
          raise_if negb (subset_b (dkeys d) ["name"]) with PermissionErr ;;
          rest ← list_tools l; Ok (name :: rest)
      | _ => list_tools l
      end
  | _ :: l => list_tools l
  end.
Definition extract_tools (c : claims) : ax (list string) :=
  d ← authorization_details c;
  tools ← match py_get "tools" d with
          | PDict t => dict_tools t
          | PList t => list_tools t
          | _ => Ok []
          end;
  raise_if match tools with [] => true | _ => false end with PermissionErr ;;
  Ok tools.

(** [_positive_int], [_int_claim] and [_extract_max_tool_calls]. *)
Definition positive_int (v : pyval) : ax Z :=
  match v with PInt n => raise_if n <=? 0 with PermissionErr ;; Ok n | _ => Raise PermissionErr end.
Definition int_claim (c : claims) (name fallback : string) (dflt : Z) : ax Z :=
  match get_or name (get_or fallback (PInt dflt) c) c with PInt n => Ok n | _ => Raise PermissionErr end.
Definition budget_member (k : string) (c : claims) : ax (list Z) :=
  match dget k c with Some v => n ← positive_int v; Ok [n] | None => Ok [] end.
Definition extract_max_tool_calls (c : claims) (dflt : Z) : ax Z :=
  a ← budget_member "max_tool_calls" c;
  b ← match py_get "budget" c with PDict d => budget_member "tool_calls" d | _ => Ok [] end;
  d ← authorization_details c;
  e ← budget_member "max_tool_calls" d;
  match (a ++ b ++ e)%list with
  | [] => positive_int (PInt dflt)
  | n :: l => Ok (foldl Z.min n l)
  end.

(** [_extract_resource_scope]. *)
Definition extract_resource_scope (c : claims) (mission_scope : list string) : ax (list string) :=
  match py_get "resource_scope" c with
  | PNone => Ok mission_scope
  | PList l =>
      match mapM as_str l with
      | None => Raise PermissionErr
      | Some raw =>
          let requested := sorted_set raw in
          raise_if str_in UNRESTRICTED_RESOURCE_SCOPE_PATTERN requested
                   && negb (resource_scope_is_explicitly_unrestricted requested) with PermissionErr ;;
          raise_if negb (resource_scope_is_explicitly_unrestricted mission_scope)
                   && negb (subset_b requested mission_scope) with PermissionErr ;;
          Ok requested
      end
  | _ => Raise PermissionErr
  end.

Section Grants.
Context {D : Digests} {J : Jwt} {R : PyRepr} {TT : TokenText} {U : ResourceScope.UnicodeData} {I : IpAddress} {Zl : Zlib}.

(** [decode_aat_claims]; [now] in ticks. *)
Definition AAT_REQUIRED : list string := ["jti"; "iss"; "iat"; "exp"; "aud"].
Definition decode_aat_claims (t : token) (key : public_key) (expected_audience : string) (allow_without_cnf : bool)
    (now : Z) : ax claims :=
  raise_if negb (non_empty (py_strip expected_audience)) with ValueErr ;;
  match jwt_decode t key (Some (py_strip expected_audience)) AAT_REQUIRED now with
  | None => Raise InvalidToken
  | Some c =>
      _ ← assert_iat_in_window (py_get "iat" c) DEFAULT_IAT_FUTURE_SKEW_S DEFAULT_IAT_PAST_SKEW_S now;
      (* every profile but draft 00 is refused *)
      raise_if match py_get "ardur_dg_profile" c with PNone => false | _ => true end with PermissionErr ;;
      raise_if negb (py_eq_str (py_get "aat_type" c) "delegation") with PermissionErr ;;
      _ ← require_nonempty_str (py_get "sub" c);
      raise_if negb (has_key "mission_ref" c) with PermissionErr ;;
      raise_if negb (has_key "authorization_details" c) with PermissionErr ;;
      match py_get "cnf" c with
      | PNone => raise_if negb allow_without_cnf with PermissionErr ;; Ok c
      | PDict d => raise_if negb (has_key "jkt" d || has_key "jwk" d) with PermissionErr ;; Ok c
      | _ => Raise PermissionErr
      end
  end.

(** [_assert_child_grant_narrows_parent]. *)
Definition int_member (k : string) (c : claims) : ax Z :=
  match py_int (py_get k c) with Some z => Ok z | None => Raise TypeErr end.
Definition assert_child_grant_narrows_parent (child parent : claims) : ax unit :=
  child_tools ← extract_tools child;
  parent_tools ← extract_tools parent;
  raise_if negb (subset_b child_tools parent_tools) with PermissionErr ;;
  child_budget ← extract_max_tool_calls child (10 ^ 9);
  parent_budget ← extract_max_tool_calls parent (10 ^ 9);
  raise_if parent_budget <? child_budget with PermissionErr ;;
  child_depth ← int_claim child "del_depth" "delegation_depth" 0;
  parent_depth ← int_claim parent "del_depth" "delegation_depth" 0;
  raise_if negb (child_depth =? parent_depth + 1) with PermissionErr ;;
  child_max_depth ← int_claim child "del_max_depth" "max_delegation_depth" child_depth;
  parent_max_depth ← int_claim parent "del_max_depth" "max_delegation_depth" parent_depth;
  raise_if (child_max_depth <? child_depth) || (parent_max_depth <? child_max_depth) with PermissionErr ;;
  child_iat ← int_member "iat" child;
  parent_iat ← int_member "iat" parent;
  raise_if child_iat <? parent_iat with PermissionErr ;;
  child_exp ← int_member "exp" child;
  parent_exp ← int_member "exp" parent;
  raise_if parent_exp <? child_exp with PermissionErr ;;
  raise_if negb (py_equal (py_get "mission_ref" child) (py_get "mission_ref" parent)) with PermissionErr ;;
  Ok tt.

(** [_aat_parent_hash] and [_assert_child_parent_binding]; [compare_digest]
    takes ASCII only. *)
Definition aat_parent_hash (parent : token) : ax string :=
  match split_on "." (token_text parent) with
  | [h; p; s] =>
      raise_if negb (non_empty h && non_empty p && non_empty s) with PermissionErr ;;
      Ok (b64url (sha256_digest (h ++ "." ++ p)))
  | _ => Raise PermissionErr
  end.
Definition assert_child_parent_binding (child : claims) (parent : token) : ax unit :=
  actual ← require_nonempty_str (py_get "par_hash" child);
  expected ← aat_parent_hash parent;
  raise_if negb (str_all (byte_in 0 127) actual) with TypeErr ;;
  raise_if negb (String.eqb actual expected) with PermissionErr ;;
  Ok tt.

(** ** The session's passport *)

Record AATSessionMaterial := Material {
  am_grant_id : string;
  am_claims : claims;
  am_mission : MissionPassport;
  am_ttl_s : Z;
  am_extra_claims : claims
}.
(** What a grant asks of a declaration. *)
Definition strings_of (l : list pyval) : ax (list string) :=
  match mapM as_str l with Some s => Ok s | None => Raise TypeErr end.
Definition material_of (c : claims) (t : token) (m : Mission.MissionDeclaration) (now : Z) : ax AATSessionMaterial :=
  let p := Mission.md_passport m in
  granted_tools ← extract_tools c;
  mission_tools ← strings_of (Mission.mp_allowed_tools p);
  mission_scope ← strings_of (Mission.mp_resource_scope p);
  raise_if negb (subset_b granted_tools mission_tools) with PermissionErr ;;
  max_tool_calls ← extract_max_tool_calls c (Mission.mp_max_tool_calls p);
  raise_if Mission.mp_max_tool_calls p <? max_tool_calls with PermissionErr ;;
  depth ← int_claim c "del_depth" "delegation_depth" 0;
  max_depth ← int_claim c "del_max_depth" "max_delegation_depth" depth;
  let remaining_depth := Z.max 0 (max_depth - depth) in
  exp ← int_member "exp" c;
  let ttl_s := Z.max 1 (Z.min (exp - now) (Mission.mp_max_duration_s p)) in
  scope ← extract_resource_scope c mission_scope;
  passport ← new_mission (py_str (py_get "sub" c)) (Mission.mp_mission p) (sorted_set granted_tools)
    (sorted_set (set_minus mission_tools granted_tools)) scope max_tool_calls ttl_s (0 <? remaining_depth) remaining_depth
    None None [] [] None None (Some (Mission.md_mission_id m)) [] None None;
  Ok (Material (py_str (py_get "jti" c)) c passport ttl_s
        ([("credential_format", PStr AAT_CREDENTIAL_FORMAT); ("aat_grant_id", PStr (py_str (py_get "jti" c)));
          ("aat_issuer", PStr (py_str (py_get "iss" c))); ("aat_type", PStr (py_str (py_get "aat_type" c)));
          ("aat_revision", PStr AAT_SUPPORTED_REVISION); ("mission_ref", py_get "mission_ref" c);
          ("mission_digest", PStr (Mission.md_payload_digest m));
          ("external_grant_token_hash", PStr (sha256_hex (token_text t)))]
         ++ match py_get "cnf" c with PNone => [] | v => [("aat_cnf", v)] end)%list).

(** What is read on the way: clocks and the two networks. *)
Record aat_readings := AatReadings {
  ar_parent : Z; ar_grant : Z;                          (* ticks: decoding *)
  ar_pop : Z; ar_pop' : Z;                              (* the proof, ticks and seconds *)
  ar_registry : Urls.network; ar_registry_time : Z;
  ar_status : Urls.network; ar_status_time : Z;
  ar_now : Z;                                           (* seconds *)
  ar_issue : Z; ar_jti : string                         (* issuing the passport *)
}.
(** Errors of the mission are permission errors, but for those it does not
    declare. *)
Inductive aat_exc := AatError (e : passport_exc) | AatOther.
Definition of_passport {A} (m : ax A) : res aat_exc A := match m with Ok a => Ok a | Raise e => Raise (AatError e) end.
Definition of_mission (e : mission_exc) : aat_exc :=
  match e with MissionOther => AatOther | _ => AatError PermissionErr end.
(** The checks before the mission is looked up. *)
Definition check_grant (t : token) (key : public_key) (parent : option (claims * token)) (holder : option public_key)
    (kb : option token) (require_pop : bool) (audience : string) (allow_without_cnf : bool) (r : aat_readings)
    : ax claims :=
  c ← decode_aat_claims t key audience allow_without_cnf (ar_grant r);
  _ ← match py_get "cnf" c, require_pop with
      | PNone, _ | _, false => Ok true
      | _, true =>
          match holder, kb with
          | Some _, Some _ => verify_pop c t holder kb PassportState.POP_MAX_AGE_S (ar_pop r) (ar_pop' r)
          | _, _ => Raise PermissionErr
          end
      end;
  _ ← match parent with
      | None => Ok tt
      | Some (parent_claims, parent_token) =>
          _ ← assert_child_grant_narrows_parent c parent_claims;
          assert_child_parent_binding c parent_token
      end;
  Ok c.
(** [material_from_aat_grant]. *)
Definition material_from_aat_grant (t : token) (key : public_key) (parent : option (claims * token))
    (holder : option public_key) (kb : option token) (require_pop : bool) (audience : string) (allow_without_cnf : bool)
    (r : aat_readings) (cache : Mission.MissionCache) : Mission.MissionCache * res aat_exc AATSessionMaterial :=
  match check_grant t key parent holder kb require_pop audience allow_without_cnf r with
  | Raise e => (cache, Raise (AatError e))
  | Ok c =>
      match Mission.parse_mission_ref (py_get "mission_ref" c) with
      | Raise e => (cache, Raise (of_mission e))
      | Ok reference =>
          let '(cache, found) := Mission.resolve reference key (ar_registry r) (ar_registry_time r) cache in
          (cache,
           match found with
           | Raise e => Raise (of_mission e)
           | Ok m =>
               match Mission.mission_is_revoked m key (ar_status r) (ar_status_time r) with
               | Raise e => Raise (of_mission e)
               | Ok true => Raise (AatError PermissionErr)
               | Ok false => of_passport (material_of c t m (ar_now r))
               end
           end)
      end
  end.
End Grants.

Section Sessions.
Context {D : Digests} {J : Jwt} {W : Receipt.Jws} {P : Receipt.PyText} {R : PyRepr} {T : Wording}.
Context {U : ResourceScope.UnicodeData} {TT : TokenText} {I : IpAddress} {Zl : Zlib}.
Variable cf : config.

Definition aat_error (e : aat_exc) : gate_exc :=
  match e with AatError e => EState (PassportState.Rejected e) | AatOther => EPolicy end.
Definition on_material {A} (m : Mission.MissionCache -> Mission.MissionCache * res aat_exc A) : G A := fun g =>
  let '(c, r) := m (g_missions g) in
  (set_missions c g, match r with Ok a => Ok a | Raise e => Raise (aat_error e) end).
(** [start_session_from_aat]: the passport is signed with [signing_key], or
    with the key of the receipts. *)
Definition start_session_from_aat (t : token) (signing_key : option private_key) (parent : option token)
    (holder : option public_key) (kb : option token) (require_pop : bool) (audience : string) (allow_without_cnf : bool)
    (ar : aat_readings) (fresh run_nonce passport_audience : string) (r : PassportState.readings) : G string :=
  parent_claims ← (match parent with
     | None => mret None
     | Some p =>
         c ← raises (match decode_aat_claims p (cf_public_key cf) audience allow_without_cnf (ar_parent ar) with
                     | Ok c => Ok c | Raise e => Raise (EState (PassportState.Rejected e)) end);
         mret (Some (c, p))
     end : G (option (claims * token)));
  m ← on_material (material_from_aat_grant t (cf_public_key cf) parent_claims holder kb require_pop audience
        allow_without_cnf ar);
  internal ← raises (match issue_passport (am_mission m) (default (cf_receipt_key cf) signing_key) DEFAULT_ISSUER
                         DEFAULT_AUDIENCE (Some (am_ttl_s m)) (am_extra_claims m) (Some (am_grant_id m)) (ar_jti ar)
                         (ar_issue ar) with
                     | Ok c => Ok c | Raise e => Raise (EState (PassportState.Rejected e)) end);
  SessionStore.start_session cf internal None None fresh run_nonce (cf_public_key cf) passport_audience r.
End Sessions.
End Aat.
