(* ===== verification/GateLogic.v ===== *)
(** * Reasoning about the gate

    Rules for the monad [G] of the proxy.  [wp m Q g] says that running [m]
    from [g] ends in a state and a result, or an exception, of [Q]; [keeps K m]
    that [m] preserves a property of the state however it ends.  [session_inv]
    is the property every operation on a session preserves: what its file says
    only moves forward. *)

From S2P Require Import Prelude Sha256 CanonicalJson SpendPolicy SpendLedger Merkle RiskPolicy Passport PassportPop.
From S2P Require Import ResourceScope PyJson Policy Session RiskLedger Approvals MemoryStore PassportState.
From S2P Require Import Receipt ReceiptLog Urls Mission SessionStore Gate.
Import Passport ResourceScope PyJson Policy SessionStore Gate.
Open Scope string_scope.
Open Scope Z_scope.

Create HintDb gate.

Section Rules.
Context {D : Digests} {J : Jwt} {W : Receipt.Jws} {P : Receipt.PyText} {R : PyRepr} {T : Wording}.

(** ** Running an operation *)

Definition wp {A} (m : G A) (Q : gate -> res gate_exc A -> Prop) (g : gate) : Prop := Q (m g).1 (m g).2.

Lemma wp_run {A} (m : G A) Q g g' r : wp m Q g -> m g = (g', r) -> Q g' r.
Proof. unfold wp. intros Hw E. by rewrite E in Hw. Qed.
Lemma wp_mono {A} (m : G A) (Q Q' : gate -> res gate_exc A -> Prop) g :
  wp m Q g -> (forall g' r, Q g' r -> Q' g' r) -> wp m Q' g.
Proof. unfold wp. auto. Qed.
Lemma wp_ret {A} (a : A) (Q : gate -> res gate_exc A -> Prop) g : Q g (Ok a) -> wp (mret a) Q g.
Proof. done. Qed.
Lemma wp_bind {A B} (m : G A) (f : A -> G B) Q g :
  wp m (fun g' r => match r with Ok a => wp (f a) Q g' | Raise e => Q g' (Raise e) end) g -> wp (m ≫= f) Q g.
Proof. unfold wp, mbind, G_bind. destruct (m g) as [g' [a|e]]; cbn; auto. Qed.
Lemma wp_bind_inv {A B} (m : G A) (f : A -> G B) Q g :
  wp (m ≫= f) Q g -> wp m (fun g' r => match r with Ok a => wp (f a) Q g' | Raise e => Q g' (Raise e) end) g.
Proof. unfold wp, mbind, G_bind. destruct (m g) as [g' [a|e]]; cbn; auto. Qed.

(** What a composed run says of its parts. *)
Lemma G_bind_inv {A B} (m : G A) (f : A -> G B) g g' r : (m ≫= f) g = (g', r) ->
  (exists g1 a, m g = (g1, Ok a) /\ f a g1 = (g', r)) \/ (exists e, m g = (g', Raise e) /\ r = Raise e).
Proof.
  unfold mbind, G_bind. destruct (m g) as [g1 [a|e]]; [left; eauto|]. intros [= -> <-]. right. eauto.
Qed.
Lemma G_bind_ok {A B} (m : G A) (f : A -> G B) g g' b : (m ≫= f) g = (g', Ok b) ->
  exists g1 a, m g = (g1, Ok a) /\ f a g1 = (g', Ok b).
Proof. intros [H|(e & _ & [=])]%G_bind_inv. done. Qed.
Lemma G_bind_run {A B} (m : G A) (f : A -> G B) g g1 a : m g = (g1, Ok a) -> (m ≫= f) g = f a g1.
Proof. unfold mbind, G_bind. by intros ->. Qed.
Lemma attempt_ok {A} (m : G A) g g' r : attempt m g = (g', r) -> exists r', m g = (g', r') /\ r = Ok r'.
Proof. unfold attempt. destruct (m g) as [g1 r1]. intros [= -> <-]. eauto. Qed.
Lemma raises_ok {A} (m : res gate_exc A) g g' a : raises m g = (g', Ok a) -> g' = g /\ m = Ok a.
Proof. unfold raises. intros [= -> ->]. done. Qed.
Lemma lift_run_ok {E A} (f : E -> gate_exc) (m : res E A) g g' a : lift f m g = (g', Ok a) -> g' = g /\ m = Ok a.
Proof. unfold lift. destruct m; [intros [= -> ->]|]; done. Qed.
Lemma target_ok id g g' s : target id g = (g', Ok s) -> g' = g /\ g_live g !! id = Some s.
Proof.
  unfold target, gets, mbind, G_bind. cbn. destruct (g_live g !! id); [intros [= <- <-]|]; done.
Qed.
Lemma target_run id g s : g_live g !! id = Some s -> target id g = (g, Ok s).
Proof. unfold target, gets, mbind, G_bind. cbn. by intros ->. Qed.
Lemma demand_ok b e g g' u : demand b e g = (g', Ok u) -> g' = g /\ b = true.
Proof. destruct b; [intros [= <-]|]; done. Qed.
Lemma each_ok {A B} (f : nat -> A -> G B) i l g g' bs : each f i l g = (g', Ok bs) -> length bs = length l.
Proof.
  revert i g g' bs. induction l as [|a l IH]; intros i g g' bs; cbn [each]; [by intros [= _ <-]|].
  intros (g1 & b & _ & H)%G_bind_ok. apply G_bind_ok in H as (g2 & bs1 & H & [= _ <-]). cbn. f_equal. by eapply IH.
Qed.

(** ** Properties of the state an operation preserves *)

Definition keeps (K : gate -> Prop) {A} (m : G A) : Prop := forall g, K g -> K (m g).1.

(** The sessions the state directory knows. *)
Definition session_names (g : gate) : gmap string PassportState.session_file :=
  PassportState.session_files (PassportState.disk (g_world g)).

Section Keeps.
Variable K : gate -> Prop.
Lemma keeps_ret {A} (a : A) : keeps K (mret a : G A).
Proof. by intros g Hg. Qed.
Lemma keeps_throw {A} e : keeps K (throw e : G A).
Proof. by intros g Hg. Qed.
Lemma keeps_bind {A B} (m : G A) (f : A -> G B) : keeps K m -> (forall a, keeps K (f a)) -> keeps K (m ≫= f).
Proof.
  intros Hm Hf g Hg. apply Hm in Hg. unfold mbind, G_bind. destruct (m g) as [g' [a|e]]; cbn in *; [|done].
  by apply Hf.
Qed.
Lemma keeps_raises {A} (m : res gate_exc A) : keeps K (raises m).
Proof. by intros g Hg. Qed.
Lemma keeps_lift {E A} (f : E -> gate_exc) (m : res E A) : keeps K (lift f m).
Proof. by intros g Hg. Qed.
Lemma keeps_gets {A} (f : gate -> A) : keeps K (gets f).
Proof. by intros g Hg. Qed.
Lemma keeps_attempt {A} (m : G A) : keeps K m -> keeps K (attempt m).
Proof. intros Hm g Hg. apply Hm in Hg. unfold attempt. by destruct (m g). Qed.
Lemma keeps_demand b e : keeps K (demand b e).
Proof. destruct b; by intros g Hg. Qed.
Lemma keeps_modify f : (forall g, K g -> K (f g)) -> keeps K (modify f).
Proof. intros Hf g Hg. by apply Hf. Qed.
Lemma keeps_target id : keeps K (target id).
Proof. intros g Hg. unfold target, gets, mbind, G_bind. cbn. by destruct (g_live g !! id). Qed.
Lemma keeps_target_bind {B} id (f : live -> G B) :
  (forall s g, K g -> g_live g !! id = Some s -> K (f s g).1) -> keeps K (target id ≫= f).
Proof.
  intros Hf g Hg. unfold target, gets, mbind, G_bind. cbn. destruct (g_live g !! id) as [s|] eqn:E; [|done].
  cbn. by apply Hf.
Qed.
Lemma keeps_each {A B} (f : nat -> A -> G B) i l : (forall i a, keeps K (f i a)) -> keeps K (each f i l).
Proof.
  intros Hf. revert i. induction l as [|a l IH]; intros i; cbn [each]; [apply keeps_ret|].
  apply keeps_bind; [apply Hf|]. intros b. apply keeps_bind; [apply IH|]. intros bs. apply keeps_ret.
Qed.
Lemma keeps_for_each {A} (f : A -> G unit) l : (forall a, keeps K (f a)) -> keeps K (for_each f l).
Proof. intros Hf. apply keeps_bind; [by apply keeps_each|]. intros ?. apply keeps_ret. Qed.

(** The property is about sessions and the policy backends only. *)
Definition of_sessions : Prop := forall g g', g_files g' = g_files g -> g_live g' = g_live g ->
  g_registry g' = g_registry g -> session_names g' = session_names g -> K g -> K g'.
Lemma keeps_on_world {A} (m : PassportState.M A) : of_sessions ->
  (forall w, PassportState.session_files (PassportState.disk (m w).1) = PassportState.session_files (PassportState.disk w)) ->
  keeps K (on_world m).
Proof.
  intros HK Hm g Hg. unfold on_world. specialize (Hm (g_world g)). destruct (m _) as [w r]. revert Hg. by apply HK.
Qed.
Lemma keeps_on_risk {A} (m : RiskLedger.store -> RiskLedger.store * res RiskPolicy.risk_exc A) :
  of_sessions -> keeps K (on_risk m).
Proof. intros HK g Hg. unfold on_risk. destruct (m _) as [w r]. revert Hg. by apply HK. Qed.
Lemma keeps_on_spend {A} (m : SpendLedger.ledger_dir -> res spend_exc (SpendLedger.ledger_dir * A)) :
  of_sessions -> keeps K (on_spend m).
Proof. intros HK g Hg. unfold on_spend. destruct (m _) as [[d a]|e]; [|done]. revert Hg. by apply HK. Qed.
Lemma keeps_on_missions {A} (m : Mission.MissionCache -> Mission.MissionCache * res mission_exc A) :
  of_sessions -> keeps K (on_missions m).
Proof. intros HK g Hg. unfold on_missions. destruct (m _) as [w r]. revert Hg. by apply HK. Qed.
End Keeps.
End Rules.

#[export] Hint Resolve keeps_ret keeps_throw keeps_raises keeps_lift keeps_gets keeps_demand
  keeps_target keeps_on_world keeps_on_risk keeps_on_spend keeps_on_missions : gate.
(** Preservation by a program, from the preservation by its parts. *)
Ltac keep :=
  repeat (first
    [ match goal with |- forall _, _ => intro end
    | progress eauto 4 with gate
    | apply keeps_bind
    | apply keeps_attempt
    | apply keeps_each
    | apply keeps_for_each
    | match goal with
      | |- keeps _ (match ?x with _ => _ end) => destruct x
      | |- keeps _ (match ?x with _ => _ end _) => destruct x
      end ]).

Section Sessions.
Context {D : Digests} {J : Jwt} {W : Receipt.Jws} {P : Receipt.PyText} {R : PyRepr} {T : Wording}.

(** ** Sessions move forward *)

Definition class_count (c : string) (s : live) : Z := default 0 (dget c (Session.tool_call_count_by_class (core s))).

(** A later state of the same session. *)
Record later (s s' : live) : Prop := {
  lt_claims : claims_of s' = claims_of s;
  lt_token : passport_token s' = passport_token s;
  lt_calls : Session.tool_call_count (core s) <= Session.tool_call_count (core s');
  lt_class : forall c, class_count c s <= class_count c s';
  lt_compromised : memory_compromised_stores s ⊆ memory_compromised_stores s';
  lt_snapshot : forall p, risk_policy_snapshot s = Some p -> risk_policy_snapshot s' = Some p;
  lt_summary : forall m, summary s = Some m -> summary s' = Some m;
  lt_ended : is_Some (Session.end_time (core s)) -> is_Some (Session.end_time (core s'));
  lt_reserved : 0 <= Session.delegated_budget_reserved (core s) -> 0 <= Session.delegated_budget_reserved (core s')
}.
#[export] Instance later_preorder : PreOrder later.
Proof.
  split.
  - intros s. by split.
  - intros s1 s2 s3 [] []. split; try congruence; try lia; auto; [|set_solver].
    intros c. etrans; eauto.
Qed.
(** The parts of a session [later] is about. *)
Definition same_progress (s s' : live) : Prop :=
  core s' = core s /\ passport_token s' = passport_token s /\
  memory_compromised_stores s' = memory_compromised_stores s /\
  risk_policy_snapshot s' = risk_policy_snapshot s /\ summary s' = summary s.
Lemma same_later s s' : same_progress s s' -> later s s'.
Proof.
  intros (Hc & Ht & Hm & Hp & Hs). split; unfold claims_of, class_count; rewrite ?Hc, ?Ht, ?Hm, ?Hp, ?Hs; try done; lia.
Qed.
Lemma later_jti s s' : later s s' -> jti_of s' = jti_of s.
Proof. intros [Hc _ _ _ _ _ _ _ _]. unfold jti_of, ReceiptLog.session_jti. unfold claims_of in Hc. by rewrite Hc. Qed.
Lemma image_later s : later s (image s).
Proof. by apply same_later. Qed.
Lemma later_image s : later (image s) s.
Proof. by apply same_later. Qed.
Lemma copy_later t s : later s (copy_session_state t s).
Proof. split; try done; cbn; set_solver. Qed.
Lemma set_details_same h f s : same_progress s (set_details h f s).
Proof. by destruct h. Qed.
Lemma set_anchor_same i h s : same_progress s (set_anchor i h s).
Proof. done. Qed.
Lemma set_memory_same m l s : same_progress s (set_memory m l s).
Proof. done. Qed.
Lemma attached_same a s : same_progress s (set_core (core s) a s).
Proof. done. Qed.
Lemma same_trans s1 s2 s3 : same_progress s1 s2 -> same_progress s2 s3 -> same_progress s1 s3.
Proof. unfold same_progress. intuition congruence. Qed.
Lemma add_event_later e d s : later s (add_event e d s).
Proof. by split. Qed.
Lemma set_snapshot_later p s : risk_policy_snapshot s = None -> later s (set_snapshot p s).
Proof. intros Hn. split; try done. intros q. by rewrite Hn. Qed.
Lemma set_summary_later m s : summary s = None -> later s (set_summary m s).
Proof. intros Hn. split; try done. intros q. by rewrite Hn. Qed.
Lemma set_end_time_later t s : later s (set_end_time t s).
Proof. by split. Qed.

(** ** Files *)

(** The file of a session is under its identifier. *)
Definition files_ok (g : gate) : Prop := forall i fs pl, g_files g !! i = Some (fs, pl) ->
  jti_of fs = i /\ is_Some (session_names g !! i).
(** No file is lost and none goes back. *)
Definition files_forward (g g' : gate) : Prop := forall i fs pl, g_files g !! i = Some (fs, pl) ->
  exists fs' pl', g_files g' !! i = Some (fs', pl') /\ later fs fs'.
Record files_inv (g g' : gate) : Prop := { fi_ok : files_ok g'; fi_forward : files_forward g g' }.
Definition calls_of (s : live) : Z := Session.tool_call_count (core s).
(** The state inside an operation on session [id]: its live copy is ahead of
    its file, by [n] calls at least. *)
Record session_inv (n : Z) (g0 : gate) (id : string) (g : gate) : Prop := {
  si_files : files_inv g0 g;
  si_live : exists fs pl s, g_files g !! id = Some (fs, pl) /\ g_live g !! id = Some s /\ later fs s /\
    calls_of fs + n <= calls_of s
}.

Lemma files_inv_refl g : files_ok g -> files_inv g g.
Proof. intros Hok. split; [done|]. intros i fs pl Hi. exists fs, pl. by split. Qed.
Lemma files_inv_trans g1 g2 g3 : files_inv g1 g2 -> files_inv g2 g3 -> files_inv g1 g3.
Proof.
  intros [_ H12] [Hok H23]. split; [done|]. intros i fs pl Hi. apply H12 in Hi as (f2 & p2 & Hi & L1).
  apply H23 in Hi as (f3 & p3 & Hi & L2). exists f3, p3. split; [done|]. by etrans.
Qed.
Lemma files_same g0 g g' : g_files g' = g_files g -> session_names g' = session_names g -> files_inv g0 g -> files_inv g0 g'.
Proof. intros E En [Hok Hf]. split; unfold files_ok, files_forward; by rewrite E, ?En. Qed.

Lemma session_of_files n g0 id g g' : g_files g' = g_files g -> g_live g' = g_live g -> session_names g' = session_names g ->
  session_inv n g0 id g -> session_inv n g0 id g'.
Proof.
  intros Ef El En [Hf Hl]. split; [by eapply files_same|]. by rewrite Ef, El.
Qed.
Lemma session_of_sessions n g0 id : of_sessions (session_inv n g0 id).
Proof. intros g g' Ef El _ En. by apply session_of_files. Qed.

Lemma keeps_update n g0 id f : (forall s, later s (f s)) -> keeps (session_inv n g0 id) (update id f).
Proof.
  intros Hf g [Hfi (fs & pl & s & Hfile & Hl & Hlt & Hn)]. split; [by apply (files_same _ g)|].
  exists fs, pl, (f s). split; [done|]. cbn. rewrite lookup_alter_eq, Hl. split; [done|].
  pose proof (lt_calls _ _ (Hf s)). unfold calls_of in *. split; [by etrans|lia].
Qed.
(** The update of a session that was just read. *)
Lemma session_update n g0 id g s f : session_inv n g0 id g -> g_live g !! id = Some s -> later s (f s) ->
  session_inv n g0 id (update id f g).1.
Proof.
  intros [Hfi (fs & pl & s' & Hfile & Hl & Hlt & Hn)] Hs Hf. rewrite Hs in Hl. injection Hl as <-.
  split; [by apply (files_same _ g)|]. exists fs, pl, (f s). split; [done|]. cbn.
  rewrite lookup_alter_eq, Hs. split; [done|]. pose proof (lt_calls _ _ Hf). unfold calls_of in *.
  split; [by etrans|lia].
Qed.

Variable cf : config.
Lemma persist_run id g s : g_live g !! id = Some s ->
  persist_session cf id g =
  match ReceiptLog.add_integrity (cf_integrity_key cf) (jti_of s) (anchor_claims s) with
  | Raise e => (g, Raise (EAnchor e))
  | Ok payload =>
      (set_files (<[jti_of s := (image s, payload)]> (g_files g))
         (set_world (PassportState.World (PassportState.mem (g_world g))
            (PassportState.set_session_file (jti_of s) (Some (token_text (passport_token s), claims_of s))
               (PassportState.disk (g_world g)))) g), Ok tt)
  end.
Proof.
  intros Hl. unfold persist_session. rewrite (G_bind_run _ _ _ _ _ (target_run _ _ _ Hl)).
  unfold mbind, G_bind, lift. by destruct (ReceiptLog.add_integrity _ _ _).
Qed.
Lemma keeps_persist g0 id : keeps (session_inv 0 g0 id) (persist_session cf id).
Proof.
  intros g Hg. pose proof Hg as [[Hok Hf] (fs & pl & s & Hfile & Hl & Hlt & _)]. rewrite (persist_run _ _ _ Hl).
  destruct (ReceiptLog.add_integrity _ _ _) as [payload|e]; [|done].
  assert (Hj : jti_of s = id) by (rewrite (later_jti _ _ Hlt); by eapply (Hok id fs pl)).
  rewrite Hj. cbn [fst]. split; [split|]; cbn [set_files g_files g_live set_world].
  - intros i f p. cbn [set_files g_files]. destruct (decide (i = id)) as [->|Hne].
    + rewrite lookup_insert_eq. intros [= <- <-]. split; [exact Hj|]. unfold session_names. cbn. by rewrite lookup_insert_eq.
    + rewrite lookup_insert_ne by done. intros Hi. destruct (Hok _ _ _ Hi) as [? ?]. split; [done|].
      unfold session_names. cbn. by rewrite lookup_insert_ne.
  - intros i f p Hi. cbn [set_files g_files]. apply Hf in Hi as (f' & p' & Hi & L). destruct (decide (i = id)) as [->|Hne].
    + rewrite lookup_insert_eq. rewrite Hfile in Hi. injection Hi as <- <-. do 2 eexists. split; [done|].
      etrans; [exact L|]. etrans; [exact Hlt|]. apply image_later.
    + rewrite lookup_insert_ne by done. eauto.
  - exists (image s), payload, s. rewrite lookup_insert_eq. split_and!; [done|done|apply later_image|unfold calls_of; cbn; lia].
Qed.

(** Entering an operation: the live session is the one of the file, with the
    memory it had. *)
Record refreshed (g : gate) (id : string) (g' : gate) (fs s : live) : Prop := {
  rf_file : exists pl, g_files g !! id = Some (fs, pl);
  rf_session : s = fs \/ exists t, s = copy_session_state t fs;
  rf_live : g_live g' = <[id := s]> (g_live g);
  rf_same : g_files g' = g_files g /\ g_risk g' = g_risk g /\ g_spend g' = g_spend g /\ g_seen g' = g_seen g /\
    g_log g' = g_log g /\ g_pending g' = g_pending g /\ g_registry g' = g_registry g /\ g_trackers g' = g_trackers g /\
    PassportState.disk (g_world g') = PassportState.disk (g_world g);
  rf_missions : g_missions g' = g_missions g
}.
Lemma load_run id g : exists r, load_session_from_disk cf id g = (g, r) /\
  match r with Ok fs => exists pl, g_files g !! id = Some (fs, pl) | Raise _ => True end.
Proof.
  unfold load_session_from_disk, mbind, G_bind, demand, gets, lift.
  destruct (PassportState.session_id_match id); cbn; [|by eexists].
  destruct (g_files g !! id) as [[fs pl]|]; [|by eexists].
  destruct (ReceiptLog.validate_integrity _ _ _); [exists (Ok fs); eauto|by eexists].
Qed.
Lemma install_run id g fs p : (exists pl, g_files g !! id = Some (fs, pl)) ->
  exists g' s, install_or_refresh_session id fs p g = (g', Ok tt) /\ refreshed g id g' fs s.
Proof.
  intros Hf. assert (Hin : forall s, s = fs \/ (exists t, s = copy_session_state t fs) ->
    exists g', install id s g = (g', Ok tt) /\ refreshed g id g' fs s).
  { intros s Hs. eexists. split; [reflexivity|]. split; [done|done|done|by split_and!|done]. }
  unfold install_or_refresh_session. rewrite (G_bind_run _ _ g g (g_live g)) by done.
  destruct (g_live g !! id) as [t|], p as [t'|].
  1-2: destruct (Hin (copy_session_state t fs)) as (g' & E & Hr); [eauto|]; rewrite E; eauto.
  - destruct (Hin (copy_session_state t' fs)) as (g' & E & Hr); [eauto|]; rewrite E; eauto.
  - destruct (Hin fs) as (g' & E & Hr); [eauto|]; rewrite E; eauto.
Qed.
Lemma locked_run a g : (exists e, locked_persisted_session cf a g = (g, Raise e)) \/
  exists g' fs s, locked_persisted_session cf a g = (g', Ok (arg_id a)) /\ refreshed g (arg_id a) g' fs s.
Proof.
  unfold locked_persisted_session. destruct (load_run (arg_id a) g) as ([fs|e] & E & Hf).
  - right. rewrite (G_bind_run _ _ _ _ _ E).
    destruct (install_run (arg_id a) g fs (match a with ById _ => None | BySession s => Some s end) Hf)
      as (g' & s & Ei & Hr). rewrite (G_bind_run _ _ _ _ _ Ei). by exists g', fs, s.
  - left. exists e. unfold mbind, G_bind. by rewrite E.
Qed.
Lemma refreshed_later g id g' fs s : refreshed g id g' fs s -> later fs s.
Proof. intros [_ [->|[t ->]] _ _]; [done|apply copy_later]. Qed.
Lemma refreshed_core g id g' fs s : refreshed g id g' fs s -> core s = core fs.
Proof. by intros [_ [->|[t ->]] _ _]. Qed.
Lemma refreshed_inv g id g' fs s : files_ok g -> refreshed g id g' fs s -> session_inv 0 g id g'.
Proof.
  intros Hok Hr. pose proof (refreshed_later _ _ _ _ _ Hr) as Hlt. destruct Hr as [[pl Hf] _ Hl (Ef & _ & _ & _ & _ & _ & _ & _ & Ed)].
  split; [apply (files_same _ g); [done|by unfold session_names; rewrite Ed|by apply files_inv_refl]|]. exists fs, pl, s. rewrite Ef, Hl, lookup_insert_eq.
  pose proof (lt_calls _ _ Hlt). unfold calls_of. split_and!; [done|done|done|lia].
Qed.
Lemma keeps_locked {B} a (f : string -> G B) g : files_ok g ->
  (forall id, keeps (session_inv 0 g id) (f id)) -> files_inv g ((locked_persisted_session cf a ≫= f) g).1.
Proof.
  intros Hok Hf. destruct (locked_run a g) as [[e E]|(g' & fs & s & E & Hr)].
  - unfold mbind, G_bind. rewrite E. by apply files_inv_refl.
  - rewrite (G_bind_run _ _ _ _ _ E). by apply Hf, (refreshed_inv _ _ _ fs s).
Qed.
End Sessions.

#[export] Hint Resolve session_of_sessions keeps_persist keeps_update add_event_later set_end_time_later
  set_details_same set_anchor_same set_memory_same attached_same : gate.
