(* ===== verification/GateInv.v ===== *)
(** * Sessions move forward

    Every operation of the gate keeps the invariant of sessions, however it
    ends: no file is lost, and what a file says of its session only moves
    forward - calls counted, stores found compromised, the risk policy the
    session is pinned to, the summary of its end. *)

From S2P Require Import Prelude Sha256 CanonicalJson SpendPolicy SpendLedger Merkle RiskPolicy Passport PassportPop.
From S2P Require Import ResourceScope PyJson Policy Session RiskLedger Approvals MemoryStore PassportState.
From S2P Require Import PassportStateProps PassportAdmission Receipt ReceiptLog Urls Mission SessionStore Gate GateLogic.
Import Passport ResourceScope PyJson Policy SessionStore Gate.
Open Scope string_scope.
Open Scope Z_scope.

Section Forward.
Context {D : Digests} {J : Jwt} {W : Receipt.Jws} {P : Receipt.PyText} {R : PyRepr} {T : Wording}.
Context {U : UnicodeData} {F : Filesystem} {X : Regex} {S : RiskPolicy.JsonSchema} {FT : FloatText}.
Context {TT : TokenText} {I : IpAddress} {Zl : Zlib}.
Variable cf : config.

Lemma keeps_modify_same (K : gate -> Prop) f : of_sessions K ->
  (forall g, g_files (f g) = g_files g /\ g_live (f g) = g_live g /\ g_registry (f g) = g_registry g /\
    session_names (f g) = session_names g) -> keeps K (modify f).
Proof. intros HK Hf. apply keeps_modify. intros g. destruct (Hf g) as (? & ? & ? & ?). by apply HK. Qed.

(** Looking for revocations writes no session file. *)
Definition same_sessions (d d' : PassportState.store) : Prop := PassportState.session_files d' = PassportState.session_files d.
#[local] Instance same_sessions_preorder : PreOrder same_sessions.
Proof. split; [done|]. unfold same_sessions. intros d d1 d2 -> ->. done. Qed.
Lemma blocked_sessions b c fresh w :
  PassportState.session_files (PassportState.disk (PassportState.blocked_session_reason b c fresh w).1)
  = PassportState.session_files (PassportState.disk w).
Proof.
  assert (H : within same_sessions (PassportState.blocked_session_reason b c fresh)); [|apply H].
  unfold PassportState.blocked_session_reason, PassportState.first_revoked_jti_in_lineage,
    PassportState.passport_lineage_jtis, PassportState.load_revoked, PassportState.require_revoked_sentinel,
    PassportState.try_initialize_revoked, PassportState.initialize_revoked, PassportState.read_revoked,
    PassportState.persist_revoked, PassportState.jti_of. within_steps.
  1-4: by intros ?.
  - apply within_seed, _.
  - apply within_walk, _.
Qed.

(** ** Operations that leave the progress of the session alone

    They touch the ledgers, the receipts, the memory stores and what is
    attached to events; the snapshot of the risk policy is set once. *)

(** A property of sessions such an operation on [id] preserves. *)
Record mild (K : gate -> Prop) (id : string) : Prop := {
  ml_sessions : of_sessions K;
  ml_update : forall f, (forall s, same_progress s (f s)) -> keeps K (update id f);
  ml_snapshot : forall g s p, K g -> g_live g !! id = Some s -> risk_policy_snapshot s = None ->
    K (update id (set_snapshot p) g).1
}.
Lemma session_mild n g0 id : mild (session_inv n g0 id) id.
Proof.
  split; [apply session_of_sessions| |].
  - intros f Hf. apply keeps_update. intros s. by apply same_later.
  - intros g s p Hg Hs Hn. apply (session_update _ _ _ _ s); [done|done|by apply set_snapshot_later].
Qed.
(** The core of the live session. *)
Definition core_is (id : string) (c : Session.GovernanceSession) (g : gate) : Prop :=
  exists s, g_live g !! id = Some s /\ core s = c.
(** The registry has its built-in native backend. *)
Definition native_ok (g : gate) : Prop := Session.native_builtin (cf_env cf) (cf_cedar cf) (g_registry g).
Lemma native_mild id : mild native_ok id.
Proof. split; [by intros g g' _ _ E _; unfold native_ok; rewrite E|by intros f _ g|done]. Qed.
Lemma core_mild id c : mild (core_is id c) id.
Proof.
  assert (Hup : forall f, (forall s, core (f s) = core s) -> keeps (core_is id c) (update id f)).
  { intros f Hf g (s & Hs & <-). exists (f s). cbn. by rewrite lookup_alter_eq, Hs. }
  split; [by intros g g' _ El _ _ (s & Hs & Hc); exists s; rewrite El| |].
  - intros f Hf. apply Hup. intros s. apply (Hf s).
  - intros g s p Hg _ _. by apply (Hup (set_snapshot p)).
Qed.

Section Mild.
Variables (K : gate -> Prop) (id : string).
Hypothesis HK : mild K id.
#[local] Hint Resolve ml_sessions ml_update : gate.
Let Hsess : of_sessions K := ml_sessions _ _ HK.
Let Hupd := ml_update _ _ HK.
#[local] Hint Resolve Hsess Hupd : gate.

Ltac other := apply keeps_modify_same; [exact Hsess|done].

Lemma keeps_build_entry h d audit pc now : keeps K (build_entry cf id h d audit pc now).
Proof.
  unfold build_entry. keep. apply Hupd. intros s. eapply same_trans; [apply set_details_same|apply set_anchor_same].
Qed.
Lemma keeps_log_receipt x : keeps K (log_receipt x).
Proof. other. Qed.
Lemma keeps_log_receipt_once x : keeps K (log_receipt_once x).
Proof. apply keeps_bind; [apply keeps_demand|]. intros _. other. Qed.
Lemma keeps_mark_delivered lin r x : keeps K (mark_delivered lin id r x).
Proof. unfold mark_delivered. keep. Qed.
Lemma keeps_ensure_snapshot : keeps K (ensure_snapshot id).
Proof.
  unfold ensure_snapshot. apply keeps_target_bind. intros s g Hg Hs.
  destruct (risk_policy_snapshot s) eqn:Es; [done|]. destruct (py_get _ _); [done|..];
    (unfold mbind at 1, G_bind at 1, lift; destruct (RiskPolicy.normalize_risk_budget _ _); [|done];
     by apply (ml_snapshot _ _ HK _ s)).
Qed.
Lemma keeps_release code t t' : keeps K (release_pre_action_reservations code t t').
Proof.
  assert (Hone : forall A (h : option held) (m : held -> G A) f, (forall h, keeps K (m h)) ->
    (forall g, g_files (f g) = g_files g /\ g_live (f g) = g_live g /\ g_registry (f g) = g_registry g /\
      session_names (f g) = session_names g) -> keeps K (release_one h m f)).
  { intros A h m f Hm Hf. unfold release_one. keep. by apply keeps_modify_same. }
  unfold release_pre_action_reservations. keep; apply Hone; intros; try done; unfold cancel_spend, release_risk; keep.
Qed.
Lemma keeps_pinned_policy pc : keeps K (pinned_policy id pc).
Proof.
  unfold pinned_policy. apply keeps_target_bind. intros s g Hg Hs.
  destruct (py_get _ _); [done|..];
    (destruct (RiskPolicy.normalize_risk_budget _ _); [|by destruct (budget_error _)];
     destruct (risk_policy_snapshot s) eqn:Es; [done|]; by apply (ml_snapshot _ _ HK _ s)).
Qed.
Lemma keeps_reserve_risk p c tool args rid now : keeps K (reserve_risk id p c tool args rid now).
Proof. unfold reserve_risk. keep. all: other. Qed.
#[local] Hint Resolve keeps_pinned_policy keeps_reserve_risk : gate.
Lemma keeps_risk_preflight tool args pc rid now : keeps K (risk_preflight cf id tool args pc rid now).
Proof. unfold risk_preflight. keep. Qed.
Lemma keeps_reserve_spend tool pc sr t t' : keeps K (reserve_spend_if_required cf id tool pc sr t t').
Proof. unfold reserve_spend_if_required. keep. all: other. Qed.
Lemma keeps_approval_rate pc : keeps K (approval_rate pc).
Proof. unfold approval_rate, approval_tracker. keep. all: other. Qed.
Lemma keeps_on_tracker {A} k (f : Approvals.tracker -> res Approvals.approval_exc (Approvals.tracker * A)) :
  keeps K (on_tracker k f).
Proof. unfold on_tracker. keep. other. Qed.
#[local] Hint Resolve keeps_on_tracker : gate.
Lemma keeps_may_approve k o t : keeps K (may_approve k o t).
Proof. unfold may_approve. keep. Qed.
Lemma keeps_note_approval k o t : keeps K (note_approval k o t).
Proof. unfold note_approval. keep. Qed.
Lemma keeps_some_text v e : keeps K (some_text v e).
Proof. unfold some_text. keep. Qed.
#[local] Hint Resolve keeps_some_text : gate.
Lemma keeps_memory_store sid args : keeps K (get_or_create_memory_store id sid args).
Proof. unfold get_or_create_memory_store. keep. Qed.
#[local] Hint Resolve keeps_memory_store : gate.
Lemma keeps_memory_write args r : keeps K (proxy_memory_write cf id args r).
Proof. unfold proxy_memory_write. keep. Qed.
Lemma keeps_memory_read args r : keeps K (proxy_memory_read cf id args r).
Proof. unfold proxy_memory_read. keep. Qed.
#[local] Hint Resolve keeps_release : gate.
Lemma keeps_resolve_claims c r : keeps K (resolve_authoritative_policy_claims cf c r).
Proof. unfold resolve_authoritative_policy_claims. keep. Qed.
Lemma keeps_settle_verdict v spend pf r : keeps K (settle_verdict id v spend pf r).
Proof. unfold settle_verdict. keep. Qed.
End Mild.
#[local] Hint Resolve session_mild core_mild keeps_build_entry keeps_log_receipt keeps_log_receipt_once
  keeps_mark_delivered keeps_ensure_snapshot keeps_release keeps_risk_preflight keeps_reserve_spend keeps_approval_rate
  keeps_may_approve keeps_note_approval keeps_memory_write keeps_memory_read keeps_resolve_claims keeps_settle_verdict : gate.
#[local] Hint Resolve same_later blocked_sessions : gate.

(** ** Events *)

Lemma keeps_record_event n g0 id tool args d why denial ts :
  keeps (session_inv n g0 id) (record_tool_policy_event cf id tool args d why denial ts).
Proof. unfold record_tool_policy_event. keep. Qed.
#[local] Hint Resolve keeps_record_event : gate.
Lemma keeps_ensure_lifecycle n g0 id r ts now :
  keeps (session_inv n g0 id) (ensure_risk_lifecycle_event cf id r ts now).
Proof. unfold ensure_risk_lifecycle_event. keep. Qed.
Lemma keeps_refuse n g0 id tool args d why denial ts :
  keeps (session_inv n g0 id) (refuse cf id tool args d why denial ts).
Proof. unfold refuse. keep. Qed.
#[local] Hint Resolve keeps_ensure_lifecycle keeps_refuse : gate.

(** ** The policy check *)

Lemma record_event_later s e a : later s (set_core (Session.record_event (core s) e) a s).
Proof.
  split; try done; unfold class_count, Session.record_event; cbn; [case_bool_decide; lia|].
  intros c. case_bool_decide; [|lia]. rewrite Session.dget_bump. case_match; lia.
Qed.
(** A check that returns has recorded its event. *)
Lemma check_run id tool args pc r g g' d why :
  check_and_record cf id tool args pc r g = (g', Ok (d, why)) ->
  exists s e reg, g_live g !! id = Some s /\
    Session.check_and_record (cf_env cf) (cf_cedar cf) (core s) tool args (Some pc) (cf_verifier_id cf)
      (g_registry g) (rd_elapsed r) (rd_elapsed' r) (rd_timestamp r)
      = Ok (reg, Session.record_event (core s) e, e) /\
    d = Session.ev_decision e /\ why = reason_text (Session.ev_reason e) /\
    g' = (update id (fun s' => set_core (Session.record_event (core s) e) (attached s' ++ [no_details])%list s')
            (set_registry reg g)).1.
Proof.
  unfold check_and_record. intros (g1 & s & (-> & Hs)%target_ok & H)%G_bind_ok.
  apply G_bind_ok in H as (g2 & reg0 & [= <- <-] & H). apply G_bind_ok in H as (g3 & [[reg c] e] & (-> & Hc)%lift_run_ok & H).
  pose proof (Session.check_and_record_parts _ _ _ _ _ _ _ _ _ _ _ _ _ _ Hc) as (-> & _).
  apply G_bind_ok in H as (g4 & u & [= <- <-] & H). apply G_bind_ok in H as (g5 & u' & [= <- <-] & [= <- <- <-]).
  exists s, e, reg. by split_and!.
Qed.

(** The state is that of another session invariant after an update. *)
Lemma update_session n n' g0 id g s f : session_inv n g0 id g -> g_live g !! id = Some s -> later s (f s) ->
  calls_of s + n' <= calls_of (f s) + n -> session_inv n' g0 id (update id f g).1.
Proof.
  intros [Hfi (fs & pl & s' & Hfile & Hl & Hlt & Hn)] Hs Hf Hc. rewrite Hs in Hl. injection Hl as <-.
  split; [by apply (files_same _ g)|]. exists fs, pl, (f s). split; [done|]. cbn.
  rewrite lookup_alter_eq, Hs. split; [done|]. split; [by etrans|lia].
Qed.
Lemma session_inv_mono n n' g0 id g : n' <= n -> session_inv n g0 id g -> session_inv n' g0 id g.
Proof. intros Hn [Hf (fs & pl & s & Hfile & Hl & Hlt & Hc)]. split; [done|]. exists fs, pl, s. split_and!; [done..|lia]. Qed.

(** A permit counts one call. *)
Lemma check_inv g0 id tool args pc r g g' d why : session_inv 0 g0 id g ->
  check_and_record cf id tool args pc r g = (g', Ok (d, why)) ->
  session_inv (if bool_decide (d = Session.PERMIT) then 1 else 0) g0 id g'.
Proof.
  intros Hg (s & e & reg & Hs & _ & -> & _ & ->)%check_run. apply (update_session 0 _ _ _ _ s).
  - revert Hg. by apply session_of_files.
  - done.
  - apply record_event_later.
  - unfold calls_of, Session.record_event. cbn. case_bool_decide; lia.
Qed.

Lemma downgrade_inv g0 id g d why denial : session_inv 1 g0 id g ->
  session_inv 0 g0 id (update id (downgrade_last_permit d why denial) g).1.
Proof.
  intros Hg. pose proof Hg as [Hfi (fs & pl & s & Hfile & Hl & Hlt & Hn)].
  split; [by apply (files_same _ g)|]. exists fs, pl, (downgrade_last_permit d why denial s). split; [done|]. cbn.
  rewrite lookup_alter_eq, Hl. split; [done|]. unfold downgrade_last_permit, calls_of in *.
  destruct (last _) as [e|]; [|split; [done|lia]]. case_bool_decide; [|split; [done|lia]].
  split; [|cbn -[Z.add Z.sub]; lia]. destruct Hlt. split; try done. cbn -[Z.add Z.sub]. lia.
Qed.

Lemma mark_compromised_later args s : later s (mark_compromised args s).
Proof.
  unfold mark_compromised. destruct (py_get _ _); try reflexivity. destruct (non_empty _); [|reflexivity].
  split; try done. cbn. set_solver.
Qed.
Lemma update_compose id f f' g : (update id (fun s => f (f' s)) g).1 = (update id f (update id f' g).1).1.
Proof.
  unfold update, modify. cbn. unfold set_live. cbn. f_equal. apply map_eq. intros i.
  destruct (decide (i = id)) as [->|Hne]; [rewrite !lookup_alter_eq|rewrite !lookup_alter_ne by done; done].
  by destruct (g_live g !! id).
Qed.

Lemma memory_inv g0 id tool args r g : session_inv 1 g0 id g ->
  session_inv 0 g0 id (apply_memory_post_permit cf id tool args r g).1.
Proof.
  intros Hg. unfold apply_memory_post_permit.
  destruct (is_memory_store_tool tool); cbn [negb]; [|by apply (session_inv_mono 1)].
  set (m := if String.eqb tool MEMORY_STORE_WRITE_TOOL then _ else _).
  assert (Hm : keeps (session_inv 1 g0 id) m) by (unfold m; keep).
  apply Hm in Hg. unfold mbind, G_bind, attempt. destruct (m g) as [g1 [u|e]]; cbn [fst] in *;
    [by apply (session_inv_mono 1)|].
  destruct e; try (by apply (session_inv_mono 1)).
  - change (session_inv 0 g0 id (update id (fun s => downgrade_last_permit Session.VIOLATION "memory_integrity_failure"
      (Some Session.MEMORY_INTEGRITY_FAILURE) (mark_compromised args s)) g1).1).
    rewrite update_compose. apply downgrade_inv. revert g1 Hg. apply keeps_update, mark_compromised_later.
  - by apply downgrade_inv.
Qed.
Lemma keeps_check_and_apply g0 id tool args pc r : keeps (session_inv 0 g0 id) (check_and_apply cf id tool args pc r).
Proof.
  intros g Hg. unfold check_and_apply. destruct (check_and_record cf id tool args pc r g) as [g1 [[d why]|e]] eqn:Ec.
  - pose proof (check_inv _ _ _ _ _ _ _ _ _ _ Hg Ec) as H1. rewrite (G_bind_run _ _ _ _ _ Ec).
    case_bool_decide; [|done]. apply (memory_inv _ _ tool args r) in H1. unfold mbind, G_bind.
    by destruct (apply_memory_post_permit _ _ _ _ _ _) as [g2 [[]|]].
  - unfold mbind, G_bind. rewrite Ec. cbn [fst]. unfold check_and_record in Ec.
    apply G_bind_inv in Ec as [(g2 & s & (-> & Hs)%target_ok & Ec)|(e' & Ec & _)];
      [|revert Ec; unfold target, mbind, G_bind, gets; cbn; destruct (g_live g !! id); by intros [= <- _]].
    apply G_bind_inv in Ec as [(g2 & reg & [= <- <-] & Ec)|(e' & [=] & _)].
    apply G_bind_inv in Ec as [(g2 & [[reg c] ev] & _ & Ec)|(e' & [= <- _] & _)]; [|done].
    apply G_bind_inv in Ec as [(g3 & u & [= <- <-] & Ec)|(e' & [=] & _)].
    by apply G_bind_inv in Ec as [(g3 & u & [= <- <-] & [=])|(e' & [=] & _)].
Qed.
#[local] Hint Resolve keeps_check_and_apply : gate.
Lemma keeps_ordinary g0 id tool args pc r :
  keeps (session_inv 0 g0 id) (evaluate_ordinary_tool_policy cf id tool args pc r).
Proof. unfold evaluate_ordinary_tool_policy. keep. Qed.
#[local] Hint Resolve keeps_ordinary : gate.
Lemma keeps_decide_reserved g0 id tool args pc sr r :
  keeps (session_inv 0 g0 id) (decide_reserved cf id tool args pc sr r).
Proof. unfold decide_reserved. keep. Qed.
#[local] Hint Resolve keeps_decide_reserved : gate.
Lemma keeps_decide_governed g0 id tool args pc rid sr r :
  keeps (session_inv 0 g0 id) (decide_governed cf id tool args pc rid sr r).
Proof. unfold decide_governed. keep. Qed.
#[local] Hint Resolve keeps_decide_governed : gate.
Lemma keeps_decide_call g0 id tool args rid sr r :
  keeps (session_inv 0 g0 id) (decide_call cf id tool args rid sr r).
Proof. unfold decide_call. keep. Qed.
Lemma keeps_issue_receipt g0 id v pc released r : keeps (session_inv 0 g0 id) (issue_receipt cf id v pc released r).
Proof. unfold issue_receipt. keep. Qed.
Lemma keeps_deliver g0 id lin l clock : keeps (session_inv 0 g0 id) (deliver_lifecycles cf id lin l clock).
Proof. unfold deliver_lifecycles, deliver_one. keep. Qed.
#[local] Hint Resolve keeps_decide_call keeps_issue_receipt keeps_deliver : gate.

(** ** Whole operations *)

Lemma flush_files a clock g : files_ok g -> files_inv g (flush_risk_lifecycle_outbox cf a clock g).1.
Proof. intros Hok. apply keeps_locked; [done|]. intros id. keep. Qed.
Lemma evaluate_locked_files a tool args rid sr r g : files_ok g ->
  files_inv g (evaluate_locked cf a tool args rid sr r g).1.
Proof. intros Hok. apply keeps_locked; [done|]. intros id. keep. Qed.
(** A property of files only survives what does not write one. *)
Lemma files_of_sessions g0 : of_sessions (files_inv g0).
Proof. intros g g' Ef _ _ En. by apply files_same. Qed.
Lemma files_mild g0 id : mild (files_inv g0) id.
Proof.
  split; [apply files_of_sessions| |].
  - intros f _ g. by apply files_same.
  - intros g s p Hg _ _. by apply (files_same _ g).
Qed.
Lemma bind_files {A B} (m : G A) (f : A -> G B) g : files_ok g -> files_inv g (m g).1 ->
  (forall a g', files_ok g' -> files_inv g' (f a g').1) -> files_inv g ((m ≫= f) g).1.
Proof.
  intros Hok Hm Hf. unfold mbind, G_bind. destruct (m g) as [g' [a|e]]; cbn [fst] in *; [|done].
  eapply files_inv_trans; [exact Hm|]. apply Hf, (fi_ok _ _ Hm).
Qed.
Lemma evaluate_files a tool args rid sr r g : files_ok g -> files_inv g (evaluate_tool_call cf a tool args rid sr r g).1.
Proof.
  intros Hok. unfold evaluate_tool_call. apply bind_files; [done|by apply flush_files|]. intros _ g1 Hok1.
  apply bind_files; [done|by apply (files_same _ g1), files_inv_refl|]. intros _ g2 Hok2.
  apply bind_files; [done| |].
  - pose proof (evaluate_locked_files a tool args rid sr r g2 Hok2) as H. unfold attempt.
    by destruct (evaluate_locked _ _ _ _ _ _ _ _).
  - intros [v|e] g3 Hok3; [by apply files_inv_refl|]. pose proof (files_mild g3 "") as Hm.
    assert (Hk : keeps (files_inv g3) (_ ← release_pre_action_reservations "spend_evaluation_failed" (rd_cancel' r)
      (rd_release' r); throw e : G (Session.Decision * string))) by keep.
    by apply Hk, files_inv_refl.
Qed.

Lemma keeps_spend_receipt n g0 id c d pc ts now : keeps (session_inv n g0 id) (spend_receipt cf id c d pc ts now).
Proof. unfold spend_receipt. keep. Qed.
Lemma keeps_spend_policy n g0 id e r : keeps (session_inv n g0 id) (spend_policy_of cf id e r).
Proof. unfold spend_policy_of, assert_spend_lifecycle_open. keep. Qed.
#[local] Hint Resolve keeps_spend_receipt keeps_spend_policy : gate.
Lemma settle_spend_files a rid i o pr t r g : files_ok g -> files_inv g (settle_spend cf a rid i o pr t r g).1.
Proof. intros Hok. apply keeps_locked; [done|]. intros id. keep. Qed.
Lemma quarantine_spend_files a rid c t r g : files_ok g -> files_inv g (quarantine_spend cf a rid c t r g).1.
Proof. intros Hok. apply keeps_locked; [done|]. intros id. keep. Qed.
Lemma stale_spend_files a o t r g : files_ok g -> files_inv g (quarantine_stale_spend cf a o t r g).1.
Proof. intros Hok. apply keeps_locked; [done|]. intros id. keep. Qed.
Lemma record_result_files a x ms g : files_ok g -> files_inv g (record_tool_result cf a x ms g).1.
Proof. intros Hok. apply keeps_locked; [done|]. intros id. keep. Qed.
Lemma risk_outcome_files a rid o t r g : files_ok g -> files_inv g (record_risk_outcome cf a rid o t r g).1.
Proof. intros Hok. apply keeps_locked; [done|]. intros id. unfold deliver_one. keep. Qed.
Lemma stale_risk_files a o t t' r g : files_ok g -> files_inv g (quarantine_stale_risk_reservations cf a o t t' r g).1.
Proof.
  intros Hok. unfold quarantine_stale_risk_reservations. apply bind_files; [done|destruct (0 <=? o); by apply files_inv_refl|].
  intros _ g1 Hok1. apply keeps_locked; [done|]. intros id. keep.
Qed.
(** The invariant with the live session itself. *)
Definition session_is (g0 : gate) (id : string) (s : live) (g : gate) : Prop :=
  session_inv 0 g0 id g /\ g_live g !! id = Some s.
Lemma session_is_sessions g0 id s : of_sessions (session_is g0 id s).
Proof. intros g g' Ef El _ En [Hg Hs]. split; [by eapply session_of_files|by rewrite El]. Qed.
#[local] Hint Resolve session_is_sessions : gate.
Lemma keeps_risk_resolved K s : keeps K (assert_risk_resolved s).
Proof. unfold assert_risk_resolved. keep. Qed.
Lemma keeps_spend_resolved g0 id s0 s r : keeps (session_is g0 id s0) (assert_spend_resolved cf s r).
Proof.
  unfold assert_spend_resolved. apply keeps_bind; [|intros ?; keep].
  unfold resolve_authoritative_policy_claims. keep.
Qed.
Lemma finalize_end g0 id s now g : session_is g0 id s g -> summary s = None ->
  session_inv 0 g0 id ((_ ← update id (set_end_time now); s ← target id; m ← raises (build_summary s now);
    _ ← update id (set_summary (Some m)); mret (m, true)) g).1.
Proof.
  intros [Hg Hs] Hn. rewrite (G_bind_run _ _ g _ tt) by reflexivity.
  pose proof (session_update _ _ _ _ s (set_end_time now) Hg Hs (set_end_time_later _ _)) as H1.
  set (g1 := (update id (set_end_time now) g).1) in *. change (modify _ g) with (g1, Ok tt : res gate_exc unit).
  assert (Hl : g_live g1 !! id = Some (set_end_time now s)) by (cbn; by rewrite lookup_alter_eq, Hs).
  rewrite (G_bind_run _ _ _ _ _ (target_run _ _ _ Hl)). unfold mbind at 1, G_bind at 1, raises.
  destruct (build_summary _ now) as [m|e]; [|done].
  apply (session_update _ _ _ _ _ (set_summary (Some m)) H1 Hl). by apply set_summary_later.
Qed.
Lemma keeps_finalize g0 id now r : keeps (session_inv 0 g0 id) (finalize_session cf id now r).
Proof.
  unfold finalize_session. apply keeps_target_bind. intros s g Hg Hs.
  assert (His : session_is g0 id s g) by done. clear Hg Hs.
  apply (keeps_risk_resolved _ s) in His. unfold mbind at 1, G_bind at 1.
  destruct (assert_risk_resolved s g) as [g1 [[]|e]]; cbn [fst] in His; [|by destruct His].
  apply (keeps_spend_resolved _ _ _ s r) in His. unfold mbind at 1, G_bind at 1.
  destruct (assert_spend_resolved cf s r g1) as [g2 [[]|e]]; cbn [fst] in His; [|by destruct His].
  destruct (summary s) eqn:En; [by destruct His|]. by apply (finalize_end _ _ s).
Qed.
#[local] Hint Resolve keeps_finalize : gate.
Lemma end_session_files a now r g : files_ok g -> files_inv g (end_session cf a now r g).1.
Proof.
  intros Hok. unfold end_session. apply bind_files; [done|by apply flush_files|]. intros _ g1 Hok1.
  apply keeps_locked; [done|]. intros id. keep.
Qed.
End Forward.
