(* ===== verification/GateRuns.v ===== *)
(** * What a permit has passed

    The runs of the gate that end in a permit, taken apart: every check on the
    way succeeded, in the order of the code.  A refusal is never a permit, so
    the only way to one is the policy check itself. *)

From S2P Require Import Prelude Sha256 CanonicalJson SpendPolicy SpendLedger Merkle RiskPolicy Passport PassportPop.
From S2P Require Import ResourceScope PyJson Policy Session RiskLedger Approvals MemoryStore PassportState.
From S2P Require Import Receipt ReceiptLog Urls Mission SessionStore Gate GateLogic GateInv.
Import Passport ResourceScope PyJson Policy SessionStore Gate.
Open Scope string_scope.
Open Scope Z_scope.

(** Take a successful bind apart. *)
Ltac step H :=
  lazymatch type of H with
  | mbind _ _ _ = (_, Ok _) =>
      let g := fresh "g" in let a := fresh "a" in let E := fresh "E" in
      apply G_bind_ok in H as (g & a & E & H)
  end.

Section Runs.
Context {D : Digests} {J : Jwt} {W : Receipt.Jws} {P : Receipt.PyText} {R : PyRepr} {T : Wording}.
Context {U : UnicodeData} {F : Filesystem} {X : Regex} {S : RiskPolicy.JsonSchema} {FT : FloatText}.
Context {TT : TokenText} {I : IpAddress} {Zl : Zlib}.
Variable cf : config.

(** ** Refusals *)

Lemma refuse_decision id tool args d why denial ts g g' v : refuse cf id tool args d why denial ts g = (g', Ok v) ->
  v = (d, why, LastEvent).
Proof. unfold refuse. intros H. step H. by injection H as _ <-. Qed.

Lemma mission_claims_decision c raw m d why denial : mission_claims cf c raw m = Raise (EMission d why denial) ->
  d <> Session.PERMIT.
Proof.
  assert (Hn : forall a p, narrower_risk a p = Raise (EMission d why denial) -> d <> Session.PERMIT).
  { intros a p. unfold narrower_risk. destruct (RiskPolicy.attenuate_risk_budget _ _) as [?|e]; [done|].
    destruct (attenuation_error e); [|done]. destruct (RiskPolicy.attenuate_risk_budget _ _) as [?|e']; [done|].
    destruct (attenuation_error e'); [|done]. by intros [= <- _ _]. }
  unfold mission_claims. cbv zeta.
  match goal with |- (?x ≫= ?k) = _ -> _ => destruct x as [c'|e] eqn:E end.
  - cbn [mbind res_bind]. destruct (truthy _); [|done]. destruct (cf_policy_store cf) as [gp|]; [|done].
    by destruct (gp _ _).
  - cbn [mbind res_bind]. intros [= ->]. revert E. repeat case_match; try done; try (intros [= <- _ _]; done);
      destruct (narrower_risk _ _) eqn:En; [done|]; cbn [mbind res_bind]; intros [= ->]; by eapply Hn.
Qed.
Lemma mission_error_decision e d why denial : mission_error e = EMission d why denial -> d <> Session.PERMIT.
Proof. destruct e; cbn; try done; intros [= <- _ _]; done. Qed.
Lemma mission_decision c r g g' d why denial :
  resolve_authoritative_policy_claims cf c r g = (g', Raise (EMission d why denial)) -> d <> Session.PERMIT.
Proof.
  unfold resolve_authoritative_policy_claims. intros H. assert (exists raw, (reference ← lift mission_error (Mission.parse_mission_ref raw);
      mission ← on_missions (Mission.resolve reference (cf_public_key cf) (rd_registry r) (rd_registry_time r));
      revoked ← lift mission_error (Mission.mission_is_revoked mission (cf_public_key cf) (rd_status r) (rd_status_time r));
      _ ← demand (negb revoked) (EMission Session.VIOLATION "revoked" Session.REVOKED);
      raises (mission_claims cf c raw mission)) g = (g', Raise (EMission d why denial))) as [raw H'].
  { destruct (py_get "mission_ref" c); [done|..]; by eexists. }
  clear H. apply G_bind_inv in H' as [(g1 & m & _ & H)|(e & E & [= <-])].
  2: { unfold lift in E. destruct (Mission.parse_mission_ref raw); [done|]. injection E as _ E. by eapply mission_error_decision. }
  apply G_bind_inv in H as [(g2 & mi & _ & H)|(e & E & [= <-])].
  2: { unfold on_missions in E. destruct (Mission.resolve _ _ _ _ _) as [ca [?|e]]; [done|]. injection E as _ E.
       by eapply mission_error_decision. }
  apply G_bind_inv in H as [(g3 & rv & _ & H)|(e & E & [= <-])].
  2: { unfold lift in E. destruct (Mission.mission_is_revoked _ _ _ _); [done|]. injection E as _ E.
       by eapply mission_error_decision. }
  destruct rv; [by injection H as _ <- _ _|]. apply G_bind_inv in H as [(g4 & u & _ & H)|(e & E & _)]; [|done].
  injection H as _ H. by eapply mission_claims_decision.
Qed.

Lemma first_failure_decision l f : Forall (fun c => match c with Ok (Some (d, _, _)) => d <> Session.PERMIT | _ => True end) l ->
  first_failure l = Ok (Some f) -> f.1.1 <> Session.PERMIT.
Proof.
  induction 1 as [|c l Hc Hl IH]; [done|]. cbn. destruct c as [[f'|]|e]; [|done|done].
  intros [= <-]. by destruct f' as [[]].
Qed.
Lemma mic_decision c args pc m f : mic_checks c args pc m = Ok (Some f) -> f.1.1 <> Session.PERMIT.
Proof.
  unfold mic_checks. destruct (py_eq_str _ _); [done|]. apply first_failure_decision.
  repeat apply Forall_cons_2.
  - unfold manifest_check. by repeat case_match; simplify_eq.
  - unfold envelope_check. by repeat case_match; simplify_eq.
  - unfold visibility_check. by repeat case_match; simplify_eq.
  - destruct (py_eq_str _ "MIC-Evidence"); repeat constructor. unfold hidden_hop_check.
    destruct (truthy _); [|done]. destruct (seen _ _) as [[]|]; [|done..]. destruct (py_iter _) as [chain|]; [|done].
    induction chain as [|e chain IH]; [done|]. cbn [chain_check].
    destruct (negb (truthy _)); [exact IH|]. destruct (seen _ _) as [[]|]; [exact IH|done..].
Qed.

(** ** The policy check *)

(** A permit after the memory operation has not been downgraded. *)
Lemma memory_permit K id tool args r g g' why : mild K id -> K g ->
  apply_memory_post_permit cf id tool args r g = (g', Ok (Session.PERMIT, why)) -> K g'.
Proof.
  intros Hm Hg. unfold apply_memory_post_permit. destruct (negb _); [by intros [= <- _]|]. intros H. step H.
  assert (Hk : keeps K (if String.eqb tool MEMORY_STORE_WRITE_TOOL then proxy_memory_write cf id args r
    else proxy_memory_read cf id args r))
    by (destruct (String.eqb _ _); [by apply keeps_memory_write|by apply keeps_memory_read]).
  apply attempt_ok in E as (r' & E & [= ->]). specialize (Hk g Hg). rewrite E in Hk. cbn [fst] in Hk.
  destruct r' as [u|e]; [by injection H as <- _|]. destruct e; try done; step H; by injection H.
Qed.

Record checked (id tool : string) (args pc : claims) (r : readings) (g g1 g2 g' : gate) : Prop := {
  ck_before : forall K, mild K id -> K g -> K g1;
  ck_check : exists why, check_and_record cf id tool args pc r g1 = (g2, Ok (Session.PERMIT, why));
  ck_after : forall K, mild K id -> K g2 -> K g'
}.
Lemma check_and_apply_permit id tool args pc r g g' why h :
  check_and_apply cf id tool args pc r g = (g', Ok (Session.PERMIT, why, h)) ->
  exists g2, checked id tool args pc r g g g2 g' /\ h = LastEvent.
Proof.
  unfold check_and_apply. intros H. step H. destruct a as [d w]. case_bool_decide as Hd; [|by injection H as _ -> _ _].
  subst d. step H. destruct a as [d' w']. injection H as -> -> _ <-. exists g0. split; [|done].
  split; [done|by eexists|]. intros K HK HKg. by apply (memory_permit K) in E0.
Qed.

(** The approval that a rate asks for. *)
Definition approved (pc args : claims) (r : readings) (g : gate) (rate : option (option (option (Z * Z)))) : Prop :=
  match rate with
  | None => True
  | Some None => False
  | Some (Some k) => exists o g1, approval_operator_id pc args = Some o /\ may_approve k o (rd_approval r) g = (g1, Ok true)
  end.
Lemma ordinary_permit id tool args pc r g g' why h :
  evaluate_ordinary_tool_policy cf id tool args pc r g = (g', Ok (Session.PERMIT, why, h)) ->
  exists g0 rate g1 g2, approval_rate pc g = (g0, Ok rate) /\ approved pc args r g0 rate /\
    checked id tool args pc r g g1 g2 g' /\ h = LastEvent.
Proof.
  unfold evaluate_ordinary_tool_policy. intros H. step H. exists g0, a.
  assert (H0 : forall K, mild K id -> K g -> K g0)
    by (intros K HK HKg; pose proof (keeps_approval_rate K id HK pc g HKg) as Hk; by rewrite E in Hk).
  destruct a as [[k|]|].
  - destruct (approval_operator_id pc args) as [o|] eqn:Eo; [|by apply refuse_decision in H].
    step H. destruct a; cbn [negb] in H; [|by apply refuse_decision in H]. step H. destruct a as [[d w] h'].
    step H. injection H as -> -> -> ->. rewrite bool_decide_true in E2 by done.
    apply check_and_apply_permit in E1 as (g4 & [Hb Hc Ha] & ->). exists g1, g4. split; [done|].
    split; [by exists o, g1|]. split; [|done]. split; [|done|].
    + intros K HK HKg. pose proof (keeps_may_approve K id HK k o (rd_approval r) g0 (H0 K HK HKg)) as Hk. by rewrite E0 in Hk.
    + intros K HK HKg. pose proof (keeps_note_approval K id HK k o (rd_approval r) g2 (Ha K HK HKg)) as Hk. by rewrite E2 in Hk.
  - by apply refuse_decision in H.
  - apply check_and_apply_permit in H as (g4 & [Hb Hc Ha] & ->). exists g0, g4. split; [done|]. split; [done|].
    by split.
Qed.

(** ** The whole decision *)

Record passed (id tool : string) (args : claims) (rid : option string) (sr : option SpendReservationRequest)
    (r : readings) (pc : claims) (g g' : gate) (s : live) (w : PassportState.world) (g0 g1 : gate) (pf : preflight)
    (g2 : gate) (spend : option SpendReservationResult) (g3 : gate) : Prop := {
  ps_live : g_live g !! id = Some s;
  ps_open : PassportState.blocked_session_reason (ended s) (claims_of s) (rd_fresh r) (g_world g) = (w, Ok None);
  ps_telemetry : missing_declared_telemetry args (declared_required_telemetry (claims_of s)) = [];
  ps_boundary : compromised_read tool args s = false;
  ps_mission : resolve_authoritative_policy_claims cf (claims_of s) r (set_world w g) = (g0, Ok pc);
  ps_risk : risk_preflight cf id tool args pc rid (rd_risk r) g0 = (g1, Ok pf);
  ps_risk_ok : pf_accepted pf = true;
  ps_spend : reserve_spend_if_required cf id tool pc sr (rd_quote r) (rd_spend r) g1 = (g2, Ok spend);
  ps_spend_ok : forall x, spend = Some x -> SpendLedger.accepted x = true;
  ps_mic : exists s2, g_live g2 !! id = Some s2 /\ mic_checks (claims_of s2) args pc (g_seen g2) = Ok None;
  ps_check : exists why, evaluate_ordinary_tool_policy cf id tool args pc r g2 = (g3, Ok (Session.PERMIT, why, LastEvent));
  ps_persist : exists f, (forall s, same_progress s (f s)) /\ persist_session cf id (update id f g3).1 = (g', Ok tt)
}.

Lemma update_run id f g g' u : update id f g = (g', Ok u) -> g' = (update id f g).1.
Proof. by intros [= <- _]. Qed.

Lemma settle_permit id why h spend pf r g g' out :
  settle_verdict id (Session.PERMIT, why, h) spend pf r g = (g', Ok out) ->
  out = (None, pf) /\ exists f, (forall s, same_progress s (f s)) /\ g' = (update id f g).1.
Proof.
  unfold settle_verdict. rewrite bool_decide_true by done. intros H. step H. injection E as <- <-. cbn in H.
  step H. injection E as <- <-. step H. injection H as <- <-. split; [done|].
  destruct spend as [x|].
  - exists (set_details h (set_budget_delta (ReceiptLog.spend_reservation_delta x))).
    split; [intros s; apply set_details_same|by apply update_run in E].
  - injection E as <- _. exists (fun s => s). split; [done|]. unfold update, modify, set_live. cbn [fst]. rewrite alter_id by done. by destruct g.
Qed.

Lemma reserved_permit id tool args pc sr r g g' why h spend :
  decide_reserved cf id tool args pc sr r g = (g', Ok (Session.PERMIT, why, h, spend)) ->
  exists g2 s2, reserve_spend_if_required cf id tool pc sr (rd_quote r) (rd_spend r) g = (g2, Ok spend) /\
    (forall x, spend = Some x -> SpendLedger.accepted x = true) /\
    g_live g2 !! id = Some s2 /\ mic_checks (claims_of s2) args pc (g_seen g2) = Ok None /\
    evaluate_ordinary_tool_policy cf id tool args pc r g2 = (g', Ok (Session.PERMIT, why, h)).
Proof.
  unfold decide_reserved. intros H. step H. apply attempt_ok in E as (x & E & [= ->]). destruct x as [x|e].
  2: { destruct (spend_code e); [|done]. step H. apply refuse_decision in E0 as ->. discriminate H. }
  assert (Hmic : forall m : G (verdict * option SpendReservationResult),
    m = (s ← target id; receipts ← gets g_seen; mic ← raises (mic_checks (claims_of s) args pc receipts);
         v ← (match mic with
              | Some (d, why, denial) => refuse cf id tool args d why (Some denial) (rd_timestamp r)
              | None => evaluate_ordinary_tool_policy cf id tool args pc r
              end : G verdict); mret (v, x)) ->
    m g0 = (g', Ok (Session.PERMIT, why, h, spend)) ->
    x = spend /\ exists s2, g_live g0 !! id = Some s2 /\ mic_checks (claims_of s2) args pc (g_seen g0) = Ok None /\
      evaluate_ordinary_tool_policy cf id tool args pc r g0 = (g', Ok (Session.PERMIT, why, h))).
  { intros m -> Hm. step Hm. apply target_ok in E0 as [-> Hs]. step Hm. injection E0 as <- <-.
    step Hm. apply raises_ok in E0 as [-> Hc]. step Hm. injection Hm as <- -> ->. split; [done|]. exists a.
    split; [done|]. destruct a0 as [[[d w] denial]|]; [|done]. apply refuse_decision in E0. injection E0 as <- _ _.
    by apply mic_decision in Hc. }
  destruct x as [[[] code h1 h2 h3 h4 h5 h6]|].
  - destruct (Hmic _ eq_refl H) as (<- & s2 & H1 & H2 & H3). exists g0, s2. split_and!; [done|by intros x [= <-]|done..].
  - step H. apply refuse_decision in E0 as ->. discriminate H.
  - destruct (Hmic _ eq_refl H) as (<- & s2 & H1 & H2 & H3). exists g0, s2. by split_and!.
Qed.

Lemma governed_permit id tool args pc rid sr r g g' why h rel :
  decide_governed cf id tool args pc rid sr r g = (g', Ok (Session.PERMIT, why, h, rel)) ->
  exists g1 pf g2 spend s2 g3, h = LastEvent /\ rel = None /\
    risk_preflight cf id tool args pc rid (rd_risk r) g = (g1, Ok pf) /\ pf_accepted pf = true /\
    reserve_spend_if_required cf id tool pc sr (rd_quote r) (rd_spend r) g1 = (g2, Ok spend) /\
    (forall x, spend = Some x -> SpendLedger.accepted x = true) /\
    g_live g2 !! id = Some s2 /\ mic_checks (claims_of s2) args pc (g_seen g2) = Ok None /\
    evaluate_ordinary_tool_policy cf id tool args pc r g2 = (g3, Ok (Session.PERMIT, why, LastEvent)) /\
    exists f, (forall s, same_progress s (f s)) /\ persist_session cf id (update id f g3).1 = (g', Ok tt).
Proof.
  unfold decide_governed. intros H. step H. rename a into pf. step H. destruct a as [[v rel'] pf']. step H. step H.
  injection H as -> -> ->. destruct a0. destruct (pf_accepted pf) eqn:Ea; cbn [negb] in E0.
  2: { step E0. apply refuse_decision in E3 as ->. injection E0 as _ E0 _ _ _ _.
       unfold risk_refusal in E0. by destruct (pf_denial pf) as [[]|]. }
  step E0. destruct a0 as [v spend]. step E0. destruct a0 as [rel'' pf'']. injection E0 as <- -> -> ->.
  apply settle_permit in E4 as ([= -> ->] & f & Hf & ->).
  apply reserved_permit in E3 as (g5 & s2 & H1 & H2 & H3 & H4 & H5).
  assert (h = LastEvent) as -> by (apply ordinary_permit in H5 as (? & ? & ? & ? & _ & _ & _ & ->); done).
  exists g0, pf, g5, spend, s2, g3. split_and!; try done. apply update_run in E1. subst g2.
  rewrite <- update_compose in E2. eexists. split; [|exact E2]. intros s.
  eapply same_trans; [apply Hf|apply set_details_same].
Qed.

Lemma decide_permit id tool args rid sr r g g' why h pc rel :
  decide_call cf id tool args rid sr r g = (g', Ok (Session.PERMIT, why, h, pc, rel)) ->
  h = LastEvent /\ rel = None /\
  exists s w g0 g1 pf g2 spend g3, passed id tool args rid sr r pc g g' s w g0 g1 pf g2 spend g3.
Proof.
  unfold decide_call. intros H. step H. apply target_ok in E as [-> Hs]. rename a into s. step H.
  unfold on_world in E. destruct (PassportState.blocked_session_reason _ _ _ (g_world g)) as [w [b|e]] eqn:Eb; [|done].
  injection E as <- <-. destruct b as [b|]; [by destruct b|].
  destruct (missing_declared_telemetry _ _) eqn:Em.
  2: { step H. apply refuse_decision in E as ->. step H. discriminate H. }
  destruct (compromised_read tool args s) eqn:Ec.
  { step H. apply refuse_decision in E as ->. step H. discriminate H. }
  step H. apply attempt_ok in E as (x & Er & [= ->]). destruct x as [pc'|e].
  2: { destruct e; try done. step H. apply refuse_decision in E as ->. step H. injection H as _ -> _ _ _ _.
       by apply mission_decision in Er. }
  step H. destruct a as [[[d w'] h'] rel']. injection H as -> -> -> -> -> ->.
  apply governed_permit in E as (g1 & pf & g2 & spend & s2 & g3 & -> & -> & H1 & H2 & H3 & H4 & H5 & H6 & H7 & H8).
  split; [done|]. split; [done|]. exists s, w, g0, g1, pf, g2, spend, g3. split; eauto.
Qed.
End Runs.
#[global] Arguments ps_live {D J R T U F X S FT TT I Zl cf id tool args rid sr r pc g g' s w g0 g1 pf g2 spend g3} p.
#[global] Arguments ps_open {D J R T U F X S FT TT I Zl cf id tool args rid sr r pc g g' s w g0 g1 pf g2 spend g3} p.
#[global] Arguments ps_telemetry {D J R T U F X S FT TT I Zl cf id tool args rid sr r pc g g' s w g0 g1 pf g2 spend g3} p.
#[global] Arguments ps_boundary {D J R T U F X S FT TT I Zl cf id tool args rid sr r pc g g' s w g0 g1 pf g2 spend g3} p.
#[global] Arguments ps_mission {D J R T U F X S FT TT I Zl cf id tool args rid sr r pc g g' s w g0 g1 pf g2 spend g3} p.
#[global] Arguments ps_risk {D J R T U F X S FT TT I Zl cf id tool args rid sr r pc g g' s w g0 g1 pf g2 spend g3} p.
#[global] Arguments ps_risk_ok {D J R T U F X S FT TT I Zl cf id tool args rid sr r pc g g' s w g0 g1 pf g2 spend g3} p.
#[global] Arguments ps_spend {D J R T U F X S FT TT I Zl cf id tool args rid sr r pc g g' s w g0 g1 pf g2 spend g3} p.
#[global] Arguments ps_spend_ok {D J R T U F X S FT TT I Zl cf id tool args rid sr r pc g g' s w g0 g1 pf g2 spend g3} p x Hx.
#[global] Arguments ps_mic {D J R T U F X S FT TT I Zl cf id tool args rid sr r pc g g' s w g0 g1 pf g2 spend g3} p.
#[global] Arguments ps_check {D J R T U F X S FT TT I Zl cf id tool args rid sr r pc g g' s w g0 g1 pf g2 spend g3} p.
#[global] Arguments ps_persist {D J R T U F X S FT TT I Zl cf id tool args rid sr r pc g g' s w g0 g1 pf g2 spend g3} p.
