(* ===== verification/GateFrame.v ===== *)
(** * What a decision leaves alone

    A decision changes sessions, the ledgers, the cache of missions and the
    approval trackers; the receipts log and what was seen of it change only when
    the receipt is written.  With it, what an approval rate asks of a permitted
    call, and that the event of a decision is about the call. *)

From S2P Require Import Prelude Sha256 CanonicalJson SpendPolicy SpendLedger Merkle RiskPolicy Passport PassportPop.
From S2P Require Import ResourceScope PyJson Policy Session RiskLedger Approvals MemoryStore PassportState.
From S2P Require Import Receipt ReceiptProps ReceiptLog ReceiptLogProps Urls Mission SessionStore Gate GateLogic GateInv GateRuns.
Import Passport ResourceScope PyJson Policy SessionStore Gate.
Open Scope string_scope.
Open Scope Z_scope.

Section Frame.
Context {D : Digests} {J : Jwt} {W : Receipt.Jws} {P : Receipt.PyText} {R : PyRepr} {T : Wording}.
Context {U : UnicodeData} {F : Filesystem} {X : Regex} {S : RiskPolicy.JsonSchema} {FT : FloatText}.
Context {TT : TokenText} {I : IpAddress} {Zl : Zlib}.
Variable cf : config.

(** ** Parts of the state that sessions and ledgers do not touch *)

Record quiet {A} (p : gate -> A) : Prop := {
  qt_world : forall w g, p (set_world w g) = p g;
  qt_risk : forall d g, p (set_risk d g) = p g;
  qt_spend : forall d g, p (set_spend d g) = p g;
  qt_live : forall m g, p (set_live m g) = p g;
  qt_files : forall m g, p (set_files m g) = p g;
  qt_pending : forall q g, p (set_pending q g) = p g;
  qt_missions : forall c g, p (set_missions c g) = p g
}.
Definition part_is {A} (p : gate -> A) (a : A) (g : gate) : Prop := p g = a.
Lemma quiet_log : quiet g_log.
Proof. done. Qed.
Lemma quiet_seen : quiet g_seen.
Proof. done. Qed.
Lemma quiet_trackers : quiet g_trackers.
Proof. done. Qed.

Section Quiet.
Context {B : Type} (p : gate -> B) (b : B).
Hypothesis Hp : quiet p.
#[local] Notation kept := (keeps (part_is p b)).

Lemma frame_modify f : (forall g, p (f g) = p g) -> kept (modify f).
Proof. intros Hf g Hg. unfold part_is in *. cbn. by rewrite Hf. Qed.
Lemma frame_update id f : kept (update id f).
Proof. apply frame_modify. intros g. apply (qt_live _ Hp). Qed.
Lemma frame_pending f : kept (modify (fun g => set_pending (f g) g)).
Proof. apply frame_modify. intros g. apply (qt_pending _ Hp). Qed.
Lemma frame_world {A} (m : PassportState.M A) : kept (on_world m).
Proof. intros g Hg. unfold part_is, on_world in *. destruct (m _). cbn. by rewrite (qt_world _ Hp). Qed.
Lemma frame_risk {A} (m : RiskLedger.store -> RiskLedger.store * res RiskPolicy.risk_exc A) : kept (on_risk m).
Proof. intros g Hg. unfold part_is, on_risk in *. destruct (m _). cbn. by rewrite (qt_risk _ Hp). Qed.
Lemma frame_spend {A} (m : SpendLedger.ledger_dir -> res spend_exc (SpendLedger.ledger_dir * A)) : kept (on_spend m).
Proof. intros g Hg. unfold part_is, on_spend in *. destruct (m _) as [[d a]|e]; [|done]. cbn. by rewrite (qt_spend _ Hp). Qed.
Lemma frame_missions {A} (m : Mission.MissionCache -> Mission.MissionCache * res mission_exc A) : kept (on_missions m).
Proof. intros g Hg. unfold part_is, on_missions in *. destruct (m _). cbn. by rewrite (qt_missions _ Hp). Qed.
#[local] Hint Resolve frame_update frame_pending frame_world frame_risk frame_spend frame_missions : gate.

Lemma frame_persist id : kept (persist_session cf id).
Proof. unfold persist_session. keep. apply frame_modify. intros g. apply (qt_files _ Hp). Qed.
Lemma frame_refuse id tool args d why denial ts : kept (refuse cf id tool args d why denial ts).
Proof. unfold refuse, record_tool_policy_event. keep. Qed.
Lemma frame_resolve c r : kept (resolve_authoritative_policy_claims cf c r).
Proof. unfold resolve_authoritative_policy_claims. keep. Qed.
Lemma frame_preflight id tool args pc rid now : kept (risk_preflight cf id tool args pc rid now).
Proof. unfold risk_preflight, pinned_policy, reserve_risk. keep. Qed.
Lemma frame_reserve_spend id tool pc sr t t' : kept (reserve_spend_if_required cf id tool pc sr t t').
Proof. unfold reserve_spend_if_required. keep. Qed.
Lemma frame_release code t t' : kept (release_pre_action_reservations code t t').
Proof.
  unfold release_pre_action_reservations, release_one, cancel_spend, release_risk, close_spend, close_risk. keep.
Qed.
Lemma frame_memory_store id sid args : kept (get_or_create_memory_store id sid args).
Proof. unfold get_or_create_memory_store. keep. Qed.
#[local] Hint Resolve frame_memory_store : gate.
Lemma frame_memory_write id args r : kept (proxy_memory_write cf id args r).
Proof. unfold proxy_memory_write, some_text. keep. Qed.
Lemma frame_memory_read id args r : kept (proxy_memory_read cf id args r).
Proof. unfold proxy_memory_read, some_text. keep. Qed.
#[local] Hint Resolve frame_persist frame_refuse frame_resolve frame_preflight frame_reserve_spend frame_release
  frame_memory_write frame_memory_read : gate.

(** Nor the trackers. *)
Hypothesis Ht : forall m g, p (set_trackers m g) = p g.
Lemma frame_trackers f : kept (modify (fun g => set_trackers (f g) g)).
Proof. apply frame_modify. intros g. apply Ht. Qed.
#[local] Hint Resolve frame_trackers : gate.
Lemma frame_approval_rate pc : kept (approval_rate pc).
Proof. unfold approval_rate, approval_tracker. keep. Qed.
Lemma frame_may_approve k o t : kept (may_approve k o t).
Proof. unfold may_approve, on_tracker. keep. Qed.
Lemma frame_note_approval k o t : kept (note_approval k o t).
Proof. unfold note_approval, on_tracker. keep. Qed.
#[local] Hint Resolve frame_approval_rate frame_may_approve frame_note_approval : gate.

(** Nor the policy backends. *)
Hypothesis Hr : forall m g, p (set_registry m g) = p g.
Lemma frame_registry m : kept (modify (set_registry m)).
Proof. apply frame_modify. intros g. apply Hr. Qed.
#[local] Hint Resolve frame_registry : gate.
Lemma frame_check_and_apply id tool args pc r : kept (check_and_apply cf id tool args pc r).
Proof. unfold check_and_apply, check_and_record, apply_memory_post_permit. keep. Qed.
#[local] Hint Resolve frame_check_and_apply : gate.
Lemma frame_ordinary id tool args pc r : kept (evaluate_ordinary_tool_policy cf id tool args pc r).
Proof. unfold evaluate_ordinary_tool_policy. keep. Qed.
#[local] Hint Resolve frame_ordinary : gate.
Lemma frame_decide id tool args rid sr r : kept (decide_call cf id tool args rid sr r).
Proof. unfold decide_call, decide_governed, decide_reserved, settle_verdict. keep. Qed.
End Quiet.

Lemma frame_run {A B} (p : gate -> B) (m : G A) g g' a : keeps (part_is p (p g)) m -> m g = (g', a) -> p g' = p g.
Proof. intros Hm E. specialize (Hm g eq_refl). by rewrite E in Hm. Qed.

(** ** Approvals *)

(** What an approval rate in the policy asks of a call: a valid rate, an
    operator, and room for one more approval in the operator's window, in the
    tracker of that rate or in a new one. *)
Definition approval_granted (pc args : claims) (ts : Z) (trackers : gmap (Z * Z) Approvals.tracker) : Prop :=
  forall pol, py_get "approval_policy" pc = PDict pol -> py_get MAX_APPROVALS pol <> PNone ->
  exists max w operator, int_of (py_get MAX_APPROVALS pol) = Ok max /\
    window_of (get_or "window_s" (PInt 3600) pol) = Ok w /\ approval_operator_id pc args = Some operator /\
    match w with
    | NotANumber => 1 <= max
    | Ticks n => exists tr tr', (trackers !! (max, n) = Some tr \/
          trackers !! (max, n) = None /\ Approvals.new_tracker max n = Ok tr) /\
        Approvals.check operator ts tr = Ok (tr', true)
    end.

Lemma tracker_run max w g g' k : approval_tracker max w g = (g', Ok k) ->
  match w with
  | NotANumber => k = None /\ 1 <= max
  | Ticks n => k = Some (max, n) /\ exists tr, g_trackers g' !! (max, n) = Some tr /\
      (g_trackers g !! (max, n) = Some tr \/ g_trackers g !! (max, n) = None /\ Approvals.new_tracker max n = Ok tr)
  end.
Proof.
  unfold approval_tracker. destruct w as [n|]; intros H; step H.
  - injection E as <- <-. destruct (g_trackers g !! (max, n)) as [tr|] eqn:Et.
    + injection H as <- <-. split; [done|]. exists tr. auto.
    + step H. apply lift_run_ok in E as [-> Hn]. step H. injection E as <- _. injection H as <- <-.
      split; [done|]. exists a. cbn. rewrite lookup_insert_eq. auto.
  - apply demand_ok in E as [-> Hm]. injection H as <- <-. split; [done|]. lia.
Qed.
Lemma approval_run pc args r g g0 rate : approval_rate pc g = (g0, Ok rate) -> approved pc args r g0 rate ->
  approval_granted pc args (rd_approval r) (g_trackers g).
Proof.
  intros H Ha pol Hpol Hraw. unfold approval_rate in H. rewrite Hpol in H. set (raw := py_get MAX_APPROVALS pol) in *.
  assert (H' : (r ← attempt (max ← raises (int_of raw); w ← raises (window_of (get_or "window_s" (PInt 3600) pol));
                             approval_tracker max w : G (option (Z * Z)));
          match r with
          | Ok k => mret (Some (Some k))
          | Raise EType | Raise (EValue _) => mret (Some None)
          | Raise e => throw e
          end : G (option (option (option (Z * Z))))) g = (g0, Ok rate)) by (by destruct raw).
  clear H. step H'. apply attempt_ok in E as (out & E & [= ->]). destruct out as [k|e].
  2: { destruct e; try done; injection H' as _ <-; done. }
  injection H' as <- <-. step E. apply raises_ok in E0 as [-> Hmax]. step E. apply raises_ok in E0 as [-> Hw].
  rename a into max, a0 into w. cbn in Ha. destruct Ha as (o & g2 & Ho & Hm). exists max, w, o. split_and!; [done..|].
  apply tracker_run in E. destruct w as [n|]; [|by destruct E]. destruct E as (-> & tr & Htr & Hor).
  unfold may_approve, on_tracker in Hm. step Hm. injection E as <- <-. rewrite Htr in Hm. step Hm.
  apply lift_run_ok in E as [-> Hc]. destruct a as [tr' b]. step Hm. injection Hm as _ ->. exists tr, tr'. auto.
Qed.

(** ** The event of a decision *)

Definition about (tool : string) (args : claims) (e : Session.PolicyEvent) : Prop :=
  Session.ev_tool_name e = tool /\ Session.ev_arguments e = args.
Definition last_about (id tool : string) (args : claims) (g : gate) : Prop :=
  exists s e, g_live g !! id = Some s /\ last (Session.events (core s)) = Some e /\ about tool args e.
Lemma last_mild id tool args : mild (last_about id tool args) id.
Proof.
  assert (Hup : forall f, (forall s, core (f s) = core s) -> keeps (last_about id tool args) (update id f)).
  { intros f Hf g (s & e & Hs & He & Ha). exists (f s), e. cbn. by rewrite lookup_alter_eq, Hs, Hf. }
  split; [by intros g g' _ El _ _ (s & e & Hs & He); exists s, e; rewrite El| |].
  - intros f Hf. apply Hup. intros s. apply (Hf s).
  - intros g s p Hg _ _. by apply (Hup (set_snapshot p)).
Qed.
Lemma last_alter {A} (f : A -> A) l x : last l = Some x -> last (alter_last f l) = Some (f x).
Proof.
  induction l as [|a l IH]; [done|]. destruct l as [|b l]; [by intros [= ->]|]. intros H.
  change (last (b :: l) = Some x) in H. change (alter_last f (a :: b :: l)) with (a :: alter_last f (b :: l)).
  by rewrite last_cons, (IH H).
Qed.
Lemma last_downgrade id tool args d why denial f : (forall s, core (f s) = core s) ->
  keeps (last_about id tool args) (update id (fun s => downgrade_last_permit d why denial (f s))).
Proof.
  intros Hf g (s & e & Hs & He & Ha).
  assert (Hl : exists e', last (Session.events (core (downgrade_last_permit d why denial (f s)))) = Some e' /\ about tool args e').
  { unfold downgrade_last_permit. rewrite Hf, He. case_bool_decide; [|exists e; by rewrite Hf].
    exists (set_decision d why denial e). split; [by apply last_alter|done]. }
  destruct Hl as (e' & He' & Ha'). exists (downgrade_last_permit d why denial (f s)), e'. split; [|done].
  cbn. by rewrite lookup_alter_eq, Hs.
Qed.
Lemma record_about id tool args d why denial ts g g' u :
  record_tool_policy_event cf id tool args d why denial ts g = (g', Ok u) -> last_about id tool args g'.
Proof.
  unfold record_tool_policy_event. intros H. step H. apply target_ok in E as [-> Hs]. injection H as <- _.
  eexists _, _. cbn. rewrite lookup_alter_eq, Hs. split; [done|]. cbn. by rewrite last_snoc.
Qed.
Lemma refuse_about id tool args d why denial ts g g' v : refuse cf id tool args d why denial ts g = (g', Ok v) ->
  v = (d, why, LastEvent) /\ last_about id tool args g'.
Proof. unfold refuse. intros H. step H. injection H as <- <-. split; [done|]. by eapply record_about. Qed.
Lemma check_event env cedar s tool args pc vid reg now now' ts reg' s' e :
  Session.check_and_record env cedar s tool args pc vid reg now now' ts = Ok (reg', s', e) -> about tool args e.
Proof.
  unfold Session.check_and_record. intros (n & _ & Hc)%bind_ok. cbv zeta in Hc.
  apply bind_ok in Hc as ([reg1 native] & _ & Hc). apply bind_ok in Hc as (specs & _ & Hc).
  apply bind_ok in Hc as ([reg2 others] & _ & Hc). destruct (Session.verdict _) as [[d why] denial].
  apply bind_ok in Hc as (j & _ & Hc). by injection Hc as _ _ <-.
Qed.
Lemma memory_about id tool args tool' args' r :
  keeps (last_about id tool args) (apply_memory_post_permit cf id tool' args' r).
Proof.
  pose proof (last_mild id tool args) as Hm. unfold apply_memory_post_permit.
  destruct (negb _); [apply keeps_ret|]. apply keeps_bind.
  - apply keeps_attempt. destruct (String.eqb _ _); [by apply keeps_memory_write|by apply keeps_memory_read].
  - intros [u|e]; [apply keeps_ret|]. destruct e; try apply keeps_throw; (apply keeps_bind; [|intros ?; apply keeps_ret]).
    + apply last_downgrade. intros s. unfold mark_compromised. destruct (py_get _ _); try done. by destruct (non_empty _).
    + by apply (last_downgrade _ _ _ _ _ _ (fun s => s)).
Qed.
Lemma apply_about id tool args pc r g g' v : check_and_apply cf id tool args pc r g = (g', Ok v) ->
  v.2 = LastEvent /\ last_about id tool args g'.
Proof.
  unfold check_and_apply. intros H. step H. destruct a as [d why].
  assert (H1 : last_about id tool args g0).
  { apply check_run in E as (s & e & reg & Hs & Hc & _ & _ & ->).
    exists (set_core (Session.record_event (core s) e) (attached s ++ [no_details])%list s), e. cbn.
    rewrite lookup_alter_eq, Hs. split; [done|]. split; [by rewrite last_snoc|by eapply check_event]. }
  case_bool_decide; [|by injection H as <- <-]. step H. destruct a as [d' why']. injection H as <- <-. split; [done|].
  apply (memory_about id tool args tool args r) in H1. by rewrite E0 in H1.
Qed.
Lemma ordinary_about id tool args pc r g g' v : evaluate_ordinary_tool_policy cf id tool args pc r g = (g', Ok v) ->
  v.2 = LastEvent /\ last_about id tool args g'.
Proof.
  unfold evaluate_ordinary_tool_policy. intros H. step H.
  destruct a as [[k|]|]; [|by apply refuse_about in H as [-> ?]|by apply apply_about in H].
  destruct (approval_operator_id pc args); [|by apply refuse_about in H as [-> ?]]. step H.
  destruct a; cbn [negb] in H; [|by apply refuse_about in H as [-> ?]]. step H. destruct a as [[d why] h].
  step H. injection H as <- <-. apply apply_about in E1 as [Hh H1]. split; [done|].
  case_bool_decide; [|by injection E2 as <- _].
  apply (keeps_note_approval _ id (last_mild id tool args) k s (rd_approval r)) in H1. by rewrite E2 in H1.
Qed.
Lemma reserved_about id tool args pc sr r g g' v sp : decide_reserved cf id tool args pc sr r g = (g', Ok (v, sp)) ->
  v.2 = LastEvent /\ last_about id tool args g'.
Proof.
  unfold decide_reserved. intros H. step H. destruct a as [x|e].
  2: { destruct (spend_code e); [|done]. step H. injection H as <- <- _. by apply refuse_about in E0 as [-> ?]. }
  assert (Hmic : forall m : G (verdict * option SpendReservationResult),
    m = (s ← target id; receipts ← gets g_seen; mic ← raises (mic_checks (claims_of s) args pc receipts);
         v ← (match mic with
              | Some (d, why, denial) => refuse cf id tool args d why (Some denial) (rd_timestamp r)
              | None => evaluate_ordinary_tool_policy cf id tool args pc r
              end : G verdict); mret (v, x)) ->
    m g0 = (g', Ok (v, sp)) -> v.2 = LastEvent /\ last_about id tool args g').
  { intros m -> Hm. step Hm. step Hm. step Hm. step Hm. injection Hm as <- <- _.
    destruct a1 as [[[d w] denial]|]; [by apply refuse_about in E3 as [-> ?]|by apply ordinary_about in E3]. }
  destruct x as [[[] code h1 h2 h3 h4 h5 h6]|]; try exact (Hmic _ eq_refl H).
  step H. injection H as <- <- _. by apply refuse_about in E0 as [-> ?].
Qed.
Lemma governed_about id tool args pc rid sr r g g' v rel :
  decide_governed cf id tool args pc rid sr r g = (g', Ok (v, rel)) -> v.2 = LastEvent /\ last_about id tool args g'.
Proof.
  pose proof (last_mild id tool args) as Hm. unfold decide_governed. intros H. step H. step H. destruct a0 as [[v' rel'] pf'].
  assert (H1 : v'.2 = LastEvent /\ last_about id tool args g1).
  { destruct (negb _).
    - step E0. injection E0 as <- <- _ _. by apply refuse_about in E1 as [-> ?].
    - step E0. destruct a0 as [v0 sp]. step E0. destruct a0 as [rel0 pf0]. injection E0 as <- <- _ _.
      apply reserved_about in E1 as [Hh Hl]. split; [done|].
      apply (keeps_settle_verdict _ id Hm v0 sp a r) in Hl. by rewrite E2 in Hl. }
  destruct H1 as [Hh Hl]. step H. step H. injection H as <- <- _. split; [done|].
  apply (ml_update _ _ Hm (set_details v'.2 (set_risk_details (pf_measurements pf') (pf_remaining pf')))) in Hl;
    [|intros s; apply set_details_same]. rewrite E1 in Hl. cbn [fst] in Hl.
  destruct Hl as (s & e & Hs & He). rewrite (persist_run _ _ _ _ Hs) in E2.
  destruct (ReceiptLog.add_integrity _ _ _); [|done]. injection E2 as <-. by exists s, e.
Qed.
(** Every decision is about an event of the call. *)
Lemma decide_about id tool args rid sr r g g' d why h pc rel :
  decide_call cf id tool args rid sr r g = (g', Ok (d, why, h, pc, rel)) ->
  match h with LastEvent => last_about id tool args g' | LooseEvent e => about tool args e end.
Proof.
  assert (Hper : forall g g', last_about id tool args g -> persist_session cf id g = (g', Ok tt) -> last_about id tool args g').
  { intros g1 g2 (s & e & Hs & He) E. rewrite (persist_run _ _ _ _ Hs) in E.
    destruct (ReceiptLog.add_integrity _ _ _); [|done]. injection E as <-. by exists s, e. }
  assert (Href : forall d0 why0 denial c g1, (v ← refuse cf id tool args d0 why0 (Some denial) (rd_timestamp r);
      _ ← persist_session cf id; mret (v, c, None) : G (verdict * claims * option RiskLedger.RiskOutcomeResult)) g1
      = (g', Ok (d, why, h, pc, rel)) -> h = LastEvent /\ last_about id tool args g').
  { intros d0 why0 denial c g1 H. step H. step H. destruct a0. apply refuse_about in E as [-> Hl].
    injection H as <- _ _ <- _ _. split; [done|]. by eapply Hper. }
  unfold decide_call. intros H. step H. step H. destruct a0 as [[]|].
  1-2: by injection H as _ _ _ <- _ _.
  destruct (missing_declared_telemetry _ _); [|by apply Href in H as [-> ?]].
  destruct (compromised_read tool args a); [by apply Href in H as [-> ?]|]. step H. destruct a0 as [pc'|e].
  - step H. destruct a0 as [[[d0 w0] h0] rel']. injection H as <- -> -> -> _ _. apply governed_about in E2 as [Hh Hl].
    cbn in Hh. by subst h.
  - destruct e; try done. by apply Href in H as [-> ?].
Qed.
End Frame.
