(* ===== verification/GateReceipts.v ===== *)
(** * The receipt of a decision

    Only the building of a receipt moves the anchor of a session: everything a
    decision does before it leaves the anchor, and the receipts stored with
    events, as they were.  An answered call therefore leaves one receipt, linked
    to the one the session's file named, and named by the file afterwards. *)

From S2P Require Import Prelude Sha256 CanonicalJson SpendPolicy SpendLedger Merkle RiskPolicy Passport PassportPop.
From S2P Require Import ResourceScope PyJson Policy Session RiskLedger Approvals MemoryStore PassportState.
From S2P Require Import Receipt ReceiptProps ReceiptLog ReceiptLogProps Urls Mission SessionStore Gate GateLogic GateInv GateRuns.
From S2P Require Import GateFrame.
Import Passport ResourceScope PyJson Policy SessionStore Gate.
Open Scope string_scope.
Open Scope Z_scope.

Section Receipts.
Context {D : Digests} {J : Jwt} {W : Receipt.Jws} {P : Receipt.PyText} {R : PyRepr} {T : Wording}.
Context {U : UnicodeData} {F : Filesystem} {X : Regex} {S : RiskPolicy.JsonSchema} {FT : FloatText}.
Context {TT : TokenText} {I : IpAddress} {Zl : Zlib}.
Variable cf : config.

(** ** Updates that build no receipt *)

(** The receipts stored with the events of a session. *)
Definition stored (s : live) : list ReceiptLog.entry := omap d_receipt (attached s).
Record tame (s s' : live) : Prop := {
  tm_jti : jti_of s' = jti_of s;
  tm_anchor : last_receipt_full_hash s' = last_receipt_full_hash s;
  tm_stored : stored s' ⊆ stored s
}.
Lemma tame_trans s1 s2 s3 : tame s1 s2 -> tame s2 s3 -> tame s1 s3.
Proof. intros [] []. split; try congruence. set_solver. Qed.
Lemma tame_core s c a : ReceiptLog.session_jti c = jti_of s -> omap d_receipt a ⊆ stored s -> tame s (set_core c a s).
Proof. by split. Qed.
Lemma tame_event s e d : d_receipt d = None -> tame s (add_event e d s).
Proof.
  intros Hd. apply tame_core; [done|]. unfold stored. rewrite omap_app. cbn. rewrite Hd. by rewrite app_nil_r.
Qed.
Lemma alter_last_stored f l : (forall d, d_receipt (f d) = d_receipt d) -> omap d_receipt (alter_last f l) = omap d_receipt l.
Proof.
  intros Hf. induction l as [|a [|b l] IH]; [done|cbn; by rewrite Hf|].
  change (alter_last f (a :: b :: l)) with (a :: alter_last f (b :: l)). cbn [omap list_omap] in *. by rewrite IH.
Qed.
Lemma tame_details s h f : (forall d, d_receipt (f d) = d_receipt d) -> tame s (set_details h f s).
Proof. intros Hf. destruct h; [|done]. apply tame_core; [done|]. by rewrite alter_last_stored. Qed.
Lemma tame_downgrade s d why denial : tame s (downgrade_last_permit d why denial s).
Proof.
  unfold downgrade_last_permit. destruct (last _); [|done]. case_bool_decide; [|done]. by apply tame_core.
Qed.
Lemma tame_compromised args s : tame s (mark_compromised args s).
Proof. unfold mark_compromised. destruct (py_get _ _); try done. by destruct (non_empty _). Qed.
Lemma alter_stored f (i : nat) (l : list details) : (forall d, d_receipt (f d) = d_receipt d) -> omap d_receipt (alter f i l) = omap d_receipt l.
Proof.
  intros Hf. revert i. induction l as [|a l IH]; intros [|i]; [done..|cbn; by rewrite Hf|cbn; by rewrite <- (IH i)].
Qed.

(** A property of sessions, files and the log that such updates, and writing the
    file, preserve. *)
Record calm (K : gate -> Prop) (id : string) : Prop := {
  cm_state : forall g g', g_files g' = g_files g -> g_live g' = g_live g -> g_log g' = g_log g -> K g -> K g';
  cm_update : forall g s f, g_live g !! id = Some s -> tame s (f s) -> K g -> K (update id f g).1;
  cm_persist : keeps K (persist_session cf id);
  cm_live : forall g, K g -> is_Some (g_live g !! id)
}.

Section Calm.
Variables (K : gate -> Prop) (id : string).
Hypothesis HK : calm K id.
#[local] Notation kept := (keeps K).

Lemma calm_modify f : (forall g, g_files (f g) = g_files g /\ g_live (f g) = g_live g /\ g_log (f g) = g_log g) -> kept (modify f).
Proof. intros Hf g Hg. destruct (Hf g) as (? & ? & ?). by apply (cm_state _ _ HK g). Qed.
Lemma calm_update f : (forall s, tame s (f s)) -> kept (update id f).
Proof. intros Hf g Hg. destruct (cm_live _ _ HK g Hg) as [s Hs]. by apply (cm_update _ _ HK g s). Qed.
Lemma calm_world {A} (m : PassportState.M A) : kept (on_world m).
Proof. intros g Hg. unfold on_world. destruct (m _). by apply (cm_state _ _ HK g). Qed.
Lemma calm_risk {A} (m : RiskLedger.store -> RiskLedger.store * res RiskPolicy.risk_exc A) : kept (on_risk m).
Proof. intros g Hg. unfold on_risk. destruct (m _). by apply (cm_state _ _ HK g). Qed.
Lemma calm_spend {A} (m : SpendLedger.ledger_dir -> res spend_exc (SpendLedger.ledger_dir * A)) : kept (on_spend m).
Proof. intros g Hg. unfold on_spend. destruct (m _) as [[]|]; [|done]. by apply (cm_state _ _ HK g). Qed.
Lemma calm_missions {A} (m : Mission.MissionCache -> Mission.MissionCache * res mission_exc A) : kept (on_missions m).
Proof. intros g Hg. unfold on_missions. destruct (m _). by apply (cm_state _ _ HK g). Qed.
Lemma calm_persist : kept (persist_session cf id).
Proof. apply (cm_persist _ _ HK). Qed.
#[local] Hint Resolve calm_world calm_risk calm_spend calm_missions calm_persist : gate.
#[local] Hint Extern 1 (keeps K (modify _)) => apply calm_modify; done : gate.
#[local] Hint Extern 1 (keeps K (update _ _)) => apply calm_update; intros ?; first [done|by apply tame_details|by apply tame_event] : gate.

Lemma calm_refuse tool args d why denial ts : kept (refuse cf id tool args d why denial ts).
Proof. unfold refuse, record_tool_policy_event. keep. Qed.
Lemma calm_resolve c r : kept (resolve_authoritative_policy_claims cf c r).
Proof. unfold resolve_authoritative_policy_claims. keep. Qed.
Lemma calm_approval_rate pc : kept (approval_rate pc).
Proof. unfold approval_rate, approval_tracker. keep. Qed.
Lemma calm_may_approve k o t : kept (may_approve k o t).
Proof. unfold may_approve, on_tracker. keep. Qed.
Lemma calm_note_approval k o t : kept (note_approval k o t).
Proof. unfold note_approval, on_tracker. keep. Qed.
Lemma calm_memory_store sid args : kept (get_or_create_memory_store id sid args).
Proof. unfold get_or_create_memory_store. keep. Qed.
#[local] Hint Resolve calm_memory_store : gate.
Lemma calm_memory_write args r : kept (proxy_memory_write cf id args r).
Proof. unfold proxy_memory_write, some_text. keep. Qed.
Lemma calm_memory_read args r : kept (proxy_memory_read cf id args r).
Proof. unfold proxy_memory_read, some_text. keep. Qed.
#[local] Hint Resolve calm_refuse calm_resolve calm_approval_rate calm_may_approve calm_note_approval
  calm_memory_write calm_memory_read : gate.
Lemma calm_check tool args pc r : kept (check_and_record cf id tool args pc r).
Proof.
  intros g Hg. destruct (check_and_record cf id tool args pc r g) as [g' [[d why]|e]] eqn:E.
  - apply check_run in E as (s & e & reg & Hs & _ & _ & _ & ->). cbn [fst].
    apply (cm_update _ _ HK (set_registry reg g) s); [done| |by apply (cm_state _ _ HK g)].
    apply tame_core; [done|]. unfold stored. rewrite omap_app. cbn. by rewrite app_nil_r.
  - unfold check_and_record in E.
    apply G_bind_inv in E as [(g1 & s & (-> & Hs)%target_ok & E)|(e' & E & _)];
      [|revert E; unfold target, mbind, G_bind, gets; cbn; destruct (g_live g !! id); by intros [= <- _]].
    apply G_bind_inv in E as [(g1 & reg & [= <- <-] & E)|(e' & [=] & _)].
    apply G_bind_inv in E as [(g1 & [[reg c] ev] & _ & E)|(e' & [= <- _] & _)]; [|done].
    apply G_bind_inv in E as [(g2 & u & [= <- <-] & E)|(e' & [=] & _)].
    by apply G_bind_inv in E as [(g2 & u & [= <- <-] & [=])|(e' & [=] & _)].
Qed.
Lemma calm_memory tool args r : kept (apply_memory_post_permit cf id tool args r).
Proof.
  unfold apply_memory_post_permit. keep.
  all: apply calm_update; intros s; try apply tame_downgrade.
  eapply tame_trans; [apply tame_compromised|apply tame_downgrade].
Qed.
#[local] Hint Resolve calm_check calm_memory : gate.
Lemma calm_ordinary tool args pc r : kept (evaluate_ordinary_tool_policy cf id tool args pc r).
Proof. unfold evaluate_ordinary_tool_policy, check_and_apply. keep. Qed.
Lemma calm_preflight tool args pc rid now : kept (risk_preflight cf id tool args pc rid now).
Proof. unfold risk_preflight, pinned_policy, reserve_risk. keep. Qed.
Lemma calm_reserve_spend tool pc sr t t' : kept (reserve_spend_if_required cf id tool pc sr t t').
Proof. unfold reserve_spend_if_required. keep. Qed.
Lemma calm_release code t t' : kept (release_pre_action_reservations code t t').
Proof. unfold release_pre_action_reservations, release_one, cancel_spend, release_risk. keep. Qed.
#[local] Hint Resolve calm_ordinary calm_preflight calm_reserve_spend calm_release : gate.
Lemma calm_decide tool args rid sr r : kept (decide_call cf id tool args rid sr r).
Proof. unfold decide_call, decide_governed, decide_reserved, settle_verdict. keep. Qed.
Lemma calm_mark lin r x : kept (mark_delivered lin id r x).
Proof. unfold mark_delivered. keep. Qed.
Lemma calm_snapshot : kept (ensure_snapshot id).
Proof. unfold ensure_snapshot. keep. Qed.
Lemma calm_spend_policy e r : kept (spend_policy_of cf id e r).
Proof. unfold spend_policy_of, assert_spend_lifecycle_open. keep. Qed.
Lemma calm_finalize now r : kept (finalize_session cf id now r).
Proof. unfold finalize_session, assert_risk_resolved, assert_spend_resolved. keep. Qed.
End Calm.

(** ** Building an entry *)

(** What the receipt of an entry says of the event it was built for. *)
Lemma entry_fields key cs e d audit pc now cs' e' x :
  ReceiptLog.build_receipt_log_entry key cs e d audit pc now = Ok (cs', e', x) ->
  Receipt.r_tool (ReceiptLog.en_receipt x) = Receipt.tool_name (ReceiptLog.pe_event e) /\
  Receipt.r_verdict (ReceiptLog.en_receipt x) = Receipt.verdict_from_decision d /\
  exists text, Receipt.canonical_json (Receipt.arguments (ReceiptLog.pe_event e)) = Ok text /\
    Receipt.arguments_hash (ReceiptLog.en_receipt x) = sha256_hex text.
Proof.
  intros (budget & _ & (rc & Hr & (t & _ & [= _ _ <-])%bind_ok)%bind_ok)%bind_ok. cbn [ReceiptLog.en_receipt].
  assert (Hev : forall s e d pc, Receipt.tool_name (ReceiptLog.complete_event s e d pc) = Receipt.tool_name e /\
    Receipt.arguments (ReceiptLog.complete_event s e d pc) = Receipt.arguments e).
  { intros s0 e0 d0 pc0. unfold ReceiptLog.complete_event. destruct (Receipt.budget_delta e0); [|destruct (ReceiptLog.is_internal_risk_event e0)];
      cbv zeta; by destruct (Receipt.evidence_proof_ref _). }
  unfold Receipt.build_receipt in Hr.
  apply bind_ok in Hr as (text & Ht & (? & _ & (? & _ & (? & _ & (? & _ & [= <-])%bind_ok)%bind_ok)%bind_ok)%bind_ok).
  cbn. destruct (Hev (ReceiptLog.cs_session cs) (ReceiptLog.pe_event e) d pc) as [Et Ea].
  split; [done|]. split; [done|]. exists text. by rewrite <- Ea.
Qed.
Lemma build_run id h d why pc now g g' x s : g_live g !! id = Some s -> build_entry cf id h d why pc now g = (g', Ok x) ->
  exists e dt pe i, event_at h s = Some (e, dt) /\
    ReceiptLog.build_receipt_log_entry (cf_receipt_key cf)
      (ReceiptLog.ChainState (core s) (last_receipt_id s) (last_receipt_full_hash s)) (proxy_event_of e dt) d why pc now
      = Ok (ReceiptLog.ChainState (core s) i (Some (token_hash (ReceiptLog.en_jwt x))), pe, x) /\
    g' = (update id (fun s => set_anchor i (Some (token_hash (ReceiptLog.en_jwt x))) (set_details h (completed pe) s)) g).1.
Proof.
  intros Hs H. unfold build_entry in H. step H. apply target_ok in E as [-> Hs']. rewrite Hs in Hs'. injection Hs' as <-.
  destruct (event_at h s) as [[e dt]|]; [|done]. step H. apply lift_run_ok in E as [-> Hb]. destruct a as [[cs pe] y].
  step H. injection H as <- <-. apply update_run in E.
  assert (Hcs : exists i, cs = ReceiptLog.ChainState (core s) i (Some (token_hash (ReceiptLog.en_jwt y)))).
  { unfold ReceiptLog.build_receipt_log_entry in Hb.
    apply bind_ok in Hb as (? & _ & (? & _ & (? & _ & [= <- _ <-])%bind_ok)%bind_ok). by eexists. }
  destruct Hcs as [i ->]. by exists e, dt, pe, i.
Qed.

(** ** The receipt that an answered call leaves *)

Record receipted (id tool : string) (args : claims) (d : Session.Decision) (parent : option string) (g' : gate)
    (x : ReceiptLog.entry) : Prop := {
  rc_session : ReceiptLog.en_session_id x = id;
  rc_signed : Receipt.sign_receipt (ReceiptLog.en_receipt x) (cf_receipt_key cf) = Ok (ReceiptLog.en_jwt x);
  rc_parent : Receipt.parent_receipt_hash (ReceiptLog.en_receipt x) = parent;
  rc_tool : Receipt.r_tool (ReceiptLog.en_receipt x) = tool;
  rc_arguments : exists text, Receipt.canonical_json args = Ok text /\
    Receipt.arguments_hash (ReceiptLog.en_receipt x) = sha256_hex text;
  rc_verdict : Receipt.r_verdict (ReceiptLog.en_receipt x) = Receipt.verdict_from_decision d;
  rc_file : exists fs' pl', g_files g' !! id = Some (fs', pl') /\
    last_receipt_full_hash fs' = Some (token_hash (ReceiptLog.en_jwt x))
}.
(** The log has one more line; the receipt of a released risk reservation may
    be there already. *)
Definition recorded (x : ReceiptLog.entry) (released : bool) (g g' : gate) : Prop :=
  g_log g' = (g_log g ++ [ReceiptLog.LEntry x])%list \/
  released = true /\ ReceiptLog.logged (ReceiptLog.en_receipt_id x) (g_log g) = true /\ g_log g' = g_log g.

(** A session with its anchor. *)
Definition anchored (id : string) (a : option string) (g : gate) : Prop :=
  exists s, g_live g !! id = Some s /\ jti_of s = id /\ last_receipt_full_hash s = a.
Lemma anchored_update id a f g s : g_live g !! id = Some s -> tame s (f s) -> anchored id a g -> anchored id a (update id f g).1.
Proof.
  intros Hs [Hj Ha _] (s' & Hs' & <- & <-). rewrite Hs in Hs'. injection Hs' as ->. exists (f s'). cbn.
  by rewrite lookup_alter_eq, Hs.
Qed.
Lemma anchored_persist id a : keeps (anchored id a) (persist_session cf id).
Proof.
  intros g (s & Hs & Hj & Ha). rewrite (persist_run _ _ _ _ Hs). destruct (ReceiptLog.add_integrity _ _ _); by exists s.
Qed.
Lemma anchored_calm id a : calm (anchored id a) id.
Proof.
  split; [|intros g s f; apply anchored_update|apply anchored_persist|].
  - by intros g g' _ El _ (s & Hs & Hj & Ha); exists s; rewrite El.
  - by intros g (s & Hs & _); exists s.
Qed.
Lemma persist_anchor id a g g' : anchored id a g -> persist_session cf id g = (g', Ok tt) ->
  g_live g' = g_live g /\ g_log g' = g_log g /\
  exists fs pl, g_files g' !! id = Some (fs, pl) /\ last_receipt_full_hash fs = a.
Proof.
  intros (s & Hs & Hj & Ha). rewrite (persist_run _ _ _ _ Hs). destruct (ReceiptLog.add_integrity _ _ _) as [pl|]; [|done].
  intros [= <-]. cbn. rewrite Hj, lookup_insert_eq. split; [done|]. split; [done|]. by exists (image s), pl.
Qed.

(** From the entry to the end of [issue_receipt]. *)
Lemma log_run id h a x rel g g' : anchored id a g ->
  (s ← target id;
   match lifecycle_at h s with
   | None => _ ← persist_session cf id; log_receipt x
   | Some _ =>
       _ ← update id (set_details h (set_receipt (Some x)));
       _ ← persist_session cf id;
       _ ← log_receipt_once x;
       match risk_policy_snapshot s, rel with
       | Some p, Some o => mark_delivered (RiskPolicy.rp_lineage_id p) id o x
       | _, _ => throw (ERisk (RiskPolicy.RiskBudgetError "risk lifecycle delivery state is unavailable"))
       end
   end : G unit) g = (g', Ok tt) ->
  (exists fs' pl', g_files g' !! id = Some (fs', pl') /\ last_receipt_full_hash fs' = a) /\
  recorded x (bool_decide (is_Some rel)) g g'.
Proof.
  intros Hg H. step H. apply target_ok in E as [-> Hs]. destruct (lifecycle_at h a0).
  - step H. apply update_run in E as ->.
    assert (Hu : anchored id a (update id (set_details h (set_receipt (Some x))) g).1).
    { destruct Hg as (s1 & Hs1 & Hj & Ha). eexists. cbn. rewrite lookup_alter_eq, Hs1. split; [done|]. by destruct h. }
    step H. destruct a2. apply (persist_anchor _ a) in E as (_ & El & fs & pl & Hf & Hfa); [|done].
    step H. destruct (risk_policy_snapshot a0) as [p|]; [|done]. destruct rel as [o|]; [|done].
    unfold log_receipt_once in E. step E. apply demand_ok in E0 as [-> _]. injection E as <- _.
    unfold mark_delivered in H. step H. apply target_ok in E as [-> _]. unfold on_risk in H.
    destruct (RiskLedger.mark_lifecycle_delivered _ _ _ _ _ _) as [dd [[]|]]; [|done]. injection H as <-.
    split; [by exists fs, pl|]. unfold recorded. cbn [g_log set_risk set_log]. rewrite El.
    change (g_log (update _ _ g).1) with (g_log g). unfold ReceiptLog.log_receipt_once.
    destruct (ReceiptLog.logged _ _); [right|by left]. split; [by apply bool_decide_eq_true|done].
  - step H. destruct a1. apply (persist_anchor _ a) in E as (_ & El & fs & pl & Hf & Hfa); [|done].
    injection H as <-. cbn. split; [by exists fs, pl|]. left. cbn. by rewrite El.
Qed.
Lemma issue_run id tool args d why h pc rel r a g g' : anchored id a g ->
  match h with LastEvent => last_about id tool args g | LooseEvent e => about tool args e end ->
  issue_receipt cf id (d, why, h) pc rel r g = (g', Ok tt) ->
  exists x, receipted id tool args d a g' x /\ recorded x (bool_decide (is_Some rel)) g g'.
Proof.
  intros (s & Hs & Hj & Ha) Hab H. unfold issue_receipt in H. step H. rename a0 into x.
  destruct (build_run _ _ _ _ _ _ _ _ _ _ Hs E) as (e & dt & pe & i & He & Hb & ->). clear E. exists x.
  assert (Hev : about tool args e).
  { destruct h; [|by injection He as <- _]. destruct Hab as (s' & e' & Hs' & He' & Hab). rewrite Hs in Hs'. injection Hs' as <-.
    cbn in He. rewrite He' in He. destruct (last (attached s)); [|done]. by injection He as <- _. }
  set (g1 := (update id _ g).1) in H.
  assert (H1 : anchored id (Some (token_hash (ReceiptLog.en_jwt x))) g1).
  { eexists. unfold g1. cbn. rewrite lookup_alter_eq, Hs. split; [done|]. by destruct h. }
  assert (Hend : (exists fs' pl', g_files g' !! id = Some (fs', pl') /\
      last_receipt_full_hash fs' = Some (token_hash (ReceiptLog.en_jwt x))) /\ recorded x (bool_decide (is_Some rel)) g g').
  { by apply (log_run id h (Some (token_hash (ReceiptLog.en_jwt x))) x rel g1). }
  destruct (entry_links _ _ _ _ _ _ _ _ _ _ Hb) as (L1 & L2 & _ & L4).
  destruct (entry_fields _ _ _ _ _ _ _ _ _ _ Hb) as (F1 & F2 & text & F3 & F4). destruct Hev as [<- <-].
  destruct Hend as [Hfile Hrec]. split; [|done]. split; try done; [by rewrite L4|by rewrite L2|by exists text].
Qed.

Lemma answered_run a tool args rid sr r g g' d why : files_ok g ->
  evaluate_tool_call cf a tool args rid sr r g = (g', Ok (d, why)) ->
  exists g1 n fs pl x released, flush_risk_lifecycle_outbox cf a (rd_lifecycle r) g = (g1, Ok n) /\
    g_files g1 !! arg_id a = Some (fs, pl) /\
    receipted (arg_id a) tool args d (last_receipt_full_hash fs) g' x /\ recorded x released g1 g' /\
    (d = Session.PERMIT -> released = false).
Proof.
  intros Hok H. unfold evaluate_tool_call in H. step H. rename E into Ef, g0 into g1. step H. injection E as <- _. step H.
  apply attempt_ok in E as (out & El & [= ->]). destruct out as [v|e].
  2: { step H. done. }
  injection H as <- ->. unfold evaluate_locked in El. apply G_bind_ok in El as (g2 & id & E & El).
  destruct (locked_run cf a (set_pending no_pending g1)) as [[e' E']|(g3 & fs & s & E' & Hr)]; rewrite E in E'; [done|].
  injection E' as <- ->. apply G_bind_ok in El as (g4 & [[[[d' w] h] pc] rel] & Ed & El).
  apply G_bind_ok in El as (g5 & [] & Ei & El). injection El as <- -> ->.
  pose proof (flush_files cf a (rd_lifecycle r) g Hok) as [Hok1 _]. rewrite Ef in Hok1.
  destruct Hr as [[pl Hf] Hs Hl (_ & _ & _ & _ & Elog & _)]. pose proof (Hok1 _ _ _ Hf) as [Hj _].
  assert (Ha : anchored (arg_id a) (last_receipt_full_hash fs) g2).
  { exists s. rewrite Hl, lookup_insert_eq. split; [done|]. by destruct Hs as [->|[t ->]]. }
  apply (calm_decide _ _ (anchored_calm _ _) tool args rid sr r) in Ha. rewrite Ed in Ha. cbn [fst] in Ha.
  pose proof (frame_run g_log _ _ _ _ (frame_decide cf g_log _ quiet_log (fun _ _ => eq_refl) (fun _ _ => eq_refl) _ _ _ _ _ _) Ed) as Eg.
  destruct (issue_run _ _ _ _ _ _ _ _ _ _ _ _ Ha (decide_about _ _ _ _ _ _ _ _ _ _ _ _ _ _ Ed) Ei) as (x & Hx & Hrec).
  exists g1, a0, fs, pl, x, (bool_decide (is_Some rel)). split_and!; [done..| |].
  - unfold recorded in *. rewrite Eg, Elog in Hrec. exact Hrec.
  - intros ->. by apply decide_permit in Ed as (_ & -> & _).
Qed.
End Receipts.
