(* ===== verification/GateLedger.v ===== *)
(** * What leaves the ledgers alone

    The risk and spend ledgers, and the record of what the current call holds,
    change only in the operations that reserve, settle and release; here is
    that everything else of the gate keeps them. *)

From S2P Require Import Prelude Sha256 CanonicalJson SpendPolicy SpendLedger Merkle RiskPolicy Passport PassportPop.
From S2P Require Import ResourceScope PyJson Policy Session RiskLedger Approvals MemoryStore PassportState.
From S2P Require Import Receipt ReceiptLog Urls Mission SessionStore Gate GateLogic GateRuns.
Import Passport ResourceScope PyJson Policy SessionStore Gate.
Open Scope string_scope.
Open Scope Z_scope.

Section Ledgers.
Context {D : Digests} {J : Jwt} {W : Receipt.Jws} {P : Receipt.PyText} {R : PyRepr} {T : Wording}.
Context {U : UnicodeData} {F : Filesystem} {X : Regex} {S : RiskPolicy.JsonSchema} {FT : FloatText}.
Context {TT : TokenText} {I : IpAddress} {Zl : Zlib}.
Variable cf : config.

(** The ledgers and the reservations of the current call. *)
Definition books (g : gate) : RiskLedger.store * SpendLedger.ledger_dir * pending := (g_risk g, g_spend g, g_pending g).
Definition books_are (b : RiskLedger.store * SpendLedger.ledger_dir * pending) (g : gate) : Prop := books g = b.

Variable b : RiskLedger.store * SpendLedger.ledger_dir * pending.
#[local] Notation kept := (keeps (books_are b)).

Lemma books_modify f : (forall g, books (f g) = books g) -> kept (modify f).
Proof. intros Hf g Hg. unfold books_are in *. cbn. by rewrite Hf. Qed.
Lemma books_update id f : kept (update id f).
Proof. by apply books_modify. Qed.
Lemma books_world {A} (m : PassportState.M A) : kept (on_world m).
Proof. intros g Hg. unfold on_world. by destruct (m _). Qed.
Lemma books_missions {A} (m : Mission.MissionCache -> Mission.MissionCache * res mission_exc A) : kept (on_missions m).
Proof. intros g Hg. unfold on_missions. by destruct (m _). Qed.
#[local] Hint Resolve books_update books_world books_missions : gate.
#[local] Hint Extern 1 (keeps (books_are b) (modify _)) => apply books_modify; done : gate.

Lemma books_persist id : kept (persist_session cf id).
Proof. unfold persist_session. keep. Qed.
Lemma books_locked a : kept (locked_persisted_session cf a).
Proof. unfold locked_persisted_session, load_session_from_disk, install_or_refresh_session, install. keep. Qed.
Lemma books_build_entry id h d why pc now : kept (build_entry cf id h d why pc now).
Proof. unfold build_entry. keep. Qed.
Lemma books_log x : kept (log_receipt x).
Proof. unfold log_receipt. keep. Qed.
Lemma books_log_once x : kept (log_receipt_once x).
Proof. unfold log_receipt_once. keep. Qed.
Lemma books_refuse id tool args d why denial ts : kept (refuse cf id tool args d why denial ts).
Proof. unfold refuse, record_tool_policy_event. keep. Qed.
Lemma books_resolve c r : kept (resolve_authoritative_policy_claims cf c r).
Proof. unfold resolve_authoritative_policy_claims. keep. Qed.
Lemma books_approval_rate pc : kept (approval_rate pc).
Proof. unfold approval_rate, approval_tracker. keep. Qed.
Lemma books_may_approve k o t : kept (may_approve k o t).
Proof. unfold may_approve, on_tracker. keep. Qed.
Lemma books_note_approval k o t : kept (note_approval k o t).
Proof. unfold note_approval, on_tracker. keep. Qed.
Lemma books_memory_store id sid args : kept (get_or_create_memory_store id sid args).
Proof. unfold get_or_create_memory_store. keep. Qed.
#[local] Hint Resolve books_memory_store : gate.
Lemma books_memory_write id args r : kept (proxy_memory_write cf id args r).
Proof. unfold proxy_memory_write, some_text. keep. Qed.
Lemma books_memory_read id args r : kept (proxy_memory_read cf id args r).
Proof. unfold proxy_memory_read, some_text. keep. Qed.
#[local] Hint Resolve books_persist books_locked books_build_entry books_log books_log_once books_refuse books_resolve
  books_approval_rate books_may_approve books_note_approval books_memory_write books_memory_read : gate.
Lemma books_check_and_apply id tool args pc r : kept (check_and_apply cf id tool args pc r).
Proof. unfold check_and_apply, check_and_record, apply_memory_post_permit. keep. Qed.
#[local] Hint Resolve books_check_and_apply : gate.
Lemma books_ordinary id tool args pc r : kept (evaluate_ordinary_tool_policy cf id tool args pc r).
Proof. unfold evaluate_ordinary_tool_policy. keep. Qed.
Lemma books_pinned id pc : kept (pinned_policy id pc).
Proof. unfold pinned_policy. keep. Qed.
(** The receipt of a decision that released nothing. *)
Lemma books_issue id v pc r : kept (issue_receipt cf id v pc None r).
Proof. unfold issue_receipt. keep. Qed.
Lemma books_finalize id now r : kept (finalize_session cf id now r).
Proof. unfold finalize_session, assert_risk_resolved, assert_spend_resolved. keep. Qed.
End Ledgers.

#[export] Hint Resolve books_update books_world books_missions books_persist books_locked books_build_entry books_log
  books_log_once books_refuse books_resolve books_ordinary books_pinned books_issue books_finalize : gate.

Lemma keeps_run `{D : Digests} `{J : Jwt} `{W : !Receipt.Jws} `{P : !Receipt.PyText} `{R : !PyRepr} `{T : !Wording}
  {A} (m : G A) g g' a b :
  keeps (books_are b) m -> m g = (g', a) -> books g = b -> books g' = b.
Proof. intros Hm E Hg. specialize (Hm g Hg). by rewrite E in Hm. Qed.
