(* ===== verification/GateHistory.v ===== *)
(** * Histories of the proxy

    The modelled operations of the proxy as one type, what they answer, and the
    sequences of them that processes sharing a state directory can run: the
    directory's lock makes each operation on a session whole, and between two
    operations another process, with its own memory, may take over.

    [evaluate_tool_call] and [end_session] take the lock twice, to deliver the
    outbox and for their own work; they are one step here.  [settle_spend] and
    the two quarantines of spend append to the log after they release it; here
    they do so before the next operation.  No operation of the type are
    [delegate_passport], [issue_attestation_for_session],
    [start_session_from_biscuit] and [synchronize_external_tool_usage_floor]. *)

From S2P Require Import Prelude Sha256 CanonicalJson SpendPolicy SpendLedger Merkle RiskPolicy Passport PassportPop.
From S2P Require Import ResourceScope PyJson Policy Session RiskLedger Approvals MemoryStore PassportState.
From S2P Require Import PassportStateProps PassportAdmission Receipt ReceiptLog Urls Mission.
From S2P Require Import SessionStore Gate Aat GateLogic GateInv GateRuns.
Import Passport ResourceScope PyJson Policy SessionStore Gate.
Open Scope string_scope.
Open Scope Z_scope.

Section History.
Context {D : Digests} {J : Jwt} {W : Receipt.Jws} {P : Receipt.PyText} {R : PyRepr} {T : Wording}.
Context {U : UnicodeData} {F : Filesystem} {X : Regex} {S : RiskPolicy.JsonSchema} {FT : FloatText}.
Context {TT : TokenText} {I : IpAddress} {Zl : Zlib}.

(** ** Starting a session *)

#[local] Existing Instances same_sessions_preorder PassportState.M_bind PassportState.M_ret.
Lemma same_put_disk f : (forall d, PassportState.session_files (f d) = PassportState.session_files d) ->
  within same_sessions (PassportState.put_disk f).
Proof. intros Hf w. apply Hf. Qed.
#[local] Hint Extern 1 (within same_sessions (PassportState.put_disk _)) => apply same_put_disk; done : passport_state.
Lemma same_load_lineage fresh : within same_sessions (PassportState.load_lineage_index fresh).
Proof.
  unfold PassportState.load_lineage_index, PassportState.require_lineage_sentinel,
    PassportState.try_initialize_lineage_hashes, PassportState.initialize_lineage_hashes,
    PassportState.read_lineage_index, PassportState.persist_lineage_hashes. within_steps.
Qed.
Lemma same_load_replay fresh now : within same_sessions (PassportState.load_replay_cache fresh now).
Proof.
  unfold PassportState.load_replay_cache, PassportState.require_replay_sentinel,
    PassportState.try_initialize_replay_cache, PassportState.initialize_replay_cache,
    PassportState.read_replay_cache, PassportState.persist_replay_cache. within_steps.
Qed.
#[local] Hint Resolve same_load_lineage same_load_replay : passport_state.
Lemma record_sessions c text fresh now : within same_sessions (PassportState.record_passport_use c text fresh now).
Proof.
  unfold PassportState.record_passport_use, PassportState.persist_replay_cache, PassportState.persist_lineage_hashes,
    PassportState.jti_of. within_steps.
Qed.
Lemma assert_sessions c fresh : within same_sessions (PassportState.assert_passport_lineage_not_revoked c fresh).
Proof.
  unfold PassportState.assert_passport_lineage_not_revoked, PassportState.first_revoked_jti_in_lineage,
    PassportState.passport_lineage_jtis, PassportState.load_revoked, PassportState.require_revoked_sentinel,
    PassportState.try_initialize_revoked, PassportState.initialize_revoked, PassportState.read_revoked,
    PassportState.persist_revoked, PassportState.jti_of. within_steps; [apply within_seed, _|apply within_walk, _].
Qed.
#[local] Hint Resolve assert_sessions record_sessions : passport_state.
Lemma verify_sessions public audience t parent fresh n n' :
  within same_sessions (PassportState.verify_passport_token public audience t parent fresh n n').
Proof. unfold PassportState.verify_passport_token, PassportState.passport. within_steps; apply within_seed, _. Qed.
Lemma possession_sessions c t holder kb r : within same_sessions (PassportState.check_possession c t holder kb r).
Proof. unfold PassportState.check_possession, PassportState.check_kb_nonce, PassportState.passport. within_steps. Qed.
#[local] Hint Resolve verify_sessions possession_sessions : passport_state.
Lemma before_sessions fresh public audience t holder kb r :
  within same_sessions (PassportAdmission.before_use fresh public audience t holder kb r).
Proof. unfold before_use, PassportState.jti_of. within_steps. Qed.
Lemma within_at {A} (m : PassportState.M A) w w' out : within same_sessions m -> m w = (w', out) ->
  PassportState.session_files (PassportState.disk w') = PassportState.session_files (PassportState.disk w).
Proof. intros Hm E. specialize (Hm w). by rewrite E in Hm. Qed.
Lemma M_check_inv {A} b e (f : unit -> PassportState.M A) w w' a :
  (PassportState.check b e ≫= f) w = (w', Ok a) -> b = false /\ f tt w = (w', Ok a).
Proof. by destruct b. Qed.
Lemma before_use_new fresh public audience t holder kb r w w' c jti :
  PassportAdmission.before_use fresh public audience t holder kb r w = (w', Ok (c, jti)) ->
  py_str (py_get "jti" c) = jti /\ PassportState.session_files (PassportState.disk w) !! jti = None.
Proof.
  unfold before_use. intros H. apply M_bind_inv in H as [(w1 & c' & Hv & H)|(e & _ & [=])].
  apply within_at in Hv; [|apply verify_sessions]. apply M_bind_inv in H as [(w2 & u & Hp & H)|(e & _ & [=])].
  apply within_at in Hp; [|apply possession_sessions]. rewrite Hv in Hp. clear Hv.
  unfold PassportState.jti_of in H. apply M_bind_inv in H as [(w3 & j & Hj & H)|(e & _ & [=])].
  unfold PassportState.liftR in Hj. injection Hj as <- Hj. apply M_check_inv in H as [_ H].
  rewrite (M_bind_ok _ _ _ w2 (PassportState.mem w2)) in H by done. apply M_check_inv in H as [_ H].
  rewrite (M_bind_ok _ _ _ w2 (PassportState.disk w2)) in H by done. apply M_check_inv in H as [Hf H].
  apply M_bind_inv in H as [(w5 & u2 & _ & H)|(e & _ & [=])]. injection H as _ <- <-. rewrite Hp in Hf.
  apply bool_decide_eq_false, eq_None_not_Some in Hf. split; [|done].
  unfold py_get. destruct (dget "jti" c') as [v|]; [by injection Hj|done].
Qed.

(** A session starts only where the directory has none. *)
Lemma start_sessions public audience store t holder kb fresh nonce r w w' out :
  PassportState.start_session public audience store t holder kb fresh nonce r w = (w', out) ->
  match out with
  | Raise _ => PassportState.session_files (PassportState.disk w') = PassportState.session_files (PassportState.disk w)
  | Ok s => PassportState.session_files (PassportState.disk w) !! ReceiptLog.session_jti s = None /\
      exists f, PassportState.session_files (PassportState.disk w')
        = <[ReceiptLog.session_jti s := f]> (PassportState.session_files (PassportState.disk w))
  end.
Proof.
  rewrite start_session_split. intros H. apply M_bind_inv in H as [(w1 & [c jti] & Hb & H)|(e & Hb & ->)].
  2: { apply within_at in Hb; [done|apply before_sessions]. }
  pose proof (before_use_new _ _ _ _ _ _ _ _ _ _ _ Hb) as [Hj Hn]. apply within_at in Hb; [|apply before_sessions].
  apply M_bind_inv in H as [(w2 & u & Hr & H)|(e & Hr & ->)];
    (apply within_at in Hr; [|apply record_sessions]); [|by rewrite Hr].
  injection H as <- <-. cbn.
  replace (ReceiptLog.session_jti _) with jti; [split; [done|]; eexists; by rewrite Hr, Hb|].
  unfold ReceiptLog.session_jti. cbn. rewrite <- Hj. f_equal. unfold PassportState.resolve_policies.
  destruct store as [gp|]; [|done]. cbv zeta. destruct (gp _ _); [|done]. unfold py_get. by rewrite dget_dset_ne.
Qed.

Lemma files_grow g0 g g' : g_files g' = g_files g ->
  (forall i, is_Some (session_names g !! i) -> is_Some (session_names g' !! i)) -> files_inv g0 g -> files_inv g0 g'.
Proof.
  intros Ef Hn [Hok Hf]. split; [|by unfold files_forward; rewrite Ef]. intros i fs pl. rewrite Ef. intros Hi.
  destruct (Hok _ _ _ Hi). auto.
Qed.
Lemma start_files cf t holder kb fresh nonce public audience r g : files_ok g ->
  files_inv g (SessionStore.start_session cf t holder kb fresh nonce public audience r g).1.
Proof.
  intros Hok. unfold start_session, on_world. unfold mbind at 1, G_bind at 1.
  destruct (PassportState.start_session _ _ _ _ _ _ _ _ _ _) as [w [s|e]] eqn:E; apply start_sessions in E; cbn [fst].
  2: { apply (files_grow _ g); [done| |by apply files_inv_refl]. intros i. unfold session_names. cbn. by rewrite E. }
  destruct E as (Hn & f & Ew). set (id := ReceiptLog.session_jti s) in *.
  set (g1 := set_live (<[id := new_live t s]> (g_live g)) (set_world w g)).
  assert (H1 : files_inv g g1).
  { apply (files_grow _ g); [done| |by apply files_inv_refl]. intros i. unfold session_names. cbn. rewrite Ew.
    destruct (decide (i = id)) as [->|]; [by rewrite lookup_insert_eq|by rewrite lookup_insert_ne]. }
  change (files_inv g ((_ ← persist_session cf id; mret id : G string) g1).1).
  assert (Hs : g_live g1 !! id = Some (new_live t s)) by (cbn; by rewrite lookup_insert_eq).
  unfold mbind, G_bind. rewrite (persist_run _ _ _ _ Hs).
  destruct (ReceiptLog.add_integrity _ _ _) as [pl|e]; [|done]. change (jti_of (new_live t s)) with id. unfold mret, G_ret. cbn [fst].
  destruct H1 as [Hok1 Hf1]. split.
  - intros i fs p. cbn [set_files g_files set_world]. unfold session_names, PassportState.set_session_file.
    cbn [set_files g_world set_world PassportState.disk PassportState.session_files].
    destruct (decide (i = id)) as [->|Hne].
    + rewrite !lookup_insert_eq. intros [= <- <-]. done.
    + rewrite !lookup_insert_ne by done. apply Hok1.
  - intros i fs p Hi. cbn [set_files g_files set_world]. destruct (decide (i = id)) as [->|Hne].
    + destruct (Hok _ _ _ Hi) as [_ [x Hx]]. unfold session_names in Hx. congruence.
    + rewrite lookup_insert_ne by done. exact (Hf1 _ _ _ Hi).
Qed.

(** A session started from a grant. *)
Lemma material_files {A} (m : Mission.MissionCache -> Mission.MissionCache * res Aat.aat_exc A) g : files_ok g ->
  files_inv g (Aat.on_material m g).1.
Proof. intros Hok. unfold Aat.on_material. destruct (m _). by apply (files_same _ g), files_inv_refl. Qed.
Lemma raises_files {A} (m : res gate_exc A) g : files_ok g -> files_inv g (raises m g).1.
Proof. apply files_inv_refl. Qed.
Lemma start_aat_files cf t key parent holder kb pop aud allow ar fresh nonce paud r g : files_ok g ->
  files_inv g (Aat.start_session_from_aat cf t key parent holder kb pop aud allow ar fresh nonce paud r g).1.
Proof.
  intros Hok. unfold Aat.start_session_from_aat. apply bind_files; [done| |].
  - destruct parent; [|by apply files_inv_refl]. apply bind_files; [done|by apply raises_files|].
    intros c g1 H1. by apply files_inv_refl.
  - intros pc g1 H1. apply bind_files; [done|by apply material_files|]. intros m g2 H2.
    apply bind_files; [done|by apply raises_files|]. intros i g3 H3. by apply start_files.
Qed.

(** ** Operations *)

Inductive op :=
| DoStart (t : token) (holder : option public_key) (kb : option token) (fresh run_nonce : string) (public : public_key)
    (audience : string) (r : PassportState.readings)
| DoStartAat (t : token) (signing_key : option private_key) (parent : option token) (holder : option public_key)
    (kb : option token) (require_pop : bool) (audience : string) (allow_without_cnf : bool) (ar : Aat.aat_readings)
    (fresh run_nonce passport_audience : string) (r : PassportState.readings)
| DoEvaluate (a : session_arg) (tool_name : string) (arguments : claims) (risk_request_id : option string)
    (spend_request : option SpendReservationRequest) (r : readings)
| DoResult (a : session_arg) (response : string) (duration_ms : pyval)
| DoSettle (a : session_arg) (request_id : string) (input output : pyval) (proof : option string) (clock : Z) (r : readings)
| DoQuarantine (a : session_arg) (request_id reason_code : string) (clock : Z) (r : readings)
| DoStaleSpend (a : session_arg) (older_than_s : pyval) (now : Z) (r : readings)
| DoOutcome (a : session_arg) (risk_request_id : string) (o : RiskLedger.outcome) (now : Z) (r : readings)
| DoStaleRisk (a : session_arg) (stale_after now now' : Z) (r : readings)
| DoSummarize (a : session_arg) (now : Z)
| DoEnd (a : session_arg) (now : Z) (r : readings).

(** A decision the proxy answered. *)
Record answer := Answer { an_session : string; an_tool : string; an_arguments : claims; an_decision : Session.Decision }.
(** The state after an operation and the decision it answered. *)
Definition exec (cf : config) (o : op) (g : gate) : gate * option answer :=
  match o with
  | DoStart t holder kb fresh n public audience r =>
      ((SessionStore.start_session cf t holder kb fresh n public audience r g).1, None)
  | DoStartAat t key parent holder kb pop aud allow ar fresh n paud r =>
      ((Aat.start_session_from_aat cf t key parent holder kb pop aud allow ar fresh n paud r g).1, None)
  | DoEvaluate a tool args rid sr r =>
      let '(g', out) := evaluate_tool_call cf a tool args rid sr r g in
      (g', match out with Ok (d, _) => Some (Answer (arg_id a) tool args d) | Raise _ => None end)
  | DoResult a x ms => ((record_tool_result cf a x ms g).1, None)
  | DoSettle a i x y p t r => ((settle_spend cf a i x y p t r g).1, None)
  | DoQuarantine a i c t r => ((quarantine_spend cf a i c t r g).1, None)
  | DoStaleSpend a o t r => ((quarantine_stale_spend cf a o t r g).1, None)
  | DoOutcome a i o t r => ((record_risk_outcome cf a i o t r g).1, None)
  | DoStaleRisk a o t t' r => ((quarantine_stale_risk_reservations cf a o t t' r g).1, None)
  | DoSummarize a t => ((summarize_session cf a t g).1, None)
  | DoEnd a t r => ((end_session cf a t r g).1, None)
  end.
Lemma summarize_files cf a t g : files_ok g -> files_inv g (summarize_session cf a t g).1.
Proof. intros Hok. apply keeps_locked; [done|]. intros id. keep. Qed.
Lemma exec_files cf o g : files_ok g -> files_inv g (exec cf o g).1.
Proof.
  destruct o; cbn [exec fst]; auto using start_files, start_aat_files, record_result_files, settle_spend_files, quarantine_spend_files,
    stale_spend_files, risk_outcome_files, stale_risk_files, summarize_files, end_session_files.
  intros Hok. pose proof (evaluate_files cf a tool_name arguments risk_request_id spend_request r g Hok) as H.
  by destruct (evaluate_tool_call _ _ _ _ _ _ _ _).
Qed.

(** Every operation is that of a process with its built-in native backend. *)
Inductive history : gate -> list answer -> gate -> Prop :=
| history_end g : history g [] g
| history_op cf o g g1 x t g2 : native_ok cf g -> (forall b, cf_cedar cf = Some b -> b_name b = "cedar") ->
    exec cf o g = (g1, x) -> history g1 t g2 -> history g (option_list x ++ t)%list g2
| history_other g g1 t g2 : g_files g1 = g_files g -> session_names g1 = session_names g -> history g1 t g2 ->
    history g t g2.
Definition permits (p : answer -> bool) (t : list answer) : Z :=
  Z.of_nat (length (List.filter (fun x => bool_decide (an_decision x = Session.PERMIT) && p x) t)).
(** A permit of session [id]. *)
Definition of_session (id : string) (x : answer) : bool := String.eqb (an_session x) id.
(** A permit to read from [store]. *)
Definition reads (id store : string) (x : answer) : bool :=
  of_session id x && String.eqb (an_tool x) MEMORY_STORE_READ_TOOL && py_eq_str (py_get "store_id" (an_arguments x)) store.

(** The only operation that answers is the evaluation of a call. *)
Lemma exec_answer cf o g g1 x : exec cf o g = (g1, Some x) ->
  exists a tool args rid sr r d why, o = DoEvaluate a tool args rid sr r /\
    evaluate_tool_call cf a tool args rid sr r g = (g1, Ok (d, why)) /\ x = Answer (arg_id a) tool args d.
Proof.
  destruct o; try done. cbn. destruct (evaluate_tool_call _ _ _ _ _ _ _ _) as [g' [[d why]|e]] eqn:E; [|done].
  intros [= <- <-]. by do 8 eexists.
Qed.
Lemma history_files g t g' : history g t g' -> files_ok g -> files_inv g g'.
Proof.
  induction 1 as [g|cf o g g1 x t g2 _ _ E _ IH|g g1 t g2 Ef En _ IH]; intros Hok.
  - by apply files_inv_refl.
  - pose proof (exec_files cf o g Hok) as H1. rewrite E in H1. cbn [fst] in H1.
    eapply files_inv_trans; [exact H1|]. apply IH, H1.
  - eapply files_inv_trans; [|apply IH].
    + by apply (files_same _ g), files_inv_refl.
    + intros i fs pl. rewrite Ef, En. apply Hok.
Qed.
Lemma permits_cons p x t : permits p (x :: t) = (if bool_decide (an_decision x = Session.PERMIT) && p x then 1 else 0) + permits p t.
Proof. unfold permits. cbn. destruct (_ && _); cbn [length]; lia. Qed.

(** Induction over histories for one session: [B] bounds the permits in [p]
    from what the file of the session says. *)
Lemma history_bound (id : string) (p : answer -> bool) (B : live -> Z) (H0 : live -> Prop) :
  (forall x, p x = true -> an_session x = id) -> (forall fs, 0 <= B fs) ->
  (forall fs fs', H0 fs -> later fs fs' -> H0 fs' /\ B fs' <= B fs) ->
  (forall cf a tool args rid sr r g g' why fs pl, files_ok g -> native_ok cf g ->
     (forall b, cf_cedar cf = Some b -> b_name b = "cedar") ->
     evaluate_tool_call cf a tool args rid sr r g = (g', Ok (Session.PERMIT, why)) -> arg_id a = id ->
     p (Answer id tool args Session.PERMIT) = true -> g_files g !! id = Some (fs, pl) -> H0 fs ->
     exists fs' pl', g_files g' !! id = Some (fs', pl') /\ later fs fs' /\ 1 + B fs' <= B fs) ->
  forall g t g' fs pl, history g t g' -> files_ok g -> g_files g !! id = Some (fs, pl) -> H0 fs -> permits p t <= B fs.
Proof.
  intros Hp HB Hlat Hstep g t g' fs pl H. revert fs pl.
  induction H as [g|cf o g g1 x t g2 Hn Hc E _ IH|g g1 t g2 Ef En _ IH]; intros fs pl Hok Hf Hh.
  - apply HB.
  - pose proof (exec_files cf o g Hok) as H1. rewrite E in H1. cbn [fst] in H1. destruct H1 as [Hok1 Hfw].
    assert (Hno : permits p t <= B fs).
    { apply Hfw in Hf as (f1 & p1 & Hf1 & L). destruct (Hlat _ _ Hh L). pose proof (IH f1 p1). lia. }
    destruct x as [x|]; [|done]. change (option_list (Some x) ++ t)%list with (x :: t). rewrite permits_cons.
    destruct (bool_decide _ && p x) eqn:Ex; [|lia]. apply andb_prop in Ex as [Hd%bool_decide_eq_true Hpx].
    apply exec_answer in E as (a & tool & args & rid & sr & r & d & why & -> & E & ->). cbn in Hd. subst d.
    pose proof (Hp _ Hpx) as Hid. cbn in Hid. rewrite Hid in Hpx.
    destruct (Hstep cf a tool args rid sr r g g1 why fs pl Hok Hn Hc E Hid Hpx Hf Hh) as (f1 & p1 & Hf1 & L & Hb).
    destruct (Hlat _ _ Hh L) as [Hh1 _]. pose proof (IH f1 p1 Hok1 Hf1 Hh1). lia.
  - apply (IH fs pl); [|by rewrite Ef|done]. intros i f q. rewrite Ef, En. apply Hok.
Qed.
End History.
