(* ===== verification/GateProps.v ===== *)
(** * What the proxy guarantees

    Properties of whole operations of the proxy and of histories of them: what
    a permit has passed, how many permits a session can get, what is never
    permitted again, and what a session leaves when it ends. *)

From S2P Require Import Prelude Sha256 CanonicalJson SpendPolicy SpendLedger Merkle RiskPolicy Passport PassportPop.
From S2P Require Import ResourceScope PyJson Policy Session RiskLedger Approvals MemoryStore PassportState.
From S2P Require Import PassportStateProps PassportAdmission Receipt ReceiptLog Urls Mission.
From S2P Require Import SessionStore Gate GateLogic GateInv GateRuns GateFrame GateReceipts GateLedger GateHistory.
Import Passport ResourceScope PyJson Policy SessionStore Gate.
Open Scope string_scope.
Open Scope Z_scope.

Section Permits.
Context {D : Digests} {J : Jwt} {W : Receipt.Jws} {P : Receipt.PyText} {R : PyRepr} {T : Wording}.
Context {U : UnicodeData} {F : Filesystem} {X : Regex} {S : RiskPolicy.JsonSchema} {FT : FloatText}.
Context {TT : TokenText} {I : IpAddress} {Zl : Zlib}.
Variable cf : config.

(** ** A run that permits *)

Lemma evaluate_permit a tool args rid sr r g g' why :
  evaluate_tool_call cf a tool args rid sr r g = (g', Ok (Session.PERMIT, why)) ->
  exists g1 n g2 fs s g3 pc,
    flush_risk_lifecycle_outbox cf a (rd_lifecycle r) g = (g1, Ok n) /\
    refreshed (set_pending no_pending g1) (arg_id a) g2 fs s /\
    decide_call cf (arg_id a) tool args rid sr r g2 = (g3, Ok (Session.PERMIT, why, LastEvent, pc, None)) /\
    issue_receipt cf (arg_id a) (Session.PERMIT, why, LastEvent) pc None r g3 = (g', Ok tt).
Proof.
  unfold evaluate_tool_call. intros H. step H. rename E into Ef. step H. injection E as <- _. step H.
  apply attempt_ok in E as (out & El & [= ->]). destruct out as [v|e].
  2: { step H. done. }
  injection H as <- ->. unfold evaluate_locked in El. apply G_bind_ok in El as (g2 & id & E & El).
  destruct (locked_run cf a (set_pending no_pending g0)) as [[e' E']|(g3 & fs & s & E' & Hr)]; rewrite E in E'; [done|].
  injection E' as <- ->. apply G_bind_ok in El as (g4 & [[[[d w] h] pc] rel] & Ed & El).
  apply G_bind_ok in El as (g5 & [] & Ei & El). injection El as <- -> ->.
  pose proof (decide_permit _ _ _ _ _ _ _ _ _ _ _ _ _ Ed) as (-> & -> & _).
  by exists g0, a0, g2, fs, s, g4, pc.
Qed.

(** Everything before the policy check leaves sessions alone. *)
Lemma passed_before id tool args rid sr r pc g g' s w g0 g1 pf g2 spend g3 :
  passed cf id tool args rid sr r pc g g' s w g0 g1 pf g2 spend g3 ->
  exists ga gb why, (forall K, mild K id -> K g -> K ga) /\
    check_and_record cf id tool args pc r ga = (gb, Ok (Session.PERMIT, why)) /\
    (forall K, mild K id -> K gb -> K g3).
Proof.
  intros H. destruct (ps_check H) as [why Hc].
  apply ordinary_permit in Hc as (gr & rate & ga & gb & _ & _ & [Hb [why' Hck] Ha] & _).
  exists ga, gb, why'. split; [|done]. intros K HK Hg. apply Hb; [done|].
  assert (K (set_world w g)) as Hw.
  { pose proof (keeps_on_world K (PassportState.blocked_session_reason (ended s) (claims_of s) (rd_fresh r))
      (ml_sessions _ _ HK) (blocked_sessions _ _ _) g Hg) as Hk. unfold on_world in Hk.
    by rewrite (ps_open H) in Hk. }
  apply (keeps_resolve_claims cf K id HK (claims_of s) r) in Hw.
  rewrite (ps_mission H) in Hw. cbn [fst] in Hw.
  apply (keeps_risk_preflight cf K id HK tool args pc rid (rd_risk r)) in Hw.
  rewrite (ps_risk H) in Hw. cbn [fst] in Hw.
  apply (keeps_reserve_spend cf K id HK tool pc sr (rd_quote r) (rd_spend r)) in Hw.
  by rewrite (ps_spend H) in Hw.
Qed.

(** ** The policy check of a permit *)

Definition cedar_named : Prop := forall b, cf_cedar cf = Some b -> b_name b = "cedar".

(** What the native policy and the additional ones agreed to. *)
Definition policies_permit (pc args : claims) (tool : string) (c : Session.GovernanceSession) (r : readings)
    (reg : registry) : Prop :=
  let q := Session.call_request c pc tool args (rd_elapsed r) (rd_elapsed' r) in
  native_permits (cf_env cf) pc tool args (Session.state_of c (rd_elapsed r)) (ctx_side_effect_class (rq_context q)) /\
  exists specs, py_iter (Session.additional_of pc) = Ok specs /\
    Forall (fun v => exists spec pd, v = PDict spec /\
      Session.spec_decision (cf_env cf) (cf_cedar cf) q spec reg = Ok pd /\ pd_decision pd <> Deny) specs.

Lemma permitted_conditions c tool args pc vid reg r ts reg' c' e : cedar_named ->
  Session.native_builtin (cf_env cf) (cf_cedar cf) reg ->
  Session.check_and_record (cf_env cf) (cf_cedar cf) c tool args (Some pc) vid reg (rd_elapsed r) (rd_elapsed' r) ts
    = Ok (reg', c', e) -> Session.ev_decision e = Session.PERMIT -> policies_permit pc args tool c r reg.
Proof.
  intros Hced Hn Hc Hd. apply Session.check_and_record_parts in Hc as (_ & _ & reg1 & native & specs & others & Hnat & Hsp & Ho & Hdec & _).
  cbn [default] in *. apply Session.native_decision_ok in Hnat as (Hab & Hs & Hiff); [|exact Hced|done].
  apply Session.evaluate_specs_ok in Ho as [Hf _]; [|exact Hced]. rewrite Hdec, Session.verdict_permit, compose_allow, Forall_cons in Hd.
  destruct Hd as [[Hnd Hall] _]. split; [apply Hiff; by destruct (pd_decision native)|]. exists specs. split; [done|].
  apply Forall_forall. intros v Hv. apply list_elem_of_lookup_1 in Hv as [i Hi].
  destruct (Forall2_lookup_l _ _ _ _ _ Hf Hi) as (pd & Hpd & spec & -> & Hsd). exists spec, pd. split; [done|].
  split.
  - rewrite <- Hsd. symmetry. by apply Session.spec_decision_same.
  - rewrite Forall_forall in Hall. apply Hall. by eapply list_elem_of_lookup_2.
Qed.

(** Delivering the outbox changes no backend. *)
#[local] Hint Extern 1 (keeps (native_ok cf) (modify _)) => apply keeps_modify; done : gate.
Lemma native_sessions : of_sessions (native_ok cf).
Proof. intros g g' _ _ E _. unfold native_ok. by rewrite E. Qed.
#[local] Hint Resolve native_sessions : gate.
Lemma native_world {A} (m : PassportState.M A) : keeps (native_ok cf) (on_world m).
Proof. intros g Hg. unfold on_world. by destruct (m _). Qed.
#[local] Hint Resolve native_world : gate.
Lemma flush_native a clock : keeps (native_ok cf) (flush_risk_lifecycle_outbox cf a clock).
Proof.
  unfold flush_risk_lifecycle_outbox, locked_persisted_session, load_session_from_disk, install_or_refresh_session,
    install, ensure_snapshot, deliver_lifecycles, deliver_one, ensure_risk_lifecycle_event, build_entry,
    log_receipt_once, mark_delivered, persist_session, update. keep.
Qed.

(** No operation changes the native backend. *)
Lemma check_native id tool args pc r : cedar_named -> keeps (native_ok cf) (check_and_record cf id tool args pc r).
Proof.
  intros Hced g Hn. destruct (check_and_record cf id tool args pc r g) as [g' [[d why]|e]] eqn:E.
  - apply check_run in E as (s & e & reg & _ & Hc & _ & _ & ->). unfold native_ok in *. cbn.
    apply Session.check_and_record_parts in Hc as (_ & _ & reg1 & native & specs & others & Hnat & _ & Ho & _).
    apply Session.native_decision_ok in Hnat as (_ & Hs & _); [|exact Hced|exact Hn].
    apply Session.evaluate_specs_ok in Ho as [_ Hs']; [|exact Hced]. unfold Session.native_builtin. by rewrite Hs', Hs.
  - assert (Hg : g' = g); [|by subst]. unfold check_and_record in E.
    apply G_bind_inv in E as [(g1 & s & (-> & Hs)%target_ok & E)|(e' & E & _)];
      [|revert E; unfold target, mbind, G_bind, gets; cbn; destruct (g_live g !! id); by intros [= <- _]].
    apply G_bind_inv in E as [(g1 & reg & [= <- <-] & E)|(e' & [=] & _)].
    apply G_bind_inv in E as [(g1 & [[reg c] ev] & _ & E)|(e' & [= <- _] & _)]; [|done].
    apply G_bind_inv in E as [(g2 & u & [= <- <-] & E)|(e' & [=] & _)].
    by apply G_bind_inv in E as [(g2 & u & [= <- <-] & [=])|(e' & [=] & _)].
Qed.
#[local] Hint Resolve check_native : gate.
Lemma native_update id f : keeps (native_ok cf) (update id f).
Proof. unfold update. keep. Qed.
#[local] Hint Resolve native_update : gate.
Lemma native_persist id : keeps (native_ok cf) (persist_session cf id).
Proof. unfold persist_session. keep. Qed.
Lemma native_locked a : keeps (native_ok cf) (locked_persisted_session cf a).
Proof. unfold locked_persisted_session, load_session_from_disk, install_or_refresh_session, install. keep. Qed.
Lemma native_refuse id tool args d why denial ts : keeps (native_ok cf) (refuse cf id tool args d why denial ts).
Proof. unfold refuse, record_tool_policy_event. keep. Qed.
#[local] Hint Resolve native_persist native_locked native_refuse flush_native : gate.
Lemma native_release code t t' : keeps (native_ok cf) (release_pre_action_reservations code t t').
Proof. apply (keeps_release _ "" (native_mild cf "")). Qed.
Lemma native_approval_rate pc : keeps (native_ok cf) (approval_rate pc).
Proof. apply (keeps_approval_rate _ "" (native_mild cf "")). Qed.
Lemma native_may_approve k o t : keeps (native_ok cf) (may_approve k o t).
Proof. apply (keeps_may_approve _ "" (native_mild cf "")). Qed.
Lemma native_note_approval k o t : keeps (native_ok cf) (note_approval k o t).
Proof. apply (keeps_note_approval _ "" (native_mild cf "")). Qed.
Lemma native_log x : keeps (native_ok cf) (log_receipt x).
Proof. apply (keeps_log_receipt _ "" (native_mild cf "")). Qed.
Lemma native_log_once x : keeps (native_ok cf) (log_receipt_once x).
Proof. apply (keeps_log_receipt_once _ "" (native_mild cf "")). Qed.
Lemma native_resolve c r : keeps (native_ok cf) (resolve_authoritative_policy_claims cf c r).
Proof. apply (keeps_resolve_claims cf _ "" (native_mild cf "")). Qed.
#[local] Hint Resolve native_release native_approval_rate native_may_approve native_note_approval native_log native_log_once
  native_resolve : gate.
#[local] Hint Resolve native_mild keeps_build_entry keeps_mark_delivered keeps_ensure_snapshot keeps_risk_preflight
  keeps_reserve_spend keeps_memory_write keeps_memory_read keeps_settle_verdict : gate.
Lemma native_decide id tool args rid sr r : cedar_named -> keeps (native_ok cf) (decide_call cf id tool args rid sr r).
Proof.
  intros Hced. unfold decide_call, decide_governed, decide_reserved, evaluate_ordinary_tool_policy, check_and_apply,
    apply_memory_post_permit. keep.
Qed.
#[local] Hint Resolve native_decide : gate.
Lemma evaluate_native a tool args rid sr r : cedar_named -> keeps (native_ok cf) (evaluate_tool_call cf a tool args rid sr r).
Proof.
  intros Hced. unfold evaluate_tool_call, evaluate_locked, issue_receipt. keep.
Qed.

Lemma start_native t holder kb fresh nonce public audience r :
  keeps (native_ok cf) (SessionStore.start_session cf t holder kb fresh nonce public audience r).
Proof. unfold start_session. keep. Qed.
Lemma end_native a now r : keeps (native_ok cf) (end_session cf a now r).
Proof. unfold end_session, finalize_session, assert_risk_resolved, assert_spend_resolved. keep. Qed.

(** What a permitted call was checked against: [fs] is the session as its file
    had it when the call entered. *)
Record granted (id tool : string) (args : claims) (r : readings) (g1 g' : gate) (fs : live) (pc : claims) : Prop := {
  gr_file : exists pl, g_files g1 !! id = Some (fs, pl);
  gr_open : summary fs = None /\ Session.end_time (core fs) = None;
  gr_unrevoked : exists w w', PassportState.disk w = PassportState.disk (g_world g1) /\
    PassportState.first_revoked_jti_in_lineage (claims_of fs) (rd_fresh r) w = (w', Ok None);
  gr_telemetry : missing_declared_telemetry args (declared_required_telemetry (claims_of fs)) = [];
  gr_memory : forall sid, tool = MEMORY_STORE_READ_TOOL -> py_get "store_id" args = PStr sid ->
    sid ∉ memory_compromised_stores fs;
  gr_claims : (resolve_authoritative_policy_claims cf (claims_of fs) r g1).2 = Ok pc;
  gr_policies : policies_permit pc args tool (core fs) r (g_registry g1);
  gr_counted : exists fs' pl', g_files g' !! id = Some (fs', pl') /\ later fs fs' /\ calls_of fs + 1 <= calls_of fs'
}.

Lemma persist_count n g0 id g g' fs pl : session_inv n g0 id g -> g_files g0 !! id = Some (fs, pl) ->
  persist_session cf id g = (g', Ok tt) ->
  session_inv 0 g' id g' /\ exists fs' pl', g_files g' !! id = Some (fs', pl') /\ later fs fs' /\ calls_of fs + n <= calls_of fs'.
Proof.
  intros Hg Hfs. pose proof Hg as [[Hok Hf] (f1 & p1 & s & H1 & Hl & Hlt & Hn)].
  rewrite (persist_run _ _ _ _ Hl). destruct (ReceiptLog.add_integrity _ _ _) as [payload|e]; [|done]. intros [= <-].
  assert (Hj : jti_of s = id) by (rewrite (later_jti _ _ Hlt); by eapply (Hok id)). rewrite Hj.
  apply Hf in Hfs as (f2 & p2 & H2 & L). rewrite H1 in H2. injection H2 as <- <-.
  split; [|exists (image s), payload; cbn; rewrite lookup_insert_eq; split; [done|]; split].
  - split.
    + apply files_inv_refl. intros i f p. cbn [set_files g_files set_world]. unfold session_names, PassportState.set_session_file.
      cbn [set_files g_world set_world PassportState.disk PassportState.session_files].
      destruct (decide (i = id)) as [->|Hne]; [rewrite !lookup_insert_eq; by intros [= <- <-]|].
      rewrite !lookup_insert_ne by done. apply Hok.
    + exists (image s), payload, s. cbn. rewrite lookup_insert_eq.
      split_and!; [done|done|apply later_image|unfold calls_of; cbn; lia].
  - etrans; [exact L|]. etrans; [exact Hlt|apply image_later].
  - pose proof (lt_calls _ _ L). unfold calls_of in *. cbn. lia.
Qed.

(** The call of a run that passed everything is counted in the file. *)
Lemma passed_counted id tool args rid sr r pc g0 g g' s w gm g1 pf g2 spend g3 fs pl : session_inv 0 g0 id g ->
  g_files g0 !! id = Some (fs, pl) -> passed cf id tool args rid sr r pc g g' s w gm g1 pf g2 spend g3 ->
  session_inv 0 g' id g' /\ exists fs' pl', g_files g' !! id = Some (fs', pl') /\ later fs fs' /\ calls_of fs + 1 <= calls_of fs'.
Proof.
  intros Hg Hfs Hp. pose proof (passed_before _ _ _ _ _ _ _ _ _ _ _ _ _ _ _ _ _ Hp) as (ga & gb & why & Hb & Hc & Ha).
  apply (Hb _ (session_mild 0 g0 id)) in Hg. apply (check_inv _ _ _ _ _ _ _ _ _ _ _ Hg) in Hc.
  rewrite bool_decide_true in Hc by done. apply (Ha _ (session_mild 1 g0 id)) in Hc.
  destruct (ps_persist Hp) as (f & Hf & Hper).
  apply (ml_update _ _ (session_mild 1 g0 id) f Hf) in Hc. by eapply persist_count.
Qed.

(** The claims depend on the cache of missions alone. *)
Lemma resolve_missions c r g g' : g_missions g' = g_missions g ->
  (resolve_authoritative_policy_claims cf c r g').2 = (resolve_authoritative_policy_claims cf c r g).2.
Proof.
  intros Em. unfold resolve_authoritative_policy_claims. destruct (py_get "mission_ref" c); [done|..];
    (unfold mbind, G_bind, lift, on_missions; destruct (Mission.parse_mission_ref _); [|done]; rewrite Em;
     destruct (Mission.resolve _ _ _ _ _) as [ca [m|e]]; [|done];
     destruct (Mission.mission_is_revoked _ _ _ _) as [[]|]; done).
Qed.
(** The policies were asked about the session as the call found it. *)
Lemma passed_policies id tool args rid sr r pc c g g' s w gm g1 pf g2 spend g3 : native_ok cf g -> cedar_named ->
  core_is id c g -> passed cf id tool args rid sr r pc g g' s w gm g1 pf g2 spend g3 ->
  policies_permit pc args tool c r (g_registry g).
Proof.
  intros Hn Hced Hco Hp. pose proof (passed_before _ _ _ _ _ _ _ _ _ _ _ _ _ _ _ _ _ Hp) as (ga & gb & why' & Hb & Hc & _).
  apply check_run in Hc as (sa & e & reg & Hsa & Hck & Hde & _).
  apply (Hb _ (core_mild id c)) in Hco as (sa' & Hsa' & Hcs). rewrite Hsa in Hsa'. injection Hsa' as <-. rewrite Hcs in Hck.
  assert (Hna : native_ok cf ga) by (by apply (Hb _ (native_mild cf id))).
  assert (Hreg : mild (part_is g_registry (g_registry g)) id) by (split; [by intros x y _ _ E _; unfold part_is; rewrite E|by intros f _ x|done]).
  rewrite <- (Hb _ Hreg eq_refl). by eapply permitted_conditions.
Qed.

(** The parts of a run that permits. *)
Definition permit_run (a : session_arg) (tool : string) (args : claims) (rid : option string)
    (sr : option SpendReservationRequest) (r : readings) (why : string) (g g1 g2 : gate) (fs s : live) (pc : claims)
    (gm gp : gate) (pf : preflight) (gs : gate) (spend : option SpendReservationResult) (gc g3 g' : gate) : Prop :=
  (exists n, flush_risk_lifecycle_outbox cf a (rd_lifecycle r) g = (g1, Ok n)) /\
  refreshed (set_pending no_pending g1) (arg_id a) g2 fs s /\
  (exists w, passed cf (arg_id a) tool args rid sr r pc g2 g3 s w gm gp pf gs spend gc) /\
  issue_receipt cf (arg_id a) (Session.PERMIT, why, LastEvent) pc None r g3 = (g', Ok tt).
Lemma permit_parts a tool args rid sr r g g' why :
  evaluate_tool_call cf a tool args rid sr r g = (g', Ok (Session.PERMIT, why)) ->
  exists g1 g2 fs s pc gm gp pf gs spend gc g3, permit_run a tool args rid sr r why g g1 g2 fs s pc gm gp pf gs spend gc g3 g'.
Proof.
  intros H. apply evaluate_permit in H as (g1 & n & g2 & fs & s & g3 & pc & Hfl & Hr & Hd & Hi).
  apply decide_permit in Hd as (_ & _ & s' & w & gm & gp & pf & gs & spend & gc & Hp).
  assert (s' = s) as ->.
  { pose proof (ps_live Hp) as Hs'. destruct Hr as [_ _ E _].
    rewrite E, lookup_insert_eq in Hs'. by injection Hs'. }
  exists g1, g2, fs, s, pc, gm, gp, pf, gs, spend, gc, g3. split; [by exists n|]. split; [done|]. split; [by exists w|done].
Qed.

Lemma run_granted a tool args rid sr r why g g1 g2 fs s pc gm gp pf gs spend gc g3 g' :
  files_ok g -> native_ok cf g -> cedar_named -> permit_run a tool args rid sr r why g g1 g2 fs s pc gm gp pf gs spend gc g3 g' ->
  granted (arg_id a) tool args r g1 g' fs pc.
Proof.
  intros Hok Hn Hced ([n Hfl] & Hr & [w Hp] & Hi). set (id := arg_id a) in *.
  pose proof (flush_native a (rd_lifecycle r) g Hn) as Hn1. rewrite Hfl in Hn1. cbn [fst] in Hn1.
  pose proof (flush_files cf a (rd_lifecycle r) g Hok) as [Hok1 _]. rewrite Hfl in Hok1. cbn [fst] in Hok1.
  assert (Hok1' : files_ok (set_pending no_pending g1)) by exact Hok1.
  pose proof (refreshed_inv _ _ _ _ _ Hok1' Hr) as Hinv. pose proof (refreshed_core _ _ _ _ _ Hr) as Hcore.
  assert (Hn2 : native_ok cf g2) by (destruct Hr as [_ _ _ (_ & _ & _ & _ & _ & _ & E & _)]; unfold native_ok; by rewrite E).
  assert (Hl : g_live g2 !! id = Some s) by (destruct Hr as [_ _ E _]; by rewrite E, lookup_insert_eq).
  assert (Hsum : summary s = summary fs) by (destruct Hr as [_ [->|[t ->]] _ _]; done).
  assert (Hmem : memory_compromised_stores fs ⊆ memory_compromised_stores s) by apply (refreshed_later _ _ _ _ _ Hr).
  assert (Hcl : claims_of s = claims_of fs) by (unfold claims_of; by rewrite Hcore).
  destruct (rf_file _ _ _ _ _ Hr) as [pl Hfile].
  pose proof (ps_open Hp) as Hopen.
  unfold PassportState.blocked_session_reason in Hopen. destruct (ended s) eqn:Eend; [done|].
  unfold ended in Eend. apply orb_false_iff in Eend as [E1%bool_decide_eq_false E2%bool_decide_eq_false].
  rewrite Hsum in E1. rewrite Hcore in E2. apply eq_None_not_Some in E1, E2.
  split; [by exists pl|done| |by rewrite <- Hcl; apply (ps_telemetry Hp)| | | |].
  - rewrite Hcl in Hopen. apply M_bind_inv in Hopen as [(w1 & v & Hv & Hw)|(e & _ & [=])].
    destruct v; [done|]. exists (g_world g2), w1. split; [|done]. by destruct Hr as [_ _ _ (_ & _ & _ & _ & _ & _ & _ & _ & E)].
  - intros sid -> Hsid Hin. pose proof (ps_boundary Hp) as Hb.
    unfold compromised_read in Hb. rewrite Hsid in Hb. cbn in Hb. apply bool_decide_eq_false in Hb. set_solver.
  - pose proof (ps_mission Hp) as Hmis. rewrite Hcl in Hmis.
    rewrite <- (resolve_missions _ _ _ (set_world w g2)), Hmis; [done|]. apply (rf_missions _ _ _ _ _ Hr).
  - destruct Hr as [_ _ _ (_ & _ & _ & _ & _ & _ & Er & _)]. rewrite <- (Er : g_registry g2 = g_registry g1).
    eapply passed_policies; [done|done| |done]. by exists s.
  - destruct (passed_counted _ _ _ _ _ _ _ _ _ _ _ _ _ _ _ _ _ _ _ _ Hinv Hfile Hp) as (Hinv3 & fs' & pl' & Hf3 & L & Hcnt).
    assert (Hk : session_inv 0 g3 id g') by (pose proof (keeps_issue_receipt cf g3 id (Session.PERMIT, why, LastEvent) pc None r g3 Hinv3) as Hk; by rewrite Hi in Hk).
    destruct Hk as [[_ Hfw] _]. apply Hfw in Hf3 as (f4 & p4 & H4 & L4). exists f4, p4. split; [done|].
    split; [by etrans|]. pose proof (lt_calls _ _ L4). unfold calls_of in *. lia.
Qed.
Lemma permit_granted a tool args rid sr r g g' why : files_ok g -> native_ok cf g -> cedar_named ->
  evaluate_tool_call cf a tool args rid sr r g = (g', Ok (Session.PERMIT, why)) ->
  exists g1 n fs pc, flush_risk_lifecycle_outbox cf a (rd_lifecycle r) g = (g1, Ok n) /\
    granted (arg_id a) tool args r g1 g' fs pc.
Proof.
  intros Hok Hn Hced H. apply permit_parts in H as (g1 & g2 & fs & s & pc & gm & gp & pf & gs & spend & gc & g3 & Hrun).
  pose proof Hrun as ([n Hfl] & _). exists g1, n, fs, pc. split; [done|]. by eapply run_granted.
Qed.
End Permits.
#[global] Arguments gr_file {D J R U F X TT I Zl cf id tool args r g1 g' fs pc} _.
#[global] Arguments gr_open {D J R U F X TT I Zl cf id tool args r g1 g' fs pc} _.
#[global] Arguments gr_unrevoked {D J R U F X TT I Zl cf id tool args r g1 g' fs pc} _.
#[global] Arguments gr_telemetry {D J R U F X TT I Zl cf id tool args r g1 g' fs pc} _.
#[global] Arguments gr_memory {D J R U F X TT I Zl cf id tool args r g1 g' fs pc} _ _ _ _.
#[global] Arguments gr_claims {D J R U F X TT I Zl cf id tool args r g1 g' fs pc} _.
#[global] Arguments gr_policies {D J R U F X TT I Zl cf id tool args r g1 g' fs pc} _.
#[global] Arguments gr_counted {D J R U F X TT I Zl cf id tool args r g1 g' fs pc} _.

Section Histories.
Context {D : Digests} {J : Jwt} {W : Receipt.Jws} {P : Receipt.PyText} {R : PyRepr} {T : Wording}.
Context {U : UnicodeData} {F : Filesystem} {X : Regex} {S : RiskPolicy.JsonSchema} {FT : FloatText}.
Context {TT : TokenText} {I : IpAddress} {Zl : Zlib}.

(** A permit of a session whose file is known before the call. *)
Lemma permit_entry cf a tool args rid sr r g g' why fs pl : files_ok g -> native_ok cf g -> cedar_named cf ->
  evaluate_tool_call cf a tool args rid sr r g = (g', Ok (Session.PERMIT, why)) -> g_files g !! arg_id a = Some (fs, pl) ->
  exists g1 f1 pc, later fs f1 /\ granted cf (arg_id a) tool args r g1 g' f1 pc.
Proof.
  intros Hok Hn Hced H Hf. destruct (permit_granted cf a tool args rid sr r g g' why Hok Hn Hced H) as (g1 & n & f1 & pc & Hfl & Hg).
  exists g1, f1, pc. split; [|done]. pose proof (flush_files cf a (rd_lifecycle r) g Hok) as [_ Hfw]. rewrite Hfl in Hfw.
  cbn [fst] in Hfw. destruct (Hfw _ _ _ Hf) as (f1' & q1 & Hf1 & L). destruct (gr_file Hg) as [q2 Hf2].
  rewrite Hf1 in Hf2. injection Hf2 as E _. by rewrite <- E.
Qed.

(** ** Budgets *)

(** C3. A session never gets more permits than its passport grants.  Whatever
    modelled operations are run on it, by whichever processes share the state
    directory, in whatever order, the decisions to permit that are answered for
    a session without a mission reference number at most the [max_tool_calls]
    of its passport, less the calls its file already counts. *)
Theorem permits_bounded g t g' id fs pl m : history g t g' -> files_ok g -> g_files g !! id = Some (fs, pl) ->
  py_get "mission_ref" (claims_of fs) = PNone -> 0 <= Session.delegated_budget_reserved (core fs) ->
  to_int (get_or "max_tool_calls" (PInt 50) (claims_of fs)) = Ok m ->
  permits (of_session id) t <= Z.max 0 (Z.max 0 m - calls_of fs).
Proof.
  intros H Hok Hf Hm Hr Hmax.
  apply (history_bound id (of_session id) (fun f => Z.max 0 (Z.max 0 m - calls_of f))
    (fun f => claims_of f = claims_of fs /\ 0 <= Session.delegated_budget_reserved (core f))) with g g' pl; try done.
  - intros x. apply String.eqb_eq.
  - intros f. lia.
  - intros f f' [Hc Hres] L. pose proof (lt_calls _ _ L). unfold calls_of in *. split; [|lia].
    split; [by rewrite (lt_claims _ _ L)|by apply (lt_reserved _ _ L)].
  - intros cf a tool args rid sr r ga gb why f q Hoka Hn Hced E Ha _ Hfa [Hc Hres].
    rewrite <- Ha in Hfa |- *. destruct (permit_entry cf a tool args rid sr r ga gb why f q Hoka Hn Hced E Hfa) as (g1 & f1 & pc & L & Hg).
    destruct (gr_counted Hg) as (f3 & q3 & Hf3 & L3 & Hcnt).
    exists f3, q3. split; [done|]. split; [by etrans|].
    assert (Hc1 : claims_of f1 = claims_of fs) by (rewrite (lt_claims _ _ L); done).
    pose proof (gr_claims Hg) as Hpc. rewrite Hc1 in Hpc. unfold resolve_authoritative_policy_claims in Hpc.
    rewrite Hm in Hpc. injection Hpc as <-. destruct (gr_policies Hg) as [Hnp _].
    destruct (np_calls _ _ _ _ _ _ Hnp) as (m' & Hm' & Hlt). rewrite Hmax in Hm'. injection Hm' as <-.
    cbn in Hlt. pose proof (lt_calls _ _ L). pose proof (lt_reserved _ _ L Hres). unfold calls_of in *. lia.
Qed.

(** ** Ending a session *)

(** The risk policy the session answers to, as a value. *)
Definition risk_raw (s : live) : pyval :=
  match risk_policy_snapshot s with
  | Some p => PDict (RiskPolicy.risk_policy_dict p)
  | None => py_get "risk_budget" (claims_of s)
  end.
(** Nothing reserved for the session is outstanding in the ledgers. *)
Record settled_up (id : string) (s : live) (g : gate) : Prop := {
  su_risk : risk_raw s = PNone \/ exists p, RiskPolicy.normalize_risk_budget (risk_raw s) None = Ok p /\
    RiskLedger.unresolved_for_session (g_risk g) (RiskPolicy.rp_lineage_id p) id = Ok [] /\
    RiskLedger.pending_lifecycles_for_session (g_risk g) (RiskPolicy.rp_lineage_id p) id = Ok [];
  su_spend : py_get "mission_ref" (claims_of s) = PNone -> py_get "spend_budget" (claims_of s) = PNone \/
    exists p, normalize_spend_budget (py_get "spend_budget" (claims_of s)) None true = Ok p /\
      SpendLedger.has_active_reservations (g_spend g) (lineage_of p) id = Ok false
}.
Lemma risk_resolved s g g' : assert_risk_resolved s g = (g', Ok tt) ->
  g' = g /\ (risk_raw s = PNone \/ exists p, RiskPolicy.normalize_risk_budget (risk_raw s) None = Ok p /\
    RiskLedger.unresolved_for_session (g_risk g) (RiskPolicy.rp_lineage_id p) (jti_of s) = Ok [] /\
    RiskLedger.pending_lifecycles_for_session (g_risk g) (RiskPolicy.rp_lineage_id p) (jti_of s) = Ok []).
Proof.
  intros H. assert (Hg : g' = g).
  { pose proof (keeps_risk_resolved (fun x => x = g) s g eq_refl) as Hk. by rewrite H in Hk. }
  split; [done|]. subst g'. unfold assert_risk_resolved in H. fold (risk_raw s) in H.
  assert (Hne : risk_raw s = PNone \/ risk_raw s <> PNone) by (destruct (risk_raw s); [by left|by right..]).
  destruct Hne as [->|Hne]; [by left|right].
  destruct (RiskPolicy.normalize_risk_budget (risk_raw s) None) as [p|e]; [|by destruct (risk_raw s)]. exists p. split; [done|].
  assert (H' : (d ← gets g_risk;
          unresolved ← lift ERisk (RiskLedger.unresolved_for_session d (RiskPolicy.rp_lineage_id p) (jti_of s));
          _ ← demand (match unresolved with [] => true | _ => false end) EPermission;
          outbox ← lift ERisk (RiskLedger.pending_lifecycles_for_session d (RiskPolicy.rp_lineage_id p) (jti_of s));
          demand (match outbox with [] => true | _ => false end) EPermission) g = (g, Ok tt)) by (by destruct (risk_raw s)).
  clear H. step H'. injection E as <- <-. step H'. apply lift_run_ok in E as [-> Hu]. step H'. apply demand_ok in E as [-> Hd].
  step H'. apply lift_run_ok in E as [-> Ho]. apply demand_ok in H' as [_ Hd']. destruct a; [|done]. by destruct a1.
Qed.
Lemma spend_resolved cf s r g g' : assert_spend_resolved cf s r g = (g', Ok tt) ->
  py_get "mission_ref" (claims_of s) = PNone -> py_get "spend_budget" (claims_of s) = PNone \/
    exists p, normalize_spend_budget (py_get "spend_budget" (claims_of s)) None true = Ok p /\
      SpendLedger.has_active_reservations (g_spend g) (lineage_of p) (jti_of s) = Ok false.
Proof.
  intros H Hm. unfold assert_spend_resolved in H. step H. unfold resolve_authoritative_policy_claims in E. rewrite Hm in E.
  injection E as <- <-. set (raw := py_get "spend_budget" (claims_of s)) in *.
  assert (Hne : raw = PNone \/ raw <> PNone) by (destruct raw; [by left|by right..]).
  destruct Hne as [->|Hne]; [by left|right].
  assert (H' : (policy ← lift ESpend (normalize_spend_budget raw None true); d ← gets g_spend;
      active ← lift ESpend (SpendLedger.has_active_reservations d (lineage_of policy) (jti_of s));
      demand (negb active) EPermission) g = (g', Ok tt)) by (by destruct raw).
  clear H. step H'. apply lift_run_ok in E as [-> Hp]. step H'. injection E as <- <-. step H'. apply lift_run_ok in E as [-> Ha].
  apply demand_ok in H' as [_ Hd]. exists a. by destruct a0.
Qed.

Lemma finalize_run cf id now r g g' m created s : g_live g !! id = Some s ->
  finalize_session cf id now r g = (g', Ok (m, created)) ->
  g_files g' = g_files g /\ (jti_of s = id -> settled_up id s g') /\
  if created : bool then g_live g' !! id = Some (set_summary (Some m) (set_end_time now s)) else summary s = Some m.
Proof.
  intros Hs H. assert (Hbk : books g' = books g) by (eapply keeps_run; [apply books_finalize|exact H|done]).
  unfold finalize_session in H. step H. apply target_ok in E as [-> Hs']. rewrite Hs in Hs'. injection Hs' as <-.
  step H. destruct a. apply risk_resolved in E as [-> Hr]. step H. destruct a. rename E into Hsp. pose proof (spend_resolved _ _ _ _ _ Hsp) as Hpend.
  assert (Hk : g_files g0 = g_files g /\ g_live g0 = g_live g).
  { assert (Hk : keeps (fun x => g_files x = g_files g /\ g_live x = g_live g) (assert_spend_resolved cf s r)).
    { assert (Hof : of_sessions (fun x => g_files x = g_files g /\ g_live x = g_live g)) by (intros x y -> -> _ _; done).
      unfold assert_spend_resolved, resolve_authoritative_policy_claims. keep. }
    specialize (Hk g (conj eq_refl eq_refl)). by rewrite Hsp in Hk. }
  destruct Hk as [Ef El].
  assert (Hset : jti_of s = id -> settled_up id s g').
  { injection Hbk as E1 E2 _. intros <-. split; [by rewrite E1|by rewrite E2]. }
  destruct (summary s) as [m0|] eqn:Em.
  - injection H as <- <- <-. split; [done|]. by split.
  - step H. injection E as <- _. step H. apply target_ok in E as [-> Hl]. step H. apply raises_ok in E as [-> _].
    step H. injection E as <- _. injection H as <- <- <-. split; [done|]. split; [done|]. cbn in Hl.
    rewrite lookup_alter_eq, El, Hs in Hl. injection Hl as <-.
    cbn. by rewrite !lookup_alter_eq, El, Hs.
Qed.

Lemma settled_same id s s' g g' : claims_of s' = claims_of s -> risk_policy_snapshot s' = risk_policy_snapshot s ->
  books g' = books g -> settled_up id s g -> settled_up id s' g'.
Proof. intros Hc Hp [= E1 E2 _] [H1 H2]. split; unfold risk_raw in *; rewrite ?Hc, ?Hp, ?E1, ?E2; done. Qed.

(** An ended session is settled, and its file has the summary. *)
Lemma end_run cf a now r g g' m : files_ok g -> end_session cf a now r g = (g', Ok m) ->
  files_ok g' /\ exists fs pl, g_files g' !! arg_id a = Some (fs, pl) /\ summary fs = Some m /\ settled_up (arg_id a) fs g'.
Proof.
  intros Hok H. pose proof (end_session_files cf a now r g Hok) as [Hok' _]. rewrite H in Hok'. split; [done|].
  unfold end_session in H. step H. pose proof (flush_files cf a (rd_lifecycle r) g Hok) as [Hokf _]. rewrite E in Hokf.
  step H. destruct (locked_run cf a g0) as [[e E']|(g2 & fs & s & E' & Hr)]; rewrite E0 in E'; [done|].
  injection E' as <- ->. step H. destruct a1 as [m' created].
  assert (Hl : g_live g1 !! arg_id a = Some s) by (destruct Hr as [_ _ El _]; by rewrite El, lookup_insert_eq).
  pose proof (refreshed_later _ _ _ _ _ Hr) as L. pose proof Hr as [[pl Hf] Hsh _ (Ef & _)].
  assert (Hj : jti_of s = arg_id a) by (rewrite (later_jti _ _ L); by eapply (Hokf (arg_id a))).
  pose proof (finalize_run _ _ _ _ _ _ _ _ _ Hl E1) as (Ef2 & Hset & Hsum). specialize (Hset Hj). step H. injection H as -> ->.
  destruct a1, created.
  - assert (Hbk : books g' = books g2) by (eapply keeps_run; [apply books_persist|exact E2|done]).
    rewrite (persist_run _ _ _ _ Hsum) in E2. destruct (ReceiptLog.add_integrity _ _ _) as [payload|e]; [|done].
    injection E2 as E2. do 2 eexists. rewrite <- E2 at 1. cbn [set_files g_files].
    change (jti_of (set_summary (Some m) (set_end_time now s))) with (jti_of s). rewrite Hj, lookup_insert_eq.
    split; [done|]. split; [done|]. by apply (settled_same _ s _ g2).
  - injection E2 as <-. exists fs, pl. rewrite Ef2, Ef. split; [done|]. split; [by destruct Hsh as [->|[t ->]]|].
    apply (settled_same _ s _ g2); [|by destruct Hsh as [->|[t ->]]|done|done]. symmetry. apply L.
Qed.

(** C10. A session that has ended stays ended.  When [end_session] returns, no
    risk or spend reservation of the session is outstanding and no risk
    lifecycle undelivered, and no later modelled operation of any process that
    shares the state directory gets a permit for it or replaces its summary. *)
Theorem ended_session_closed cf a now r g g1 m t g2 : files_ok g -> end_session cf a now r g = (g1, Ok m) ->
  history g1 t g2 ->
  (exists fs pl, g_files g1 !! arg_id a = Some (fs, pl) /\ settled_up (arg_id a) fs g1) /\
  permits (of_session (arg_id a)) t = 0 /\
  exists fs pl, g_files g2 !! arg_id a = Some (fs, pl) /\ summary fs = Some m.
Proof.
  intros Hok H Ht. apply end_run in H as (Hok1 & fs & pl & Hf & Hsum & Hset); [|done]. split; [by exists fs, pl|]. split.
  - apply Z.le_antisymm; [|unfold permits; lia].
    apply (history_bound (arg_id a) (of_session (arg_id a)) (fun _ => 0) (fun f => summary f = Some m)) with g1 g2 fs pl; try done.
    + intros x. apply String.eqb_eq.
    + intros f f' Hs L. split; [by apply (lt_summary _ _ L)|lia].
    + intros cf' a' tool args rid sr r' ga gb why f q Hoka Hn Hced E Ha _ Hfa Hs.
      rewrite <- Ha in Hfa. destruct (permit_entry cf' a' tool args rid sr r' ga gb why f q Hoka Hn Hced E Hfa) as (gf & f1 & pc & L & Hg).
      destruct (gr_open Hg) as [Ho _].
      rewrite (lt_summary _ _ L _ Hs) in Ho. done.
  - pose proof (history_files _ _ _ Ht Hok1) as [_ Hfw]. apply Hfw in Hf as (f2 & p2 & Hf2 & L). exists f2, p2.
    split; [done|]. by apply (lt_summary _ _ L).
Qed.

(** C20. A store found compromised is never read again.  Once the file of a
    session lists a memory store as compromised, no later modelled operation of any
    process permits the session to read from it, and the file goes on listing
    it. *)
Theorem compromised_store_unreadable g t g' id fs pl store : history g t g' -> files_ok g ->
  g_files g !! id = Some (fs, pl) -> store ∈ memory_compromised_stores fs ->
  permits (reads id store) t = 0 /\
  exists fs' pl', g_files g' !! id = Some (fs', pl') /\ store ∈ memory_compromised_stores fs'.
Proof.
  intros Ht Hok Hf Hst. split.
  - apply Z.le_antisymm; [|unfold permits; lia].
    apply (history_bound id (reads id store) (fun _ => 0) (fun f => store ∈ memory_compromised_stores f)) with g g' fs pl; try done.
    + intros x. unfold reads, of_session. rewrite !andb_true_iff. intros [[Hx _] _]. by apply String.eqb_eq.
    + intros f f' Hs L. split; [by apply (lt_compromised _ _ L)|lia].
    + intros cf a tool args rid sr r ga gb why f q Hoka Hn Hced E Ha Hp Hfa Hs. rewrite <- Ha in Hfa.
      destruct (permit_entry cf a tool args rid sr r ga gb why f q Hoka Hn Hced E Hfa) as (gf & f1 & pc & L & Hg).
      unfold reads in Hp. cbn [an_session an_tool an_arguments] in Hp. rewrite !andb_true_iff in Hp.
      destruct Hp as [[_ Ht'%String.eqb_eq] Hsid]. destruct (py_get "store_id" args) as [| | | |x| |] eqn:Ex; try done.
      apply String.eqb_eq in Hsid. subst x. destruct (gr_memory Hg store Ht' Ex). by apply (lt_compromised _ _ L).
  - pose proof (history_files _ _ _ Ht Hok) as [_ Hfw]. apply Hfw in Hf as (f2 & p2 & Hf2 & L). exists f2, p2.
    split; [done|]. by apply (lt_compromised _ _ L).
Qed.
End Histories.

Section Reservations.
Context {D : Digests} {J : Jwt} {W : Receipt.Jws} {P : Receipt.PyText} {R : PyRepr} {T : Wording}.
Context {U : UnicodeData} {F : Filesystem} {X : Regex} {S : RiskPolicy.JsonSchema} {FT : FloatText}.
Context {TT : TokenText} {I : IpAddress} {Zl : Zlib}.
Variable cf : config.

(** ** Reservations *)

(** The risk ledger accepted a reservation for the call: the policy [p] lists
    the tool, the facts of the arguments are within its caps on one action,
    and the reservation is the last thing that happened to the ledger. *)
Definition risk_reserved (id tool : string) (args : claims) (rid : option string) (now : Z) (p : RiskPolicy.risk_policy)
    (d d' : RiskLedger.store) : Prop :=
  exists request c facts numeric call res,
    rid = Some request /\ RiskPolicy.resolve tool (cf_contracts cf) = Some c /\
    RiskPolicy.extract c (PDict args) = Ok facts /\
    RiskPolicy.validate_action_risk (PDict (RiskPolicy.risk_policy_dict p)) c facts = Ok numeric /\
    RiskLedger.rc_request_id call = request /\ RiskLedger.rc_lineage_id call = RiskPolicy.rp_lineage_id p /\
    RiskLedger.rc_facts call = numeric /\ RiskLedger.rc_ceilings call = list_to_map (RiskPolicy.rp_ceilings p) /\
    RiskLedger.reserve d call now = (d', Ok res) /\ RiskLedger.rr_accepted res = true.

Lemma action_denied e m : pf_accepted (action_denial e m) = false.
Proof.
  unfold action_denial. destruct e; try reflexivity.
  repeat match goal with |- pf_accepted (match ?x with _ => _ end) = _ => destruct x; try reflexivity end.
Qed.
Lemma reserve_risk_run id p c tool args request now g g' pf :
  RiskPolicy.resolve tool (cf_contracts cf) = Some c ->
  reserve_risk id p c tool args request now g = (g', Ok pf) -> pf_accepted pf = true ->
  g_spend g' = g_spend g /\ risk_reserved id tool args (Some request) now p (g_risk g) (g_risk g').
Proof.
  intros Hc H Ha. unfold reserve_risk in H. step H. apply target_ok in E as [-> Hs].
  destruct (RiskPolicy.extract c (PDict args)) as [facts|e] eqn:Ex.
  2: { destruct e; try done; by injection H as _ <-. }
  step H. apply lift_run_ok in E as [-> Hm]. destruct a0 as [fd m].
  destruct (RiskPolicy.validate_action_risk _ c facts) as [numeric|e] eqn:Ev.
  2: { destruct (budget_error e); [|done]. injection H as _ <-. by rewrite action_denied in Ha. }
  step H. apply raises_ok in E as [-> Hcall]. step H. apply attempt_ok in E as (x & E & [= ->]).
  unfold on_risk in E. destruct (RiskLedger.reserve (g_risk g) a0 now) as [d' res] eqn:Er.
  destruct res as [res|e]; injection E as <- <-.
  2: { destruct e; try (by injection H as _ <-); by destruct (budget_error _); [injection H as _ <-|]. }
  destruct (RiskLedger.rr_accepted res) eqn:Eacc; [|by injection H as _ <-].
  step H. injection E as <- _. injection H as <- _. split; [done|].
  exists request, c, facts, numeric, a0, res. split_and!; try done; unfold risk_call in Hcall;
    (destruct (policy_hash ← _; _) as [[ph fp]|e]; [|done]; apply bind_ok in Hcall as (e & _ & [= <-]); done).
Qed.

(** The tool needs no risk reservation under the claims. *)
Definition risk_free (pc : claims) (tool : string) (s : live) : Prop :=
  py_get "risk_budget" pc = PNone /\ risk_policy_snapshot s = None \/ RiskPolicy.resolve tool (cf_contracts cf) = None.
(** The policy in force: what the claims say now, and what the session was
    pinned to. *)
Definition risk_policy_in_force (pc : claims) (s : live) (p : RiskPolicy.risk_policy) : Prop :=
  exists current, RiskPolicy.normalize_risk_budget (py_get "risk_budget" pc) None = Ok current /\
    match risk_policy_snapshot s with Some q => p = q /\ same_policy current q = true | None => p = current end.
Lemma pinned_run id pc g g' p s : g_live g !! id = Some s -> pinned_policy id pc g = (g', Ok (Some p)) ->
  risk_policy_in_force pc s p.
Proof.
  intros Hs H. unfold pinned_policy in H. step H. apply target_ok in E as [-> Hs']. rewrite Hs in Hs'. injection Hs' as <-.
  unfold risk_policy_in_force. destruct (py_get "risk_budget" pc); [done|..];
    (destruct (RiskPolicy.normalize_risk_budget _ None) as [current|e]; [|by destruct (budget_error e)]; exists current;
     split; [done|]; destruct (risk_policy_snapshot s) as [q|];
     [destruct (same_policy current q) eqn:Esp; [by injection H as _ <-|done]|];
     step H; by injection H as _ <-).
Qed.
Lemma preflight_run id tool args pc rid now g g' pf s : g_live g !! id = Some s ->
  risk_preflight cf id tool args pc rid now g = (g', Ok pf) -> pf_accepted pf = true ->
  g_spend g' = g_spend g /\
  (risk_free pc tool s \/ exists p, risk_policy_in_force pc s p /\ risk_reserved id tool args rid now p (g_risk g) (g_risk g')).
Proof.
  intros Hs H Ha. unfold risk_preflight in H. step H. apply target_ok in E as [-> Hs']. rewrite Hs in Hs'. injection Hs' as <-.
  assert (Hc : py_get "risk_budget" pc = PNone /\ risk_policy_snapshot s = None \/
    (p ← pinned_policy id pc;
      match p with
      | None => mret (risk_denied "risk_policy_invalid" Session.RISK_POLICY_INVALID None)
      | Some p =>
          match RiskPolicy.resolve tool (cf_contracts cf), dget tool (RiskPolicy.rp_tools p) with
          | None, None => mret ungoverned
          | Some c, Some _ =>
              if is_memory_store_tool tool
              then mret (risk_denied "risk_contract_invalid" Session.RISK_CONTRACT_INVALID None)
              else match request_id_ok rid with
                   | None => mret (risk_denied "risk_request_id_invalid" Session.RISK_REQUEST_ID_INVALID None)
                   | Some request_id => reserve_risk id p c tool args request_id now
                   end
          | _, _ => mret (risk_denied "risk_contract_invalid" Session.RISK_CONTRACT_INVALID None)
          end
      end) g = (g', Ok pf)).
  { destruct (py_get "risk_budget" pc), (risk_policy_snapshot s); auto. }
  destruct Hc as [[E1 E2]|H'].
  { rewrite E1, E2 in H. injection H as <- _. split; [done|]. by left; left. }
  clear H. rename H' into H. step H. pose proof (keeps_run _ _ _ _ _ (books_pinned _ id pc) E eq_refl) as [= B1 B2 _].
  destruct a as [p|]; [|by injection H as _ <-]. apply (pinned_run _ _ _ _ _ s) in E; [|done].
  destruct (RiskPolicy.resolve tool (cf_contracts cf)) as [c|] eqn:Ec, (dget tool (RiskPolicy.rp_tools p)); try (by injection H as _ <-).
  - destruct (is_memory_store_tool tool); [by injection H as _ <-|].
    destruct (request_id_ok rid) as [request|] eqn:Er; [|by injection H as _ <-].
    assert (rid = Some request) as -> by (unfold request_id_ok in Er; destruct rid as [i|]; [destruct (_ && _); [by injection Er as ->|done]|done]).
    apply reserve_risk_run in H as [H1 H2]; [|done..]. rewrite B2 in H1. rewrite B1 in H2. split; [done|]. right. by exists p.
  - injection H as <- _. split; [done|]. left. by right.
Qed.

(** The spend ledger accepted a reservation for the call. *)
Definition spend_reserved (id tool : string) (p : spend_policy) (sr : option SpendReservationRequest) (quote_now now : Z)
    (d d' : SpendLedger.ledger_dir) : Prop :=
  exists request quotes quote agent exp res,
    sr = Some request /\ cf_quotes cf = Some quotes /\
    resolve_quote quotes (r_quote_id request) tool (r_model request) (sp_currency p) quote_now = Ok quote /\
    SpendLedger.reserve d (spend_policy_dict p) id agent request quote now (Some exp) = Ok (d', res) /\
    SpendLedger.accepted res = true.
Lemma spend_run id tool pc sr t t' g g' res s : g_live g !! id = Some s -> jti_of s = id ->
  reserve_spend_if_required cf id tool pc sr t t' g = (g', Ok res) -> (forall x, res = Some x -> SpendLedger.accepted x = true) ->
  g_risk g' = g_risk g /\
  (py_get "spend_budget" pc = PNone \/ exists p, normalize_spend_budget (py_get "spend_budget" pc) None true = Ok p /\
    (str_in tool (sp_metered_tools p) = false \/ spend_reserved id tool p sr t t' (g_spend g) (g_spend g'))).
Proof.
  intros Hs Hj H Ha. unfold reserve_spend_if_required in H. set (raw := py_get "spend_budget" pc) in *.
  assert (Hne : raw = PNone \/ raw <> PNone) by (destruct raw; [by left|by right..]).
  destruct Hne as [E|Hne]; [rewrite E in H |- *; destruct sr; [done|]; injection H as <- _; auto|].
  assert (H' : (p ← lift ESpend (normalize_spend_budget raw None true);
      if negb (str_in tool (sp_metered_tools p))
      then match sr with Some _ => throw (ESpend (SpendBudgetError "spend_request_unexpected")) | None => mret None end
      else match sr, cf_quotes cf with
      | None, _ => throw (ESpend (SpendBudgetError "spend_reservation_missing"))
      | Some _, None => throw (ESpend (SpendBudgetError "spend_quote_store_unavailable"))
      | Some request, Some quotes =>
          s ← target id;
          quote ← lift ESpend (resolve_quote quotes (r_quote_id request) tool (r_model request) (sp_currency p) t);
          exp ← raises (expiry s);
          r ← on_spend (fun d => SpendLedger.reserve d (spend_policy_dict p) (jti_of s) (agent_of s) request quote t' (Some exp));
          _ ← (if SpendLedger.accepted r
               then modify (fun g => set_pending (Pending (Some (Held (default "" (sp_lineage_id p)) (jti_of s)
                      (request_id request) false)) (p_risk (g_pending g))) g)
               else mret tt : G unit);
          mret (Some r)
      end : G (option SpendReservationResult)) g = (g', Ok res)) by (by destruct raw).
  clear H. step H'. apply lift_run_ok in E as [-> Ep]. rename a into p.
  destruct (str_in tool (sp_metered_tools p)) eqn:Et; cbn [negb] in H'.
  2: { assert (g' = g) as -> by (destruct sr; [done|by injection H']). split; [done|]. right. exists p. auto. }
  destruct sr as [request|]; [|done]. destruct (cf_quotes cf) as [quotes|] eqn:Eq; [|done].
  step H'. apply target_ok in E as [-> Hs']. rewrite Hs in Hs'. injection Hs' as <-. step H'. apply lift_run_ok in E as [-> Hq].
  step H'. apply raises_ok in E as [-> Hex]. step H'. unfold on_spend in E.
  destruct (SpendLedger.reserve _ _ _ _ _ _ _ _) as [[d' x]|e] eqn:Er; [|done]. injection E as <- <-.
  step H'. injection H' as <- <-. rewrite (Ha x) in E by done. injection E as <- _. split; [done|]. right. exists p. split; [done|].
  right. exists request, quotes, a, (agent_of s), a0, x. rewrite Hj in Er. split_and!; auto.
Qed.

(** From the policy check on, a permitted call leaves the ledgers as they are. *)
Lemma permit_books a tool args rid sr r why g g1 g2 fs s pc gm gp pf gs spend gc g3 g' :
  permit_run cf a tool args rid sr r why g g1 g2 fs s pc gm gp pf gs spend gc g3 g' ->
  g_risk gm = g_risk g1 /\ g_spend gm = g_spend g1 /\ books g' = books gs.
Proof.
  intros (_ & Hr & [w Hp] & Hi). destruct Hr as [_ _ _ (_ & Er & Es & _)].
  pose proof (keeps_run _ _ _ _ _ (books_resolve cf _ _ _) (ps_mission Hp) eq_refl) as [= B1 B2 _].
  split; [by rewrite B1|]. split; [by rewrite B2|].
  destruct (ps_check Hp) as [why' Hc].
  apply (keeps_run _ _ _ _ (books gs) (books_ordinary cf _ _ _ _ _ _)) in Hc; [|done].
  destruct (ps_persist Hp) as (f & _ & Hper).
  apply (keeps_run _ _ _ _ (books gs) (books_persist cf _ _)) in Hper; [|exact Hc].
  by apply (keeps_run _ _ _ _ (books gs) (books_issue cf _ _ _ _ _)) in Hi.
Qed.

(** The session through a run that passes everything. *)
Lemma resolve_live c r l : keeps (fun x => g_live x = l) (resolve_authoritative_policy_claims cf c r).
Proof.
  assert (Hof : of_sessions (fun x => g_live x = l)) by (intros x y _ -> _ _; done).
  unfold resolve_authoritative_policy_claims. keep.
Qed.
Lemma passed_sessions id tool args rid sr r pc c g g' s w gm g1 pf g2 spend g3 : core_is id c g ->
  passed cf id tool args rid sr r pc g g' s w gm g1 pf g2 spend g3 ->
  g_live gm = g_live g /\ core_is id c g1 /\ core_is id c g2.
Proof.
  intros Hc Hp. assert (Hm : g_live gm = g_live g).
  { pose proof (resolve_live (claims_of s) r (g_live g) (set_world w g) eq_refl) as Hk.
    by rewrite (ps_mission Hp) in Hk. }
  split; [done|]. assert (H1 : core_is id c gm) by (unfold core_is; by rewrite Hm).
  pose proof (keeps_risk_preflight cf _ id (core_mild id c) tool args pc rid (rd_risk r) gm H1) as H2.
  rewrite (ps_risk Hp) in H2. split; [done|].
  pose proof (keeps_reserve_spend cf _ id (core_mild id c) tool pc sr (rd_quote r) (rd_spend r) g1 H2) as H3.
  by rewrite (ps_spend Hp) in H3.
Qed.

(** What was seen of the log, and the approval trackers, up to the policy check. *)
Lemma passed_frame id tool args rid sr r pc g g' s w gm g1 pf g2 spend g3 :
  passed cf id tool args rid sr r pc g g' s w gm g1 pf g2 spend g3 -> g_seen g2 = g_seen g /\ g_trackers g2 = g_trackers g.
Proof.
  intros Hp.
  assert (Hq : forall B (p : gate -> B), quiet p -> p g2 = p g); [|split; apply Hq; [apply quiet_seen|apply quiet_trackers]].
  intros B p Hq. rewrite (frame_run p _ _ _ _ (frame_reserve_spend cf p _ Hq _ _ _ _ _ _) (ps_spend Hp)).
  rewrite (frame_run p _ _ _ _ (frame_preflight cf p _ Hq _ _ _ _ _ _) (ps_risk Hp)).
  rewrite (frame_run p _ _ _ _ (frame_resolve cf p _ Hq _ _) (ps_mission Hp)). apply (qt_world _ Hq).
Qed.

End Reservations.
