(* ===== verification/GateAudit.v ===== *)
(** * The receipts log against the sessions

    Every answered call leaves its receipt; and through any history of
    processes that sign with one key, whatever raised on the way, the receipts
    of a session form one chain, which its file names the end of and to which
    every line of the log for it belongs. *)

From S2P Require Import Prelude Sha256 CanonicalJson SpendPolicy SpendLedger Merkle RiskPolicy Passport PassportPop.
From S2P Require Import ResourceScope PyJson Policy Session RiskLedger Approvals MemoryStore PassportState.
From S2P Require Import PassportStateProps PassportAdmission Receipt ReceiptProps ReceiptLog ReceiptLogProps Urls Mission.
From S2P Require Import SessionStore Gate Aat GateLogic GateInv GateRuns GateFrame GateReceipts GateHistory.
Import Passport ResourceScope PyJson Policy SessionStore Gate.
Open Scope string_scope.
Open Scope Z_scope.
Open Scope list_scope.

Section Audit.
Context {D : Digests} {J : Jwt} {W : Receipt.Jws} {P : Receipt.PyText} {R : PyRepr} {T : Wording}.
Context {U : UnicodeData} {F : Filesystem} {X : Regex} {S : RiskPolicy.JsonSchema} {FT : FloatText}.
Context {TT : TokenText} {I : IpAddress} {Zl : Zlib}.

(** C34. No call is answered without a receipt.  Whatever the decision, an
    answered call leaves a receipt that is signed with the proxy's key, is of
    this session, tool, arguments and verdict, and names the receipt the file
    had as the last; the file names it as the last now; and it is the log's new
    line, unless the call was refused and the log has a line of its identifier
    already. *)
Theorem answered_call_logged cf a tool args rid sr r g g' d why : files_ok g ->
  evaluate_tool_call cf a tool args rid sr r g = (g', Ok (d, why)) ->
  exists g1 n fs pl x, flush_risk_lifecycle_outbox cf a (rd_lifecycle r) g = (g1, Ok n) /\
    g_files g1 !! arg_id a = Some (fs, pl) /\
    receipted cf (arg_id a) tool args d (last_receipt_full_hash fs) g' x /\
    (g_log g' = (g_log g1 ++ [ReceiptLog.LEntry x]) \/
     d <> Session.PERMIT /\ ReceiptLog.logged (ReceiptLog.en_receipt_id x) (g_log g1) = true /\ g_log g' = g_log g1).
Proof.
  intros Hok H. destruct (answered_run cf _ _ _ _ _ _ _ _ _ _ Hok H) as (g1 & n & fs & pl & x & rel & Hfl & Hf & Hx & Hrec & Hrel).
  exists g1, n, fs, pl, x. split_and!; [done..|]. destruct Hrec as [Hl|(-> & Hl)]; [by left|right].
  split; [|done]. by intros Hd%Hrel.
Qed.

(** ** One chain for a session *)

Definition of_id (id : string) (x : ReceiptLog.entry) : Prop := ReceiptLog.en_session_id x = id.
(** The lines of a session in the log are among [xs]. *)
Definition log_within (id : string) (xs : list ReceiptLog.entry) (log : list ReceiptLog.line) : Prop :=
  forall x, ReceiptLog.LEntry x ∈ log -> of_id id x -> x ∈ xs.
Section Key.
Variable key : private_key.

Record chained (id : string) (xs : list ReceiptLog.entry) (g : gate) : Prop := {
  ch_linked : linked key None xs;
  ch_session : Forall (of_id id) xs;
  ch_log : log_within id xs (g_log g);
  ch_file : match g_files g !! id with
            | Some (fs, _) => last_receipt_full_hash fs = anchor xs /\ stored fs ⊆ xs
            | None => xs = []
            end
}.
Definition all_chained (g : gate) : Prop := forall id, exists xs, chained id xs g.
Lemma chained_same id xs g g' : g_files g' !! id = g_files g !! id -> g_log g' = g_log g -> chained id xs g -> chained id xs g'.
Proof. intros Ef El [H1 H2 H3 H4]. split; [done|done|by rewrite El|by rewrite Ef]. Qed.

(** An operation at work on a session: [xs] is in its file, [ys] was built
    since; [A] is known to be in the file, [B] to be built. *)
Record at_work (id : string) (A B xs ys : list ReceiptLog.entry) (s : live) (g : gate) : Prop := {
  wk_file : chained id xs g /\ is_Some (g_files g !! id);
  wk_linked : linked key None (xs ++ ys);
  wk_session : Forall (of_id id) ys;
  wk_live : g_live g !! id = Some s;
  wk_jti : jti_of s = id;
  wk_anchor : last_receipt_full_hash s = anchor (xs ++ ys);
  wk_stored : stored s ⊆ xs ++ ys;
  wk_saved : A ⊆ xs;
  wk_built : B ⊆ xs ++ ys
}.
Definition working (id : string) (A B : list ReceiptLog.entry) (g : gate) : Prop :=
  (forall i, i <> id -> exists xs, chained i xs g) /\ exists xs ys s, at_work id A B xs ys s g.
Lemma working_chained id A B g : working id A B g -> all_chained g.
Proof.
  intros [Ho (xs & ys & s & Hw)] i. destruct (decide (i = id)) as [->|]; [|by apply Ho]. exists xs. apply Hw.
Qed.
Lemma working_weaken id A B A' B' g : A' ⊆ A -> B' ⊆ B -> working id A B g -> working id A' B' g.
Proof.
  intros HA HB [Ho (xs & ys & s & [])]. split; [done|]. exists xs, ys, s. split; try done; set_solver.
Qed.
Lemma working_state id A B g g' : g_files g' = g_files g -> g_live g' = g_live g -> g_log g' = g_log g ->
  working id A B g -> working id A B g'.
Proof.
  intros Ef El Eg [Ho (xs & ys & s & [[Hf Hs] ? ? Hl ? ? ? ? ?])]. split.
  - intros i Hi. destruct (Ho i Hi) as [zs Hz]. exists zs. apply (chained_same _ _ g); [by rewrite Ef|done|done].
  - exists xs, ys, s. split; try done; [|by rewrite El]. rewrite Ef. split; [|done].
    apply (chained_same _ _ g); [by rewrite Ef|done|done].
Qed.
(** The live session changes, but not its anchor; receipts it stores were built. *)
Lemma working_update id A B f g : (forall s, g_live g !! id = Some s -> jti_of (f s) = jti_of s /\
    last_receipt_full_hash (f s) = last_receipt_full_hash s /\ stored (f s) ⊆ stored s ++ B) ->
  working id A B g -> working id A B (update id f g).1.
Proof.
  intros Hf [Ho (xs & ys & s & [[Hc Hs] ? ? Hl ? ? Hst ? HB])]. destruct (Hf s Hl) as (Ej & Ea & Es).
  split; [intros i Hi; destruct (Ho i Hi) as [zs Hz]; exists zs; by apply (chained_same _ _ g)|].
  exists xs, ys, (f s). split; try done; [split; [by apply (chained_same _ _ g)|done]|cbn; by rewrite lookup_alter_eq, Hl|congruence|congruence|].
  intros x Hx. apply Es, elem_of_app in Hx as [Hx|Hx]; [by apply Hst|by apply HB].
Qed.
(** Writing the file saves what was built. *)
Lemma working_persist cf id A B g : working id A B g ->
  match persist_session cf id g with
  | (g', Ok _) => working id B B g' /\ working id A B g'
  | (g', Raise _) => working id A B g'
  end.
Proof.
  intros [Ho (xs & ys & s & [[Hc Hs] Hlk Hid Hl Hj Ha Hst HA HB])]. rewrite (persist_run _ _ _ _ Hl).
  destruct (ReceiptLog.add_integrity _ _ _) as [pl|e].
  2: { split; [done|]. by exists xs, ys, s. }
  rewrite Hj. match goal with |- working _ _ _ ?x /\ _ => set (g' := x) end.
  assert (Ho' : forall i, i <> id -> exists xs, chained i xs g').
  { intros i Hi. destruct (Ho i Hi) as [zs Hz]. exists zs. apply (chained_same _ _ g); [|done|done].
    cbn. by rewrite lookup_insert_ne. }
  assert (Hw : forall Z, Z ⊆ xs ++ ys -> working id Z B g').
  { intros Z HZ. split; [done|]. exists (xs ++ ys), [], s.
    split; rewrite ?app_nil_r; try done. split; [|cbn; by rewrite lookup_insert_eq].
    split; [done|apply Forall_app; split; [apply Hc|done]| |cbn; rewrite lookup_insert_eq; done].
    intros x Hx Hi. apply elem_of_app. left. by apply (ch_log _ _ _ Hc). }
  split; [by apply Hw|]. apply Hw. intros x Hx. apply elem_of_app. left. by apply HA.
Qed.
Lemma working_calm cf id A B : calm cf (working id A B) id.
Proof.
  split.
  - intros g g'. apply working_state.
  - intros g s f Hs [Hj Ha Hst]. apply working_update. intros s' Hs'. rewrite Hs in Hs'. injection Hs' as <-.
    split_and!; [done..|]. intros x Hx. apply elem_of_app. left. by apply Hst.
  - intros g Hg. apply (working_persist cf) in Hg. destruct (persist_session cf id g) as [g' [u|e]]; [apply Hg|done].
  - intros g (_ & xs & ys & s & Hw). exists s. apply Hw.
Qed.

(** ** Runs *)

(** What a run leaves when it returns; when it raises, the chains are whole. *)
Definition yields {A} (K : gate -> Prop) (m : G A) (Q : A -> gate -> Prop) : Prop :=
  forall g, K g -> match m g with (g', Ok a) => Q a g' | (g', Raise _) => all_chained g' end.
Definition safe {A} (K : gate -> Prop) (m : G A) : Prop := forall g, K g -> all_chained (m g).1.
Lemma yields_bind {A B} K (m : G A) Q (f : A -> G B) R' : yields K m Q -> (forall a, yields (Q a) (f a) R') -> yields K (m ≫= f) R'.
Proof.
  intros Hm Hf g Hg. specialize (Hm g Hg). unfold mbind, G_bind. destruct (m g) as [g' [a|e]]; [|done]. by apply Hf.
Qed.
Lemma safe_bind {A B} K (m : G A) Q (f : A -> G B) : yields K m Q -> (forall a, safe (Q a) (f a)) -> safe K (m ≫= f).
Proof.
  intros Hm Hf g Hg. specialize (Hm g Hg). unfold mbind, G_bind. destruct (m g) as [g' [a|e]]; [|done]. by apply Hf.
Qed.
Lemma yields_ret {A} (K : gate -> Prop) (a : A) (Q : A -> gate -> Prop) : (forall g, K g -> Q a g) -> yields K (mret a) Q.
Proof. intros Hq g Hg. by apply Hq. Qed.
Lemma yields_keeps {A} id L B (m : G A) : keeps (working id L B) m -> yields (working id L B) m (fun _ => working id L B).
Proof. intros Hm g Hg. apply Hm in Hg. destruct (m g) as [g' [a|e]]; [done|]. by eapply working_chained. Qed.
Lemma safe_keeps {A} id L B (m : G A) : keeps (working id L B) m -> safe (working id L B) m.
Proof. intros Hm g Hg. eapply working_chained. by apply Hm. Qed.
Lemma yields_weaken {A} (K K' : gate -> Prop) (m : G A) Q : (forall g, K g -> K' g) -> yields K' m Q -> yields K m Q.
Proof. intros Hk Hm g Hg. by apply Hm, Hk. Qed.
Lemma yields_target {B} id L M (f : live -> G B) Q :
  (forall s, yields (fun g => working id L M g /\ g_live g !! id = Some s) (f s) Q) -> yields (working id L M) (target id ≫= f) Q.
Proof.
  intros Hf g Hg. unfold target, gets, mbind, G_bind. cbn. destruct (g_live g !! id) as [s|] eqn:E.
  - cbn. by apply Hf.
  - by eapply working_chained.
Qed.

Variable cf : config.
Hypothesis Hkey : cf_receipt_key cf = key.

Lemma yields_persist id A B : yields (working id A B) (persist_session cf id) (fun _ => working id B B).
Proof.
  intros g Hg. apply (working_persist cf) in Hg. destruct (persist_session cf id g) as [g' [u|e]]; [apply Hg|].
  by eapply working_chained.
Qed.
Lemma yields_build id A B h d why pc now :
  yields (working id A B) (build_entry cf id h d why pc now) (fun x => working id A (x :: B)).
Proof.
  intros g Hg. pose proof Hg as [Ho (xs & ys & s & [[Hc Hs] Hlk Hid Hl Hj Ha Hst HA HB])].
  destruct (build_entry cf id h d why pc now g) as [g' [x|e]] eqn:E.
  2: { unfold build_entry in E. apply (working_chained id A B). revert E. unfold mbind at 1, G_bind at 1, target, gets.
       unfold mbind at 1, G_bind at 1. rewrite Hl. cbn [mret G_ret]. unfold mret, G_ret. destruct (event_at h s) as [[e' dt]|]; [|by intros [= <- _]].
       unfold mbind at 1, G_bind at 1, lift. destruct (ReceiptLog.build_receipt_log_entry _ _ _ _ _ _ _) as [[[cs pe] y]|]; [done|by intros [= <- _]]. }
  destruct (build_run _ _ _ _ _ _ _ _ _ _ _ Hl E) as (e & dt & pe & i & He & Hb & ->).
  destruct (entry_links _ _ _ _ _ _ _ _ _ _ Hb) as (L1 & L2 & _ & L4). cbn in L2, L4.
  split; [intros j Hne; destruct (Ho j Hne) as [zs Hz]; exists zs; by apply (chained_same _ _ g)|].
  exists xs, (ys ++ [x]), (set_anchor i (Some (token_hash (ReceiptLog.en_jwt x))) (set_details h (completed pe) s)).
  rewrite Hkey in L1. rewrite Ha in L2. split; rewrite ?app_assoc.
  - split; [by apply (chained_same _ _ g)|done].
  - apply linked_snoc; [done|done|]. rewrite L2. unfold anchor. by destruct (last _).
  - apply Forall_app. split; [done|]. constructor; [|done]. unfold of_id. rewrite L4. exact Hj.
  - cbn. by rewrite lookup_alter_eq, Hl.
  - by destruct h.
  - by rewrite anchor_snoc.
  - intros y Hy. apply elem_of_app. left. apply Hst. destruct h; [|done]. unfold stored in *.
    cbn [attached set_anchor set_details set_core] in Hy. rewrite alter_last_stored in Hy; done.
  - done.
  - intros y [->|Hy]%elem_of_cons; apply elem_of_app; [right; set_solver|left; by apply HB].
Qed.
(** A line of the log is in the file first. *)
Lemma working_lines id A B seen lines g : (forall x, ReceiptLog.LEntry x ∈ lines -> ReceiptLog.LEntry x ∈ g_log g \/ x ∈ A) ->
  working id A B g -> working id A B (set_log seen lines g).
Proof.
  intros Hn [Ho (xs & ys & s & [[[Hc1 Hc2 Hc3 Hc4] Hs] Hlk Hid Hl Hj Ha Hst HA HB])].
  split; [|exists xs, ys, s; split; try done; split; [|done]; split; try done].
  - intros i Hi. destruct (Ho i Hi) as [zs [Z1 Z2 Z3 Z4]]. exists zs. split; try done.
    intros x Hx Hid'. destruct (Hn x Hx) as [Hin|Hin]; [by apply Z3|]. apply HA in Hin.
    rewrite Forall_forall in Hc2. apply Hc2 in Hin. unfold of_id in *. congruence.
  - intros x Hx Hid'. destruct (Hn x Hx) as [Hin|Hin]; [by apply Hc3|by apply HA].
Qed.
Lemma keeps_log id A B x : x ∈ A -> keeps (working id A B) (log_receipt x).
Proof.
  intros Hx g. apply working_lines. intros y [Hy|Hy]%elem_of_app; [by left|right].
  apply list_elem_of_singleton in Hy. by injection Hy as ->.
Qed.
Lemma keeps_log_once id A B x : x ∈ A -> keeps (working id A B) (log_receipt_once x).
Proof.
  intros Hx. unfold log_receipt_once. apply keeps_bind; [apply keeps_demand|]. intros _ g. apply working_lines.
  intros y. unfold ReceiptLog.log_receipt_once. destruct (ReceiptLog.logged _ _); [by left|].
  intros [Hy|Hy]%elem_of_app; [by left|right]. apply list_elem_of_singleton in Hy. by injection Hy as ->.
Qed.
Lemma keeps_for_each_in {A} (K : gate -> Prop) (f : A -> G unit) l : (forall a, a ∈ l -> keeps K (f a)) -> keeps K (for_each f l).
Proof.
  intros Hf. apply keeps_bind; [|intros ?; apply keeps_ret]. generalize 0%nat. induction l as [|a l IH]; intros i; cbn [each]; [apply keeps_ret|].
  apply keeps_bind; [apply Hf; by left|]. intros b. apply keeps_bind; [apply IH; intros c Hc; apply Hf; by right|].
  intros bs. apply keeps_ret.
Qed.
Lemma yields_each {A C} id L B (p : C -> ReceiptLog.entry) (f : nat -> A -> G C) i l :
  (forall i a B, yields (working id L B) (f i a) (fun c => working id L (p c :: B))) ->
  yields (working id L B) (each f i l) (fun cs => working id L ((p <$> cs) ++ B)).
Proof.
  intros Hf. revert i B. induction l as [|a l IH]; intros i B; cbn [each]; [by apply yields_ret|].
  eapply yields_bind; [apply Hf|]. intros c. eapply yields_bind; [apply IH|]. intros cs. apply yields_ret. intros g.
  apply working_weaken; set_solver.
Qed.

(** ** The outbox *)

Lemma set_receipt_stored x l : omap d_receipt (alter_last (set_receipt (Some x)) l) ⊆ omap d_receipt l ++ [x].
Proof.
  induction l as [|a l IH]; [set_solver|]. destruct l as [|b l].
  - cbn. destruct (d_receipt a); set_solver.
  - change (alter_last (set_receipt (Some x)) (a :: b :: l)) with (a :: alter_last (set_receipt (Some x)) (b :: l)).
    set (l1 := alter_last _ (b :: l)) in *. set (l2 := b :: l) in *. clearbody l1 l2. cbn. destruct (d_receipt a); set_solver.
Qed.
Lemma working_set_receipt id A B h x g : x ∈ B -> working id A B g -> working id A B (update id (set_details h (set_receipt (Some x))) g).1.
Proof.
  intros Hx. apply working_update. intros s _. destruct h; [|split_and!; [done..|set_solver]]. split_and!; [done..|].
  unfold stored. cbn [attached set_details set_core]. intros y Hy. apply set_receipt_stored, elem_of_app in Hy. set_solver.
Qed.
Lemma yields_lifecycle id A B r ts now :
  yields (working id A B) (ensure_risk_lifecycle_event cf id r ts now) (fun x => working id A (x :: B)).
Proof.
  unfold ensure_risk_lifecycle_event. apply yields_target. intros s. destruct (find _ (attached s)) as [d|] eqn:Ef.
  - destruct (d_receipt d) as [x|] eqn:Ex; [|intros g [Hg _]; by eapply working_chained].
    apply yields_ret. intros g [[Ho (xs & ys & s' & Hw)] Hs]. split; [done|]. exists xs, ys, s'. destruct Hw as [H1 H2 H3 Hl H5 H6 H7 H8 H9].
    split; try done. rewrite Hs in Hl. injection Hl as <-. intros y [->|Hy]%elem_of_cons; [|by apply H9]. apply H7.
    unfold stored. apply list_elem_of_omap. exists d. split; [|done]. apply find_some in Ef as [Ef _]. by apply list_elem_of_In.
  - apply (yields_weaken _ (working id A B)); [by intros g [Hg _]|].
    eapply yields_bind; [apply yields_keeps, keeps_lift|]. intros m. cbv zeta.
    eapply yields_bind; [apply yields_keeps, (calm_update cf _ id (working_calm cf id A B)); intros s'; by apply tame_event|]. intros ?.
    eapply yields_bind; [apply yields_build|]. intros x.
    apply (yields_bind _ _ (fun _ => working id A (x :: B))); [|intros ?; by apply yields_ret].
    intros g Hg. apply working_set_receipt; [by left|done].
Qed.
Lemma keeps_deliver_one id lin A B rx : rx.2 ∈ A -> keeps (working id A B) (deliver_one lin id rx).
Proof.
  intros Hx. unfold deliver_one. apply keeps_bind; [by apply keeps_log_once|]. intros _. apply (calm_mark cf), working_calm.
Qed.
Lemma safe_deliver id lin l clock : yields (working id [] []) (deliver_lifecycles cf id lin l clock) (fun _ => all_chained).
Proof.
  unfold deliver_lifecycles. eapply yields_bind.
  - apply (yields_each id [] [] snd). intros i a B. eapply yields_bind; [apply yields_lifecycle|]. intros x. by apply yields_ret.
  - intros xs. cbn beta. rewrite app_nil_r. apply (yields_bind _ _ (fun _ => all_chained)); [|intros ?; by apply yields_ret].
    destruct xs as [|x xs]; [apply yields_ret; intros g Hg; by eapply working_chained|].
    eapply yields_bind; [apply yields_persist|]. intros ? g Hg.
    apply (keeps_for_each_in _ (deliver_one lin id) (x :: xs)) in Hg.
    + destruct (for_each _ _ g) as [g' [u|e]]; by eapply working_chained.
    + intros y Hy. apply keeps_deliver_one. apply list_elem_of_fmap. by exists y.
Qed.

(** ** The operations *)

(** A session is taken up as its file has it. *)
Lemma locked_working a g : files_ok g -> all_chained g ->
  match locked_persisted_session cf a g with
  | (g', Ok id) => working id [] [] g'
  | (g', Raise _) => all_chained g'
  end.
Proof.
  intros Hok Hall. destruct (locked_run cf a g) as [[e ->]|(g' & fs & s & -> & Hr)]; [done|].
  destruct Hr as [[pl Hf] Hs Hl (Ef & _ & _ & _ & Eg & _)]. destruct (Hok _ _ _ Hf) as [Hj _].
  assert (Hall' : all_chained g').
  { intros i. destruct (Hall i) as [zs Hz]. exists zs. apply (chained_same _ _ g); [by rewrite Ef|done|done]. }
  split; [done|]. destruct (Hall' (arg_id a)) as [xs Hc]. pose proof (ch_file _ _ _ Hc) as Hcf. rewrite Ef, Hf in Hcf.
  exists xs, [], s. split; rewrite ?app_nil_r; try done.
  - split; [done|]. rewrite Ef. by eexists.
  - apply Hc.
  - by rewrite Hl, lookup_insert_eq.
  - by destruct Hs as [->|[t ->]].
  - by destruct Hs as [->|[t ->]]; destruct Hcf.
  - by destruct Hs as [->|[t ->]]; destruct Hcf.
  - apply list_subseteq_nil.
  - apply list_subseteq_nil.
Qed.
Lemma locked_safe {B} a (f : string -> G B) g : files_ok g -> all_chained g ->
  (forall id, safe (working id [] []) (f id)) -> all_chained ((locked_persisted_session cf a ≫= f) g).1.
Proof.
  intros Hok Hall Hf. pose proof (locked_working a g Hok Hall) as H. unfold mbind, G_bind.
  destruct (locked_persisted_session cf a g) as [g' [id|e]]; [|done]. by apply Hf.
Qed.
Lemma yields_safe {A} K (m : G A) Q : (forall a g, Q a g -> all_chained g) -> yields K m Q -> safe K m.
Proof. intros Hq Hm g Hg. specialize (Hm g Hg). destruct (m g) as [g' [a|e]]; [by eapply Hq|done]. Qed.
Lemma safe_then {A B} id L M (m : G A) (f : A -> G B) : keeps (working id L M) m ->
  (forall a, safe (working id L M) (f a)) -> safe (working id L M) (m ≫= f).
Proof. intros Hm. apply safe_bind. by apply yields_keeps. Qed.
Lemma safe_keeps' {A} id (m : G A) : (forall K, calm cf K id -> keeps K m) -> safe (working id [] []) m.
Proof. intros Hm. apply safe_keeps, Hm, working_calm. Qed.

Lemma flush_chained a clock g : files_ok g -> all_chained g -> all_chained (flush_risk_lifecycle_outbox cf a clock g).1.
Proof.
  intros Hok Hall. apply locked_safe; [done|done|]. intros id.
  apply safe_then; [apply (calm_snapshot cf), working_calm|]. intros [p|]; [|apply safe_keeps, keeps_ret].
  apply safe_then; [apply keeps_target|]. intros s. apply safe_then; [apply keeps_gets|]. intros d.
  apply safe_then; [apply keeps_lift|]. intros l. apply (yields_safe _ _ (fun _ => all_chained)); [done|apply safe_deliver].
Qed.
Lemma safe_issue id v pc rel r : safe (working id [] []) (issue_receipt cf id v pc rel r).
Proof.
  destruct v as [[d why] h]. unfold issue_receipt. eapply safe_bind; [apply yields_build|]. intros x. cbn beta.
  apply safe_then; [apply keeps_target|]. intros s. destruct (lifecycle_at h s).
  - apply (safe_bind _ _ (fun _ => working id [] [x])).
    { intros g Hg. apply working_set_receipt; [by left|done]. }
    intros ?. eapply safe_bind; [apply yields_persist|]. intros ?. cbn beta.
    apply safe_then; [apply keeps_log_once; by left|]. intros ?. apply safe_keeps.
    destruct (risk_policy_snapshot s); [|apply keeps_throw]. destruct rel; [|apply keeps_throw].
    apply (calm_mark cf), working_calm.
  - eapply safe_bind; [apply yields_persist|]. intros ?. apply safe_keeps, keeps_log. by left.
Qed.
(** What touches neither files nor log. *)
Lemma all_same g g' : g_files g' = g_files g -> g_log g' = g_log g -> all_chained g -> all_chained g'.
Proof. intros Ef El Hall i. destruct (Hall i) as [xs Hx]. exists xs. apply (chained_same _ _ g); [by rewrite Ef|done|done]. Qed.
Lemma release_chained code t t' : keeps all_chained (release_pre_action_reservations code t t').
Proof.
  assert (H1 : forall A (m : RiskLedger.store -> RiskLedger.store * res RiskPolicy.risk_exc A), keeps all_chained (on_risk m))
    by (intros A m g Hg; unfold on_risk; destruct (m _); by apply (all_same g)).
  assert (H2 : forall A (m : SpendLedger.ledger_dir -> res spend_exc (SpendLedger.ledger_dir * A)), keeps all_chained (on_spend m))
    by (intros A m g Hg; unfold on_spend; destruct (m _) as [[]|]; [by apply (all_same g)|done]).
  assert (H3 : keeps all_chained (modify close_spend)) by (intros g; by apply all_same).
  assert (H4 : keeps all_chained (modify close_risk)) by (intros g; by apply all_same).
  unfold release_pre_action_reservations, release_one, cancel_spend, release_risk. keep.
Qed.
Lemma evaluate_chained a tool args rid sr r g : files_ok g -> all_chained g ->
  all_chained (evaluate_tool_call cf a tool args rid sr r g).1.
Proof.
  intros Hok Hall. unfold evaluate_tool_call. pose proof (flush_chained a (rd_lifecycle r) g Hok Hall) as H1.
  pose proof (flush_files cf a (rd_lifecycle r) g Hok) as [Hok1 _].
  unfold mbind at 1, G_bind at 1. destruct (flush_risk_lifecycle_outbox _ _ _ g) as [g1 [n|e]]; [|done]. cbn [fst] in *.
  change (all_chained ((out ← attempt (evaluate_locked cf a tool args rid sr r);
    match out with
    | Ok v => mret v
    | Raise e => _ ← release_pre_action_reservations "spend_evaluation_failed" (rd_cancel' r) (rd_release' r); throw e
    end : G (Session.Decision * string)) (set_pending no_pending g1)).1).
  assert (H2 : all_chained (evaluate_locked cf a tool args rid sr r (set_pending no_pending g1)).1).
  { apply locked_safe; [done|by apply (all_same g1)|]. intros id. apply safe_then; [apply (calm_decide cf), working_calm|].
    intros [[v pc] rel]. apply (safe_bind _ _ (fun _ => all_chained)); [|by intros ? g'].
    intros g' Hg'. apply (safe_issue id v pc rel r) in Hg'. by destruct (issue_receipt _ _ _ _ _ _ _) as [? [?|?]]. }
  unfold mbind at 1, G_bind at 1, attempt. destruct (evaluate_locked _ _ _ _ _ _ _ _) as [g2 [v|e]]; [done|]. cbn [fst] in *.
  apply (release_chained "spend_evaluation_failed" (rd_cancel' r) (rd_release' r)) in H2. unfold mbind, G_bind.
  by destruct (release_pre_action_reservations _ _ _ _) as [g3 [u|e']].
Qed.
Lemma yields_spend_receipt id A B c d pc ts now :
  yields (working id A B) (spend_receipt cf id c d pc ts now) (fun x => working id A (x :: B)).
Proof.
  unfold spend_receipt. eapply yields_bind; [apply yields_keeps, keeps_target|]. intros s.
  eapply yields_bind; [apply yields_keeps, (calm_update cf _ id (working_calm cf id A B)); intros s'; by apply tame_event|].
  intros ?. apply yields_build.
Qed.
Lemma working_spend_policy id e r A B : keeps (working id A B) (spend_policy_of cf id e r).
Proof. apply calm_spend_policy, working_calm. Qed.
Lemma working_on_spend {C} id A B (m : SpendLedger.ledger_dir -> res spend_exc (SpendLedger.ledger_dir * C)) :
  keeps (working id A B) (on_spend m).
Proof. apply (calm_spend cf _ id), working_calm. Qed.
Lemma working_on_risk {C} id A B (m : RiskLedger.store -> RiskLedger.store * res RiskPolicy.risk_exc C) :
  keeps (working id A B) (on_risk m).
Proof. apply (calm_risk cf _ id), working_calm. Qed.
(** The receipt of a closed reservation, saved and logged. *)
Lemma safe_close {C} id c d pc ts now (out : C) :
  safe (working id [] []) (x ← spend_receipt cf id c d pc ts now; _ ← persist_session cf id; _ ← log_receipt x; mret out).
Proof.
  eapply safe_bind; [apply yields_spend_receipt|]. intros x. eapply safe_bind; [apply yields_persist|]. intros ?.
  apply safe_then; [apply keeps_log; by left|]. intros ?. apply safe_keeps, keeps_ret.
Qed.
Lemma settle_chained a i x y p t r g : files_ok g -> all_chained g -> all_chained (settle_spend cf a i x y p t r g).1.
Proof.
  intros Hok Hall. apply locked_safe; [done|done|]. intros id. apply safe_then; [apply working_spend_policy|]. intros [[s pc] pol].
  apply safe_then; [apply working_on_spend|]. intros c. apply safe_close.
Qed.
Lemma quarantine_chained a i c t r g : files_ok g -> all_chained g -> all_chained (quarantine_spend cf a i c t r g).1.
Proof.
  intros Hok Hall. apply locked_safe; [done|done|]. intros id. apply safe_then; [apply working_spend_policy|]. intros [[s pc] pol].
  apply safe_then; [apply working_on_spend|]. intros c'. apply safe_close.
Qed.
Lemma stale_spend_chained a o t r g : files_ok g -> all_chained g -> all_chained (quarantine_stale_spend cf a o t r g).1.
Proof.
  intros Hok Hall. apply locked_safe; [done|done|]. intros id. apply safe_then; [apply working_spend_policy|]. intros [[s pc] pol].
  apply safe_then; [apply working_on_spend|]. intros l. destruct l as [|c l].
  { intros g' Hg. exact (working_chained _ _ _ _ Hg). }
  eapply safe_bind; [apply (yields_each id [] [] (fun x => x)); intros; apply yields_spend_receipt|]. intros xs. cbn beta.
  eapply safe_bind; [apply yields_persist|]. intros ?. cbn beta. rewrite app_nil_r, list_fmap_id. apply safe_keeps.
  apply keeps_bind; [|intros ?; apply keeps_ret]. apply keeps_for_each_in. intros x. apply keeps_log.
Qed.
Lemma record_result_chained a x ms g : files_ok g -> all_chained g -> all_chained (record_tool_result cf a x ms g).1.
Proof.
  intros Hok Hall. apply locked_safe; [done|done|]. intros id. apply safe_keeps'. intros K HK.
  pose proof (calm_persist cf _ id HK). keep.
  apply (calm_update cf _ id HK). intros s. apply tame_core; [done|]. by rewrite alter_stored.
Qed.
Lemma risk_outcome_chained a i o t r g : files_ok g -> all_chained g -> all_chained (record_risk_outcome cf a i o t r g).1.
Proof.
  intros Hok Hall. apply locked_safe; [done|done|]. intros id. apply safe_then; [apply keeps_target|]. intros s.
  apply safe_then; [apply keeps_demand|]. intros _. apply safe_then; [apply (calm_snapshot cf), working_calm|].
  intros [p|]; [|apply safe_keeps, keeps_throw]. cbv zeta. apply safe_then; [apply working_on_risk|]. intros res.
  eapply safe_bind; [apply yields_lifecycle|]. intros x. eapply safe_bind; [apply yields_persist|]. intros ?. cbn beta.
  apply safe_then; [apply keeps_deliver_one; by left|]. intros ?. apply safe_keeps, keeps_ret.
Qed.
Lemma stale_risk_chained a o t t' r g : files_ok g -> all_chained g ->
  all_chained (quarantine_stale_risk_reservations cf a o t t' r g).1.
Proof.
  intros Hok Hall. unfold quarantine_stale_risk_reservations. destruct (0 <=? o); [|done].
  apply (locked_safe a _ g Hok Hall). intros id. apply safe_then; [apply (calm_snapshot cf), working_calm|].
  intros [p|]; [|apply safe_keeps, keeps_ret]. apply safe_then; [apply keeps_target|]. intros s.
  apply safe_then; [apply working_on_risk|]. intros l. apply (safe_bind _ _ (fun _ => all_chained)); [apply safe_deliver|by intros ? g'].
Qed.
Lemma end_chained a now r g : files_ok g -> all_chained g -> all_chained (end_session cf a now r g).1.
Proof.
  intros Hok Hall. unfold end_session. pose proof (flush_chained a (rd_lifecycle r) g Hok Hall) as H1.
  pose proof (flush_files cf a (rd_lifecycle r) g Hok) as [Hok1 _].
  unfold mbind at 1, G_bind at 1. destruct (flush_risk_lifecycle_outbox _ _ _ g) as [g1 [n|e]]; [|done]. cbn [fst] in *.
  apply locked_safe; [done|done|]. intros id. apply safe_keeps'. intros K HK.
  apply keeps_bind; [apply (calm_finalize cf _ _ HK)|]. intros [m created].
  apply keeps_bind; [destruct created; [apply (calm_persist cf _ id HK)|apply keeps_ret]|]. intros ?. apply keeps_ret.
Qed.
Lemma summarize_chained a t g : files_ok g -> all_chained g -> all_chained (summarize_session cf a t g).1.
Proof. intros Hok Hall. apply locked_safe; [done|done|]. intros id. apply safe_keeps. keep. Qed.
(** A session starts without receipts, where the log has none of it. *)
Lemma start_chained t holder kb fresh nonce public audience r g : files_ok g -> all_chained g ->
  all_chained (SessionStore.start_session cf t holder kb fresh nonce public audience r g).1.
Proof.
  intros Hok Hall. unfold start_session, on_world. unfold mbind at 1, G_bind at 1.
  destruct (PassportState.start_session _ _ _ _ _ _ _ _ _ _) as [w [s|e]] eqn:E; apply start_sessions in E; [|by apply (all_same g)].
  destruct E as (Hn & _). set (id := ReceiptLog.session_jti s) in *.
  assert (Hf : g_files g !! id = None).
  { destruct (g_files g !! id) as [[fs pl]|] eqn:Ef; [|done]. destruct (Hok _ _ _ Ef) as [_ [x Hx]].
    unfold session_names in Hx. congruence. }
  set (g1 := set_live (<[id := new_live t s]> (g_live g)) (set_world w g)).
  change (all_chained ((_ ← persist_session cf id; mret id : G string) g1).1).
  assert (Hs : g_live g1 !! id = Some (new_live t s)) by (cbn; by rewrite lookup_insert_eq).
  unfold mbind, G_bind. rewrite (persist_run _ _ _ _ Hs). destruct (ReceiptLog.add_integrity _ _ _) as [pl|e]; [|by apply (all_same g)].
  change (jti_of (new_live t s)) with id. intros i. destruct (Hall i) as [xs Hx]. exists xs. cbn [fst mret G_ret].
  destruct (decide (i = id)) as [->|Hne]; [|by apply (chained_same _ _ g); [cbn; rewrite lookup_insert_ne|..]].
  destruct Hx as [H1 H2 H3 H4]. rewrite Hf in H4. subst xs. split; [done|done|done|]. cbn. rewrite lookup_insert_eq.
  split; [done|apply list_subseteq_nil].
Qed.
Lemma start_aat_chained t k parent holder kb pop aud allow ar fresh nonce paud r g : files_ok g -> all_chained g ->
  all_chained (Aat.start_session_from_aat cf t k parent holder kb pop aud allow ar fresh nonce paud r g).1.
Proof.
  intros Hok Hall. unfold Aat.start_session_from_aat.
  match goal with |- all_chained ((?m ≫= ?f) g).1 => assert (Hm : exists out, m g = (g, out)); [|destruct Hm as [out Hm]] end.
  { destruct parent; [|by eexists]. unfold mbind, G_bind, raises. destruct (Aat.decode_aat_claims _ _ _ _ _); by eexists. }
  unfold mbind at 1, G_bind at 1. rewrite Hm. destruct out as [pc|e]; [|done].
  unfold mbind at 1, G_bind at 1, Aat.on_material. destruct (Aat.material_from_aat_grant _ _ _ _ _ _ _ _ _ _) as [ca [m|e]];
    [|by apply (all_same g)].
  unfold mbind at 1, G_bind at 1, raises. destruct (issue_passport _ _ _ _ _ _ _ _ _) as [tok|e]; [|by apply (all_same g)].
  apply start_chained; [done|by apply (all_same g)].
Qed.
Lemma exec_chained o g : files_ok g -> all_chained g -> all_chained (exec cf o g).1.
Proof.
  intros Hok Hall. destruct o; cbn [exec fst];
    auto using start_chained, start_aat_chained, record_result_chained, settle_chained, quarantine_chained, stale_spend_chained,
      risk_outcome_chained, stale_risk_chained, summarize_chained, end_chained.
  pose proof (evaluate_chained a tool_name arguments risk_request_id spend_request r g Hok Hall) as H.
  by destruct (evaluate_tool_call _ _ _ _ _ _ _ _).
Qed.
End Key.

(** ** Histories *)

(** A step of a directory shared by processes that sign with one key: an
    operation of one of them, or another process taking over with its own
    memory. *)
Definition process_step (key : private_key) (g g' : gate) : Prop :=
  (exists cf o, cf_receipt_key cf = key /\ g' = (exec cf o g).1) \/
  (g_files g' = g_files g /\ session_names g' = session_names g /\ g_log g' = g_log g).
Lemma steps_chained key g g' : rtc (process_step key) g g' -> files_ok g -> all_chained key g -> all_chained key g'.
Proof.
  induction 1 as [g|g g1 g2 [(cf & o & Hkey & ->)|(Ef & En & El)] _ IH]; intros Hok Hall; [done|..].
  - apply IH; [apply exec_files, Hok|by apply exec_chained].
  - apply IH; [intros i fs pl; rewrite Ef, En; apply Hok|by apply (all_same _ g)].
Qed.

(** C29. The log holds no receipt outside the chain of its session.  Starting
    from an empty directory, after any operations of any processes that sign
    with one key, however they ended, every session has one chain of signed
    receipts in which each names the one before: the session's file names its
    end, every line of the log for the session is in it, and a session without
    a file has none; and when its receipts fit the schema, the chain passes
    [verify_chain] under the proxy's key. *)
Theorem logged_receipts_chained key g g' id : g_files g = ∅ -> g_log g = [] -> rtc (process_step key) g g' ->
  exists xs, linked key None xs /\ Forall (of_id id) xs /\ log_within id xs (g_log g') /\
    match g_files g' !! id with Some (fs, _) => last_receipt_full_hash fs = anchor xs | None => xs = [] end /\
    (forall clock, Forall (fun x => receipt_ok (ReceiptLog.en_receipt x)) xs -> Forall plain_receipt xs ->
      Receipt.verify_chain (ReceiptLog.en_jwt <$> xs) (public_of key) false 0 0 clock
      = Ok ((read_back ∘ ReceiptLog.en_receipt) <$> xs)).
Proof.
  intros Ef El H. apply steps_chained in H.
  - destruct (H id) as (xs & [H1 H2 H3 H4]). exists xs. split_and!; [done..| |].
    + destruct (g_files g' !! id) as [[fs pl]|]; [by destruct H4|done].
    + intros clock Hok Hp. apply chain_verifies; [by apply linked_issued|done].
  - intros i fs pl. by rewrite Ef, lookup_empty.
  - intros i. exists []. split; [done|done| |by rewrite Ef, lookup_empty]. intros x. by rewrite El, elem_of_nil.
Qed.
End Audit.
