(* ===== verification/GateDemo.v ===== *)
(** * The proxy at work

    Concrete runs of the whole gate: a passport is issued and admitted, calls
    are permitted until its budget is spent, the session ends.  They show that
    the hypotheses of the properties of the gate can hold, with every service
    instantiated by a concrete function. *)

From S2P Require Import Prelude Sha256 CanonicalJson SpendPolicy SpendLedger Merkle RiskPolicy Passport PassportPop.
From S2P Require Import ResourceScope PyJson Policy Session RiskLedger Approvals MemoryStore PassportState.
From S2P Require Import PassportStateProps PassportAdmission Receipt ReceiptProps ReceiptLog Urls Mission.
From S2P Require Import ReceiptLogProps SessionStore Gate GateLogic GateInv GateRuns GateFrame GateReceipts GateLedger GateHistory GateProps GateAudit.
Import Passport ResourceScope PyJson Policy SessionStore Gate.
Open Scope string_scope.
Open Scope Z_scope.

Module GateDemo.
#[export] Existing Instances ReceiptProps.Demo.light_digests ReceiptProps.Demo.tok_jwt ReceiptProps.Demo.tok_jws
  ReceiptProps.Demo.plain_text ResourceScope.Demo.demo_unicode ResourceScope.Demo.demo_files.
#[export] Instance demo_repr : PyRepr := {| repr_container := fun _ => "{}" |}.
#[export] Instance demo_regex : Regex := {| re_search := fun re s => Some (str_contains re s) |}.
#[export] Instance demo_schema : RiskPolicy.JsonSchema := {|
  RiskPolicy.check_schema v := match v with PDict _ => true | _ => false end;
  RiskPolicy.schema_validates _ v := match v with PDict _ => true | _ => false end
|}.
#[export] Instance demo_wording : Wording := {| wording := Session.opening; int_error_text := fun _ => "invalid literal" |}.
#[export] Instance demo_float : FloatText := {| float_text := fun _ => None |}.
#[export] Instance demo_ip : IpAddress := {|
  ip_address s := if String.eqb s "10.0.0.1" then Some (IpFlags true true false false false false false)
                  else if String.eqb s "93.184.216.34" then Some (IpFlags true false false false false false false)
                  else None
|}.
#[export] Instance demo_zlib : Zlib := {| decompress l _ := Some (l, false) |}.

(** Tokens that can be read back from their text. *)
Definition known : list ReceiptProps.Demo.tok := [].
#[export, refine] Instance demo_tokens : TokenText := {|
  read_token s := List.find (fun t => String.eqb (ReceiptProps.Demo.tok_text t) s) known
|}.
Proof. intros s t Ht. apply List.find_some in Ht as [_ Ht]. by apply String.eqb_eq. Defined.

Definition no_network : Urls.network :=
  Urls.Network (fun _ => Urls.NoName) (fun _ _ => Urls.NoName) (fun _ _ _ _ => Urls.ConnectionFailed).
Definition cf : config :=
  Config "verifier" tt tt tt "0123456789abcdef0123456789abcdef" (ScopeEnv None None) None
    RiskPolicy.empty_registry None None.

Definition fresh_dir : PassportState.store :=
  PassportState.Store (PassportState.replay_file "s1" ∅) (PassportState.revoked_file "s2" ∅)
    (PassportState.lineage_file "s3" ∅ ∅) ∅.
Definition gate0 : gate :=
  Gate (PassportState.World PassportState.new_proc fresh_dir) None ∅ ∅ ∅ ∅ ∅ ∅ [] no_pending Mission.empty_cache.
Definition sid : string := "00000000-0000-4000-8000-000000000001".
(** Two reads of files or of memory. *)
Definition mission : MissionPassport :=
  MkMission "alice" "triage" ["read_file"; MEMORY_STORE_READ_TOOL] [] ["**"] 2 600 false 0 None None [] [] None None None []
    None None.
Definition passport : token :=
  match issue_passport mission tt DEFAULT_ISSUER DEFAULT_AUDIENCE None [] None sid 1000
  with Ok t => t | Raise _ => ReceiptProps.Demo.Tok [] [] "" end.
Definition at_time (s : Z) : readings :=
  let t := s * TICKS in
  Readings "f" (fun _ => ("2026-01-01T00:00:00Z", s)) no_network t no_network t "2026-01-01T00:00:00Z" t s s t t t "rec"
    s t t s t s s t.
Definition read_args : claims := [("path", PStr "/w/notes.txt")].
Definition read_at (s : Z) : op := DoEvaluate (ById sid) "read_file" read_args None None (at_time s).
Definition end_at (s : Z) : op := DoEnd (ById sid) (s * TICKS) (at_time s).

(** A run of operations by one process, and what it answers. *)
Fixpoint run (l : list op) (g : gate) : gate * list answer :=
  match l with
  | [] => (g, [])
  | o :: l => let '(g1, x) := exec cf o g in let '(g2, t) := run l g1 in (g2, (option_list x ++ t)%list)
  end.
Lemma cf_cedar_named : cedar_named cf.
Proof. intros b [=]. Qed.
Definition is_call (o : op) : bool := match o with DoEvaluate _ _ _ _ _ _ => true | _ => false end.
Lemma call_native o g : is_call o = true -> native_ok cf g -> native_ok cf (exec cf o g).1.
Proof.
  destruct o; try done. intros _ Hn. pose proof (evaluate_native cf a tool_name arguments risk_request_id spend_request r
    cf_cedar_named g Hn) as Hk. cbn [exec]. by destruct (evaluate_tool_call _ _ _ _ _ _ _ _).
Qed.
Lemma run_history l g : native_ok cf g -> Forall (fun o => is_call o = true) l -> history g (run l g).2 (run l g).1.
Proof.
  intros Hn Hl. revert g Hn. induction Hl as [|o l Ho _ IH]; intros g Hn; [constructor|]. cbn [run].
  pose proof (call_native o g Ho Hn) as Hn1. destruct (exec cf o g) as [g1 x] eqn:E. specialize (IH g1 Hn1).
  destruct (run l g1) as [g2 t]. by eapply history_op; [| |exact E|].
Qed.

Lemma gate0_ok : files_ok gate0.
Proof. by intros i fs pl. Qed.
Definition start_time : PassportState.readings :=
  let s := 1010 in let t := s * TICKS in PassportState.Readings t t t s t t t t t.
Definition opened : gate :=
  (SessionStore.start_session cf passport None None "f" "0123456789abcdef" tt DEFAULT_AUDIENCE start_time gate0).1.
Lemma opened_ok : files_ok opened.
Proof. exact (fi_ok _ _ (start_files cf passport None None "f" "0123456789abcdef" tt DEFAULT_AUDIENCE start_time gate0 gate0_ok)). Qed.
Lemma gate0_native : native_ok cf gate0.
Proof. reflexivity. Qed.
Lemma opened_native : native_ok cf opened.
Proof. exact (start_native cf passport None None "f" "0123456789abcdef" tt DEFAULT_AUDIENCE start_time gate0 gate0_native). Qed.
Definition calls : list op := [read_at 1011; read_at 1012; read_at 1013].
Lemma calls_are : Forall (fun o => is_call o = true) calls.
Proof. by repeat constructor. Qed.
Lemma calls_answered : an_decision <$> (run calls opened).2 = [Session.PERMIT; Session.PERMIT; Session.DENY].
Proof. vm_cast_no_check (eq_refl [Session.PERMIT; Session.PERMIT; Session.DENY]). Qed.

Definition file_is (p : live -> bool) (g : gate) : bool :=
  match g_files g !! sid with Some (fs, _) => p fs | None => false end.
Lemma file_there p g : file_is p g = true -> exists fs pl, g_files g !! sid = Some (fs, pl) /\ p fs = true.
Proof. unfold file_is. destruct (g_files g !! sid) as [[fs pl]|]; [|done]. by exists fs, pl. Qed.
Definition is_none (v : pyval) : bool := match v with PNone => true | _ => false end.
Definition limited (fs : live) : bool :=
  is_none (py_get "mission_ref" (claims_of fs)) && (Session.delegated_budget_reserved (core fs) =? 0)
  && match to_int (get_or "max_tool_calls" (PInt 50) (claims_of fs)) with Ok m => m =? 2 | _ => false end
  && (calls_of fs =? 0).
Lemma limited_ok fs : limited fs = true -> py_get "mission_ref" (claims_of fs) = PNone /\
  0 <= Session.delegated_budget_reserved (core fs) /\ to_int (get_or "max_tool_calls" (PInt 50) (claims_of fs)) = Ok 2 /\
  calls_of fs = 0.
Proof.
  unfold limited. rewrite !andb_true_iff. intros [[[Hm Hr%Z.eqb_eq] Hmax] Hc%Z.eqb_eq].
  destruct (to_int _) as [m|e]; [|done]. apply Z.eqb_eq in Hmax as ->.
  split; [by destruct (py_get "mission_ref" (claims_of fs))|]. split; [lia|done].
Qed.
Lemma opened_limited : file_is limited opened = true.
Proof. vm_cast_no_check (eq_refl true). Qed.

Lemma permits_bounded_witness : permits (of_session sid) (run calls opened).2 <= 2.
Proof.
  destruct (file_there _ _ opened_limited) as (fs & pl & Hf & Hl). destruct (limited_ok fs Hl) as (Hm & Hr & Hmax & Hc).
  pose proof (permits_bounded opened (run calls opened).2 (run calls opened).1 sid fs pl 2
    (run_history calls opened opened_native calls_are) opened_ok Hf Hm Hr Hmax) as H.
  rewrite Hc in H. exact H.
Defined.

(** One call, permitted. *)
#[local] Notation first := (evaluate_tool_call cf (ById sid) "read_file" read_args None None (at_time 1011) opened).
Definition permitted (m : gate * res gate_exc (Session.Decision * string)) : bool :=
  match m with (_, Ok (Session.PERMIT, _)) => true | _ => false end.
Lemma permitted_run m : permitted m = true -> exists why, m = (m.1, Ok (Session.PERMIT, why)).
Proof. destruct m as [g [[[] why]|e]]; try done. intros _. by exists why. Qed.
Lemma read_permitted : permitted first = true.
Proof. vm_cast_no_check (eq_refl true). Qed.

(** A call that is refused has its receipt too. *)
#[local] Notation refused := (evaluate_tool_call cf (ById sid) "send_mail" [] None None (at_time 1011) opened).
Definition denied (m : gate * res gate_exc (Session.Decision * string)) : bool :=
  match m with (_, Ok (Session.DENY, _)) => true | _ => false end.
Lemma denied_run m : denied m = true -> exists why, m = (m.1, Ok (Session.DENY, why)).
Proof. destruct m as [g [[[] why]|e]]; try done. intros _. by exists why. Qed.
Lemma mail_denied : denied refused = true.
Proof. vm_cast_no_check (eq_refl true). Qed.
Lemma answered_call_logged_witness : exists parent x, receipted cf sid "send_mail" [] Session.DENY parent refused.1 x.
Proof.
  destruct (denied_run _ mail_denied) as [why E].
  destruct (answered_call_logged cf (ById sid) "send_mail" [] None None (at_time 1011) opened refused.1 Session.DENY why
    opened_ok E) as (g1 & n & fs & pl & x & _ & _ & Hx & _).
  exists (last_receipt_full_hash fs), x. exact Hx.
Defined.

(** The receipts of a start and three calls. *)
Lemma run_steps l : forall g, rtc (process_step (cf_receipt_key cf)) g (run l g).1.
Proof.
  induction l as [|o l IH]; intros g; [apply rtc_refl|]. cbn [run]. specialize (IH (exec cf o g).1).
  destruct (exec cf o g) as [g1 x] eqn:E. cbn [fst] in IH. destruct (run l g1) as [g2 t] eqn:E2.
  eapply rtc_l; [|exact IH]. left. exists cf, o. by rewrite E.
Qed.
Lemma start_step t f n r g : process_step (cf_receipt_key cf) g (SessionStore.start_session cf t None None f n tt DEFAULT_AUDIENCE r g).1.
Proof. left. by exists cf, (DoStart t None None f n tt DEFAULT_AUDIENCE r). Qed.
Lemma opened_steps : rtc (process_step (cf_receipt_key cf)) gate0 opened.
Proof. unfold opened. apply rtc_once, start_step. Qed.
Lemma calls_logged : length (g_log (run calls opened).1) = 3%nat.
Proof. vm_cast_no_check (eq_refl 3%nat). Qed.
Lemma logged_receipts_chained_witness : length (g_log (run calls opened).1) = 3%nat /\
  exists xs, linked (cf_receipt_key cf) None xs /\ log_within sid xs (g_log (run calls opened).1).
Proof.
  split; [exact calls_logged|].
  assert (ran : rtc (process_step (cf_receipt_key cf)) gate0 (run calls opened).1)
    by (etrans; [exact opened_steps|exact (run_steps calls opened)]).
  destruct (logged_receipts_chained (cf_receipt_key cf) gate0 (run calls opened).1 sid eq_refl eq_refl
    ran) as (xs & H1 & _ & H3 & _).
  exists xs. exact (conj H1 H3).
Defined.

(** The session ends; a later call is answered, but not permitted. *)
#[local] Notation ended_run := (end_session cf (ById sid) (1014 * TICKS) (at_time 1014) first.1).
Lemma ended_ok : exists m, ended_run = (ended_run.1, Ok m).
Proof.
  assert (H : (match ended_run.2 with Ok _ => true | Raise _ => false end) = true) by vm_cast_no_check (eq_refl true).
  revert H. generalize ended_run. intros [g [m|e]]; [by exists m|done].
Qed.
Lemma first_ok : files_ok first.1.
Proof. exact (fi_ok _ _ (evaluate_files cf (ById sid) "read_file" read_args None None (at_time 1011) opened opened_ok)). Qed.
Lemma ended_native : native_ok cf ended_run.1.
Proof.
  apply (end_native cf (ById sid) (1014 * TICKS) (at_time 1014) first.1).
  exact (evaluate_native cf (ById sid) "read_file" read_args None None (at_time 1011) cf_cedar_named opened opened_native).
Qed.
Definition late : list op := [read_at 1015].
Lemma late_are : Forall (fun o => is_call o = true) late.
Proof. by repeat constructor. Qed.
Lemma ended_session_closed_witness : permits (of_session sid) (run late ended_run.1).2 = 0.
Proof.
  destruct ended_ok as [m E].
  apply (ended_session_closed cf (ById sid) (1014 * TICKS) (at_time 1014) first.1 ended_run.1 m
    (run late ended_run.1).2 (run late ended_run.1).1 first_ok E (run_history late _ ended_native late_are)).
Defined.

(** A session whose file lists a compromised store. *)
Definition quarantine (s : live) : live :=
  Live (core s) (passport_token s) (attached s) (delegated_children s) (summary s) (attestation_token s) (memory_stores s)
    {["store-1"]} (last_memory_record_id s) (last_receipt_id s) (last_receipt_full_hash s) (risk_policy_snapshot s).
Definition taint (g : gate) : gate := set_files (alter (fun '(s, pl) => (quarantine s, pl)) sid (g_files g)) g.
Lemma taint_ok g : files_ok g -> files_ok (taint g).
Proof.
  intros Hok i fs pl. unfold taint. cbn [set_files g_files]. destruct (decide (i = sid)) as [->|Hne].
  - rewrite lookup_alter_eq. destruct (g_files g !! sid) as [[s q]|] eqn:E; [|done]. intros [= <- <-]. apply (Hok sid s q E).
  - rewrite lookup_alter_ne by done. apply Hok.
Qed.
Lemma taint_native g : native_ok cf g -> native_ok cf (taint g).
Proof. done. Qed.
Lemma taint_file g fs pl : g_files g !! sid = Some (fs, pl) -> g_files (taint g) !! sid = Some (quarantine fs, pl).
Proof. intros Hf. unfold taint. cbn [set_files g_files]. by rewrite lookup_alter_eq, Hf. Qed.
#[local] Notation tainted := (taint opened).
Definition memory_args : claims := [("store_id", PStr "store-1"); ("record_id", PStr "rec")].
Definition reading : list op := [DoEvaluate (ById sid) MEMORY_STORE_READ_TOOL memory_args None None (at_time 1012)].
Lemma reading_are : Forall (fun o => is_call o = true) reading.
Proof. by repeat constructor. Qed.
Lemma compromised_store_unreadable_witness : permits (reads sid "store-1") (run reading tainted).2 = 0.
Proof.
  destruct (file_there _ _ opened_limited) as (fs & pl & Hf & _).
  apply (compromised_store_unreadable tainted (run reading tainted).2 (run reading tainted).1 sid (quarantine fs) pl "store-1"
    (run_history reading tainted (taint_native _ opened_native) reading_are) (taint_ok _ opened_ok) (taint_file _ _ _ Hf)).
  apply elem_of_singleton_2. reflexivity.
Defined.
End GateDemo.
