(* ===== verification/MissionProps.v ===== *)
(** * Mission declarations: properties

    What may be fetched ([Urls]), what the cache of declarations holds and
    returns, and which entry of a status list is read ([Mission]). *)

From S2P Require Import Prelude Sha256 CanonicalJson RiskPolicy Passport ResourceScope PyJson Policy Receipt Urls Mission.
Import Passport PyJson Policy Mission.
Open Scope string_scope.
Open Scope Z_scope.

(** ** Fetching *)

Section Fetching.
Context {U : ResourceScope.UnicodeData} {I : IpAddress}.

(** Two networks that resolve names alike and whose public addresses answer
    alike. *)
Record same_public (n n' : Urls.network) : Prop := {
  sp_names : forall h, Urls.getaddrinfo n' h = Urls.getaddrinfo n h;
  sp_names_port : forall h p, Urls.getaddrinfo_port n' h p = Urls.getaddrinfo_port n h p;
  sp_answers : forall ip h p path, Urls.public_ip ip = true -> Urls.https_get n' ip h p path = Urls.https_get n ip h p path
}.

Lemma pinned_public n h p ip : Urls.resolve_to_pinned_public_ip n h p = Ok ip -> Urls.public_ip ip = true.
Proof.
  unfold Urls.resolve_to_pinned_public_ip. destruct (Urls.getaddrinfo_port n h p); [|done..].
  destruct (List.find _ _) eqn:E; [|done]. intros [= <-]. apply List.find_some in E. apply E.
Qed.
Lemma connection_public n s c : Urls.pinned_connection n s = Ok c -> Urls.public_ip (Urls.c_ip c) = true.
Proof.
  unfold Urls.pinned_connection. destruct (Urls.urlparse _) as [u|]; [|done]. cbv zeta. rewrite !guard_ok.
  intros (_ & _ & H). destruct (Urls.port u) as [p|]; [|done].
  apply bind_ok in H as (ip & Hip & H). rewrite guard_ok in H. destruct H as [_ [= <-]]. by eapply pinned_public.
Qed.
Lemma assert_target_same n n' s : same_public n n' -> Urls.assert_public_target n' s = Urls.assert_public_target n s.
Proof. intros [Hn _ _]. unfold Urls.assert_public_target. destruct (Urls.urlparse s); [|done]. by rewrite Hn. Qed.
Lemma connection_same n n' s : same_public n n' -> Urls.pinned_connection n' s = Urls.pinned_connection n s.
Proof.
  intros [_ Hn _]. unfold Urls.pinned_connection, Urls.resolve_to_pinned_public_ip.
  destruct (Urls.urlparse _) as [u|]; [|done]. cbv zeta. destruct (Urls.port u); [by rewrite Hn|done].
Qed.
Lemma fetch_same n n' s : same_public n n' -> Urls.fetch_text n' s = Urls.fetch_text n s.
Proof.
  intros H. unfold Urls.fetch_text. rewrite (assert_target_same n n'), (connection_same n n') by done.
  destruct (Urls.assert_public_target n s); [|done]. cbn [mbind res_bind].
  destruct (Urls.pinned_connection n s) as [c|e] eqn:E; [|done]. cbn [mbind res_bind].
  by rewrite (sp_answers _ _ H) by (by eapply connection_public).
Qed.
End Fetching.

(** ** The cache *)

Lemma od_pop_elem {A} k (d : list (string * A)) x : x ∈ od_pop k d -> x ∈ d /\ x.1 <> k.
Proof.
  unfold od_pop. rewrite !list_elem_of_In, filter_In, negb_true_iff, String.eqb_neq. naive_solver.
Qed.
Lemma od_put_elem {A} k (v : A) d x : x ∈ od_put k v d -> x = (k, v) \/ x ∈ d.
Proof. unfold od_put. rewrite elem_of_app, list_elem_of_singleton. intros [[H _]%od_pop_elem|H]; auto. Qed.
Lemma od_pop_length {A} k (d : list (string * A)) : (length (od_pop k d) <= length d)%nat.
Proof. unfold od_pop. induction d as [|x d IH]; [done|]. cbn. destruct (negb _); cbn; lia. Qed.
Lemma od_pop_there {A} k v (d : list (string * A)) : dget k d = Some v -> (length (od_pop k d) < length d)%nat.
Proof.
  induction d as [|[k' w] d IH]; [done|]. cbn. destruct (String.eqb k k') eqn:E; cbn.
  - intros _. pose proof (od_pop_length k d). unfold od_pop in *. lia.
  - intros H%IH. unfold od_pop in H. lia.
Qed.
Lemma od_put_there {A} k v w (d : list (string * A)) : dget k d = Some w -> (length (od_put k v d) <= length d)%nat.
Proof. intros H%od_pop_there. unfold od_put. rewrite length_app. cbn. lia. Qed.
Lemma evict_ids fuel max ids refs : (length ids <= fuel)%nat ->
  (length (evict fuel max ids refs).1 <= max)%nat /\ (forall x, x ∈ (evict fuel max ids refs).1 -> x ∈ ids).
Proof.
  revert ids refs. induction fuel as [|fuel IH]; intros [|[i m] ids] refs; cbn [evict length]; [split; [cbn; lia|done]| |split; [cbn; lia|done]|].
  - intros H. lia.
  - intros H. destruct (Nat.ltb_spec max (Datatypes.S (length ids))) as [Hm|Hm]; [|cbn; split; [lia|done]].
    destruct (IH ids (List.filter (fun kv => negb (String.eqb kv.2 i)) refs)) as [H1 H2]; [lia|].
    split; [done|]. intros x Hx. apply list_elem_of_further. by apply H2.
Qed.
Lemma evict_refs fuel max ids refs x : x ∈ (evict fuel max ids refs).2 -> x ∈ refs.
Proof.
  revert ids refs. induction fuel as [|fuel IH]; intros [|[i m] ids] refs; cbn [evict]; try done.
  destruct (_ <? _)%nat; [|done]. intros H%IH. revert H. rewrite !list_elem_of_In, filter_In. by intros [? _].
Qed.

Section Cache.
Context {D : Digests} {J : Jwt} {R : PyRepr} {TT : TokenText} {U : ResourceScope.UnicodeData} {I : IpAddress}.

(** A declaration read from a token that was verified under [key] at some
    time. *)
Definition verified (key : public_key) (m : MissionDeclaration) : Prop :=
  exists text t c now, read_token text = Some t /\ jwt_decode t key (Some DEFAULT_AUDIENCE) MD_REQUIRED now = Some c /\
    assert_iat_in_window (py_get "iat" c) DEFAULT_IAT_FUTURE_SKEW_S DEFAULT_IAT_PAST_SKEW_S now = Ok tt /\
    validate_required_v01_members c = Ok tt /\ declaration_of c = Ok m.
(** The digest, and the identifier, a reference pins. *)
Definition pinned_digest (r : MissionReference) (m : MissionDeclaration) : Prop :=
  forall d, ref_mission_digest r = Some d -> d <> "" -> md_payload_digest m = d.
Definition pinned_id (r : MissionReference) (m : MissionDeclaration) : Prop :=
  forall i, ref_mission_id r = Some i -> md_mission_id m = i.

Lemma load_verified text key now m : load_mission_declaration text key now = Ok m -> verified key m.
Proof.
  unfold load_mission_declaration. destruct (read_token text) as [t|] eqn:Et; [|done]. cbn [mbind option_bind].
  destruct (jwt_decode _ _ _ _ _) as [c|] eqn:Ec; [|done].
  destruct (assert_iat_in_window _ _ _ _) as [[]|] eqn:Ei; [|done]. intros ([] & Hv & Hd)%bind_ok.
  by exists text, t, c, now.
Qed.
Lemma digest_pin r m : match ref_mission_digest r with
    | Some d => non_empty d && negb (String.eqb d (md_payload_digest m)) | None => false end = false -> pinned_digest r m.
Proof.
  intros H d Hd Hne. rewrite Hd in H. apply andb_false_iff in H as [H|H]; [by destruct d|].
  apply negb_false_iff, String.eqb_eq in H. done.
Qed.
Lemma fetch_verified r key n now m : fetch_mission_declaration r key n now = Ok m ->
  verified key m /\ pinned_digest r m /\ (forall i, ref_mission_id r = Some i -> i <> "" -> md_mission_id m = i).
Proof.
  unfold fetch_mission_declaration. destruct (Urls.urlparse _) as [u|]; [|done]. rewrite guard_ok. intros [_ H].
  apply bind_ok in H as (text & _ & H). apply bind_ok in H as (m' & Hl & H). rewrite !guard_ok in H.
  destruct H as (Hi & Hd & [= <-]). split; [by eapply load_verified|]. split; [by apply digest_pin|].
  intros i Ei Hne. rewrite Ei in Hi. apply andb_false_iff in Hi as [Hi|Hi]; [by destruct i|].
  apply negb_false_iff, String.eqb_eq in Hi. done.
Qed.

(** Every cached declaration is verified and under its own identifier. *)
Record cache_ok (key : public_key) (c : MissionCache) : Prop := {
  co_verified : forall i m, (i, m) ∈ by_id c -> md_mission_id m = i /\ verified key m;
  co_size : (length (by_id c) <= MAX_ENTRIES)%nat
}.
Lemma empty_cache_ok key : cache_ok key empty_cache.
Proof. split; [by intros i m ?%not_elem_of_nil|cbn; lia]. Qed.

(** What a hit is. *)
Lemma get_by_ref_hit r c c' m : get_by_ref r c = (c', Some m) ->
  exists i, (i, m) ∈ by_id c /\ pinned_digest r m /\
    (dget (cache_key r) (ref_to_id c) = Some i \/ ref_mission_id r = Some i) /\
    c' = Cache (od_put i m (by_id c)) (od_put (cache_key r) i (ref_to_id c)).
Proof.
  unfold get_by_ref. cbv zeta.
  set (found := match dget (cache_key r) (ref_to_id c) with Some i => _ | None => _ end).
  assert (Hf : forall i, found = Some i -> dget (cache_key r) (ref_to_id c) = Some i \/ ref_mission_id r = Some i).
  { subst found. intros i. destruct (dget (cache_key r) (ref_to_id c)) as [j|]; [|by right].
    destruct (non_empty j); [intros [= ->]; by left|by right]. }
  destruct found as [i|]; [|done]. destruct (dget i (by_id c)) as [m'|] eqn:Em; [|done].
  destruct (match ref_mission_digest r with Some d => _ | None => _ end) eqn:Ed; [done|]. intros [= <- <-].
  exists i. split; [by apply dget_elem|]. split; [|split; [by apply Hf|done]]. apply digest_pin.
  destruct (ref_mission_digest r); [|done]. by rewrite String.eqb_sym.
Qed.
Lemma get_by_ref_ids r c : (forall x, x ∈ by_id (get_by_ref r c).1 -> x ∈ by_id c) /\
  (length (by_id (get_by_ref r c).1) <= length (by_id c))%nat.
Proof.
  unfold get_by_ref. cbv zeta.
  destruct (match dget (cache_key r) (ref_to_id c) with Some i => _ | None => _ end) as [i|]; [|done].
  destruct (dget i (by_id c)) as [m|] eqn:Em; [|done].
  destruct (match ref_mission_digest r with Some d => _ | None => _ end); [done|]. cbn. split.
  - intros x [->|Hx]%od_put_elem; [by apply dget_elem|done].
  - by eapply od_put_there.
Qed.
Lemma put_ids max m r c : (length (by_id (put max m r c)) <= max)%nat /\
  (forall x, x ∈ by_id (put max m r c) -> x = (md_mission_id m, m) \/ x ∈ by_id c).
Proof.
  unfold put. cbv zeta. set (ids := od_put _ _ _). set (refs := od_put _ _ _).
  destruct (evict_ids (length ids) max ids refs (le_n _)) as [H1 H2].
  destruct (evict _ _ _ _) as [ids' refs']. cbn in *. split; [done|]. intros x Hx%H2. by apply od_put_elem in Hx.
Qed.
(** However a declaration is resolved, the cache stays sound. *)
Lemma resolve_ok r key n now c : cache_ok key c -> cache_ok key (resolve r key n now c).1 /\
  match (resolve r key n now c).2 with Ok m => verified key m /\ pinned_digest r m | Raise _ => True end.
Proof.
  intros [Hv Hs]. unfold resolve. pose proof (get_by_ref_ids r c) as [Hg1 Hg2].
  destruct (get_by_ref r c) as [c1 found] eqn:E. cbn [fst] in *.
  assert (H1 : cache_ok key c1) by (split; [intros i m Hi; by apply Hv, Hg1|lia]).
  destruct found as [m|].
  - split; [done|]. cbn. apply get_by_ref_hit in E as (i & Hi & Hd & _ & _). split; [|done]. by apply Hv in Hi as [_ ?].
  - destruct (fetch_mission_declaration r key n now) as [m|e] eqn:Ef; [|done]. cbn [fst snd].
    apply fetch_verified in Ef as (Hm & Hd & _). split; [|done]. destruct (put_ids MAX_ENTRIES m r c1) as [P1 P2].
    split; [|done]. intros i m' [[= -> ->]|Hi]%P2; [done|]. by apply H1.
Qed.

(** References that contain no separator of the cache's keys. *)
Definition no_bar (s : string) : bool := str_all (fun a => negb (Ascii.eqb a "|")) s.
Definition plain_ref (r : MissionReference) : Prop :=
  no_bar (ref_uri r) = true /\ (forall i, ref_mission_id r = Some i -> i <> "" /\ no_bar i = true).
Lemma bar_split a a' b b' : no_bar a = true -> no_bar a' = true ->
  (a ++ "|" ++ b)%string = (a' ++ "|" ++ b')%string -> a = a' /\ b = b'.
Proof.
  unfold no_bar. revert a'. induction a as [|x a IH]; intros [|y a']; cbn.
  - intros _ _ [= E]. by split; [|exact E].
  - intros _ Hy [= <- _]. by rewrite Ascii.eqb_refl in Hy.
  - intros Hx _ [= -> _]. by rewrite Ascii.eqb_refl in Hx.
  - intros [_ Ha]%andb_prop [_ Ha']%andb_prop [= -> E]. by destruct (IH a' Ha Ha' E) as [-> ->].
Qed.
Lemma cache_key_id r r' i : plain_ref r -> plain_ref r' -> cache_key r = cache_key r' -> ref_mission_id r = Some i ->
  ref_mission_id r' = Some i.
Proof.
  intros [Hu Hi] [Hu' Hi'] E Er. unfold cache_key in E. apply bar_split in E as [_ E]; [|done..].
  assert (Hb : forall o, (forall i, o = Some i -> i <> "" /\ no_bar i = true) -> no_bar (default "" o) = true)
    by (intros [j|] Hj; [by apply Hj|done]).
  apply bar_split in E as [E _]; [|by apply Hb..]. rewrite Er in E. cbn in E.
  destruct (Hi _ Er) as [Hne _]. destruct (ref_mission_id r'); cbn in E; congruence.
Qed.
(** Every key of the cache leads to the identifier its reference pins. *)
Definition keys_ok (c : MissionCache) : Prop := forall k i, (k, i) ∈ ref_to_id c ->
  exists r, plain_ref r /\ k = cache_key r /\ (forall j, ref_mission_id r = Some j -> j = i).
Lemma get_by_ref_keys r c : plain_ref r -> keys_ok c -> keys_ok (get_by_ref r c).1 /\
  (forall i m, (get_by_ref r c).2 = Some m -> cache_ok i c -> pinned_id r m).
Proof.
  intros Hr Hk. destruct (get_by_ref r c) as [c' [m|]] eqn:E; cbn [fst snd].
  - apply get_by_ref_hit in E as (i & Hi & _ & Hf & ->). 
    assert (Hp : forall j, ref_mission_id r = Some j -> j = i).
    { intros j Hj. destruct Hf as [Hd%dget_elem|Hd]; [|congruence]. apply Hk in Hd as (r' & Hr' & Ek & Hi').
      apply Hi'. by apply (cache_key_id r). }
    split.
    + intros k j [[= -> ->]|H]%od_put_elem; [by exists r|by apply Hk].
    + intros key m' [= <-] [Hv _] j Hj. apply Hv in Hi as [-> _]. by rewrite (Hp j).
  - split; [|done]. revert E. unfold get_by_ref. cbv zeta.
    destruct (match dget (cache_key r) (ref_to_id c) with Some i => _ | None => _ end) as [i|]; [|by intros [= <-]].
    destruct (dget i (by_id c)) as [m|]; [destruct (match ref_mission_digest r with Some d => _ | None => _ end); [by intros [= <-]|done]|].
    intros [= <-] k j Hx. apply od_pop_elem in Hx as [Hx _]. by apply Hk.
Qed.
Lemma put_keys max m r c : plain_ref r -> pinned_id r m -> keys_ok c -> keys_ok (put max m r c).
Proof.
  intros Hr Hp Hk. unfold put. cbv zeta. set (ids := od_put _ _ _). set (refs := od_put _ _ _).
  pose proof (evict_refs (length ids) max ids refs) as He. destruct (evict _ _ _ _) as [ids' refs'].
  intros k i Hx. cbn in Hx. assert (Hx' : (k, i) ∈ refs') by (apply (subseteq_drop (length refs' - (max + (max + 0)))); exact Hx).
  apply He in Hx'. apply od_put_elem in Hx' as [[= -> ->]|Hx']; [|by apply Hk].
  exists r. split; [done|]. split; [done|]. intros j Hj. symmetry. by apply Hp.
Qed.
Lemma resolve_keys r key n now c : plain_ref r -> cache_ok key c -> keys_ok c -> keys_ok (resolve r key n now c).1 /\
  match (resolve r key n now c).2 with Ok m => pinned_id r m | Raise _ => True end.
Proof.
  intros Hr Hc Hk. unfold resolve. pose proof (get_by_ref_keys r c Hr Hk) as [Hk1 Hp].
  destruct (get_by_ref r c) as [c1 [m|]]; cbn [fst snd] in *; [split; [done|]; by apply (Hp key)|].
  destruct (fetch_mission_declaration r key n now) as [m|e] eqn:Ef; [|done]. cbn [fst snd].
  apply fetch_verified in Ef as (_ & _ & Hi).
  assert (Hpin : pinned_id r m) by (intros i Ei; apply Hi; [done|]; by apply Hr).
  split; [|done]. by apply put_keys.
Qed.

(** What a process resolves, from an empty cache: whichever references, the
    network as it happens to be. *)
Inductive resolving (key : public_key) : MissionCache -> Prop :=
| resolving_start : resolving key empty_cache
| resolving_step c r n now : resolving key c -> plain_ref r -> resolving key (resolve r key n now c).1.
Lemma resolving_ok key c : resolving key c -> cache_ok key c /\ keys_ok c.
Proof.
  induction 1 as [|c r n now _ [IHc IHk] Hr]; [split; [apply empty_cache_ok|by intros k i ?%not_elem_of_nil]|].
  split; [by apply resolve_ok|by apply (resolve_keys r key n now c)].
Qed.

(** A declaration that was resolved stays in the cache. *)
Lemma od_put_get {A} k (v : A) d : dget k (od_put k v d) = Some v.
Proof.
  unfold od_put. rewrite dget_app. replace (dget k (od_pop k d)) with (@None A); [cbn; by rewrite String.eqb_refl|].
  symmetry. apply dget_None. unfold dkeys. intros ([k' w] & Hk & Hx)%list_elem_of_fmap. apply od_pop_elem in Hx as [_ Hx]. done.
Qed.
Lemma evict_last fuel max l i m q k : (1 <= max)%nat -> (forall x, x ∈ l -> x.1 <> i) ->
  exists l' q', evict fuel max (l ++ [(i, m)])%list (q ++ [(k, i)])%list = (l' ++ [(i, m)], q' ++ [(k, i)])%list /\
    l' ⊆ l /\ q' ⊆ q.
Proof.
  intros Hm. revert l q. induction fuel as [|fuel IH]; intros l q Hl; [by exists l, q|].
  destruct l as [|[e me] l].
  - exists [], q. cbn [app evict length]. destruct (Nat.ltb_spec max 1); [lia|done].
  - cbn [app evict]. destruct (max <? _)%nat; [|by exists ((e, me) :: l), q]. rewrite List.filter_app. cbn [List.filter snd].
    assert (He : e <> i) by (apply (Hl (e, me)); left). apply String.eqb_neq in He. rewrite String.eqb_sym, He. cbn [negb].
    destruct (IH l (List.filter (fun kv => negb (String.eqb kv.2 e)) q)) as (l' & q' & E & H1 & H2);
      [intros x Hx; apply Hl; by right|].
    exists l', q'. split; [exact E|]. split; [set_solver|]. intros x Hx%H2. revert Hx. rewrite !list_elem_of_In, filter_In. tauto.
Qed.
Lemma dget_last {A} k (v : A) d : k ∉ dkeys d -> dget k (d ++ [(k, v)])%list = Some v.
Proof. intros Hk. rewrite dget_app. apply dget_None in Hk as ->. cbn. by rewrite String.eqb_refl. Qed.
Lemma put_get max m r c : (1 <= max)%nat -> dget (md_mission_id m) (by_id (put max m r c)) = Some m /\
  dget (cache_key r) (ref_to_id (put max m r c)) = Some (md_mission_id m).
Proof.
  intros Hm. unfold put, od_put. cbv zeta. set (i := md_mission_id m). set (k := cache_key r).
  set (l := od_pop i (by_id c)). set (q := od_pop k (ref_to_id c)).
  assert (Hl : forall x, x ∈ l -> x.1 <> i) by (intros x Hx; by apply od_pop_elem in Hx as [_ ?]).
  assert (Hq : forall x, x ∈ q -> x.1 <> k) by (intros x Hx; by apply od_pop_elem in Hx as [_ ?]).
  destruct (evict_last (length (l ++ [(i, m)])%list) max l i m q k Hm Hl) as (l' & q' & -> & H1 & H2). cbn [by_id ref_to_id].
  assert (Hno : forall A (d d' : list (string * A)) k, d' ⊆ d -> (forall x, x ∈ d -> x.1 <> k) -> k ∉ dkeys d').
  { intros A d d' k0 Hs Hd. unfold dkeys. intros ([k' w] & -> & Hx)%list_elem_of_fmap. by apply Hs, Hd in Hx. }
  split; [apply dget_last; by eapply Hno|]. rewrite length_app. cbn [length].
  rewrite drop_app_le by lia. apply dget_last. apply (Hno _ q); [|done]. etrans; [apply subseteq_drop|done].
Qed.
Lemma hit_again r c m : dget (md_mission_id m) (by_id c) = Some m -> dget (cache_key r) (ref_to_id c) = Some (md_mission_id m) ->
  md_mission_id m <> "" -> pinned_digest r m -> (get_by_ref r c).2 = Some m.
Proof.
  intros Hi Hk Hne Hd. unfold get_by_ref. cbv zeta. rewrite Hk. replace (non_empty (md_mission_id m)) with true by (by destruct (md_mission_id m)).
  rewrite Hi. destruct (ref_mission_digest r) as [d|] eqn:Ed; [|done].
  destruct (decide (d = "")) as [->|Hdn]; [done|]. rewrite (Hd d Ed Hdn), String.eqb_refl, andb_false_r. done.
Qed.

(** C40. A cached declaration is not asked for its expiry again.  Once a
    reference has been resolved, resolving it again, with no other resolution
    in between, gives the same declaration at any later time and without the
    network, whatever the expiry it was signed with. *)
Theorem cached_mission_not_rechecked key c r n now c' m : cache_ok key c -> resolve r key n now c = (c', Ok m) ->
  md_mission_id m <> "" -> forall n' now', (resolve r key n' now' c').2 = Ok m.
Proof.
  intros Hc E Hne n' now'. assert (Hg : (get_by_ref r c').2 = Some m).
  2: { unfold resolve. destruct (get_by_ref r c') as [c2 found]. cbn in Hg. by rewrite Hg. }
  unfold resolve in E. destruct (get_by_ref r c) as [c1 [m1|]] eqn:Eg.
  - injection E as <- <-. apply get_by_ref_hit in Eg as (i & Hi & Hd & _ & ->). apply Hc in Hi as [<- _].
    apply hit_again; try done; cbn; apply od_put_get.
  - destruct (fetch_mission_declaration r key n now) as [m1|e] eqn:Ef; [|done]. injection E as <- <-.
    apply fetch_verified in Ef as (_ & Hd & _). destruct (put_get MAX_ENTRIES m1 r c1) as [H1 H2]; [unfold MAX_ENTRIES; lia|].
    by apply hit_again.
Qed.

(** C19. Only verified declarations are in force.  Whatever was resolved before,
    and whatever servers answer, a declaration that is resolved was read from
    a token that verified under the proxy's key, was within the bounds on its
    issue time and has the members of version 0.1; it has the digest and the
    identifier its reference pins; and the cache never holds more than its
    limit.  The references contain no separator of the cache's keys. *)
Theorem resolved_mission_verified key c r n now c' m : resolving key c -> plain_ref r ->
  resolve r key n now c = (c', Ok m) ->
  verified key m /\ pinned_digest r m /\ pinned_id r m /\ (length (by_id c') <= MAX_ENTRIES)%nat.
Proof.
  intros [Hc Hk]%resolving_ok Hr E. destruct (resolve_ok r key n now c Hc) as [Hc' Hv].
  destruct (resolve_keys r key n now c Hr Hc Hk) as [_ Hp]. rewrite E in *. cbn in *.
  split_and!; [apply Hv..|done|apply Hc'].
Qed.
End Cache.

Section Public.
Context {D : Digests} {J : Jwt} {R : PyRepr} {TT : TokenText} {U : ResourceScope.UnicodeData} {I : IpAddress} {Zl : Zlib}.

Lemma resolve_same r key n n' now c : same_public n n' -> resolve r key n' now c = resolve r key n now c.
Proof.
  intros H. unfold resolve, fetch_mission_declaration. destruct (get_by_ref r c) as [c1 [m|]]; [done|].
  destruct (Urls.urlparse _); [|done]. by rewrite (fetch_same n n').
Qed.
Lemma revoked_same m key n n' now : same_public n n' -> mission_is_revoked m key n' now = mission_is_revoked m key n now.
Proof.
  intros H. unfold mission_is_revoked. destruct (md_revocation_ref m); [|done].
  destruct (Urls.parse_revocation_ref _) as [[uri idx]|]; [|done]. cbn [mbind res_bind]. by rewrite (fetch_same n n').
Qed.
End Public.

(** ** Status lists *)

(** The entry that is read in place of [idx] when the entries of a byte are
    counted from its other end. *)
Definition mirror (bits idx : nat) : nat := let per := (8 / bits)%nat in (idx / per * per + (per - 1 - idx mod per))%nat.

Lemma shift_field b off w : 0 <= off -> 0 <= w ->
  Z.land (Z.shiftr b off) (Z.shiftl 1 w - 1) = (b / 2 ^ off) mod 2 ^ w.
Proof.
  intros Ho Hw. replace (Z.shiftl 1 w - 1) with (Z.ones w) by (rewrite Z.ones_equiv, Z.shiftl_1_l; lia).
  by rewrite Z.land_ones, Z.shiftr_div_pow2.
Qed.
Lemma status_bit_div raw k j : (j < 8)%nat -> status_bit raw (8 * k + j) = (nth k raw 0 / 2 ^ (7 - Z.of_nat j)) mod 2.
Proof.
  intros Hj. unfold status_bit. rewrite (Nat.mul_comm 8 k), Nat.div_add_l, (Nat.div_small j 8), Nat.add_0_r by lia.
  rewrite Nat.add_comm, Nat.Div0.mod_add, (Nat.mod_small j 8) by lia. change 1 with (Z.shiftl 1 1 - 1) at 1.
  by rewrite shift_field by lia.
Qed.
Lemma lor_bit v b : 0 <= v -> b = 0 \/ b = 1 -> Z.lor (Z.shiftl v 1) b = 2 * v + b.
Proof.
  intros Hv Hb. rewrite Z.shiftl_mul_pow2 by lia. change (2 ^ 1) with 2. rewrite (Z.mul_comm v 2).
  destruct Hb as [->| ->]; [by rewrite Z.lor_0_r, Z.add_0_r|].
  assert (Z.land (2 * v) 1 = 0) by (change 1 with (Z.ones 1); rewrite Z.land_ones by lia; rewrite Z.mul_comm; apply Z.mod_mul; lia).
  pose proof (Z.add_lor_land (2 * v) 1). lia.
Qed.
(** [n] bits from bit [c] of a byte on, most significant first. *)
Lemma read_bits raw k c n : (c + n <= 8)%nat ->
  foldl (fun value i => Z.lor (Z.shiftl value 1) (status_bit raw i)) 0 (seq (8 * k + c) n)
  = (nth k raw 0 / 2 ^ Z.of_nat (8 - c - n)) mod 2 ^ Z.of_nat n.
Proof.
  induction n as [|n IH]; intros Hn; [cbn [seq foldl]; by rewrite Z.mod_1_r|].
  rewrite seq_S, foldl_app, IH by lia. cbn [foldl]. rewrite <- Nat.add_assoc, status_bit_div by lia.
  set (x := nth k raw 0). remember (8 - c - Datatypes.S n)%nat as d eqn:Hd.
  assert (H7 : 7 - Z.of_nat (c + n) = Z.of_nat d) by lia. assert (H8 : (8 - c - n)%nat = Datatypes.S d) by lia.
  rewrite H7, H8. set (q := x / 2 ^ Z.of_nat d).
  assert (Hq : x / 2 ^ Z.of_nat (Datatypes.S d) = q / 2)
    by (unfold q; rewrite Z.div_div by lia; f_equal; rewrite Nat2Z.inj_succ, Z.pow_succ_r by lia; lia).
  rewrite Hq, lor_bit.
  - rewrite Nat2Z.inj_succ, Z.pow_succ_r, Z.rem_mul_r by lia. lia.
  - apply Z.mod_pos_bound. lia.
  - pose proof (Z.mod_pos_bound q 2). lia.
Qed.

(** The widths of an entry that a list may have. *)
Definition width (b : nat) : Prop := b ∈ [1; 2; 4; 8]%nat.
Lemma width_per b : width b -> (8 / b * b = 8 /\ 0 < b /\ 0 < 8 / b)%nat.
Proof. unfold width. rewrite !elem_of_cons. intros [->|[->|[->|[->|[]%not_elem_of_nil]]]]; cbn; lia. Qed.
(** Entry [j], counted from the least significant end. *)
Definition field (raw : list Z) (b j : nat) : Z :=
  let per := (8 / b)%nat in (nth (j / per) raw 0 / 2 ^ Z.of_nat (j mod per * b)) mod 2 ^ Z.of_nat b.

Lemma extract_field raw j b : width b -> (j < length raw * (8 / b))%nat -> extractStatus raw j b = Some (field raw b j).
Proof.
  intros Hb Hj. pose proof (width_per b Hb) as (H8 & Hb0 & Hp). unfold extractStatus, field.
  replace ((b =? 0) || (8 <? b))%nat with false by (symmetry; apply orb_false_intro; [apply Nat.eqb_neq|apply Nat.ltb_ge]; nia).
  cbv zeta. assert (Hlt : (j / (8 / b) < length raw)%nat) by (apply Nat.Div0.div_lt_upper_bound; lia).
  apply Nat.leb_gt in Hlt. rewrite Hlt. by rewrite shift_field by lia.
Qed.
Lemma mirror_parts b j : width b -> (mirror b j / (8 / b) = j / (8 / b) /\ mirror b j mod (8 / b) = 8 / b - 1 - j mod (8 / b))%nat.
Proof.
  intros (_ & _ & Hp)%width_per. unfold mirror. cbv zeta. set (per := (8 / b)%nat) in *. set (q := (j / per)%nat). clearbody q.
  pose proof (Nat.mod_upper_bound j per). set (r := (j mod per)%nat) in *. clearbody r. split.
  - rewrite Nat.div_add_l, Nat.div_small by lia. lia.
  - rewrite Nat.add_comm, Nat.Div0.mod_add, Nat.mod_small; lia.
Qed.
(** The Python reader takes the entry at the other end of the byte. *)
Lemma status_value_mirror raw idx b : width b -> (idx < length raw * (8 / b))%nat ->
  status_value raw (Z.of_nat idx) b = Ok (field raw b (mirror b idx)).
Proof.
  intros Hb Hi. pose proof (width_per b Hb) as (H8 & Hb0 & Hp). destruct (mirror_parts b idx Hb) as [Hq Hr].
  unfold status_value, field. cbv zeta. rewrite Hq, Hr. set (per := (8 / b)%nat) in *.
  pose proof (Nat.Div0.div_mod idx per) as Hdm. pose proof (Nat.mod_upper_bound idx per) as Hm.
  replace (Z.of_nat (length raw) * 8 <? Z.of_nat idx * Z.of_nat b + Z.of_nat b) with false by (symmetry; apply Z.ltb_ge; nia).
  set (k := (idx / per)%nat) in *. set (o := (idx mod per)%nat) in *.
  replace (Z.to_nat (Z.of_nat idx * Z.of_nat b)) with (8 * k + o * b)%nat by (rewrite <- Nat2Z.inj_mul, Nat2Z.id; nia).
  rewrite read_bits by nia. do 4 f_equal. nia.
Qed.

(** An entry written into a byte is the only one that changes. *)
Lemma field_lor x s off off' w : 0 <= s < 2 ^ w -> 0 <= off -> 0 <= w -> off + w <= 8 -> 0 <= off' ->
  off = off' \/ off' + w <= off \/ off + w <= off' ->
  (Z.lor x (Z.shiftl s off mod 256) / 2 ^ off') mod 2 ^ w
  = Z.lor ((x / 2 ^ off') mod 2 ^ w) (if off =? off' then s else 0).
Proof.
  intros Hs Ho Hw H8 Ho' Hd.
  assert (Hhigh : forall n, w <= n -> Z.testbit s n = false).
  { intros n Hn. rewrite <- (Z.mod_small s (2 ^ w)) by lia. by apply Z.mod_pow2_bits_high; lia. }
  assert (Hmod : Z.shiftl s off mod 256 = Z.shiftl s off).
  { apply Z.mod_small. rewrite Z.shiftl_mul_pow2 by lia. split; [nia|]. change 256 with (2 ^ 8).
    apply Z.lt_le_trans with (2 ^ w * 2 ^ off); [nia|]. rewrite <- Z.pow_add_r by lia. apply Z.pow_le_mono_r; lia. }
  rewrite Hmod. apply Z.bits_inj'. intros n Hn. rewrite Z.lor_spec. destruct (Z.lt_ge_cases n w) as [Hl|Hg].
  - rewrite !Z.mod_pow2_bits_low, !Z.div_pow2_bits, Z.lor_spec, Z.shiftl_spec by lia. f_equal.
    destruct (Z.eqb_spec off off') as [->|Hne]; [f_equal; lia|]. rewrite Z.bits_0.
    destruct (Z.lt_ge_cases (n + off' - off) 0); [by apply Z.testbit_neg_r|apply Hhigh; lia].
  - rewrite !Z.mod_pow2_bits_high by lia. cbn. destruct (off =? off'); [by rewrite Hhigh|by rewrite Z.bits_0].
Qed.
Lemma alter_nth (f : Z -> Z) k k' l : (k < length l)%nat ->
  nth k' (alter f k l) 0 = if decide (k = k') then f (nth k l 0) else nth k' l 0.
Proof.
  intros Hk. rewrite !nth_lookup. destruct (decide (k = k')) as [<-|Hne].
  - rewrite list_lookup_alter_eq. destruct (l !! k) eqn:E; [done|]. apply lookup_ge_None in E. lia.
  - by rewrite list_lookup_alter_ne.
Qed.
Lemma write_field raw b i j s : width b -> (i < length raw * (8 / b))%nat -> 0 <= s < 2 ^ Z.of_nat b ->
  field raw b i = 0 ->
  field (alter (fun x => Z.lor x (Z.shiftl s (Z.of_nat (i mod (8 / b) * b)%nat) mod 256)) (i / (8 / b))%nat raw) b j
  = if decide (j = i) then s else field raw b j.
Proof.
  intros Hb Hi Hs H0. pose proof (width_per b Hb) as (H8 & Hb0 & Hp). unfold field in *. cbv zeta in *.
  set (per := (8 / b)%nat) in *. rewrite alter_nth by (apply Nat.Div0.div_lt_upper_bound; lia).
  pose proof (Nat.Div0.div_mod i per) as Hdi. pose proof (Nat.Div0.div_mod j per) as Hdj.
  pose proof (Nat.mod_upper_bound i per) as Hmi. pose proof (Nat.mod_upper_bound j per) as Hmj.
  destruct (decide (i / per = j / per)%nat) as [Hq|Hq].
  2: { rewrite decide_False; [done|]. by intros ->. }
  rewrite <- Hq in *. set (q := (i / per)%nat) in *. set (o := (i mod per)%nat) in *. set (o' := (j mod per)%nat) in *.
  clearbody q o o'. rewrite field_lor; [|done|lia..| |lia|].
  - destruct (decide (j = i)) as [->|Hne].
    + assert (o = o') as -> by lia. by rewrite Z.eqb_refl, H0, Z.lor_0_l.
    + assert (o <> o') by (intros ->; lia). assert ((o * b)%nat <> (o' * b)%nat) by nia.
      replace (_ =? _) with false by (symmetry; apply Z.eqb_neq; lia). by rewrite Z.lor_0_r.
  - assert ((o * b + b <= per * b)%nat) by nia. lia.
  - assert ((o = o') \/ (o' * b + b <= o * b)%nat \/ (o * b + b <= o' * b)%nat) as [->|[?|?]] by nia; lia.
Qed.

(** What the Go issuer packs, entry by entry. *)
Lemma pack_fields b : width b -> forall statuses i raw raw', Forall (fun s => 0 <= s) statuses ->
  (i + length statuses <= length raw * (8 / b))%nat -> (forall j, (i <= j)%nat -> field raw b j = 0) ->
  pack_from i statuses b raw = Some raw' ->
  length raw' = length raw /\ forall j, field raw' b j = if (j <? i)%nat then field raw b j else nth (j - i) statuses 0.
Proof.
  intros Hb statuses. induction statuses as [|s l IH]; intros i raw raw' Hpos Hlen H0; cbn [pack_from].
  - intros [= <-]. split; [done|]. intros j. destruct (Nat.ltb_spec j i) as [|Hj]; [done|]. rewrite H0 by done. by destruct (j - i)%nat.
  - apply Forall_cons in Hpos as [Hs Hl]. cbn [length] in Hlen.
    destruct (Z.ltb_spec (Z.shiftl 1 (Z.of_nat b) - 1) s) as [|Hle]; [done|]. rewrite Z.shiftl_1_l in Hle. cbv zeta.
    pose proof (fun j => write_field raw b i j s Hb ltac:(lia) ltac:(lia) (H0 i (le_n i))) as Hw.
    set (raw1 := alter _ _ raw) in *. assert (H1 : length raw1 = length raw) by apply length_alter. intros E.
    apply IH in E as [E1 E2]; [|done|rewrite H1; lia|].
    + split; [congruence|]. intros j. rewrite E2, Hw. destruct (decide (j = i)) as [->|Hne].
      * rewrite (proj2 (Nat.ltb_lt i (Datatypes.S i))), Nat.ltb_irrefl, Nat.sub_diag by lia. done.
      * destruct (Nat.ltb_spec j (Datatypes.S i)), (Nat.ltb_spec j i); try lia.
        by replace (j - i)%nat with (Datatypes.S (j - Datatypes.S i)) by lia.
    + intros j Hj. rewrite Hw, decide_False by lia. apply H0. lia.
Qed.
Lemma packed_fields statuses b raw : Forall (fun s => 0 <= s) statuses -> packStatusList statuses b = Some raw ->
  width b /\ (length statuses <= length raw * (8 / b))%nat /\ forall j, field raw b j = nth j statuses 0.
Proof.
  unfold packStatusList. intros Hpos. destruct (existsb (Nat.eqb b) _) eqn:Eb; [|done]. cbn [negb]. cbv zeta. intros E.
  assert (Hb : width b).
  { apply existsb_exists in Eb as (x & Hx & ->%Nat.eqb_eq). by apply list_elem_of_In. }
  pose proof (width_per b Hb) as (H8 & Hb0 & Hp). split; [done|].
  assert (Hlen : (length statuses <= (length statuses + 8 / b - 1) / (8 / b) * (8 / b))%nat).
  { set (per := (8 / b)%nat) in *. set (n := length statuses). pose proof (Nat.Div0.div_mod (n + per - 1) per).
    pose proof (Nat.mod_upper_bound (n + per - 1) per). nia. }
  apply (pack_fields b Hb) in E as [E1 E2]; [|done|by rewrite length_replicate|].
  - rewrite length_replicate in E1. rewrite E1. split; [done|]. intros j. rewrite E2. by rewrite Nat.sub_0_r.
  - intros j _. unfold field. cbv zeta. rewrite nth_lookup.
    destruct (replicate _ 0 !! _) as [z|] eqn:Ez; [apply lookup_replicate in Ez as [-> _]|]; cbn; by rewrite Z.div_0_l, Z.mod_0_l by lia.
Qed.

(** C39. The two implementations read different entries of a status list.  The
    Go reader gives back what the Go issuer packed; the Python reader, which
    counts the entries of a byte from the most significant end, gives for
    entry [idx] the status of the entry at the other end of its byte. *)
Theorem packed_status_mirrored statuses b raw idx : Forall (fun s => 0 <= s) statuses ->
  packStatusList statuses b = Some raw -> (idx < length raw * (8 / b))%nat ->
  extractStatus raw idx b = Some (nth idx statuses 0) /\
  status_value raw (Z.of_nat idx) b = Ok (nth (mirror b idx) statuses 0).
Proof.
  intros Hpos (Hb & _ & Hf)%packed_fields Hi; [|done]. split.
  - by rewrite extract_field, Hf.
  - by rewrite status_value_mirror, Hf.
Qed.
