(* ===== verification/GateMission.v ===== *)
(** * Missions at the proxy

    The cache of mission declarations stays sound through every operation of a
    process, so the policy claims a mission session is decided on come from a
    verified declaration; and nothing a host without a public address answers
    has any effect on a call. *)

From S2P Require Import Prelude Sha256 CanonicalJson SpendPolicy SpendLedger Merkle RiskPolicy Passport PassportPop.
From S2P Require Import ResourceScope PyJson Policy Session RiskLedger Approvals MemoryStore PassportState.
From S2P Require Import Receipt ReceiptLog Urls Mission MissionProps SessionStore Gate Aat GateLogic GateInv GateRuns.
From S2P Require Import GateLedger GateHistory GateProps.
Import Passport ResourceScope PyJson Policy SessionStore Gate.
Open Scope string_scope.
Open Scope Z_scope.

Section Missions.
Context {D : Digests} {J : Jwt} {W : Receipt.Jws} {P : Receipt.PyText} {R : PyRepr} {T : Wording}.
Context {U : UnicodeData} {F : Filesystem} {X : Regex} {S : RiskPolicy.JsonSchema} {FT : FloatText}.
Context {TT : TokenText} {I : IpAddress} {Zl : Zlib}.
Variable cf : config.

(** ** The cache through the operations *)

Definition missions_ok (g : gate) : Prop := cache_ok (cf_public_key cf) (g_missions g).
#[local] Notation kept := (keeps missions_ok).

Lemma missions_modify f : (forall g, g_missions (f g) = g_missions g) -> kept (modify f).
Proof. intros Hf g Hg. unfold missions_ok in *. cbn. by rewrite Hf. Qed.
Lemma missions_update id f : kept (update id f).
Proof. by apply missions_modify. Qed.
Lemma missions_world {A} (m : PassportState.M A) : kept (on_world m).
Proof. intros g Hg. unfold on_world. by destruct (m _). Qed.
Lemma missions_risk {A} (m : RiskLedger.store -> RiskLedger.store * res RiskPolicy.risk_exc A) : kept (on_risk m).
Proof. intros g Hg. unfold on_risk. by destruct (m _). Qed.
Lemma missions_spend {A} (m : SpendLedger.ledger_dir -> res spend_exc (SpendLedger.ledger_dir * A)) : kept (on_spend m).
Proof. intros g Hg. unfold on_spend. by destruct (m _) as [[]|]. Qed.
Lemma missions_resolve r n now : kept (on_missions (Mission.resolve r (cf_public_key cf) n now)).
Proof.
  intros g Hg. unfold on_missions. pose proof (resolve_ok r (cf_public_key cf) n now _ Hg) as [Hc _].
  by destruct (Mission.resolve _ _ _ _ _).
Qed.
#[local] Hint Resolve missions_update missions_world missions_risk missions_spend missions_resolve : gate.
#[local] Hint Extern 1 (keeps missions_ok (modify _)) => apply missions_modify; done : gate.

Lemma missions_persist id : kept (persist_session cf id).
Proof. unfold persist_session. keep. Qed.
Lemma missions_locked a : kept (locked_persisted_session cf a).
Proof. unfold locked_persisted_session, load_session_from_disk, install_or_refresh_session, install. keep. Qed.
Lemma missions_build_entry id h d why pc now : kept (build_entry cf id h d why pc now).
Proof. unfold build_entry. keep. Qed.
Lemma missions_log x : kept (log_receipt x).
Proof. unfold log_receipt. keep. Qed.
Lemma missions_log_once x : kept (log_receipt_once x).
Proof. unfold log_receipt_once. keep. Qed.
Lemma missions_refuse id tool args d why denial ts : kept (refuse cf id tool args d why denial ts).
Proof. unfold refuse, record_tool_policy_event. keep. Qed.
Lemma missions_claims c r : kept (resolve_authoritative_policy_claims cf c r).
Proof. unfold resolve_authoritative_policy_claims. keep. Qed.
Lemma missions_approval_rate pc : kept (approval_rate pc).
Proof. unfold approval_rate, approval_tracker. keep. Qed.
Lemma missions_may_approve k o t : kept (may_approve k o t).
Proof. unfold may_approve, on_tracker. keep. Qed.
Lemma missions_note_approval k o t : kept (note_approval k o t).
Proof. unfold note_approval, on_tracker. keep. Qed.
Lemma missions_memory_store id sid args : kept (get_or_create_memory_store id sid args).
Proof. unfold get_or_create_memory_store. keep. Qed.
#[local] Hint Resolve missions_memory_store : gate.
Lemma missions_memory_write id args r : kept (proxy_memory_write cf id args r).
Proof. unfold proxy_memory_write, some_text. keep. Qed.
Lemma missions_memory_read id args r : kept (proxy_memory_read cf id args r).
Proof. unfold proxy_memory_read, some_text. keep. Qed.
#[local] Hint Resolve missions_persist missions_locked missions_build_entry missions_log missions_log_once
  missions_refuse missions_claims missions_approval_rate missions_may_approve missions_note_approval
  missions_memory_write missions_memory_read : gate.
Lemma missions_check id tool args pc r : kept (check_and_apply cf id tool args pc r).
Proof. unfold check_and_apply, check_and_record, apply_memory_post_permit. keep. Qed.
#[local] Hint Resolve missions_check : gate.
Lemma missions_ordinary id tool args pc r : kept (evaluate_ordinary_tool_policy cf id tool args pc r).
Proof. unfold evaluate_ordinary_tool_policy. keep. Qed.
Lemma missions_preflight id tool args pc rid now : kept (risk_preflight cf id tool args pc rid now).
Proof. unfold risk_preflight, pinned_policy, reserve_risk. keep. Qed.
Lemma missions_reserve_spend id tool pc sr t t' : kept (reserve_spend_if_required cf id tool pc sr t t').
Proof. unfold reserve_spend_if_required. keep. Qed.
Lemma missions_release code t t' : kept (release_pre_action_reservations code t t').
Proof. unfold release_pre_action_reservations, release_one, cancel_spend, release_risk. keep. Qed.
#[local] Hint Resolve missions_ordinary missions_preflight missions_reserve_spend missions_release : gate.
Lemma missions_decide id tool args rid sr r : kept (decide_call cf id tool args rid sr r).
Proof. unfold decide_call, decide_governed, decide_reserved, settle_verdict. keep. Qed.
Lemma missions_mark lin id r x : kept (mark_delivered lin id r x).
Proof. unfold mark_delivered. keep. Qed.
#[local] Hint Resolve missions_decide missions_mark : gate.
Lemma missions_issue id v pc rel r : kept (issue_receipt cf id v pc rel r).
Proof. unfold issue_receipt. keep. Qed.
Lemma missions_lifecycle id r ts now : kept (ensure_risk_lifecycle_event cf id r ts now).
Proof. unfold ensure_risk_lifecycle_event. keep. Qed.
#[local] Hint Resolve missions_issue missions_lifecycle : gate.
Lemma missions_deliver id lin l clock : kept (deliver_lifecycles cf id lin l clock).
Proof. unfold deliver_lifecycles, deliver_one. keep. Qed.
Lemma missions_snapshot id : kept (ensure_snapshot id).
Proof. unfold ensure_snapshot. keep. Qed.
#[local] Hint Resolve missions_deliver missions_snapshot : gate.
Lemma missions_flush a clock : kept (flush_risk_lifecycle_outbox cf a clock).
Proof. unfold flush_risk_lifecycle_outbox. keep. Qed.
#[local] Hint Resolve missions_flush : gate.
Lemma missions_evaluate a tool args rid sr r : kept (evaluate_tool_call cf a tool args rid sr r).
Proof. unfold evaluate_tool_call, evaluate_locked. keep. Qed.
Lemma missions_spend_policy id e r : kept (spend_policy_of cf id e r).
Proof. unfold spend_policy_of, assert_spend_lifecycle_open. keep. Qed.
Lemma missions_spend_receipt id c d pc ts now : kept (spend_receipt cf id c d pc ts now).
Proof. unfold spend_receipt. keep. Qed.
Lemma missions_finalize id now r : kept (finalize_session cf id now r).
Proof. unfold finalize_session, assert_risk_resolved, assert_spend_resolved. keep. Qed.
#[local] Hint Resolve missions_evaluate missions_spend_policy missions_spend_receipt missions_finalize : gate.
Lemma missions_material t parent holder kb pop aud allow ar :
  kept (Aat.on_material (Aat.material_from_aat_grant t (cf_public_key cf) parent holder kb pop aud allow ar)).
Proof.
  intros g Hg. unfold Aat.on_material, Aat.material_from_aat_grant.
  destruct (Aat.check_grant _ _ _ _ _ _ _ _ _) as [c|e]; [|done].
  destruct (Mission.parse_mission_ref _) as [reference|e]; [|done].
  pose proof (resolve_ok reference (cf_public_key cf) (Aat.ar_registry ar) (Aat.ar_registry_time ar) _ Hg) as [Hc _].
  by destruct (Mission.resolve _ _ _ _ _).
Qed.
#[local] Hint Resolve missions_material : gate.
Lemma missions_exec o g : missions_ok g -> missions_ok (exec cf o g).1.
Proof.
  assert (Hrun : forall A (m : G A), kept m -> missions_ok g -> missions_ok (m g).1) by auto.
  destruct o; cbn [exec fst].
  3: { intros Hg. pose proof (missions_evaluate a tool_name arguments risk_request_id spend_request r g Hg) as H.
       by destruct (evaluate_tool_call _ _ _ _ _ _ _ _). }
  all: apply Hrun; unfold Aat.start_session_from_aat, SessionStore.start_session, record_tool_result, settle_spend, quarantine_spend,
    quarantine_stale_spend, record_risk_outcome, quarantine_stale_risk_reservations, summarize_session, end_session, deliver_one;
    keep.
Qed.

(** Starting from a grant changes no backend. *)
Lemma start_aat_native t key parent holder kb pop aud allow ar fresh nonce paud r :
  keeps (native_ok cf) (Aat.start_session_from_aat cf t key parent holder kb pop aud allow ar fresh nonce paud r).
Proof.
  unfold Aat.start_session_from_aat. apply keeps_bind; [destruct parent; keep|]. intros pc.
  apply keeps_bind; [intros g Hg; unfold Aat.on_material; by destruct (Aat.material_from_aat_grant _ _ _ _ _ _ _ _ _ _)|].
  intros m. apply keeps_bind; [keep|]. intros i. apply start_native.
Qed.
(** The state after the operations of one process. *)
Definition after (ops : list op) (g : gate) : gate := foldl (fun g o => (exec cf o g).1) g ops.
Lemma missions_after ops g : missions_ok g -> missions_ok (after ops g).
Proof. revert g. induction ops as [|o ops IH]; intros g Hg; [done|]. cbn. apply IH. by apply missions_exec. Qed.

(** ** The claims of a mission *)

(** Members that only the declaration decides. *)
Lemma mission_claims_get c raw m pc k : mission_claims cf c raw m = Ok pc ->
  k ∉ ["risk_budget"; "mission_digest"; "mission_ref"; "mission_id"; "additional_policies"] ->
  dget k pc = dget k (Mission.policy_claims m).
Proof.
  intros H Hk. rewrite !not_elem_of_cons in Hk. destruct Hk as (H1 & H2 & H3 & H4 & H5 & _).
  unfold mission_claims in H. cbv zeta in H. set (pm := Mission.policy_claims m) in *. clearbody pm.
  apply bind_ok in H as (c1 & Hc1 & H). assert (E1 : dget k c1 = dget k pm).
  { clear H. revert Hc1. destruct (py_get "risk_budget" c); try done; try (by intros [= <-]);
      destruct (py_get "risk_budget" pm); try done.
    intros (p & _ & E)%bind_ok. injection E as <-. by apply dget_dset_ne. }
  rewrite <- E1. clear Hc1 E1. revert H.
  destruct (truthy _); [|intros [= <-]; by rewrite !dget_dset_ne].
  destruct (cf_policy_store cf) as [gp|]; [|intros [= <-]; by rewrite !dget_dset_ne].
  destruct (gp _ _); intros [= <-]; by rewrite !dget_dset_ne.
Qed.
Lemma no_spend_member m : dget "spend_budget" (Mission.policy_claims m) = None.
Proof.
  unfold Mission.policy_claims. cbv zeta. rewrite !dget_app.
  assert (Hl : forall k l, k <> "spend_budget" -> dget "spend_budget" (Mission.list_member k l) = None)
    by (intros k [|x l] Hk; [done|]; cbn [dget Mission.list_member]; apply not_eq_sym, String.eqb_neq in Hk; by rewrite Hk).
  assert (Hd : forall k l, k <> "spend_budget" -> dget "spend_budget" (Mission.dict_member k l) = None)
    by (intros k [|x l] Hk; [done|]; cbn [dget Mission.dict_member]; apply not_eq_sym, String.eqb_neq in Hk; by rewrite Hk).
  assert (Hs : forall k o, k <> "spend_budget" -> dget "spend_budget" (Mission.str_member k o) = None)
    by (intros k [x|] Hk; [|done]; cbn [dget Mission.str_member]; apply not_eq_sym, String.eqb_neq in Hk; by rewrite Hk).
  rewrite !Hl, !Hd, !Hs by done. destruct (Mission.mp_parent_jti _), (Mission.mp_risk_budget _), (Mission.md_probing_rate_limit m); done.
Qed.
Lemma resolve_claims_run c r g g' pc : resolve_authoritative_policy_claims cf c r g = (g', Ok pc) ->
  (py_get "mission_ref" c = PNone /\ pc = c) \/
  exists reference m, Mission.parse_mission_ref (py_get "mission_ref" c) = Ok reference /\
    (Mission.resolve reference (cf_public_key cf) (rd_registry r) (rd_registry_time r) (g_missions g)).2 = Ok m /\
    Mission.mission_is_revoked m (cf_public_key cf) (rd_status r) (rd_status_time r) = Ok false /\
    mission_claims cf c (py_get "mission_ref" c) m = Ok pc.
Proof.
  unfold resolve_authoritative_policy_claims. intros H.
  assert (H' : (py_get "mission_ref" c = PNone /\ pc = c) \/
    (reference ← lift mission_error (Mission.parse_mission_ref (py_get "mission_ref" c));
     mission ← on_missions (Mission.resolve reference (cf_public_key cf) (rd_registry r) (rd_registry_time r));
     revoked ← lift mission_error (Mission.mission_is_revoked mission (cf_public_key cf) (rd_status r) (rd_status_time r));
     _ ← demand (negb revoked) (EMission Session.VIOLATION "revoked" Session.REVOKED);
     raises (mission_claims cf c (py_get "mission_ref" c) mission)) g = (g', Ok pc)).
  { destruct (py_get "mission_ref" c); [left; by injection H|right..]; done. }
  destruct H' as [?|H']; [by left|right]. clear H. step H'. apply lift_run_ok in E as [-> Hr]. step H'.
  unfold on_missions in E. destruct (Mission.resolve _ _ _ _ _) as [ca [m|e]] eqn:Er; [|done]. injection E as <- <-.
  step H'. apply lift_run_ok in E as [-> Hv]. step H'. apply demand_ok in E as [-> Hd]. apply raises_ok in H' as [_ Hc].
  apply negb_true_iff in Hd as ->. exists a, m. by rewrite Er.
Qed.

Lemma mission_member c raw m pc k v : mission_claims cf c raw m = Ok pc ->
  str_in k ["risk_budget"; "mission_digest"; "mission_ref"; "mission_id"; "additional_policies"] = false ->
  dget k (Mission.policy_claims m) = Some v -> forall d, get_or k d pc = v.
Proof.
  intros H Hk Hv d. unfold get_or. rewrite (mission_claims_get _ _ _ _ _ H), Hv; [done|].
  intros Hin%str_in_spec. congruence.
Qed.
Lemma py_in_elem x l b : py_in x (PList l) = Ok b -> if b then PStr x ∈ l else PStr x ∉ l.
Proof. destruct (py_in_list x l) as (b' & -> & Hb). intros [= <-]. destruct b'; [by apply Hb|]. by intros Hin%Hb. Qed.
(** What the native policy permits under a mission. *)
Lemma mission_permits c raw m pc tool args st sec : mission_claims cf c raw m = Ok pc ->
  native_permits (cf_env cf) pc tool args st sec ->
  (PStr "*" ∈ Mission.mp_allowed_tools (Mission.md_passport m) \/ PStr tool ∈ Mission.mp_allowed_tools (Mission.md_passport m)) /\
  PStr tool ∉ Mission.mp_forbidden_tools (Mission.md_passport m) /\
  ss_tool_call_count st < Z.max 0 (Mission.mp_max_tool_calls (Mission.md_passport m) - ss_delegated_budget_reserved st).
Proof.
  intros Hc [_ Hf Ha (max & Hm & Hcalls) _ _ _ _].
  rewrite (mission_member _ _ _ _ "forbidden_tools" _ Hc eq_refl eq_refl) in Hf.
  rewrite (mission_member _ _ _ _ "allowed_tools" _ Hc eq_refl eq_refl) in Ha.
  rewrite (mission_member _ _ _ _ "max_tool_calls" _ Hc eq_refl eq_refl) in Hm. injection Hm as <-.
  split; [|split; [by apply py_in_elem in Hf|done]].
  destruct Ha as [Ha|[_ Ha]]; apply py_in_elem in Ha; auto.
Qed.

(** C11. A mission session acts under its mission.  In a process that began with
    an empty cache, a call that is permitted on a session with a mission
    reference was decided on claims made from a declaration that verified under
    the proxy's key, has the digest the reference pins and was looked up in its
    status list and found not revoked for this very call: the tool is one the
    declaration allows and does not forbid, and the session's calls are below
    the declaration's limit. *)
Theorem mission_permit_authoritative g0 ops a tool args rid sr r g' why :
  g_missions g0 = Mission.empty_cache -> files_ok (after ops g0) -> native_ok cf (after ops g0) -> cedar_named cf ->
  evaluate_tool_call cf a tool args rid sr r (after ops g0) = (g', Ok (Session.PERMIT, why)) ->
  exists g1 n fs pl, flush_risk_lifecycle_outbox cf a (rd_lifecycle r) (after ops g0) = (g1, Ok n) /\
    g_files g1 !! arg_id a = Some (fs, pl) /\
    (py_get "mission_ref" (claims_of fs) = PNone \/
     exists reference m, Mission.parse_mission_ref (py_get "mission_ref" (claims_of fs)) = Ok reference /\
       verified (cf_public_key cf) m /\ pinned_digest reference m /\
       Mission.mission_is_revoked m (cf_public_key cf) (rd_status r) (rd_status_time r) = Ok false /\
       (PStr "*" ∈ Mission.mp_allowed_tools (Mission.md_passport m) \/ PStr tool ∈ Mission.mp_allowed_tools (Mission.md_passport m)) /\
       PStr tool ∉ Mission.mp_forbidden_tools (Mission.md_passport m) /\
       calls_of fs < Z.max 0 (Mission.mp_max_tool_calls (Mission.md_passport m) - Session.delegated_budget_reserved (core fs))).
Proof.
  intros H0 Hok Hn Hced H. assert (Hm : missions_ok (after ops g0)).
  { apply missions_after. unfold missions_ok. rewrite H0. apply empty_cache_ok. }
  apply permit_parts in H as (g1 & g2 & fs & s & pc & gm & gp & pf & gs & spend & gc & g3 & Hrun).
  pose proof (run_granted _ _ _ _ _ _ _ _ _ _ _ _ _ _ _ _ _ _ _ _ _ _ Hok Hn Hced Hrun) as Hgr.
  destruct Hrun as ([n Hfl] & Hr & [w Hp] & _). destruct (gr_file Hgr) as [pl Hf]. exists g1, n, fs, pl.
  split; [done|]. split; [done|]. apply (missions_flush a (rd_lifecycle r)) in Hm. rewrite Hfl in Hm. cbn [fst] in Hm.
  assert (Hcl : claims_of s = claims_of fs) by (unfold claims_of; by rewrite (refreshed_core _ _ _ _ _ Hr)).
  pose proof (ps_mission Hp) as Hmis. rewrite Hcl in Hmis.
  apply resolve_claims_run in Hmis as [[? _]|(reference & m & Href & Hres & Hrev & Hc)]; [by left|right].
  assert (Hg2 : cache_ok (cf_public_key cf) (g_missions (set_world w g2)))
    by (cbn; rewrite (rf_missions _ _ _ _ _ Hr); exact Hm).
  pose proof (resolve_ok reference (cf_public_key cf) (rd_registry r) (rd_registry_time r) _ Hg2) as [_ Hv].
  rewrite Hres in Hv. destruct Hv as [Hv Hd]. exists reference, m.
  destruct (gr_policies Hgr) as [Hnp _].
  destruct (mission_permits _ _ _ _ _ _ _ _ Hc Hnp) as (Ha & Hfb & Hcalls). by split_and!.
Qed.

(** C38. A mission session is not metered.  The claims of a mission have no spend
    budget, whatever the passport of the session and the declaration say: a
    permitted call of such a session reserves nothing in the spend ledger, and
    a call that asks for a reservation is not permitted. *)
Theorem mission_session_unmetered a tool args rid sr r g g' why :
  evaluate_tool_call cf a tool args rid sr r g = (g', Ok (Session.PERMIT, why)) ->
  exists g1 n fs pl, flush_risk_lifecycle_outbox cf a (rd_lifecycle r) g = (g1, Ok n) /\
    g_files g1 !! arg_id a = Some (fs, pl) /\
    (py_get "mission_ref" (claims_of fs) <> PNone -> sr = None /\ g_spend g' = g_spend g1).
Proof.
  intros H. apply permit_parts in H as (g1 & g2 & fs & s & pc & gm & gp & pf & gs & spend & gc & g3 & Hrun).
  pose proof (permit_books _ _ _ _ _ _ _ _ _ _ _ _ _ _ _ _ _ _ _ _ _ _ Hrun) as (_ & Bs & Bk). injection Bk as _ Bk _.
  destruct Hrun as ([n Hfl] & Hr & [w Hp] & _). destruct (rf_file _ _ _ _ _ Hr) as [pl Hf]. exists g1, n, fs, pl.
  split; [done|]. split; [done|]. intros Hm.
  assert (Hcl : claims_of s = claims_of fs) by (unfold claims_of; by rewrite (refreshed_core _ _ _ _ _ Hr)).
  pose proof (ps_mission Hp) as Hmis. rewrite Hcl in Hmis.
  apply resolve_claims_run in Hmis as [[? _]|(reference & m & _ & _ & _ & Hc)]; [done|].
  assert (Hno : py_get "spend_budget" pc = PNone).
  { unfold py_get. rewrite (mission_claims_get _ _ _ _ "spend_budget" Hc); [|by apply str_in_false]. by rewrite no_spend_member. }
  assert (Hl : g_live gm !! arg_id a = Some s).
  { rewrite <- (ps_live Hp). f_equal. pose proof (resolve_live cf (claims_of s) r (g_live g2) (set_world w g2) eq_refl) as Hk.
    by rewrite (ps_mission Hp) in Hk. }
  destruct (preflight_run _ _ _ _ _ _ _ _ _ _ _ Hl (ps_risk Hp) (ps_risk_ok Hp)) as [Hsp _].
  pose proof (ps_spend Hp) as Hs. unfold reserve_spend_if_required in Hs. rewrite Hno in Hs.
  destruct sr; [done|]. injection Hs as <- _. split; [done|]. by rewrite Bk, Hsp, Bs.
Qed.

(** ** What hosts answer *)

(** The readings of a call with other networks behind its two fetches. *)
Definition reading_from (n s : Urls.network) (r : readings) : readings :=
  Readings (rd_fresh r) (rd_lifecycle r) n (rd_registry_time r) s (rd_status_time r) (rd_timestamp r) (rd_risk r)
    (rd_quote r) (rd_spend r) (rd_approval r) (rd_elapsed r) (rd_elapsed' r) (rd_record_id r) (rd_write r) (rd_read r)
    (rd_read' r) (rd_cancel r) (rd_release r) (rd_receipt r) (rd_cancel' r) (rd_release' r).
Lemma bind_same {A B} (m m' : G A) (f f' : A -> G B) g : m g = m' g -> (forall a g', f a g' = f' a g') ->
  (m ≫= f) g = (m' ≫= f') g.
Proof. intros Hm Hf. unfold mbind, G_bind. rewrite Hm. by destruct (m' g) as [g' [a|e]]. Qed.
Lemma attempt_same {A} (m m' : G A) g : m g = m' g -> attempt m g = attempt m' g.
Proof. intros Hm. unfold attempt. by rewrite Hm. Qed.

Section Public.
Variables (r : readings) (n s : Urls.network).
Hypothesis Hn : same_public (rd_registry r) n.
Hypothesis Hs : same_public (rd_status r) s.
Lemma claims_from c g : resolve_authoritative_policy_claims cf c (reading_from n s r) g
  = resolve_authoritative_policy_claims cf c r g.
Proof.
  unfold resolve_authoritative_policy_claims. destruct (py_get "mission_ref" c); [done|..];
    (apply bind_same; [done|]; intros reference g1; apply bind_same;
     [unfold on_missions; by rewrite (resolve_same _ _ _ _ _ _ Hn)|]; intros m g2;
     apply bind_same; [by rewrite (revoked_same _ _ _ _ _ Hs)|done]).
Qed.
Lemma decide_from id tool args rid sr g : decide_call cf id tool args rid sr (reading_from n s r) g
  = decide_call cf id tool args rid sr r g.
Proof.
  unfold decide_call. apply bind_same; [done|]. intros fs g1. apply bind_same; [done|]. intros b g2. cbv zeta.
  destruct b as [b|]; [by destruct b|]. destruct (missing_declared_telemetry _ _); [|done].
  destruct (compromised_read tool args fs); [done|]. apply bind_same; [by apply attempt_same, claims_from|].
  intros [pc|e] g3; [done|]. by destruct e.
Qed.
End Public.

(** C12. Only public hosts are heard.  Whatever the hosts behind addresses that
    are private, loopback, link-local, multicast, reserved or unspecified
    would answer, a call is decided the same and leaves the same state, even
    when a name resolves differently at the check and at the connection. *)
Theorem only_public_hosts_heard a tool args rid sr r n s g :
  same_public (rd_registry r) n -> same_public (rd_status r) s ->
  evaluate_tool_call cf a tool args rid sr (reading_from n s r) g = evaluate_tool_call cf a tool args rid sr r g.
Proof.
  intros Hn Hs. unfold evaluate_tool_call. apply bind_same; [done|]. intros u g1. apply bind_same; [done|].
  intros u' g2. apply bind_same; [|done]. apply attempt_same. unfold evaluate_locked. apply bind_same; [done|].
  intros id g3. apply bind_same; [by apply decide_from|]. done.
Qed.
End Missions.
