(* ===== verification/AatProps.v ===== *)
(** * Grants only narrow

    What an accepted grant has passed ([Aat]): the passport made of it is no
    wider than the mission declaration it refers to, nor than the grant it was
    derived from; and that the proxy decides the calls of its session without
    looking at what was narrowed. *)

From S2P Require Import Prelude Sha256 CanonicalJson SpendPolicy RiskPolicy Passport PassportProps ResourceScope PyJson Policy.
From S2P Require Import Session PassportState Receipt Urls Mission MissionProps SessionStore Gate Aat GateMission.
Import Passport PyJson Policy SessionStore Aat.
Open Scope string_scope.
Open Scope Z_scope.

Section Grants.
Context {D : Digests} {J : Jwt} {R : PyRepr} {TT : TokenText} {U : ResourceScope.UnicodeData} {I : IpAddress} {Zl : Zlib}.

Lemma strings_of_ok l s : strings_of l = Ok s -> l = PStr <$> s.
Proof.
  unfold strings_of. destruct (mapM as_str l) as [s'|] eqn:E; [|done]. intros [= ->]. apply mapM_Some in E.
  induction E as [|v x l s Hv _ IH]; [done|]. cbn. f_equal; [|exact IH]. destruct v; try done. by injection Hv as ->.
Qed.
Lemma min_bound l : forall n, foldl Z.min n l <= n /\ Forall (fun x => foldl Z.min n l <= x) l.
Proof.
  induction l as [|x l IH]; intros n; [by split|]. cbn. destruct (IH (Z.min n x)) as [H1 H2].
  split; [lia|]. constructor; [lia|done].
Qed.
Lemma positive_int_ok v n : positive_int v = Ok n -> 0 < n.
Proof. destruct v; try done. cbn. rewrite guard_ok. intros [H%Z.leb_gt [= ->]]. done. Qed.
Lemma budget_member_ok k c l : budget_member k c = Ok l ->
  Forall (fun n => 0 < n) l /\ (forall v, dget k c = Some v -> exists n, v = PInt n /\ l = [n]).
Proof.
  unfold budget_member. destruct (dget k c) as [v|]; [|intros [= <-]; by split].
  intros (n & Hn & [= <-])%bind_ok. split; [repeat constructor; by eapply positive_int_ok|]. intros v' [= <-].
  destruct v; try done. cbn in Hn. rewrite guard_ok in Hn. destruct Hn as [_ [= ->]]. by eexists.
Qed.
(** The budget of a grant is positive and within the one on its surface. *)
Lemma max_tool_calls_ok c dflt n : extract_max_tool_calls c dflt = Ok n ->
  0 < n /\ (forall z, dget "max_tool_calls" c = Some (PInt z) -> n <= z).
Proof.
  unfold extract_max_tool_calls. intros (a & Ha & H)%bind_ok. apply bind_ok in H as (b & Hb & H).
  apply bind_ok in H as (d & _ & H). apply bind_ok in H as (e & He & H).
  apply budget_member_ok in Ha as [Pa Ha]. apply budget_member_ok in He as [Pe _].
  assert (Pb : Forall (fun n => 0 < n) b) by (destruct (py_get "budget" c); try (by injection Hb as <-); by apply budget_member_ok in Hb as [? _]).
  pose proof (Forall_app_2 _ _ _ Pa (Forall_app_2 _ _ _ Pb Pe)) as Pall.
  assert (Hpos : forall l x, 0 < x -> Forall (fun n => 0 < n) l -> 0 < foldl Z.min x l).
  { intros l. induction l as [|y l IH]; intros x Hx; [done|]. intros [Hy Hl]%Forall_cons. cbn. apply IH; [lia|done]. }
  destruct (a ++ b ++ e)%list as [|x l] eqn:El.
  - split; [by eapply positive_int_ok|]. intros z Hz. destruct (Ha _ Hz) as (n' & _ & ->). done.
  - injection H as <-. apply Forall_cons in Pall as [Px Pl]. split; [by apply Hpos|]. intros z Hz.
    destruct (Ha _ Hz) as (n' & [= <-] & ->). injection El as <- _. apply min_bound.
Qed.
Lemma resource_scope_ok c scope s : extract_resource_scope c scope = Ok s ->
  s ⊆ scope \/ resource_scope_is_explicitly_unrestricted scope = true.
Proof.
  unfold extract_resource_scope. destruct (py_get "resource_scope" c); try done; [by intros [= <-]; left|].
  destruct (mapM as_str l); [|done]. cbv zeta. rewrite !guard_ok. intros (_ & H & [= <-]).
  destruct (resource_scope_is_explicitly_unrestricted scope); [by right|left]. cbn in H.
  apply negb_false_iff in H. by apply subset_b_spec.
Qed.
Lemma new_mission_fields ag mi al fo sc n du de dep pj cwd se pc hk hs mid ap sp rb p :
  new_mission ag mi al fo sc n du de dep pj cwd se pc hk hs mid ap sp rb = Ok p ->
  m_allowed_tools p = al /\ m_forbidden_tools p = fo /\ m_resource_scope p = sc /\ m_max_tool_calls p = n /\
  m_max_duration_s p = du /\ m_max_delegation_depth p = dep.
Proof. by intros (cwd' & spend' & _ & _ & ->)%new_mission_ok. Qed.

(** What the passport of a grant is, next to its declaration. *)
Record within_mission (m : AATSessionMaterial) (tools : list string) (md : Mission.MissionDeclaration) : Prop := {
  wm_tools : m_allowed_tools (am_mission m) = sorted_set tools /\
    forall x, x ∈ tools -> PStr x ∈ Mission.mp_allowed_tools (Mission.md_passport md);
  wm_forbidden : forall x, x ∈ m_forbidden_tools (am_mission m) <->
    PStr x ∈ Mission.mp_allowed_tools (Mission.md_passport md) /\ x ∉ tools;
  wm_calls : 0 < m_max_tool_calls (am_mission m) <= Mission.mp_max_tool_calls (Mission.md_passport md);
  wm_scope : Mission.mp_resource_scope (Mission.md_passport md) = [PStr UNRESTRICTED_RESOURCE_SCOPE_PATTERN] \/
    forall x, x ∈ m_resource_scope (am_mission m) -> PStr x ∈ Mission.mp_resource_scope (Mission.md_passport md);
  wm_time : am_ttl_s m <= Z.max 1 (Mission.mp_max_duration_s (Mission.md_passport md))
}.
Lemma material_within c t md now m : material_of c t md now = Ok m ->
  exists tools exp, extract_tools c = Ok tools /\ py_int (py_get "exp" c) = Some exp /\ within_mission m tools md /\
    am_ttl_s m <= Z.max 1 (exp - now) /\
    (forall z, dget "max_tool_calls" c = Some (PInt z) -> m_max_tool_calls (am_mission m) <= z).
Proof.
  unfold material_of. cbv zeta. intros (tools & Ht & H)%bind_ok. apply bind_ok in H as (mt & Hmt%strings_of_ok & H).
  apply bind_ok in H as (ms & Hms%strings_of_ok & H). rewrite guard_ok in H. destruct H as [Hsub%negb_false_iff%subset_b_spec H].
  apply bind_ok in H as (n & Hn & H). rewrite guard_ok in H. destruct H as [Hle%Z.ltb_ge H].
  apply bind_ok in H as (dep & _ & H). apply bind_ok in H as (mdep & _ & H). apply bind_ok in H as (exp & He & H).
  apply bind_ok in H as (sc & Hsc%resource_scope_ok & H). apply bind_ok in H as (p & Hp%new_mission_fields & [= <-]).
  destruct Hp as (P1 & P2 & P3 & P4 & P5 & P6). apply max_tool_calls_ok in Hn as [Hpos Hz].
  assert (Hin : forall x (l : list string), PStr x ∈ (PStr <$> l) <-> x ∈ l).
  { intros x l. rewrite list_elem_of_fmap. split; [by intros (y & [= ->] & Hy)|intros Hx; by exists x]. }
  exists tools, exp. split; [done|]. split; [unfold int_member in He; by destruct (py_int _); [injection He as ->|]|].
  split; [|split; [cbn; lia|cbn; intros z Hd; rewrite P4; by apply Hz]]. split; cbn [am_mission am_ttl_s].
  - split; [done|]. intros x Hx. rewrite Hmt. apply Hin. by apply Hsub.
  - intros x. rewrite P2, elem_of_sorted_set, Hmt, Hin. unfold set_minus. rewrite list_elem_of_filter, Is_true_true.
    rewrite negb_true_iff, str_in_false. tauto.
  - rewrite P4. lia.
  - rewrite P3, Hms. destruct Hsc as [Hsc|Hsc].
    + right. intros x Hx. apply Hin. by apply Hsc.
    + left. unfold resource_scope_is_explicitly_unrestricted in Hsc. by apply bool_decide_eq_true in Hsc as ->.
  - lia.
Qed.

(** The passport names the mission of the grant. *)
Lemma material_names c t md now m : material_of c t md now = Ok m ->
  dget "mission_ref" (am_extra_claims m) = Some (py_get "mission_ref" c) /\
  dget "mission_digest" (am_extra_claims m) = Some (PStr (Mission.md_payload_digest md)).
Proof.
  unfold material_of. cbv zeta. intros (tools & Ht & H)%bind_ok. apply bind_ok in H as (mt & _ & H).
  apply bind_ok in H as (ms & _ & H). rewrite guard_ok in H. destruct H as [_ H].
  apply bind_ok in H as (n & _ & H). rewrite guard_ok in H. destruct H as [_ H].
  apply bind_ok in H as (dep & _ & H). apply bind_ok in H as (mdep & _ & H). apply bind_ok in H as (exp & _ & H).
  apply bind_ok in H as (sc & _ & H). by apply bind_ok in H as (p & _ & [= <-]).
Qed.

(** What a child grant is, next to its parent: [resource_scope] is not
    compared with the parent's. *)
Record within_parent (child parent : claims) (parent_token : token) : Prop := {
  wp_tools : exists tools ptools, extract_tools child = Ok tools /\ extract_tools parent = Ok ptools /\ tools ⊆ ptools;
  wp_calls : exists n pn, extract_max_tool_calls child (10 ^ 9) = Ok n /\ extract_max_tool_calls parent (10 ^ 9) = Ok pn /\ n <= pn;
  wp_depth : exists d pd, int_claim child "del_depth" "delegation_depth" 0 = Ok d /\
    int_claim parent "del_depth" "delegation_depth" 0 = Ok pd /\ d = pd + 1 /\
    exists m pm, int_claim child "del_max_depth" "max_delegation_depth" d = Ok m /\
      int_claim parent "del_max_depth" "max_delegation_depth" pd = Ok pm /\ d <= m <= pm;
  wp_times : exists i pi e pe, int_member "iat" child = Ok i /\ int_member "iat" parent = Ok pi /\ pi <= i /\
    int_member "exp" child = Ok e /\ int_member "exp" parent = Ok pe /\ e <= pe;
  wp_mission : py_equal (py_get "mission_ref" child) (py_get "mission_ref" parent) = true;
  wp_binding : exists h, aat_parent_hash parent_token = Ok h /\ py_get "par_hash" child = PStr h
}.
Lemma narrows_parent child parent t : assert_child_grant_narrows_parent child parent = Ok tt ->
  assert_child_parent_binding child t = Ok tt -> within_parent child parent t.
Proof.
  unfold assert_child_grant_narrows_parent. intros (ct & H1 & H)%bind_ok Hb.
  apply bind_ok in H as (pt & H2 & H). rewrite guard_ok in H. destruct H as [G1 H].
  apply bind_ok in H as (cb & H3 & H). apply bind_ok in H as (pb & H4 & H). rewrite guard_ok in H. destruct H as [G2 H].
  apply bind_ok in H as (cd & H5 & H). apply bind_ok in H as (pd & H6 & H). rewrite guard_ok in H. destruct H as [G3 H].
  apply bind_ok in H as (cm & H7 & H). apply bind_ok in H as (pm & H8 & H). rewrite guard_ok in H. destruct H as [G4 H].
  apply bind_ok in H as (ci & H9 & H). apply bind_ok in H as (pi & H10 & H). rewrite guard_ok in H. destruct H as [G5 H].
  apply bind_ok in H as (ce & H11 & H). apply bind_ok in H as (pe & H12 & H). rewrite !guard_ok in H. destruct H as (G6 & G7 & _).
  apply negb_false_iff in G1, G3, G7. apply subset_b_spec in G1. apply Z.ltb_ge in G2, G5, G6. apply Z.eqb_eq in G3.
  apply orb_false_iff in G4 as [G4 G4']. apply Z.ltb_ge in G4, G4'.
  split; [by exists ct, pt|by exists cb, pb| |by exists ci, pi, ce, pe|done|].
  - exists cd, pd. split_and!; [done..|]. exists cm, pm. by split_and!.
  - unfold assert_child_parent_binding in Hb. apply bind_ok in Hb as (a & Ha & Hb). apply bind_ok in Hb as (e & He & Hb).
    rewrite !guard_ok in Hb. destruct Hb as (_ & Hq & _). apply negb_false_iff, String.eqb_eq in Hq as ->. exists e.
    split; [done|]. destruct (py_get "par_hash" child); try done. cbn in Ha. rewrite guard_ok in Ha. by destruct Ha as [_ [= ->]].
Qed.
Lemma check_grant_ok t key parent holder kb pop aud allow r c : check_grant t key parent holder kb pop aud allow r = Ok c ->
  decode_aat_claims t key aud allow (ar_grant r) = Ok c /\
  (pop = true -> py_get "cnf" c <> PNone -> verify_pop c t holder kb PassportState.POP_MAX_AGE_S (ar_pop r) (ar_pop' r) = Ok true) /\
  (forall pc pt, parent = Some (pc, pt) -> within_parent c pc pt).
Proof.
  unfold check_grant. intros (c' & Hc & H)%bind_ok. apply bind_ok in H as (b & Hp & H). apply bind_ok in H as (u & Hn & [= <-]).
  split; [done|]. split.
  - intros -> Hcnf. assert (Hv : forall o, verify_pop c' t holder kb PassportState.POP_MAX_AGE_S (ar_pop r) (ar_pop' r) = Ok o -> o = true).
    { intros o Ho. unfold verify_pop in Ho. destruct (py_get "cnf" c'); try done. apply bind_ok in Ho as (j & _ & Ho).
      destruct holder; [|done]. rewrite guard_ok in Ho. destruct Ho as [_ Ho]. destruct kb; [|done].
      destruct (jwt_decode _ _ _ _ _) as [kc|]; [|done]. destruct (py_get "iat" kc); try done.
      apply bind_ok in Ho as (n & _ & Ho). apply bind_ok in Ho as (s & _ & Ho). rewrite !guard_ok in Ho.
      by destruct Ho as (_ & _ & _ & [= <-]). }
    destruct (py_get "cnf" c'); [done|..]; destruct holder, kb; try done; by rewrite (Hv b Hp) in Hp.
  - intros pc pt ->. apply bind_ok in Hn as ([] & H1 & H2). destruct u. by apply narrows_parent.
Qed.

(** C18. A grant only narrows.  The passport a session gets from an accepted
    grant allows no tool, no more calls, no longer time and no wider scope than
    the declaration that the grant's own mission reference resolves to, which
    verified under the proxy's key, has the digest and the identifier the
    reference pins, and is not revoked; the passport names that reference and
    that digest.  When the grant was presented with its parent it is bound to the
    parent's very token, has none but the parent's tools, no larger budget of
    calls, exactly one more step of depth within the parent's limit, no longer
    life and the same mission.  A grant bound to a key was presented with a proof
    of possession. *)
Theorem aat_material_narrows t key parent holder kb pop aud allow r cache cache' m : cache_ok key cache ->
  material_from_aat_grant t key parent holder kb pop aud allow r cache = (cache', Ok m) ->
  exists c reference md tools, decode_aat_claims t key aud allow (ar_grant r) = Ok c /\ extract_tools c = Ok tools /\
    Mission.parse_mission_ref (py_get "mission_ref" c) = Ok reference /\
    Mission.resolve reference key (ar_registry r) (ar_registry_time r) cache = (cache', Ok md) /\
    verified key md /\ pinned_digest reference md /\
    (keys_ok cache -> plain_ref reference -> pinned_id reference md) /\
    Mission.mission_is_revoked md key (ar_status r) (ar_status_time r) = Ok false /\
    within_mission m tools md /\
    dget "mission_ref" (am_extra_claims m) = Some (py_get "mission_ref" c) /\
    dget "mission_digest" (am_extra_claims m) = Some (PStr (Mission.md_payload_digest md)) /\
    (forall z, dget "max_tool_calls" c = Some (PInt z) -> m_max_tool_calls (am_mission m) <= z) /\
    (pop = true -> py_get "cnf" c <> PNone ->
       verify_pop c t holder kb PassportState.POP_MAX_AGE_S (ar_pop r) (ar_pop' r) = Ok true) /\
    (forall pc pt, parent = Some (pc, pt) -> within_parent c pc pt).
Proof.
  intros Hc. unfold material_from_aat_grant. destruct (check_grant _ _ _ _ _ _ _ _ _) as [c|e] eqn:Eg; [|done].
  apply check_grant_ok in Eg as (Hd & Hp & Hn). destruct (Mission.parse_mission_ref _) as [ref|e] eqn:Eref; [|done].
  pose proof (resolve_ok ref key (ar_registry r) (ar_registry_time r) cache Hc) as [_ Hv].
  pose proof (resolve_keys ref key (ar_registry r) (ar_registry_time r) cache) as Hk.
  destruct (Mission.resolve _ _ _ _ _) as [c1 [md|e]] eqn:Emd; [|done].
  destruct (Mission.mission_is_revoked _ _ _ _) as [[]|e] eqn:Er; try done.
  unfold of_passport. destruct (material_of c t md (ar_now r)) as [m'|e] eqn:Em; [|done]. intros [= -> <-].
  pose proof (material_names _ _ _ _ _ Em) as [Href Hdig].
  apply material_within in Em as (tools & exp & Ht & _ & Hw & _ & Hz). destruct Hv as [Hv Hpin].
  exists c, ref, md, tools. split_and!; try done. intros Hks Hpl. by destruct (Hk Hpl Hc Hks).
Qed.
End Grants.

(** ** What the session is held to *)

Section Sessions.
Context {D : Digests} {J : Jwt} {W : Receipt.Jws} {P : Receipt.PyText} {R : PyRepr} {T : Wording}.
Context {U : ResourceScope.UnicodeData} {F : ResourceScope.Filesystem} {X : Regex} {S : RiskPolicy.JsonSchema} {FT : FloatText}.
Context {TT : TokenText} {I : IpAddress} {Zl : Zlib}.

(** The members of a passport that a grant narrows. *)
Definition NARROWED : list string := ["allowed_tools"; "forbidden_tools"; "max_tool_calls"; "resource_scope"].
Definition same_outside (c c' : claims) : Prop := forall k, k ∉ NARROWED -> dget k c' = dget k c.
Definition with_claims (c : claims) (s : Session.GovernanceSession) : Session.GovernanceSession :=
  Session.MkSession c (Session.events s) (Session.tool_call_count s) (Session.tool_call_count_by_class s)
    (Session.delegated_budget_reserved s) (Session.start_time s) (Session.end_time s) (Session.run_nonce s).
Lemma outside_get c c' k : same_outside c c' -> str_in k NARROWED = false -> py_get k c' = py_get k c.
Proof. intros H Hk. unfold py_get. by rewrite H by (by apply str_in_false). Qed.
Lemma claims_outside cf c c' r g : same_outside c c' -> py_get "mission_ref" c <> PNone ->
  Gate.resolve_authoritative_policy_claims cf c' r g = Gate.resolve_authoritative_policy_claims cf c r g.
Proof.
  intros Hs Hm. assert (Hc : forall raw m, Gate.mission_claims cf c' raw m = Gate.mission_claims cf c raw m).
  { intros raw m. unfold Gate.mission_claims. cbv zeta. unfold get_or.
    by rewrite (outside_get c c' "risk_budget" Hs eq_refl), (outside_get c c' "mission_id" Hs eq_refl),
      (outside_get c c' "sub" Hs eq_refl), (Hs "sub") by (by apply str_in_false). }
  unfold Gate.resolve_authoritative_policy_claims. rewrite (outside_get c c' "mission_ref" Hs eq_refl).
  destruct (py_get "mission_ref" c); [done|..]; repeat (apply bind_same; [done|]; intros ? ?); by rewrite Hc.
Qed.
Lemma check_outside env cedar s c' tool args pc vid reg now now' ts : same_outside (Session.passport_claims s) c' ->
  match Session.check_and_record env cedar (with_claims c' s) tool args (Some pc) vid reg now now' ts,
        Session.check_and_record env cedar s tool args (Some pc) vid reg now now' ts with
  | Ok (_, _, e'), Ok (_, _, e) => e' = e
  | Raise e', Raise e => e' = e
  | _, _ => False
  end.
Proof.
  intros Hs. unfold Session.check_and_record. rewrite !(eq_refl : default _ (Some pc) = pc).
  assert (Hq : Session.call_request (with_claims c' s) pc tool args now now' = Session.call_request s pc tool args now now').
  { unfold Session.call_request, get_or. cbn [Session.passport_claims with_claims]. by rewrite (Hs "sub") by (by apply str_in_false). }
  rewrite Hq. cbn [Session.passport_claims with_claims]. rewrite (Hs "jti") by (by apply str_in_false).
  destruct (Session.py_length _) as [n|e]; [|done]. cbn [mbind res_bind]. cbv zeta.
  destruct (Session.native_decision _ _ _ _) as [[reg1 native]|e]; [|done]. cbn [mbind res_bind].
  destruct (py_iter _) as [specs|e]; [|done]. cbn [mbind res_bind].
  destruct (Session.evaluate_specs _ _ _ _ _) as [[reg2 others]|e]; [|done]. cbn [mbind res_bind].
  destruct (Session.verdict _) as [[d why] denial]. by destruct (dget "jti" _).
Qed.

(** C37. What a grant narrows is not what its session is held to.  The passport
    made from an accepted grant carries the grant's mission reference; and on a
    session with such a reference, replacing the passport's allowed and
    forbidden tools, its limit of calls and its resource scope by anything at
    all changes neither the claims a call is decided on, which have the
    declaration's own values for the four, nor the event of the policy check,
    its decision included. *)
Theorem grant_limits_not_consulted t key parent holder kb pop aud allow ar cache cache' m :
  material_from_aat_grant t key parent holder kb pop aud allow ar cache = (cache', Ok m) ->
  exists raw, dget "mission_ref" (am_extra_claims m) = Some raw /\
  forall cf s c' r g, dget "mission_ref" (Session.passport_claims s) = Some raw -> same_outside (Session.passport_claims s) c' ->
    Gate.resolve_authoritative_policy_claims cf c' r g
    = Gate.resolve_authoritative_policy_claims cf (Session.passport_claims s) r g /\
    forall g' pc, Gate.resolve_authoritative_policy_claims cf (Session.passport_claims s) r g = (g', Ok pc) ->
    (exists reference md, Mission.parse_mission_ref raw = Ok reference /\
      (Mission.resolve reference (cf_public_key cf) (Gate.rd_registry r) (Gate.rd_registry_time r) (g_missions g)).2 = Ok md /\
      forall k, k ∈ NARROWED -> dget k pc = dget k (Mission.policy_claims md)) /\
    forall tool args vid reg now now' ts,
      match Session.check_and_record (cf_env cf) (cf_cedar cf) (with_claims c' s) tool args (Some pc) vid reg now now' ts,
            Session.check_and_record (cf_env cf) (cf_cedar cf) s tool args (Some pc) vid reg now now' ts with
      | Ok (_, _, e'), Ok (_, _, e) => e' = e
      | Raise e', Raise e => e' = e
      | _, _ => False
      end.
Proof.
  intros H. unfold material_from_aat_grant in H. destruct (check_grant _ _ _ _ _ _ _ _ _) as [c|e]; [|done].
  destruct (Mission.parse_mission_ref _) as [ref|e] eqn:Eref; [|done]. exists (py_get "mission_ref" c).
  destruct (Mission.resolve _ _ _ _ _) as [c1 [md|e]]; [|done].
  destruct (Mission.mission_is_revoked _ _ _ _) as [[]|e]; try done.
  unfold of_passport in H. destruct (material_of c t md (ar_now ar)) as [m'|e] eqn:Em; [|done]. injection H as _ <-.
  apply material_names in Em as [Href _]. split; [done|]. intros cf s c' r g Hm Hs.
  assert (Hraw : py_get "mission_ref" (Session.passport_claims s) = py_get "mission_ref" c) by (unfold py_get at 1; by rewrite Hm).
  assert (Hne : py_get "mission_ref" (Session.passport_claims s) <> PNone) by (rewrite Hraw; intros E; by rewrite E in Eref).
  split; [by apply claims_outside|]. intros g' pc Hpc. split; [|intros; by apply check_outside].
  apply resolve_claims_run in Hpc as [[? _]|(ref' & md' & E1 & E2 & _ & Hc)]; [done|]. rewrite Hraw in E1.
  exists ref', md'. split_and!; [done..|]. intros k Hk. eapply mission_claims_get; [done|].
  intros Hin. unfold NARROWED in Hk. set_solver.
Qed.
End Sessions.
