(* ===== verification/MissionDemo.v ===== *)
(** * Missions and grants at work

    A mission declaration is fetched, cached and consulted for the calls of a
    session that a grant has started.  The runs show that the hypotheses of the
    properties of missions can hold, and two things the code does not do: a
    cached declaration is not asked for its expiry again, and what a grant
    narrows is not what its session is held to. *)

From S2P Require Import Prelude Sha256 CanonicalJson SpendPolicy SpendLedger Merkle RiskPolicy Passport PassportPop.
From S2P Require Import ResourceScope PyJson Policy Session RiskLedger Approvals MemoryStore PassportState.
From S2P Require Import PassportStateProps PassportAdmission Receipt ReceiptProps ReceiptLog Urls Mission MissionProps.
From S2P Require Import SessionStore Gate GateLogic GateInv GateRuns GateLedger GateHistory GateProps GateDemo.
From S2P Require Import GateMission Aat AatProps.
Import Passport ResourceScope PyJson Policy SessionStore Gate.
Open Scope string_scope.
Open Scope Z_scope.

Module MissionDemo.
#[export] Existing Instances ReceiptProps.Demo.light_digests ReceiptProps.Demo.tok_jwt ReceiptProps.Demo.tok_jws
  ReceiptProps.Demo.plain_text ResourceScope.Demo.demo_unicode ResourceScope.Demo.demo_files GateDemo.demo_repr
  GateDemo.demo_regex GateDemo.demo_schema GateDemo.demo_wording GateDemo.demo_float GateDemo.demo_ip GateDemo.demo_zlib.

(** ** A registry *)

Definition md_claims : claims :=
  [("iss", PStr "registry"); ("sub", PStr "team"); ("aud", PStr DEFAULT_AUDIENCE); ("iat", PInt 1000); ("exp", PInt 5000);
   ("jti", PStr "md-1"); ("mission_id", PStr "mission-1"); ("mission", PStr "triage");
   ("allowed_tools", PList [PStr "read_file"; PStr "write_file"]); ("resource_scope", PList [PStr "**"]);
   ("max_tool_calls", PInt 10); ("receipt_policy", PDict [("level", PStr "minimal")]);
   ("conformance_profile", PStr "Delegation-Core");
   ("tool_manifest_digest", PStr "sha-256:0123456789abcdef0123456789abcdef0123456789abcdef0123456789abcdef");
   ("revocation_ref", PStr "https://registry.example/status.jwt#idx=0"); ("governed_memory_stores", PList [])].
Definition status_claims : claims :=
  [("iat", PInt 1000); ("exp", PInt 9000); ("status_list", PDict [("bits", PInt 1); ("lst", PStr "AA")])].
Definition md_token : token := ReceiptProps.Demo.Tok [] md_claims "md".
Definition status_token : token := ReceiptProps.Demo.Tok [] status_claims "status".
#[export, refine] Instance demo_tokens : TokenText := {|
  read_token s := List.find (fun t => String.eqb (ReceiptProps.Demo.tok_text t) s) [md_token; status_token]
|}.
Proof. intros s t Ht. apply List.find_some in Ht as [_ Ht]. by apply String.eqb_eq. Defined.
(** The registry's name has a private address too, whose answers would be
    [spoof]. *)
Definition network_with (spoof : Urls.response) : Urls.network :=
  Urls.Network (fun h => if String.eqb h "registry.example" then Urls.Resolved ["93.184.216.34"] else Urls.NoName)
    (fun h _ => if String.eqb h "registry.example" then Urls.Resolved ["10.0.0.1"; "93.184.216.34"] else Urls.NoName)
    (fun ip _ _ path =>
       if String.eqb ip "93.184.216.34" then
         if String.eqb path "/md.jwt" then Urls.Response 200 (token_text md_token)
         else if String.eqb path "/status.jwt" then Urls.Response 200 (token_text status_token)
         else Urls.Response 404 ""
       else spoof).
Definition registry : Urls.network := network_with Urls.ConnectionFailed.
Definition key : public_key := tt.
Definition reference : Mission.MissionReference := Mission.Ref "https://registry.example/md.jwt" None None.

Definition resolved : Mission.MissionCache * res mission_exc Mission.MissionDeclaration :=
  Mission.resolve reference key registry (1010 * TICKS) Mission.empty_cache.
Lemma resolved_ok : (match resolved.2 with Ok _ => true | Raise _ => false end) = true.
Proof. vm_compute. reflexivity. Qed.

(** ** A grant *)

Definition sid : string := "00000000-0000-4000-8000-000000000002".
(** One call of one tool. *)
Definition aat_claims : claims :=
  [("iss", PStr "issuer"); ("sub", PStr "bob"); ("aud", PStr "ardur-proxy"); ("iat", PInt 1000); ("exp", PInt 4000);
   ("jti", PStr sid); ("aat_type", PStr "delegation"); ("mission_ref", PStr "https://registry.example/md.jwt");
   ("authorization_details", PList [PDict [("type", PStr "attenuating_agent_token");
      ("tools", PDict [("read_file", PDict [])]); ("max_tool_calls", PInt 1)]])].
Definition grant : token := ReceiptProps.Demo.Tok [] aat_claims "grant".
Definition ar : Aat.aat_readings :=
  let s := 1010 in let t := s * TICKS in Aat.AatReadings t t t s registry t registry t s s sid.
Definition material : res Aat.aat_exc Aat.AATSessionMaterial :=
  (Aat.material_from_aat_grant grant key None None None true "ardur-proxy" true ar Mission.empty_cache).2.
Definition cf : config := GateDemo.cf.
Definition started : op :=
  DoStartAat grant None None None None true "ardur-proxy" true ar "f" "0123456789abcdef" DEFAULT_AUDIENCE GateDemo.start_time.
Definition at_time (s : Z) : readings :=
  let t := s * TICKS in
  Readings "f" (fun _ => ("2026-01-01T00:00:00Z", s)) registry t registry t "2026-01-01T00:00:00Z" t s s t t t "rec"
    s t t s t s s t.
Definition file_args : claims := [("path", PStr "/w/notes.txt")].
Definition call (tool : string) (s : Z) : op := DoEvaluate (ById sid) tool file_args None None (at_time s).
Fixpoint answers (l : list op) (g : gate) : list Session.Decision :=
  match l with
  | [] => []
  | o :: l => let '(g, x) := exec cf o g in (match x with Some x => [an_decision x] | None => [] end ++ answers l g)%list
  end.

(** From a grant of one call of [read_file], under a mission that also allows
    [write_file], a passport is made that allows [read_file] alone, forbids
    [write_file] and permits one call; two calls of [write_file] are permitted
    on its session. *)
Definition narrow (m : Aat.AATSessionMaterial) : bool :=
  bool_decide (m_allowed_tools (Aat.am_mission m) = ["read_file"]) &&
  bool_decide (m_forbidden_tools (Aat.am_mission m) = ["write_file"]) && (m_max_tool_calls (Aat.am_mission m) =? 1) &&
  py_eq_str (py_get "mission_ref" (Aat.am_extra_claims m)) "https://registry.example/md.jwt".
Lemma material_narrow : (match material with Ok m => narrow m | Raise _ => false end) = true.
Proof. vm_compute. reflexivity. Qed.
Lemma writes_permitted :
  answers [started; call "write_file" 1011; call "write_file" 1012] GateDemo.gate0 = [Session.PERMIT; Session.PERMIT].
Proof. vm_compute. reflexivity. Qed.

(** ** Witnesses *)

Definition is_ok {E A} (m : res E A) : bool := match m with Ok _ => true | Raise _ => false end.
Lemma is_ok_of {E A} (m : res E A) a : m = Ok a -> is_ok m = true.
Proof. by intros ->. Qed.
Lemma is_ok_run {C E A} (m : C * res E A) : is_ok m.2 = true -> exists a, m = (m.1, Ok a).
Proof. destruct m as [c [a|e]]; [by exists a|done]. Qed.
Lemma reference_plain : plain_ref reference.
Proof. split; [reflexivity|by intros i [=]]. Qed.
Lemma resolved_mission_verified_witness : exists m, verified key m /\ pinned_digest reference m /\ pinned_id reference m.
Proof.
  destruct (is_ok_run resolved resolved_ok) as [m E]. exists m.
  destruct (resolved_mission_verified key Mission.empty_cache reference registry (1010 * TICKS) resolved.1 m
    (resolving_start key) reference_plain E) as (H1 & H2 & H3 & _). by split_and!.
Defined.

(** The declaration expires at second 5000; a second later it is served from
    the cache, though it would no longer be loaded. *)
Definition later_time : Z := 5001 * TICKS.
Lemma found_id {C} (x : C * res mission_exc Mission.MissionDeclaration) m : x = (x.1, Ok m) ->
  match x.2 with Ok m => non_empty (Mission.md_mission_id m) | Raise _ => false end = true -> Mission.md_mission_id m <> "".
Proof. destruct x as [c [m'|e]]; [|done]. intros [= ->] H E. cbn [snd] in H. by rewrite E in H. Qed.
Lemma cached_mission_not_rechecked_witness :
  is_ok (Mission.resolve reference key GateDemo.no_network later_time resolved.1).2 = true /\
  is_ok (Mission.load_mission_declaration (token_text md_token) key later_time) = false.
Proof.
  split; [|vm_compute; reflexivity].
  assert (Hid : (match resolved.2 with Ok m => non_empty (Mission.md_mission_id m) | Raise _ => false end) = true) by (vm_compute; reflexivity).
  destruct (is_ok_run resolved resolved_ok) as [m E]. pose proof (found_id _ _ E Hid) as Hne.
  exact (is_ok_of _ _ (cached_mission_not_rechecked key Mission.empty_cache reference registry (1010 * TICKS) resolved.1 m
    (empty_cache_ok key) E Hne GateDemo.no_network later_time)).
Defined.

(** The first of four entries of two bits is revoked: the Go reader sees it,
    the Python reader sees the last. *)
Lemma packed_status_mirrored_witness : Mission.extractStatus [1] 0 2 = Some 1 /\ Mission.status_value [1] 0 2 = Ok 0.
Proof.
  exact (packed_status_mirrored [1; 0; 0; 0] 2 [1] 0 ltac:(by repeat constructor) eq_refl ltac:(cbn; lia)).
Defined.

Lemma spoofed : same_public registry (network_with (Urls.Response 200 "spoofed")).
Proof.
  split; [done|done|]. intros ip h p path Hp. cbn. destruct (String.eqb ip "93.184.216.34") eqn:E; [done|].
  unfold Urls.public_ip in Hp. cbn in Hp. rewrite E in Hp. by destruct (String.eqb ip "10.0.0.1").
Qed.
Definition ops : list op := [started; call "write_file" 1011].
Lemma only_public_hosts_heard_witness :
  evaluate_tool_call cf (ById sid) "write_file" file_args None None
    (reading_from (network_with (Urls.Response 200 "spoofed")) (network_with (Urls.Response 200 "spoofed")) (at_time 1012))
    (after cf ops GateDemo.gate0)
  = evaluate_tool_call cf (ById sid) "write_file" file_args None None (at_time 1012) (after cf ops GateDemo.gate0).
Proof.
  exact (only_public_hosts_heard cf (ById sid) "write_file" file_args None None (at_time 1012) _ _
    (after cf ops GateDemo.gate0) spoofed spoofed).
Defined.

#[local] Notation second := (evaluate_tool_call cf (ById sid) "write_file" file_args None None (at_time 1012)
  (after cf ops GateDemo.gate0)).
Lemma second_permitted : GateDemo.permitted second = true.
Proof. vm_cast_no_check (eq_refl true). Qed.
Lemma ops_files g : files_ok g -> files_ok (after cf ops g).
Proof. intros Hok. apply (exec_files cf _ _ (fi_ok _ _ (exec_files cf started g Hok))). Qed.
Lemma ops_native g : native_ok cf g -> native_ok cf (after cf ops g).
Proof.
  intros Hn. pose proof (start_aat_native cf grant None None None None true "ardur-proxy" true ar "f" "0123456789abcdef"
    DEFAULT_AUDIENCE GateDemo.start_time g Hn) as H1.
  pose proof (evaluate_native cf (ById sid) "write_file" file_args None None (at_time 1011) GateDemo.cf_cedar_named _ H1) as H2.
  unfold after, ops. cbn [foldl]. unfold exec at 1, call. by destruct (evaluate_tool_call _ _ _ _ _ _ _ _).
Qed.
(** The session's file when the second call enters. *)
#[local] Notation entered := (flush_risk_lifecycle_outbox cf (ById sid) (rd_lifecycle (at_time 1012)) (after cf ops GateDemo.gate0)).
Definition has_mission (g : gate) : bool :=
  match g_files g !! sid with Some (fs, _) => py_eq_str (py_get "mission_ref" (claims_of fs)) "https://registry.example/md.jwt" | None => false end.
Lemma entered_mission : has_mission entered.1 = true.
Proof. vm_cast_no_check (eq_refl true). Qed.
Lemma mission_file g fs pl : has_mission g = true -> g_files g !! sid = Some (fs, pl) -> py_get "mission_ref" (claims_of fs) <> PNone.
Proof. unfold has_mission. intros H Hf E. by rewrite Hf, E in H. Qed.
Lemma mission_permit_authoritative_witness : exists m, verified key m /\
  (PStr "*" ∈ Mission.mp_allowed_tools (Mission.md_passport m) \/ PStr "write_file" ∈ Mission.mp_allowed_tools (Mission.md_passport m)).
Proof.
  destruct (GateDemo.permitted_run _ second_permitted) as [why E].
  pose proof (mission_permit_authoritative cf GateDemo.gate0 ops (ById sid) "write_file" file_args None None (at_time 1012)
    second.1 why eq_refl (ops_files _ GateDemo.gate0_ok) (ops_native _ GateDemo.gate0_native) GateDemo.cf_cedar_named E) as H.
  clear E. destruct H as (g1 & n & fs & pl & Hfl & Hf & H). pose proof entered_mission as Hh. rewrite Hfl in Hh. clear Hfl.
  destruct H as [Hm|(ref & m & _ & Hv & _ & _ & Ha & _)]; [|by exists m]. by apply (mission_file g1 fs pl) in Hh.
Defined.
Lemma mission_session_unmetered_witness : g_spend second.1 = g_spend entered.1.
Proof.
  destruct (GateDemo.permitted_run _ second_permitted) as [why E].
  pose proof (mission_session_unmetered cf (ById sid) "write_file" file_args None None (at_time 1012)
    (after cf ops GateDemo.gate0) second.1 why E) as H. clear E. destruct H as (g1 & n & fs & pl & Hfl & Hf & Hs).
  pose proof entered_mission as Hh. rewrite Hfl in Hh |- *. clear Hfl. apply Hs. by apply (mission_file g1 fs pl).
Defined.
#[local] Notation granting := (Aat.material_from_aat_grant grant key None None None true "ardur-proxy" true ar Mission.empty_cache).
Lemma granting_ok : is_ok granting.2 = true.
Proof. vm_compute. reflexivity. Qed.

(** A grant derived from another, of both tools. *)
Definition parent_claims : claims :=
  [("iss", PStr "issuer"); ("sub", PStr "alice"); ("aud", PStr "ardur-proxy"); ("iat", PInt 1000); ("exp", PInt 4500);
   ("jti", PStr "parent"); ("aat_type", PStr "delegation"); ("mission_ref", PStr "https://registry.example/md.jwt");
   ("del_depth", PInt 0); ("del_max_depth", PInt 2);
   ("authorization_details", PList [PDict [("type", PStr "attenuating_agent_token");
      ("tools", PDict [("read_file", PDict []); ("write_file", PDict [])]); ("max_tool_calls", PInt 5)]])].
Definition parent_grant : token := ReceiptProps.Demo.Tok [] parent_claims "parent".
Definition child_grant : token := ReceiptProps.Demo.Tok []
  (aat_claims ++ [("del_depth", PInt 1); ("del_max_depth", PInt 1);
     ("par_hash", PStr (match Aat.aat_parent_hash parent_grant with Ok h => h | Raise _ => "" end))])%list "child".
#[local] Notation deriving := (Aat.material_from_aat_grant child_grant key (Some (parent_claims, parent_grant)) None None true
  "ardur-proxy" true ar Mission.empty_cache).
Lemma deriving_ok : is_ok deriving.2 = true.
Proof. vm_compute. reflexivity. Qed.
Lemma aat_material_narrows_witness : exists c m tools md, within_mission m tools md /\ verified key md /\
  within_parent c parent_claims parent_grant.
Proof.
  destruct (is_ok_run deriving deriving_ok) as [m E].
  pose proof (aat_material_narrows child_grant key (Some (parent_claims, parent_grant)) None None true "ardur-proxy" true ar
    Mission.empty_cache deriving.1 m (empty_cache_ok key) E) as H. clear E.
  destruct H as (c & ref & md & tools & _ & _ & _ & _ & Hv & _ & _ & _ & Hw & _ & _ & _ & _ & Hp).
  exists c, m, tools, md. exact (conj Hw (conj Hv (Hp _ _ eq_refl))).
Defined.

(** The session of the grant, and one that its passport would not limit. *)
Definition started_claims : claims :=
  match g_files (exec cf started GateDemo.gate0).1 !! sid with Some (fs, _) => claims_of fs | None => [] end.
Definition session : Session.GovernanceSession := Session.MkSession started_claims [] 0 [] 0 0 None "nonce".
Definition unlimited : claims := dset "allowed_tools" (PList [PStr "*"]) started_claims.
Lemma unlimited_outside : same_outside started_claims unlimited.
Proof.
  unfold unlimited. generalize started_claims. intros c k Hk. apply dget_dset_ne. intros ->. apply Hk. by left.
Qed.
Lemma started_mission : dget "mission_ref" started_claims = Some (PStr "https://registry.example/md.jwt").
Proof. vm_compute. reflexivity. Qed.
Lemma material_mission m raw : material = Ok m -> dget "mission_ref" (Aat.am_extra_claims m) = Some raw ->
  raw = PStr "https://registry.example/md.jwt".
Proof.
  intros E Hr. pose proof material_narrow as H. rewrite E in H. clear E. unfold narrow in H. apply andb_prop in H as [_ H].
  unfold py_get in H. rewrite Hr in H. cbn [default from_option id] in H. destruct raw; try done. by apply String.eqb_eq in H as ->.
Qed.
Lemma grant_limits_not_consulted_witness :
  answers [started; call "write_file" 1011; call "write_file" 1012] GateDemo.gate0 = [Session.PERMIT; Session.PERMIT] /\
  resolve_authoritative_policy_claims cf unlimited (at_time 1011) GateDemo.gate0
  = resolve_authoritative_policy_claims cf started_claims (at_time 1011) GateDemo.gate0.
Proof.
  split; [exact writes_permitted|]. destruct (is_ok_run granting granting_ok) as [m E].
  destruct (grant_limits_not_consulted grant key None None None true "ardur-proxy" true ar Mission.empty_cache granting.1 m E)
    as (raw & Hr & H). assert (Em : material = Ok m) by (unfold material; rewrite E; reflexivity). clear E.
  apply (material_mission m raw Em) in Hr. subst raw.
  exact (proj1 (H cf session unlimited (at_time 1011) GateDemo.gate0 started_mission unlimited_outside)).
Defined.
End MissionDemo.
